(* ===== verification/_CoqProject ===== *)
-Q . S2P
Prelude.v
Float64.v
Json.v
Models.v
StateManager.v
Config.v
Text.v
JsonText.v
TestKit.v
Logging.v
Upstream.v
Command.v
ConfigLoad.v
CallQueue.v
Forwarder.v
Session.v
SessionShared.v
SessionRelay.v
SessionMirror.v
SessionCalls.v
SessionTimeouts.v
SessionSpeech.v
SessionRecord.v
SessionStates.v
ChargePoint.v
SnapshotStore.v
Publisher.v
PublisherQueue.v
PublisherCommands.v
PublisherTypes.v
PublisherRestart.v
Downstream.v
System.v
SystemRuns.v
SystemTheorems.v
SystemRecord.v
SystemShutdown.v
Shutdown.v
Main.v
TestsModels.v
TestsCommand.v
TestsConfig.v
TestsForwarder.v
TestsStore.v
TestsMqtt.v
TestsNetwork.v
TestsMain.v
Conformance.v
PropertyTests.v
