(* ===== verification/Prelude.v ===== *)
(** * OCPP proxy: a verification library

    The program is a proxy between one or more EV chargers and their Central System
    (OCPP 1.6J over WebSocket) which reports to Home Assistant over MQTT and takes
    charging commands from it. This library models it in Rocq, definition by definition,
    and proves what its parts promise. Names follow the source where Rocq allows it.

    ** The program and the files that model it

    - src/error.rs, src/models.rs: Models.v. Errors, [OcppFrame] and [parse], connection
      states, [ExponentialBackoff] on binary64 seconds.
    - src/state.rs, src/health.rs: StateManager.v. [ConnectionStateManager]
      ([transition], counters, [health_status]) and the answer of the health endpoint.
    - src/config.rs: Config.v. The records with their defaults, [validate], [load]; and
      ConfigLoad.v, what the derived readers make of the settings.
    - src/logging.rs: Logging.v. The filter, and the records the helpers log.
    - src/command.rs: Command.v (topics, payloads, [resolve_limit], [prepare_call],
      [interpret_response], results) and CallQueue.v ([LocalCallQueue], [CommandRouter]).
    - src/forwarder.rs: Forwarder.v. [CallTracker], [MessageForwarder] with its two
      buffers, and the events for the publisher.
    - src/session.rs: Session.v. [run_session] and [forward_loop] as one state machine;
      theorems in SessionRelay.v (what goes upstream), SessionCalls.v and SessionTimeouts.v
      (commands, and how long they wait), SessionStates.v (its life), SessionSpeech.v (what
      the charger is told), SessionRecord.v (what the publisher is told) and SessionMirror.v
      (that the publisher's channel does not matter).
    - src/mqtt.rs: ChargePoint.v ([ChargePointState] and its folds) and Publisher.v
      ([MqttPublisher]); theorems on the latter in PublisherQueue.v,
      PublisherCommands.v, PublisherRestart.v and PublisherTypes.v.
    - src/snapshot_store.rs: SnapshotStore.v, over a model of a file system.
    - src/upstream.rs: Upstream.v. [build_upstream_url], [connect_upstream] and
      [connect_bound], over a network with a clock.
    - src/downstream.rs and the drain loop of src/main.rs: Downstream.v.
    - the whole proxy, as src/main.rs wires it: System.v ([System], [sys_step]); its
      projection onto the parts and its invariant in SystemRuns.v (with SessionShared.v for
      what a session does to the shared manager); theorems in SystemTheorems.v,
      SystemRecord.v and SystemShutdown.v.
    - src/main.rs and src/shutdown.rs: Main.v, the start-up checks and listeners, the
      objects built, the publisher's thread; Shutdown.v, the coordinator and its token, the
      task that waits for a signal, and [main] from the end of start-up to its return.
    - the unit tests of all these files: TestsModels.v, TestsCommand.v, TestsConfig.v,
      TestsForwarder.v, TestsStore.v, TestsMqtt.v, TestsNetwork.v and TestsMain.v, run
      together in Conformance.v, over TestKit.v (assertions) and JsonText.v (JSON text and
      calendar dates).
    - tests/property_*.rs: PropertyTests.v, nine of the property tests' files, for all inputs.
    - Rust's own: Float64.v ([f64]), Text.v ([str]), Json.v ([serde_json::Value]), and this
      file (results, machine integers, clocks, channels, deques, tactics and hints).

    ** How the parts interact

    A charger's connection is a handler task (Downstream.v): it registers with the
    registry and the router, runs a session, deregisters. A session (Session.v) owns a
    [MessageForwarder] and a [LocalCallQueue]; it reads the charger, the Central System
    and its inbox, and tells the publisher what it saw by [MqttEvent]s. The publisher
    (Publisher.v) turns events into MQTT messages and snapshots, saves the snapshots, and
    hands commands from the broker to the inbox the router names. The state manager is
    shared by all of them and read by the health endpoint.

    Sequential code is a function on the component's record. What the code awaits in a
    [select!] or takes under a lock is a step: [step] of Session.v, [pub_step] of
    Publisher.v, [ds_step] of Downstream.v; a run is a list of timed steps, so a theorem
    on all runs covers every interleaving. What other tasks do to shared state between
    two steps is an event of its own ([EvOthers], [PubShared], [DsManager]). A panic is
    [None]; that runs do not panic is proved ([session_never_stuck],
    [mqtt_state_tracks_broker]), not assumed.

    System.v puts the parts together. Its state holds one manager and one router, the
    sessions by handler, what waits in each inbox, and the channel of events; a step is a
    step of one part on the shared state as it is, and what it sends arrives: a command
    the publisher dispatches joins the inbox ([arrivals], [deliver]), an event a session or
    a handler reports joins the publisher's channel while there is room
    ([accept_events]). The environment events of the parts are gone: [system_refines_parts]
    shows that each part of a run of the whole is a run of that part's own model, its
    environment events being the steps of the others, so the theorems on the parts hold
    in the whole. Sessions there record what they report, and the channel takes what fits:
    that a session runs the same on any channel ([publisher_never_matters]) is what makes
    this the program's behaviour. A step is one arm of a [select!], or one lock of a
    handler, taken whole: interleavings inside an arm, which can touch the shared state
    more than once, are not told apart. The system starts when the publisher has left
    [try_connect] ([main_wires_system] shows that what is built there meets its
    hypotheses); a shutdown that comes before ends the thread without [run], which
    [mqtt_thread] models and [abandoned_start_stays_connecting] is about.

    Shutdown.v runs the system beside the two tasks that end it: a [Process] is a system,
    the point [main] is at, and the signal task. [SysDrain] and the cancellation of the
    token happen there only when these two do them; when [main] has returned nothing
    happens any more.

    Integers are [Z] with the code's wrap-around written out ([wrap_u64], [wrap_i64]);
    durations and times are nanoseconds; a handler reads the clocks from a [Clock];
    doubles are binary64 throughout, rounding included. Strings are their UTF-8 bytes.

    ** What is outside, and how it comes in

    Code the source only calls is a parameter, with documented behaviour as laws:
    [SerdeJson] (text to tree and back; [SerdeJsonLaws]), [Chrono] (dates), [MpscSender]
    and [AsyncSender] (channels), [MessageSink] and [UpstreamLink] (sockets), [WsSink]
    (the charger's socket; [WsSinkLaws]), [MqttClient] (rumqttc; [MqttClientLaws]),
    [HashOrder] (the order of a hash map), [UrlLib] (parsed URLs; [UrlLaws]), [Network]
    (requests, resolver, sockets, handshakes and the time they take; [NetworkLaws]),
    [Listeners] (listening sockets), [TokenLib] (the cancellation token; [TokenLaws]),
    [EnvFilterLib] (log filters; [EnvFilterLaws]), [SettingsLib] (how the config crate
    reads one setting; [SettingsLaws]), and the URL parser and the rest of the config
    crate in Config.v. Each has an instance the witnesses run on ([reference_codec],
    [plain_chrono], [recording_sender], [ListLink], [Channel], [SampleUrl], [SampleNet],
    ...). Derived JSON readers reject or accept by field as serde does, on trees without
    repeated keys.

    ** Not modelled

    - The log calls of the files other than src/logging.rs: no state of the program depends
      on them. How a record becomes a line of JSON is the log library's.
    - TLS, the WebSocket and HTTP protocols, the axum and tokio runtimes: libraries.
    - Sessions running while the publisher is still in its start-up connect: the runs of the
      whole proxy and of its end ([process_new]) begin after it, so a process that is told
      to stop within those ten seconds is outside the theorems on them.
    - How the operating system's signals reach the process: a signal is an event that can
      come at any time. What the abort of the server tasks and the end of the runtime do at
      the end of [main]: after them there is no process.
    - Seven of the 247 unit tests: five of src/mqtt.rs whose subject is the code of
      libraries, the construction of the router, and the content type of the health
      response. Of the property tests, those whose subject is a library's work (log lines,
      dates, environment variables, spaces in JSON) or has a theorem of its own
      ([url_mirrors_id], [backoff_schedule]). The integration tests, which run the proxy on
      real sockets.

    ** What the theorems show

    - The whole proxy: it is its parts ([system_refines_parts]); every command the router
      hands to a connection is answered once or still owed an answer
      ([commands_accounted]); a command from the broker joins one inbox or is answered
      ([command_delivered]); a charger has one live session ([one_session_runs]); the
      channels keep to their capacities ([channels_bounded]); the manager tells the truth
      ([shared_state_tells]); the sessions end on shutdown ([shutdown_completes]). Of the
      server alone: [one_live_session], [nothing_left_behind], [drain_ends].
    - Start-up: when exactly the proxy serves and when it exits ([startup_fails_fast]), and that
      what is built meets the assumptions of the above ([main_wires_system]); what the
      settings make of the configuration ([loaded_settings_sound],
      [missing_settings_named], [absent_setting_default]).
    - The end: a signal brings [main] to its end whatever the rest does ([main_ends]), in a
      bounded number of its own turns ([main_turns_bounded]), and nothing else does
      ([end_only_by_signal]); every holder of the token sees the same ([shutdown_shared]).
    - Logging: RUST_LOG overrides the configuration ([rust_log_first]), and the latency
      warning's threshold ([latency_warning_threshold]).
    - The definitions pass the repository's property tests for every input
      ([property_tests_hold]), and, as a regression check on fixed inputs, its unit tests
      ([unit_tests_pass]).
    - Relaying: what a session sends upstream, over all its new connections, is what it heard
      while forwarding, less its own answers and what it loses ([relay_exact]); what the Central System sends arrives ([central_text_relayed]); the
      charger hears the Central System, the Calls of its commands and one farewell, nothing
      else ([charger_hears_exactly]);
      forwarding is byte for byte and a slow publisher changes nothing
      ([forward_verbatim], [mqtt_backpressure_harmless]); buffers are bounded and in order
      ([buffers_bounded_in_order]); the tracker attributes answers ([answer_attributed]).
    - The record: which of the texts it sends a session reports, event by event
      ([publisher_record_exact]), what reaches MQTT in the whole proxy happened
      ([mqtt_record_true]), and reporting changes nothing ([publisher_never_matters]).
    - Connecting upstream: how an attempt ends ([connect_upstream_outcome]), from which
      address ([bound_source_only]), to which and in which order
      ([connect_bound_in_order]), under which URL ([url_mirrors_id]).
    - Commands: every command of a session is accounted for, queued, in flight or answered
      by one result ([command_conservation]), and while the session forwards and reads its
      inbox in time within twice the timeout ([commands_answered_in_time],
      [tick_uses_line]); the queue
      implements "the last limit command and all others, the newest that fit"
      ([queue_refines_coalesce]); the line discipline ([line_discipline]) and the answers kept
      from the Central System ([own_answer_kept]); the limit policy in binary64
      ([resolve_limit_policy], [resolve_limit_exact_tenths]); the frames built
      ([prepare_call_sound]); commands from the broker ([command_handed_or_answered]) and
      the re-sending of the limit ([reapply_on_link_up], [standing_limit_after]).
    - Life of a session: [reconnect_window], [session_never_stuck],
      [shutdown_ends_session], and its backoff ([backoff_schedule]).
    - MQTT: order, and what eviction from a full buffer takes ([queued_in_order],
      [connack_order]); progress, with no topic the client refuses ([backlog_drains]);
      subscription ([subscribed_once]), reported state
      ([mqtt_state_tracks_broker]).
    - Data: the frames accepted, beside those documented ([parse_correct]), configuration ([charging_validate_iff], [load_valid]),
      session energy ([session_energy]), the types of the snapshots ([snapshots_typed]), the
      stored snapshots ([save_atomic], [load_after_save]) and a restart at any moment of a
      run ([restart_restores]); a limit comes back to within the precision of the JSON
      reader ([float_close]).
    - Findings, stated as theorems about what the code does: [late_answer_forwarded],
      [session_buffers_at_most_one], [retry_frame_dropped],
      [displaced_session_reports_outage], [closing_loses_command],
      [overflow_reported_as_superseded], [crossed_ids_confused],
      [ceiling_exceeded_by_rounding], [repeated_stop_forgets_energy],
      [failed_command_drops_limit], [wildcard_topic_blocks], [late_registration_unroutes],
      [served_while_idle], [zero_backoff_spins], [shutdown_silences_publisher],
      [drain_overlooks_upgrade], [flushed_frame_unreported], [outage_stops_timeouts],
      [stale_command_sent], [unparsed_text_lost], [online_evicted],
      [abandoned_start_stays_connecting], [malformed_hides_missing],
      [undocumented_accepted].

    ** Bounds

    Loops that the code runs until a queue is empty recurse on the queue. The one fuel is
    that of [send_loop] (Session.v), started with the queue's length; each turn takes a
    request out of the queue, so when it is used up the queue is empty. The backoff theorems cover
    maxima up to ten minutes and initial delays of one or two seconds, the program's own;
    [resolve_limit_exact_tenths] covers tenths of an ampere up to 80 A, the highest ceiling
    the configuration accepts; the theorems on connections hold for fewer than 2^64 - 1
    steps, so that generations do not wrap (a third of that for the whole proxy, whose
    steps are up to three of the server's). [shutdown_completes] gives its bound: 24 steps
    for each connection; [main_ends] adds five, and [main_turns_bounded] counts 103 turns of
    [main], of which 101 are the drain's ten seconds at a tenth of a second each. *)

From stdpp Require Export base tactics list gmap strings pretty numbers option.
From stdpp Require Export sorting.
From Stdlib Require Ascii String.
From Stdlib Require Import Lia.

#[export] Set Warnings "-clear-no-such-hyp,-register-all".

(** ** Results: Rust's [Result<A, E>] *)

Inductive result (A E : Type) : Type :=
  | Ok (a : A)
  | Err (e : E).
Arguments Ok {A E} a.
Arguments Err {A E} e.

#[export] Instance result_eq_dec {A E} `{EqDecision A} `{EqDecision E} : EqDecision (result A E).
Proof. solve_decision. Defined.

Declare Scope ocpp_scope.
Delimit Scope ocpp_scope with ocpp.

(** The [?] operator: leave with the error, or bind the value. *)
Notation "'let?' x ':=' e 'in' k" :=
  (match e with Ok x => k | Err er => Err er end)
  (at level 10, x pattern, e at level 100, k at level 200) : ocpp_scope.
Open Scope ocpp_scope.

(** [Option::ok_or] and [Result::ok]. *)
Definition ok_or {A E} (o : option A) (e : E) : result A E :=
  match o with Some a => Ok a | None => Err e end.

Definition result_ok {A E} (r : result A E) : option A :=
  match r with Ok a => Some a | Err _ => None end.

Definition is_ok {A E} (r : result A E) : bool :=
  match r with Ok _ => true | Err _ => false end.

(** [Option::is_none]. *)
Definition is_none {A} (o : option A) : bool := match o with None => true | Some _ => false end.

(** [Option::or]. *)
Definition option_or {A} (a b : option A) : option A :=
  match a with Some x => Some x | None => b end.

(** ** Machine integers *)

Definition u64_max : Z := 2 ^ 64 - 1.
Definition wrap_u64 (z : Z) : Z := z `mod` 2 ^ 64.
Definition wrap_i64 (z : Z) : Z := (z + 2 ^ 63) `mod` 2 ^ 64 - 2 ^ 63.
Definition in_i64 (z : Z) : bool := bool_decide (- 2 ^ 63 ≤ z < 2 ^ 63)%Z.
Definition in_u64 (z : Z) : bool := bool_decide (0 ≤ z < 2 ^ 64)%Z.

Lemma wrap_i64_id z : in_i64 z = true → wrap_i64 z = z.
Proof.
  unfold in_i64, wrap_i64. intros H%bool_decide_eq_true_1.
  rewrite Z.mod_small by lia. lia.
Qed.

Lemma wrap_u64_id z : in_u64 z = true → wrap_u64 z = z.
Proof.
  unfold in_u64, wrap_u64. intros H%bool_decide_eq_true_1.
  by rewrite Z.mod_small by lia.
Qed.

Lemma wrap_u64_range z : in_u64 (wrap_u64 z) = true.
Proof. unfold in_u64, wrap_u64. apply bool_decide_eq_true_2, Z.mod_pos_bound. lia. Qed.

(** ** Time: [Duration], [Instant] and [DateTime<Utc>] are integers of nanoseconds *)

Definition NANOS : Z := 1000000000.
Definition from_secs (s : Z) : Z := (s * NANOS)%Z.
Definition from_millis (ms : Z) : Z := (ms * 1000000)%Z.

(** What a handler reads from the two clocks while it runs. *)
Record Clock := { utc_now : Z; instant_now : Z }.

(** The parts of chrono the program calls: the conversion of a [std] duration,
    which fails when it is out of chrono's range, and the text forms of a date. *)
Class Chrono := {
  from_std : Z → option Z;
  to_rfc3339 : Z → string;
  to_rfc3339_secs : Z → string;
  to_rfc3339_millis : Z → string
}.

(** chrono documents that [from_std] keeps every duration up to [TimeDelta::MAX],
    2^63 - 1 milliseconds. *)
Definition chrono_max : Z := from_millis (2 ^ 63 - 1).

Class ChronoLaws `{Chrono} : Prop := {
  from_std_in_range d : (0 ≤ d ≤ chrono_max)%Z → from_std d = Some d
}.

(** ** Channels: the sending half of a [tokio::sync::mpsc] channel *)

Inductive TrySendError := Full | Closed.

#[export] Instance TrySendError_eq_dec : EqDecision TrySendError.
Proof. solve_decision. Defined.

(** [Sender::try_send]: the sender (with whatever it shares with the receiver)
    after the attempt, and its outcome. *)
Class MpscSender (T A : Type) := {
  try_send : T → A → T * result unit TrySendError
}.

(** What every attempt to send carried, in order: a sender that refuses nothing. *)
#[export] Instance recording_sender {A} : MpscSender (list A) A :=
  { try_send sent a := (sent ++ [a], Ok ()) }.

(** [Sender::send], once the wait for room is over: [false] when the receiver is gone. *)
Class AsyncSender (T A : Type) := { send_wait : T → A → T * bool }.

(** The channel has taken exactly what it accepted, in order. *)
Class AsyncSenderLaws (T A : Type) `{AsyncSender T A} := {
  accepted : T → list A;
  send_wait_accepted t a t' ok :
    send_wait t a = (t', ok) → accepted t' = accepted t ++ (if ok then [a] else [])
}.

(** A channel whose receiver leaves after some number of values: an instance for examples. *)
Record CountedChannel (A : Type) := mkCounted { cc_sent : list A; cc_room : nat }.
Arguments mkCounted {A} _ _.
Arguments cc_sent {A} _.
Arguments cc_room {A} _.

#[export] Instance counted_sender {A} : AsyncSender (CountedChannel A) A := {
  send_wait t a :=
    match cc_room t with O => (t, false) | S n => (mkCounted (cc_sent t ++ [a]) n, true) end
}.

#[export] Program Instance counted_sender_laws {A} : AsyncSenderLaws (CountedChannel A) A :=
  { accepted := cc_sent }.
Next Obligation.
  intros A t a t' ok. simpl. destruct (cc_room t); intros [= <- <-]; simpl; [by rewrite app_nil_r|done].
Qed.

(** ** Double-ended queues *)

(** The bounded [push_back] the code writes out at each buffer: when the buffer is
    at its limit the oldest entry goes first. *)
Definition push_evict {A} (cap : nat) (x : A) (q : list A) : list A * option A :=
  if decide (cap ≤ length q) then
    match q with
    | [] => ([x], None)
    | oldest :: rest => (rest ++ [x], Some oldest)
    end
  else (q ++ [x], None).

Definition push_bounded {A} (cap : nat) (q : list A) (x : A) : list A :=
  fst (push_evict cap x q).

(** [VecDeque::retain]: what stays and how many went. *)
Definition retain {A} (keep : A → bool) (q : list A) : list A := List.filter keep q.

Section push_evict.
Context {A : Type}.
Implicit Types (q l : list A) (x : A).

Lemma push_evict_app cap x q :
  option_list (snd (push_evict cap x q)) ++ fst (push_evict cap x q) = q ++ [x].
Proof. unfold push_evict. case_decide; [destruct q|]; done. Qed.

Lemma push_bounded_length cap x q :
  length q ≤ cap `max` 1 → length (push_bounded cap q x) ≤ cap `max` 1.
Proof.
  unfold push_bounded, push_evict. intros Hq.
  case_decide as Hc; [destruct q|]; simpl in *; rewrite ?length_app; simpl; lia.
Qed.

Lemma push_bounded_nonempty cap x q : push_bounded cap q x ≠ [].
Proof.
  unfold push_bounded, push_evict.
  case_decide; [destruct q|]; simpl; intros E%(f_equal length);
    rewrite ?length_app in E; simpl in E; lia.
Qed.

(** Pushing a run of values keeps the newest ones, in order. *)
Lemma push_bounded_drop cap x q :
  length q ≤ cap `max` 1 →
  push_bounded cap q x = drop (length (q ++ [x]) - cap `max` 1) (q ++ [x]).
Proof.
  intros Hq. unfold push_bounded, push_evict. rewrite length_app. simpl.
  case_decide as Hc; [destruct q as [|y q]|]; simpl in *.
  - by replace (1 - cap `max` 1) with 0 by lia.
  - replace (S (length q + 1) - cap `max` 1) with 1 by lia. done.
  - replace (length q + 1 - cap `max` 1) with 0 by lia. done.
Qed.

Lemma drop_drop_app l1 l2 n m :
  n ≤ length l1 → drop m (drop n l1 ++ l2) = drop (n + m) (l1 ++ l2).
Proof.
  intros Hn. rewrite <- drop_drop. f_equal.
  rewrite drop_app. by replace (n - length l1) with 0 by lia.
Qed.

Lemma push_all_drop cap l q :
  length q ≤ cap `max` 1 →
  foldl (push_bounded cap) q l = drop (length (q ++ l) - cap `max` 1) (q ++ l).
Proof.
  revert q. induction l as [|x l IH]; intros q Hq; simpl.
  { rewrite app_nil_r. by replace (length q - _) with 0 by lia. }
  rewrite IH by (by apply push_bounded_length).
  rewrite push_bounded_drop by done.
  rewrite drop_drop_app by lia.
  rewrite !length_app, length_drop, !length_app. simpl.
  rewrite <- app_assoc. simpl. f_equal. lia.
Qed.

Lemma push_bounded_sublist cap x q : sublist (push_bounded cap q x) (q ++ [x]).
Proof.
  rewrite <- (push_evict_app cap x q). unfold push_bounded.
  by apply sublist_inserts_l.
Qed.
End push_evict.

Section retain.
Context {A : Type} (keep : A → bool).

Lemma elem_of_retain q (x : A) : x ∈ retain keep q ↔ x ∈ q ∧ keep x = true.
Proof. unfold retain. rewrite !list_elem_of_In. apply filter_In. Qed.

Lemma retain_length q : length (retain keep q) ≤ length q.
Proof. apply List.filter_length_le. Qed.

Lemma retain_sublist q : sublist (retain keep q) q.
Proof. induction q as [|x q IH]; simpl; [done|]. destruct (keep x); by constructor. Qed.

Lemma retain_split q :
  Permutation (retain keep q ++ retain (λ x, negb (keep x)) q) q.
Proof.
  induction q as [|x q IH]; simpl; [done|].
  destruct (keep x); simpl; [by constructor|].
  rewrite <- Permutation_middle. by constructor.
Qed.

Lemma retain_all q : Forall (λ x, keep x = true) q → retain keep q = q.
Proof. induction 1 as [|x q Hx _ IH]; simpl; [done|]. by rewrite Hx, IH. Qed.

Lemma retain_none q : Forall (λ x, keep x = false) q → retain keep q = [].
Proof. induction 1 as [|x q Hx _ IH]; simpl; [done|]. by rewrite Hx. Qed.
End retain.

(** ** Automation *)

Create HintDb ocpp.
#[export] Hint Resolve push_bounded_length retain_sublist push_bounded_sublist : ocpp.
#[export] Hint Resolve sublist_nil_l : ocpp.
Create Rewrite HintDb ocpp_len.
#[export] Hint Rewrite @length_app @length_drop @length_take @app_nil_r : ocpp_len.

(** Case analysis on the innermost scrutinee of the goal, remembering its value. *)
Ltac case_match_eq :=
  match goal with
  | |- context [match ?x with _ => _ end] =>
      lazymatch x with context [match _ with _ => _ end] => fail | _ => destruct x eqn:? end
  end.

(** Split every match of the goal and discharge the easy branches. *)
Ltac solve_cases := repeat (case_match_eq; simplify_eq/=; try done).

(** Same, in a hypothesis. *)
Ltac case_hyp H :=
  repeat match type of H with
  | context [match ?x with _ => _ end] =>
      lazymatch x with
      | context [match _ with _ => _ end] => fail
      | _ => destruct x eqn:?; simplify_eq/=
      end
  end.

(** A closed boolean test of the code, evaluated. *)
Ltac eval_goal := vm_compute; try done; try reflexivity.
