(* ===== verification/Float64.v ===== *)
(** * IEEE 754 double precision, as Rust's [f64] uses it

    Values and rounding are those of the Standard Library's [SpecFloat], at 53 bits
    of precision. On top of it: the comparisons, [round], the reading of a decimal
    literal ([str::parse::<f64>]), its printing ([Display]) and the conversions to
    and from [Duration]. *)

From Stdlib Require Import Ascii.
From Stdlib Require Export SpecFloat.
From S2P Require Import Prelude.

Local Open Scope Z_scope.

Definition f64 : Type := spec_float.

Definition prec : Z := 53.
Definition emax : Z := 1024.

#[export] Instance f64_eq_dec : EqDecision f64.
Proof. solve_decision. Defined.

(** The nearest double to the integer [m] times [2 ^ e]. *)
Definition of_Z_exp (m e : Z) : f64 := binary_normalize prec emax m e false.
Definition of_Z (m : Z) : f64 := of_Z_exp m 0.

Definition fmul : f64 → f64 → f64 := SFmul prec emax.
Definition fdiv : f64 → f64 → f64 := SFdiv prec emax.
Definition fadd : f64 → f64 → f64 := SFadd prec emax.

(** [<], [<=], [==] on doubles: false as soon as one side is NaN. *)
Definition flt (a b : f64) : bool := SFltb a b.
Definition fle (a b : f64) : bool := SFleb a b.
Definition feq (a b : f64) : bool := SFeqb a b.

Definition is_finite (a : f64) : bool :=
  match a with S754_zero _ | S754_finite _ _ _ => true | _ => false end.

(** [f64::min]: a NaN loses against a number. *)
Definition fmin (a b : f64) : f64 :=
  match a, b with
  | S754_nan, _ => b
  | _, S754_nan => a
  | _, _ => if flt b a then b else a
  end.

Definition fzero : f64 := S754_zero false.

(** [f64::round]: to the nearest integer, halves away from zero. *)
Definition fround (a : f64) : f64 :=
  match a with
  | S754_finite s m e =>
      if 0 <=? e then a
      else
        let k := 2 ^ (- e) in
        let q := Zpos m / k in
        let r := Zpos m mod k in
        let q' := if k <=? 2 * r then q + 1 else q in
        if q' =? 0 then S754_zero s
        else binary_normalize prec emax (if s then - q' else q') 0 s
  | _ => a
  end.

#[global] Arguments of_Z_exp _ _ : simpl never.
#[global] Arguments of_Z _ : simpl never.
#[global] Arguments fmul _ _ : simpl never.
#[global] Arguments fdiv _ _ : simpl never.
#[global] Arguments fadd _ _ : simpl never.
#[global] Arguments flt _ _ : simpl never.
#[global] Arguments fle _ _ : simpl never.
#[global] Arguments feq _ _ : simpl never.
#[global] Arguments fround _ : simpl never.

(** ** Decimal text *)

(** The double nearest to [m * 10 ^ e], for a non-negative [m] of at most
    [digits] digits. Beyond the exponents cut off here every value rounds to
    infinity or to zero. *)
Definition of_decimal (s : bool) (m e digits : Z) : f64 :=
  match m with
  | Zpos p =>
      if 400 <? e then S754_infinity s
      else if e <? - (400 + digits) then S754_zero s
      else if 0 <=? e then
        match binary_normalize prec emax (m * 10 ^ e) 0 false with
        | S754_finite _ m' e' => S754_finite s m' e'
        | S754_infinity _ => S754_infinity s
        | x => x
        end
      else
        match 10 ^ (- e) with
        | Zpos d => SFdiv prec emax (S754_finite s p 0) (S754_finite false d 0)
        | _ => S754_nan
        end
  | _ => S754_zero s
  end.

Definition digit_of (c : Ascii.ascii) : option Z :=
  let n := Z.of_N (Ascii.N_of_ascii c) in
  if (48 <=? n) && (n <=? 57) then Some (n - 48) else None.

(** The leading digits of a text: their value, how many, and what follows. *)
Fixpoint take_digits (acc cnt : Z) (s : list Ascii.ascii) : Z * Z * list Ascii.ascii :=
  match s with
  | c :: rest =>
      match digit_of c with
      | Some d => take_digits (10 * acc + d) (cnt + 1) rest
      | None => (acc, cnt, s)
      end
  | [] => (acc, cnt, s)
  end.

Definition take_sign (s : list Ascii.ascii) : bool * list Ascii.ascii :=
  match s with
  | "-"%char :: rest => (true, rest)
  | "+"%char :: rest => (false, rest)
  | _ => (false, s)
  end.

Definition ascii_lower (c : Ascii.ascii) : Ascii.ascii :=
  let n := Ascii.N_of_ascii c in
  if (65 <=? Z.of_N n) && (Z.of_N n <=? 90) then Ascii.ascii_of_N (n + 32) else c.

(** An exponent part, if there is one; [None] when it has no digit. *)
Definition take_exponent (s : list Ascii.ascii) : option (Z * list Ascii.ascii) :=
  match s with
  | c :: rest =>
      if bool_decide (ascii_lower c = "e"%char) then
        let '(neg, rest) := take_sign rest in
        let '(e, cnt, rest) := take_digits 0 0 rest in
        if cnt =? 0 then None else Some (if neg then - e else e, rest)
      else Some (0, s)
  | [] => Some (0, [])
  end.

(** [str::parse::<f64>]. *)
Definition parse_f64 (text : string) : option f64 :=
  let '(neg, s) := take_sign (String.list_ascii_of_string text) in
  let word := String.string_of_list_ascii (ascii_lower <$> s) in
  if bool_decide (word = "inf") || bool_decide (word = "infinity")
  then Some (S754_infinity neg)
  else if bool_decide (word = "nan") then Some S754_nan
  else
    let '(ip, ni, s1) := take_digits 0 0 s in
    let '(m, nf, s2) :=
      match s1 with
      | "."%char :: rest => take_digits ip 0 rest
      | _ => (ip, 0, s1)
      end in
    if ni + nf =? 0 then None
    else
      match take_exponent s2 with
      | Some (e, []) => Some (of_decimal neg m (e - nf) (ni + nf))
      | _ => None
      end.

(** ** Printing: [Display] for [f64] *)

Fixpoint drop_zeros (fuel : nat) (d k : Z) : Z * Z :=
  match fuel with
  | O => (d, k)
  | S fuel => if (d mod 10 =? 0) && negb (d =? 0) then drop_zeros fuel (d / 10) (k + 1) else (d, k)
  end.

(** [num / den], rounded to the nearest integer. *)
Definition div_nearest (num den : Z) : Z := (2 * num + den) / (2 * den).

(** The number of decimal digits before the point of the positive [num / den],
    non-positive when it starts with zeros after the point. *)
Fixpoint decimal_exponent (fuel : nat) (num den k : Z) : Z :=
  match fuel with
  | O => k
  | S fuel =>
      if den <=? num then decimal_exponent fuel num (10 * den) (k + 1)
      else if 10 * num <? den then decimal_exponent fuel (10 * num) den (k - 1)
      else k
  end.

(** The shortest digits that read back as [a = num / den], and their power of ten. *)
Fixpoint shortest_digits (fuel : nat) (n k num den : Z) (a : f64) : Z * Z :=
  let e := k - n in
  let d := if 0 <=? e then div_nearest num (den * 10 ^ e) else div_nearest (num * 10 ^ (- e)) den in
  match fuel with
  | O => (d, e)
  | S fuel =>
      if feq (of_decimal false d e (n + 1)) a then (d, e)
      else shortest_digits fuel (n + 1) k num den a
  end.

Fixpoint zeros (n : nat) : string :=
  match n with O => "" | S n => String.String "0" (zeros n) end.

(** [d * 10 ^ e] without an exponent. *)
Definition place_point (d e : Z) : string :=
  let text := pretty d in
  if 0 <=? e then text +:+ zeros (Z.to_nat e)
  else
    let frac := Z.to_nat (- e) in
    let text := if decide (String.length text ≤ frac)%nat
                then zeros (S frac - String.length text) +:+ text else text in
    let ip := (String.length text - frac)%nat in
    String.substring 0 ip text +:+ "." +:+ String.substring ip frac text.

Definition fmt_f64 (a : f64) : string :=
  match a with
  | S754_nan => "NaN"
  | S754_infinity s => if s then "-inf" else "inf"
  | S754_zero s => if s then "-0" else "0"
  | S754_finite s m e =>
      let num := if 0 <=? e then Zpos m * 2 ^ e else Zpos m in
      let den := if 0 <=? e then 1 else 2 ^ (- e) in
      let k := decimal_exponent 800 num den 0 in
      let '(d, e10) := shortest_digits 17 1 k num den (S754_finite false m e) in
      let '(d, e10) := drop_zeros 20 d e10 in
      (if s then "-" else "") +:+ place_point d e10
  end.

(** ** [Duration] and doubles *)

(** [Duration::as_secs_f64]: [secs as f64 + nanos as f64 / 1e9]. *)
Definition as_secs_f64 (d : Z) : f64 :=
  fadd (of_Z (d / NANOS)) (fdiv (of_Z (d mod NANOS)) (of_Z NANOS)).

(** A non-negative rational to the nearest integer, halves to even. *)
Definition div_half_even (num den : Z) : Z :=
  let q := num / den in
  let r := 2 * (num mod den) in
  if r <? den then q else if den <? r then q + 1 else if Z.even q then q else q + 1.

(** [Duration::from_secs_f64], which panics ([None]) on a negative or non-finite
    number of seconds and when the seconds do not fit in 64 bits. *)
Definition from_secs_f64 (a : f64) : option Z :=
  match a with
  | S754_zero _ => Some 0
  | S754_finite false m e =>
      let ns := if 0 <=? e then Zpos m * 2 ^ e * NANOS
                else div_half_even (Zpos m * NANOS) (2 ^ (- e)) in
      if ns <? 2 ^ 64 * NANOS then Some ns else None
  | _ => None
  end.

(** ** The order on doubles *)

Lemma SFcompare_sym a b :
  SFcompare b a = match SFcompare a b with Some c => Some (CompOpp c) | None => None end.
Proof.
  destruct a as [[]|[]| |[] m e], b as [[]|[]| |[] m' e']; simpl; try done;
    rewrite (Z.compare_antisym e e'); destruct (e ?= e')%Z; simpl; try done;
    change (Pos.compare_cont Eq m' m) with (m' ?= m)%positive;
    change (Pos.compare_cont Eq m m') with (m ?= m')%positive;
    rewrite (Pos.compare_antisym m m'); by destruct (m ?= m')%positive.
Qed.

Lemma flt_fle_false a b : flt a b = true → fle b a = false.
Proof.
  unfold flt, fle, SFltb, SFleb. rewrite (SFcompare_sym a b).
  by destruct (SFcompare a b) as [[]|].
Qed.

Lemma not_flt_fle a b :
  is_finite a = true → is_finite b = true → flt a b = false → fle b a = true.
Proof.
  unfold flt, fle, SFltb, SFleb. rewrite (SFcompare_sym a b).
  intros Ha Hb. destruct (SFcompare a b) as [[]|] eqn:E; try done.
  by destruct a as [| | |[] ? ?], b as [| | |[] ? ?]; simplify_eq/=; repeat case_match.
Qed.

(** A bounded double is a number. *)
Lemma fle_finite_r a b : is_finite b = true → fle fzero a = true → fle a b = true → is_finite a = true.
Proof. by destruct a as [|[]| |[] ? ?], b. Qed.

(** ** The order of doubles, as an order of integer triples *)

Definition float_key (a : f64) : option (Z * Z * Z) :=
  match a with
  | S754_infinity true => Some (-2, 0, 0)
  | S754_finite true m e => Some (-1, - e, - Zpos m)
  | S754_zero _ => Some (0, 0, 0)
  | S754_finite false m e => Some (1, e, Zpos m)
  | S754_infinity false => Some (2, 0, 0)
  | S754_nan => None
  end%Z.

Definition lex_lt (x y : Z * Z * Z) : Prop :=
  let '(a, b, c) := x in let '(a', b', c') := y in
  (a < a' ∨ a = a' ∧ (b < b' ∨ b = b' ∧ c < c'))%Z.

Lemma flt_key a b :
  flt a b = true ↔ ∃ x y, float_key a = Some x ∧ float_key b = Some y ∧ lex_lt x y.
Proof.
  unfold flt, SFltb. destruct a as [sa|[]| |[] m e], b as [sb|[]| |[] m' e']; simpl;
    try (change (Pos.compare_cont Eq m m') with (m ?= m')%positive;
         destruct (Z.compare_spec e e'); try destruct (Pos.compare_spec m m'); simpl);
    (split; [intros Ht; first [discriminate Ht|do 2 eexists; split_and!; [reflexivity|reflexivity|simpl; lia]]
            |intros (x & y & Hx & Hy & Hl); first [reflexivity|exfalso; simplify_eq/=; lia]]).
Qed.

Lemma flt_trans a b c : flt a b = true → flt b c = true → flt a c = true.
Proof.
  rewrite !flt_key. intros (x & y & Hx & Hy & Hl) (y' & z & Hy' & Hz & Hl').
  rewrite Hy in Hy'. injection Hy' as <-.
  exists x, z. split_and!; try done. destruct x as [[]], y as [[]], z as [[]]. simpl in *. lia.
Qed.

Lemma flt_irrefl a : flt a a = false.
Proof.
  destruct (flt a a) eqn:E; [|done]. apply flt_key in E as (x & y & Hx & Hy & Hl).
  rewrite Hx in Hy. injection Hy as <-. destruct x as [[]]. simpl in *. lia.
Qed.

Lemma flt_asym a b : flt a b = true → flt b a = false.
Proof.
  intros H. destruct (flt b a) eqn:E; [|done]. pose proof (flt_trans _ _ _ H E) as Ht.
  by rewrite flt_irrefl in Ht.
Qed.

(** ** The double of an integer of the machine is finite *)

Lemma Zdigits2_le z k : 0 ≤ k → 0 ≤ z < 2 ^ k → Zdigits2 z ≤ k.
Proof.
  intros Hk Hz. destruct z as [|p|p]; simpl; [lia| |lia].
  assert (digits2_pos p = Pos.size p) as -> by (clear; induction p; simpl; congruence).
  destruct (decide (k < Z.pos (Pos.size p))) as [Hlt|]; [|lia].
  pose proof (Pos.size_le p) as Hp. apply Pos2Z.pos_le_pos in Hp. rewrite Pos2Z.inj_pow in Hp.
  assert (2 ^ (k + 1) ≤ 2 ^ Z.pos (Pos.size p)) by (apply Z.pow_le_mono_r; lia).
  rewrite Z.pow_add_r in * by lia. change (Z.pos p~0) with (2 * Z.pos p) in Hp. lia.
Qed.

Lemma iter_pos_ind {A} (P : A → Prop) f n x : (∀ y, P y → P (f y)) → P x → P (SpecFloat.iter_pos f n x).
Proof. intros Hf. revert x. induction n as [n IH|n IH|]; simpl; auto. Qed.

Lemma shr_fexp_bounds k m e l mrs e' :
  0 ≤ m < 2 ^ k → 0 ≤ k → shr_fexp prec emax m e l = (mrs, e') → 0 ≤ shr_m mrs ≤ m ∧ e' ≤ Z.max e (Z.max (k + e - 53) (-1074)).
Proof.
  intros Hm Hk Hs. unfold shr_fexp, shr in Hs.
  assert (shr_m (shr_record_of_loc m l) = m) as El by (by destruct l as [|[]]).
  assert (SpecFloat.fexp prec emax (Zdigits2 m + e) ≤ Z.max (k + e - 53) (-1074)) as Hf.
  { pose proof (Zdigits2_le m k Hk Hm). unfold SpecFloat.fexp, SpecFloat.emin, prec, emax. lia. }
  destruct (SpecFloat.fexp _ _ _ - e) as [|p|p] eqn:Ee; injection Hs as <- <-; [lia| |lia].
  split; [|lia]. apply (iter_pos_ind (λ r, 0 ≤ shr_m r ≤ m)); [|lia].
  intros [[|[q|q|]|[q|q|]] r s]; simpl; lia.
Qed.

Lemma binary_round_finite s p : Z.pos p < 2 ^ 64 → is_finite (binary_round prec emax s p 0) = true.
Proof.
  intros Hp. unfold binary_round. destruct (shl_align _ _ _) as [mz ez] eqn:Ea.
  assert (Z.pos mz < 2 ^ 116 ∧ -52 ≤ ez ≤ 0) as [Hmz Hez].
  { pose proof (Zdigits2_le (Z.pos p) 64) as Hd. unfold shl_align in Ea. simpl Zdigits2 in Hd.
    assert (-52 ≤ SpecFloat.fexp prec emax (Z.pos (digits2_pos p) + 0)) as Hf
      by (unfold SpecFloat.fexp, SpecFloat.emin, prec, emax; lia).
    destruct (_ - 0) as [|d|d] eqn:E; simplify_eq; try lia. split; [|lia].
    assert (∀ n, Z.pos (Pos.iter xO p n) = Z.pos p * 2 ^ Z.pos n) as Hsh.
    { intros n. rewrite <- (Pos2Z.inj_pow 2), <- Pos2Z.inj_mul. f_equal. rewrite Pos.mul_comm.
      induction n as [|n IH] using Pos.peano_ind; [by simpl|]. by rewrite Pos.iter_succ, IH, Pos.pow_succ_r, <- Pos.mul_assoc. }
    rewrite Hsh. assert (2 ^ Z.pos d ≤ 2 ^ 52) by (apply Z.pow_le_mono_r; lia).
    change (2 ^ 116) with (2 ^ 64 * 2 ^ 52). nia. }
  unfold binary_round_aux. destruct (shr_fexp _ _ (Z.pos mz) _ _) as [m1 e1] eqn:E1.
  apply (shr_fexp_bounds 116) in E1 as [Hm1 He1]; [|lia..].
  destruct (shr_fexp _ _ (round_nearest_even _ _) _ _) as [m2 e2] eqn:E2.
  apply (shr_fexp_bounds 117) in E2 as [Hm2 He2]; [|unfold round_nearest_even; repeat case_match; lia|lia].
  destruct (shr_m m2); [done| |lia]. destruct (e2 <=? emax - prec) eqn:E; [done|].
  apply Z.leb_gt in E. unfold emax, prec in E. lia.
Qed.

Lemma of_Z_finite z : Z.abs z < 2 ^ 64 → is_finite (of_Z z) = true.
Proof. intros Hz. unfold of_Z, of_Z_exp. destruct z as [|p|p]; [done|by apply binary_round_finite..]. Qed.

(** ** Doubles that agree but for their last digits *)

(** A double in units of the smallest one, [2 ^ -1074]. *)
Definition scaled (a : f64) : Z :=
  match a with
  | S754_finite s m e => (if s then Z.neg m else Z.pos m) * 2 ^ (e + 1074)
  | _ => 0
  end.

(** Finite and apart by at most one part in [2 ^ 50], or by the smallest unit. *)
Definition float_close (a b : f64) : Prop :=
  a = b ∨ is_finite a = true ∧ is_finite b = true ∧ Z.abs (scaled a - scaled b) * 2 ^ 50 ≤ Z.abs (scaled a) + 2 ^ 50.

Lemma float_close_refl a : float_close a a.
Proof. by left. Qed.

(** Equal doubles are the same, but for the sign of zero. *)
Lemma feq_scaled a b : feq a b = true → a = b ∨ is_finite a = true ∧ is_finite b = true ∧ scaled a = scaled b.
Proof.
  unfold feq, SFeqb, SFcompare. destruct a as [s|s| |s m e], b as [s'|s'| |s' m' e']; try done; try (destruct s); try (destruct s');
    try done; try (by left); try (by right).
  all: destruct (Z.compare_spec e e') as [->| |]; try done;
    destruct (Pos.compare_cont Eq m m') eqn:E; try done; apply Pos.compare_eq in E as ->; by left.
Qed.

Lemma float_close_feq a b c : feq a b = true → float_close b c → float_close a c.
Proof.
  intros [->|(Ha & Hb & E)]%feq_scaled Hc; [done|]. right. destruct Hc as [<-|(_ & Hc & Hle)]; rewrite E; split_and!; try done.
  rewrite Z.sub_diag. simpl. lia.
Qed.
