(* ===== verification/Json.v ===== *)
(** * JSON values, as [serde_json] presents them

    [Value] is the tree the program matches on, with the accessors it uses. Reading
    and writing text is [serde_json]'s own code and stays abstract: the class
    [SerdeJson], with what the crate documents of it in [SerdeJsonLaws]. A
    concrete codec at the end ([reference_codec]) has those laws. *)

From Stdlib Require Import Ascii.
From S2P Require Import Prelude Float64.

Local Open Scope Z_scope.

(** A JSON number: an integer of 64 bits, signed or not, or a double. *)
Inductive Number := NInt (z : Z) | NFloat (a : f64).

(** The entries of an object are a list of pairs with at most one entry per key;
    [Map::insert] and [Map::remove] below keep it so. *)
Inductive Value :=
  | VNull
  | VBool (b : bool)
  | VNumber (n : Number)
  | VString (s : string)
  | VArray (l : list Value)
  | VObject (m : list (string * Value)).

Definition Map := list (string * Value).

Fixpoint map_get (k : string) (m : list (string * Value)) : option Value :=
  match m with
  | [] => None
  | (k', v) :: rest => if decide (k = k') then Some v else map_get k rest
  end.

Fixpoint map_remove (k : string) (m : list (string * Value)) : list (string * Value) :=
  match m with
  | [] => []
  | (k', v) :: rest => if decide (k = k') then map_remove k rest else (k', v) :: map_remove k rest
  end.

Fixpoint map_insert (k : string) (v : Value) (m : list (string * Value)) : list (string * Value) :=
  match m with
  | [] => [(k, v)]
  | (k', v') :: rest => if decide (k = k') then (k, v) :: rest else (k', v') :: map_insert k v rest
  end.

(** ** Accessors *)

Definition as_array (v : Value) : option (list Value) :=
  match v with VArray l => Some l | _ => None end.
Definition as_object (v : Value) : option (list (string * Value)) :=
  match v with VObject m => Some m | _ => None end.
Definition as_str (v : Value) : option string :=
  match v with VString s => Some s | _ => None end.
Definition as_u64 (v : Value) : option Z :=
  match v with VNumber (NInt z) => if in_u64 z then Some z else None | _ => None end.
Definition as_i64 (v : Value) : option Z :=
  match v with VNumber (NInt z) => if in_i64 z then Some z else None | _ => None end.

(** [Value::get] with a position, then with a key. *)
Definition get_index (i : nat) (v : Value) : option Value :=
  match v with VArray l => l !! i | _ => None end.
Definition get_key (k : string) (v : Value) : option Value :=
  match v with VObject m => map_get k m | _ => None end.

(** ** [json!] on the program's own types *)

Definition json_u (z : Z) : Value := VNumber (NInt z).
Definition json_str (s : string) : Value := VString s.
(** A double that is not finite has no JSON form and becomes [null]. *)
Definition json_f64 (a : f64) : Value := if is_finite a then VNumber (NFloat a) else VNull.
Definition json_opt {A} (f : A → Value) (o : option A) : Value :=
  match o with Some a => f a | None => VNull end.

(** ** The codec *)

Class SerdeJson := {
  from_str : string → result Value string;
  to_json : Value → result string string
}.

(** The trees that are values of the Rust type: integers of 64 bits, finite doubles,
    one entry per key. *)
Fixpoint representable (v : Value) : bool :=
  match v with
  | VNumber (NInt z) => in_i64 z || in_u64 z
  | VNumber (NFloat a) => is_finite a
  | VArray l => forallb representable l
  | VObject m => bool_decide (NoDup m.*1) && forallb (λ kv, representable (snd kv)) m
  | _ => true
  end.

(** Equal except for the order of the keys, and for the last digits of doubles: without its
    feature [float_roundtrip], which Cargo.toml does not ask for, the crate reads a double
    back with best-effort precision, [float_close]. *)
Inductive same_json : Value → Value → Prop :=
  | same_null : same_json VNull VNull
  | same_bool b : same_json (VBool b) (VBool b)
  | same_int z : same_json (VNumber (NInt z)) (VNumber (NInt z))
  | same_float a b : float_close a b → same_json (VNumber (NFloat a)) (VNumber (NFloat b))
  | same_string s : same_json (VString s) (VString s)
  | same_array l l' : Forall2 same_json l l' → same_json (VArray l) (VArray l')
  | same_object m m' :
      (∀ k, option_Forall2 same_json (map_get k m) (map_get k m')) →
      same_json (VObject m) (VObject m').

Class SerdeJsonLaws `{SerdeJson} : Prop := {
  (** Writing a [Value] does not fail, and the text reads back as that value. *)
  to_json_from_str v : representable v = true →
    ∃ raw w, to_json v = Ok raw ∧ from_str raw = Ok w ∧ same_json v w;
  (** What is read is a value of the Rust type. *)
  from_str_representable raw w : from_str raw = Ok w → representable w = true
}.

(** ** Lemmas *)

Section map_lemmas.
Implicit Types (m : list (string * Value)) (v : Value) (k : string).

Lemma map_get_insert_eq k v m : map_get k (map_insert k v m) = Some v.
Proof. induction m as [|[k' v'] m IH]; simpl; repeat (case_decide; simpl); naive_solver. Qed.

Lemma map_get_insert_ne k k' v m : k ≠ k' → map_get k (map_insert k' v m) = map_get k m.
Proof. intros ?. induction m as [|[k2 v2] m IH]; simpl; repeat (case_decide; simpl); naive_solver. Qed.

Lemma map_get_remove_eq k m : map_get k (map_remove k m) = None.
Proof. induction m as [|[k' v'] m IH]; simpl; repeat (case_decide; simpl); naive_solver. Qed.

Lemma map_get_remove_ne k k' m : k ≠ k' → map_get k (map_remove k' m) = map_get k m.
Proof. intros ?. induction m as [|[k2 v2] m IH]; simpl; repeat (case_decide; simpl); naive_solver. Qed.
End map_lemmas.

Lemma same_json_array l w :
  same_json (VArray l) w → ∃ l', w = VArray l' ∧ Forall2 same_json l l'.
Proof. inversion 1; eauto. Qed.

Lemma same_json_string s w : same_json (VString s) w → w = VString s.
Proof. by inversion 1. Qed.

Lemma same_json_int z w : same_json (json_u z) w → w = json_u z.
Proof. by inversion 1. Qed.

#[export] Hint Rewrite map_get_insert_eq map_get_remove_eq : ocpp_len.

(** ** A codec with these laws

    Stdpp's generic encoding of trees, written as a string of bits: not what
    [serde_json] writes, but a codec with the same contract. *)

Definition Number_to (n : Number) : Z + (bool + bool + unit + (bool * positive * Z)) :=
  match n with
  | NInt z => inl z
  | NFloat (S754_zero s) => inr (inl (inl (inl s)))
  | NFloat (S754_infinity s) => inr (inl (inl (inr s)))
  | NFloat S754_nan => inr (inl (inr ()))
  | NFloat (S754_finite s m e) => inr (inr (s, m, e))
  end.
Definition Number_of (x : Z + (bool + bool + unit + (bool * positive * Z))) : Number :=
  match x with
  | inl z => NInt z
  | inr (inl (inl (inl s))) => NFloat (S754_zero s)
  | inr (inl (inl (inr s))) => NFloat (S754_infinity s)
  | inr (inl (inr ())) => NFloat S754_nan
  | inr (inr (s, m, e)) => NFloat (S754_finite s m e)
  end.

#[export] Instance Number_eq_dec : EqDecision Number.
Proof. solve_decision. Defined.
#[export] Instance Number_countable : Countable Number.
Proof. apply (inj_countable' Number_to Number_of). by intros [|[]]. Defined.

(** [null], a boolean, a number or a string; [true] marks an array, [false] an object
    and a key. *)
Definition leaf : Type := option (bool + (Number + string)).

Fixpoint to_tree (v : Value) : gen_tree leaf :=
  match v with
  | VNull => GenLeaf None
  | VBool b => GenLeaf (Some (inl b))
  | VNumber n => GenLeaf (Some (inr (inl n)))
  | VString s => GenLeaf (Some (inr (inr s)))
  | VArray l => GenNode 0 (map to_tree l)
  | VObject m => GenNode 1 (map (λ '(k, x), GenNode 2 [GenLeaf (Some (inr (inr k))); to_tree x]) m)
  end.

Fixpoint of_tree (t : gen_tree leaf) : Value :=
  match t with
  | GenLeaf None => VNull
  | GenLeaf (Some (inl b)) => VBool b
  | GenLeaf (Some (inr (inl n))) => VNumber n
  | GenLeaf (Some (inr (inr s))) => VString s
  | GenNode 0 l => VArray (map of_tree l)
  | GenNode _ l =>
      VObject (map (λ t, match t with
                         | GenNode _ [GenLeaf (Some (inr (inr k))); x] => (k, of_tree x)
                         | _ => (""%string, VNull)
                         end) l)
  end.

Section value_ind.
Variable P : Value → Prop.
Hypothesis Hnull : P VNull.
Hypothesis Hbool : ∀ b, P (VBool b).
Hypothesis Hnum : ∀ n, P (VNumber n).
Hypothesis Hstr : ∀ s, P (VString s).
Hypothesis Harr : ∀ l, Forall P l → P (VArray l).
Hypothesis Hobj : ∀ m, Forall (λ kv, P kv.2) m → P (VObject m).

Fixpoint Value_nested_ind (v : Value) : P v :=
  match v with
  | VNull => Hnull
  | VBool b => Hbool b
  | VNumber n => Hnum n
  | VString s => Hstr s
  | VArray l =>
      Harr l ((fix go (l : list Value) : Forall P l :=
        match l with
        | [] => Forall_nil_2 P
        | x :: l => Forall_cons_2 P x l (Value_nested_ind x) (go l)
        end) l)
  | VObject m =>
      Hobj m ((fix go (m : list (string * Value)) : Forall (λ kv, P kv.2) m :=
        match m with
        | [] => Forall_nil_2 _
        | kv :: m => Forall_cons_2 (λ kv, P kv.2) kv m (Value_nested_ind kv.2) (go m)
        end) m)
  end.
End value_ind.

Lemma of_to_tree v : of_tree (to_tree v) = v.
Proof.
  induction v as [| | | |l IH|m IH] using Value_nested_ind; simpl; try done.
  - f_equal. rewrite map_map. induction IH as [|x l Hx _ IHl]; simpl; congruence.
  - f_equal. rewrite map_map. induction IH as [|[k x] m Hx _ IHm]; simpl in *; congruence.
Qed.

Lemma same_json_refl v : same_json v v.
Proof.
  induction v as [| |[]| |l IH|m IH] using Value_nested_ind; constructor.
  - apply float_close_refl.
  - induction IH; constructor; auto.
  - intros k. induction IH as [|[k' x] m Hx _ IHm]; simpl in *; [constructor|].
    case_decide; [by constructor|done].
Qed.

Fixpoint bits_to_string (p : positive) : string :=
  match p with
  | xH => ""
  | xO p => String.String "0"%char (bits_to_string p)
  | xI p => String.String "1"%char (bits_to_string p)
  end.

Fixpoint string_to_bits (s : string) : option positive :=
  match s with
  | String.EmptyString => Some xH
  | String.String c s =>
      p ← string_to_bits s;
      if decide (c = "0"%char) then Some (xO p)
      else if decide (c = "1"%char) then Some (xI p) else None
  end.

Lemma string_to_of_bits p : string_to_bits (bits_to_string p) = Some p.
Proof. induction p as [p IH|p IH|]; simpl; rewrite ?IH; done. Qed.

(** The codec of the witnesses. *)
Definition reference_codec : SerdeJson := {|
  from_str s :=
    match string_to_bits s with
    | Some p =>
        match decode p with
        | Some t => if representable (of_tree t) then Ok (of_tree t) else Err "number out of range"%string
        | None => Err "trailing characters"%string
        end
    | None => Err "expected value"%string
    end;
  to_json v := Ok (bits_to_string (encode (to_tree v)))
|}.

Lemma reference_codec_laws : @SerdeJsonLaws reference_codec.
Proof.
  constructor.
  - intros v Hv. eexists _, v. split; [done|]. simpl.
    rewrite string_to_of_bits, decode_encode, of_to_tree, Hv. split; [done|]. apply same_json_refl.
  - intros raw w. simpl. destruct (string_to_bits raw) as [p|]; [|done].
    destruct (decode p) as [t|]; [|done]. destruct (representable (of_tree t)) eqn:E; [|done]. by intros [= <-].
Qed.
