(* ===== verification/Models.v ===== *)
(** * Errors and core data models (src/error.rs, src/models.rs)

    The error type with its categories, the OCPP frame and its parser, the
    connection states, and the exponential backoff of every reconnection. *)

From S2P Require Import Prelude Float64 Json.

Local Open Scope Z_scope.

(** ** Errors *)

Inductive ProxyError :=
  | ConnectionDownstream (description : string)
  | ConnectionUpstream (description : string)
  | ConnectionMqtt (description : string)
  | Forwarding (description : string)
  | ConfigError (description : string)
  | Protocol (description : string)
  | Tls (description : string).

(** [ProxyError::category]. *)
Definition category (e : ProxyError) : string :=
  match e with
  | ConnectionDownstream _ => "connection_downstream"
  | ConnectionUpstream _ => "connection_upstream"
  | ConnectionMqtt _ => "connection_mqtt"
  | Forwarding _ => "forwarding"
  | ConfigError _ => "config"
  | Protocol _ => "protocol"
  | Tls _ => "tls"
  end.

(** [ProxyError::description]. *)
Definition description (e : ProxyError) : string :=
  match e with
  | ConnectionDownstream d | ConnectionUpstream d | ConnectionMqtt d
  | Forwarding d | ConfigError d | Protocol d | Tls d => d
  end.

(** [impl Display for ProxyError]. *)
Definition ProxyError_fmt (e : ProxyError) : string :=
  match e with
  | ConnectionDownstream d => "[connection_downstream] " +:+ d
  | ConnectionUpstream d => "[connection_upstream] " +:+ d
  | ConnectionMqtt d => "[connection_mqtt] " +:+ d
  | Forwarding d => "[forwarding] " +:+ d
  | ConfigError d => "[config] " +:+ d
  | Protocol d => "[protocol] " +:+ d
  | Tls d => "[tls] " +:+ d
  end.

(** ** Frames *)

Inductive OcppMessageType :=
  | Call (action : string)
  | CallResult
  | CallError.

#[export] Instance OcppMessageType_eq_dec : EqDecision OcppMessageType.
Proof. solve_decision. Defined.

Record OcppFrame := mkFrame {
  raw : string;
  message_type : OcppMessageType;
  unique_id : string;
  received_at : Z
}.

Definition is_call (t : OcppMessageType) : bool :=
  match t with Call _ => true | _ => false end.

Section parse.
Context `{SerdeJson}.

(** The type of a frame from its type number, [OcppFrame::parse]'s last match. *)
Definition frame_type (type_id : Z) (arr : list Value) : result OcppMessageType ProxyError :=
  if type_id =? 2 then
    if decide (length arr < 4)%nat then Err (Protocol "Call message must have at least 4 elements")
    else
      let? action := ok_or (as_str (nth 2 arr VNull))
        (Protocol "Third element of Call message must be a string (Action)") in
      Ok (Call action)
  else if type_id =? 3 then Ok CallResult
  else if type_id =? 4 then Ok CallError
  else Err (Protocol ("Unknown OCPP message type: " +:+ pretty type_id
         +:+ ". Expected 2 (Call), 3 (CallResult), or 4 (CallError)")).

(** [OcppFrame::parse], at the time [now]. *)
Definition parse (now : Z) (text : string) : result OcppFrame ProxyError :=
  let? parsed :=
    match from_str text with
    | Ok v => Ok v
    | Err e => Err (Protocol ("Invalid JSON: " +:+ e))
    end in
  let? arr := ok_or (as_array parsed) (Protocol "OCPP message must be a JSON array") in
  if decide (length arr < 3)%nat then
    Err (Protocol ("OCPP message array must have at least 3 elements, got " +:+ pretty (length arr)))
  else
    let? type_id := ok_or (as_u64 (nth 0 arr VNull))
      (Protocol "First element of OCPP message must be a message type integer") in
    let? uid := ok_or (as_str (nth 1 arr VNull))
      (Protocol "Second element of OCPP message must be a string (UniqueId)") in
    let? mt := frame_type type_id arr in
    Ok (mkFrame text mt uid now).
End parse.

(** ** Directions, connections and their states *)

Inductive Direction := ChargerToCentral | CentralToCharger.
Inductive ConnectionState := Disconnected | Connecting | Connected | Reconnecting.
Inductive ConnectionId := Upstream | Downstream | Mqtt.

#[export] Instance Direction_eq_dec : EqDecision Direction.
Proof. solve_decision. Defined.
#[export] Instance ConnectionState_eq_dec : EqDecision ConnectionState.
Proof. solve_decision. Defined.
#[export] Instance ConnectionId_eq_dec : EqDecision ConnectionId.
Proof. solve_decision. Defined.

(** [#[serde(rename_all = "snake_case")]] on [ConnectionState]. *)
Definition ConnectionState_serialize (s : ConnectionState) : Value :=
  VString match s with
          | Disconnected => "disconnected"
          | Connecting => "connecting"
          | Connected => "connected"
          | Reconnecting => "reconnecting"
          end.

Definition ConnectionState_deserialize (v : Value) : option ConnectionState :=
  s ← as_str v;
  if decide (s = "disconnected"%string) then Some Disconnected
  else if decide (s = "connecting"%string) then Some Connecting
  else if decide (s = "connected"%string) then Some Connected
  else if decide (s = "reconnecting"%string) then Some Reconnecting
  else None.

Record StateChange := mkStateChange {
  connection : ConnectionId;
  previous : ConnectionState;
  current : ConnectionState;
  timestamp : Z
}.

(** ** Exponential backoff *)

Record ExponentialBackoff := mkBackoff {
  bo_initial : Z;
  bo_max : Z;
  bo_current : Z;
  bo_multiplier : f64
}.

(** [ExponentialBackoff::new] and [::with_defaults]. *)
Definition backoff_new (initial max : Z) (multiplier : f64) : ExponentialBackoff :=
  mkBackoff initial max initial multiplier.
Definition backoff_with_defaults (initial max : Z) : ExponentialBackoff :=
  backoff_new initial max (of_Z 2).

(** [ExponentialBackoff::next_delay]; [None] is the panic of [Duration::from_secs_f64]. *)
Definition next_delay (b : ExponentialBackoff) : option (Z * ExponentialBackoff) :=
  let delay := Z.min (bo_current b) (bo_max b) in
  let next_secs := fmin (fmul (as_secs_f64 (bo_current b)) (bo_multiplier b)) (as_secs_f64 (bo_max b)) in
  c ← from_secs_f64 next_secs;
  Some (delay, mkBackoff (bo_initial b) (bo_max b) c (bo_multiplier b)).

(** [ExponentialBackoff::reset]. *)
Definition backoff_reset (b : ExponentialBackoff) : ExponentialBackoff :=
  mkBackoff (bo_initial b) (bo_max b) (bo_initial b) (bo_multiplier b).

(** The first [n] delays drawn from a backoff. *)
Fixpoint delays (n : nat) (b : ExponentialBackoff) : option (list Z * ExponentialBackoff) :=
  match n with
  | O => Some ([], b)
  | S n =>
      '(d, b) ← next_delay b;
      '(ds, b) ← delays n b;
      Some (d :: ds, b)
  end.

(** ** Theorems: errors *)

(** A printed error is its category in brackets, then its description. *)
Lemma ProxyError_fmt_category e : ProxyError_fmt e = ("[" +:+ category e +:+ "] " +:+ description e)%string.
Proof. by destruct e. Qed.

Lemma ConnectionState_serialize_roundtrip s :
  ConnectionState_deserialize (ConnectionState_serialize s) = Some s.
Proof. by destruct s. Qed.

(** ** Theorems: frames *)

(** The arrays [parse] takes, with the type and unique id they carry: a Call has at least
    four elements with a string for its action, a CallResult and a CallError have at least
    three, whatever is in the third place, and whatever follows. *)
Inductive frame_shape : list Value → OcppMessageType → string → Prop :=
  | shape_call uid action payload rest :
      frame_shape (json_u 2 :: VString uid :: VString action :: payload :: rest) (Call action) uid
  | shape_result uid payload rest :
      frame_shape (json_u 3 :: VString uid :: payload :: rest) CallResult uid
  | shape_error uid code rest :
      frame_shape (json_u 4 :: VString uid :: code :: rest) CallError uid.

(** The arrays the comment of [parse] describes: four, three and five elements. *)
Inductive documented_shape : list Value → OcppMessageType → string → Prop :=
  | documented_call uid action payload :
      documented_shape [json_u 2; VString uid; VString action; payload] (Call action) uid
  | documented_result uid payload :
      documented_shape [json_u 3; VString uid; payload] CallResult uid
  | documented_error uid code description details :
      documented_shape [json_u 4; VString uid; VString code; VString description; details] CallError uid.

Lemma documented_frame arr mt uid : documented_shape arr mt uid → frame_shape arr mt uid.
Proof. destruct 1; constructor. Qed.

Lemma as_u64_Some v z : as_u64 v = Some z → v = json_u z.
Proof. destruct v as [| |[z'|]| | |]; simpl; try done. destruct (in_u64 z'); naive_solver. Qed.

Lemma as_str_Some v s : as_str v = Some s → v = VString s.
Proof. destruct v; naive_solver. Qed.

Lemma as_array_Some v l : as_array v = Some l → v = VArray l.
Proof. destruct v; naive_solver. Qed.

Lemma ok_or_Ok {A E} (o : option A) (e : E) a : ok_or o e = Ok a ↔ o = Some a.
Proof. destruct o; simpl; naive_solver. Qed.

Section parse_lemmas.
Context `{SerdeJson}.

Lemma frame_type_shape t uid arr mt :
  (3 ≤ length arr)%nat →
  nth 0 arr VNull = json_u t → nth 1 arr VNull = VString uid →
  frame_type t arr = Ok mt → frame_shape arr mt uid.
Proof.
  destruct arr as [|v0 [|v1 [|v2 rest]]]; simpl; try lia. intros _ -> ->.
  unfold frame_type. simpl.
  destruct (Z.eqb_spec t 2) as [->|].
  { destruct rest as [|p rest]; simpl; [done|].
    destruct (as_str v2) as [s|] eqn:Hs; simpl; [|done].
    apply as_str_Some in Hs as ->. intros [= <-]. constructor. }
  destruct (Z.eqb_spec t 3) as [->|]; [intros [= <-]; constructor|].
  destruct (Z.eqb_spec t 4) as [->|]; [intros [= <-]; constructor|done].
Qed.

Lemma parse_Ok now text f :
  parse now text = Ok f →
  ∃ arr, from_str text = Ok (VArray arr) ∧ frame_shape arr (message_type f) (unique_id f) ∧
         raw f = text ∧ received_at f = now.
Proof.
  unfold parse. destruct (from_str text) as [v|] eqn:Htext; simpl; [|done].
  destruct (as_array v) as [arr|] eqn:Harr; simpl; [|done].
  apply as_array_Some in Harr as ->.
  case_decide as Hlen; [done|].
  destruct (as_u64 _) as [t|] eqn:Ht; simpl; [|done].
  destruct (as_str _) as [uid|] eqn:Hu; simpl; [|done].
  destruct (frame_type t arr) as [mt|] eqn:Hmt; [|done]. intros [= <-]. simpl.
  exists arr. split_and!; try done.
  eapply frame_type_shape; eauto using as_u64_Some, as_str_Some. lia.
Qed.

Lemma parse_shape now text arr mt uid :
  from_str text = Ok (VArray arr) → frame_shape arr mt uid →
  parse now text = Ok (mkFrame text mt uid now).
Proof. intros Htext Hs. unfold parse. rewrite Htext. by destruct Hs. Qed.

Lemma parse_raw now text f : parse now text = Ok f → raw f = text.
Proof. intros (? & ? & ? & ? & ?)%parse_Ok. done. Qed.

Lemma parse_now now now' text f :
  parse now text = Ok f → parse now' text = Ok (mkFrame text (message_type f) (unique_id f) now').
Proof. intros (arr & ? & ? & ? & ?)%parse_Ok. by eapply parse_shape. Qed.

Lemma parse_Err now text e : parse now text = Err e → category e = "protocol"%string.
Proof. unfold parse, frame_type, ok_or. intros Hp. by case_hyp Hp; repeat case_decide; simplify_eq/=. Qed.

(** C34. What parsing accepts, exactly: the text is a JSON array that begins with 2, a string
    id, a string action and a payload; with 3, an id and a payload; or with 4, an id and
    anything in the place of the error code; further elements are allowed in each. The
    frame keeps the text byte for byte, with the message type and the unique id read from
    it. Every message of the documented formats, of four, three and five elements, is
    accepted; more is ([undocumented_accepted]). *)
Theorem parse_correct now text f :
  (parse now text = Ok f ↔
   ∃ arr, from_str text = Ok (VArray arr) ∧ frame_shape arr (message_type f) (unique_id f) ∧
          raw f = text ∧ received_at f = now) ∧
  (∀ arr mt uid, from_str text = Ok (VArray arr) → documented_shape arr mt uid →
     parse now text = Ok (mkFrame text mt uid now)).
Proof.
  split; [split; [apply parse_Ok|]|].
  - intros (arr & Htext & Hs & <- & <-). rewrite (parse_shape _ _ _ _ _ Htext Hs). by destruct f.
  - intros arr mt uid Htext Hs. by eapply parse_shape, documented_frame.
Qed.

(** Finding: parsing accepts what the documented formats do not allow: a CallError of three
    elements whose code is no string, and a Call with elements to spare. *)
Theorem undocumented_accepted now short long uid uid' action payload extra :
  from_str short = Ok (VArray [json_u 4; VString uid; VNull]) →
  from_str long = Ok (VArray [json_u 2; VString uid'; VString action; payload; extra]) →
  parse now short = Ok (mkFrame short CallError uid now) ∧ parse now long = Ok (mkFrame long (Call action) uid' now) ∧
  (∀ mt id, ¬ documented_shape [json_u 4; VString uid; VNull] mt id) ∧
  (∀ mt id, ¬ documented_shape [json_u 2; VString uid'; VString action; payload; extra] mt id).
Proof.
  intros Hs Hl. split_and!; [eapply parse_shape; [exact Hs|constructor]|eapply parse_shape; [exact Hl|constructor]|..];
    intros mt id Hd; inversion Hd.
Qed.
End parse_lemmas.

(** ** Theorems: backoff *)

Lemma next_delay_Some b d b' :
  next_delay b = Some (d, b') →
  d = Z.min (bo_current b) (bo_max b) ∧ bo_initial b' = bo_initial b ∧
  bo_max b' = bo_max b ∧ bo_multiplier b' = bo_multiplier b.
Proof. unfold next_delay. intros ?. by simplify_option_eq. Qed.

Lemma next_delay_le_max b d b' : next_delay b = Some (d, b') → d ≤ bo_max b.
Proof. intros (-> & _)%next_delay_Some. lia. Qed.

(** The [k]-th delay of the upstream schedule, in seconds. *)
Definition doubling (initial max : Z) (k : nat) : Z := Z.min (initial * 2 ^ Z.of_nat k) max.

(** One step of the schedule: doubled, then capped. *)
Definition schedule_step_ok (initial max : Z) (k : nat) : bool :=
  bool_decide
    (from_secs_f64 (fmin (fmul (as_secs_f64 (from_secs (doubling initial max k))) (of_Z 2))
                         (as_secs_f64 (from_secs max)))
     = Some (from_secs (doubling initial max (S k)))).

(** Whole seconds up to twenty minutes are exact as doubles, and so are their doubles. *)
Lemma whole_seconds_table :
  forallb (λ n, let v := Z.of_nat n in
    bool_decide (as_secs_f64 (from_secs v) = of_Z v) && bool_decide (fmul (of_Z v) (of_Z 2) = of_Z (2 * v)) &&
    bool_decide (from_secs_f64 (of_Z v) = Some (from_secs v))) (seq 0 601) = true.
Proof. vm_compute. reflexivity. Qed.

Lemma whole_seconds v :
  0 ≤ v ≤ 600 →
  as_secs_f64 (from_secs v) = of_Z v ∧ fmul (of_Z v) (of_Z 2) = of_Z (2 * v) ∧
  from_secs_f64 (of_Z v) = Some (from_secs v).
Proof.
  intros Hv. pose proof whole_seconds_table as H. rewrite forallb_forall in H.
  specialize (H (Z.to_nat v) ltac:(apply in_seq; lia)). cbv zeta in H. rewrite Z2Nat.id in H by lia.
  apply andb_true_iff in H as [[H1 H2]%andb_true_iff H3].
  by apply bool_decide_eq_true_1 in H1, H2, H3.
Qed.

(** The doubles of the delays that can come before the maximum. *)
Definition powers : list Z := [2; 4; 8; 16; 32; 64; 128; 256; 512; 1024].

Lemma min_table :
  forallb (λ n, let m := Z.of_nat n in let a := of_Z m in
    bool_decide (fmin (of_Z (2 * m)) a = a) &&
    forallb (λ p, bool_decide (fmin (of_Z p) a = of_Z (Z.min p m))) powers) (seq 0 601) = true.
Proof. vm_compute. reflexivity. Qed.

Lemma min_exact p m :
  0 ≤ m ≤ 600 → p = 2 * m ∨ In p powers → fmin (of_Z p) (of_Z m) = of_Z (Z.min p m).
Proof.
  intros Hm Hp. pose proof min_table as H. rewrite forallb_forall in H.
  specialize (H (Z.to_nat m) ltac:(apply in_seq; lia)). cbv zeta in H. rewrite Z2Nat.id in H by lia.
  apply andb_true_iff in H as [H1 H2]. apply bool_decide_eq_true_1 in H1.
  destruct Hp as [->|Hp]; [rewrite H1; f_equal; lia|].
  rewrite forallb_forall in H2. by apply H2, bool_decide_eq_true_1 in Hp.
Qed.

Lemma doubling_saturates i m k : 1 ≤ i → m ≤ 600 → (10 ≤ k)%nat → doubling i m k = m.
Proof.
  intros Hi Hm Hk. unfold doubling.
  assert (2 ^ 10 ≤ 2 ^ Z.of_nat k) by (apply Z.pow_le_mono_r; lia). nia.
Qed.

Lemma doubling_next i m k :
  1 ≤ i → 0 ≤ m → Z.min (2 * doubling i m k) m = doubling i m (S k).
Proof. unfold doubling. rewrite Nat2Z.inj_succ, Z.pow_succ_r by lia. lia. Qed.

Lemma doubling_power i m k :
  i = 1 ∨ i = 2 → 0 ≤ m ≤ 600 → 2 * doubling i m k = 2 * m ∨ In (2 * doubling i m k) powers.
Proof.
  intros Hi Hm. destruct (decide (10 ≤ k)%nat) as [Hk|Hk].
  { left. rewrite doubling_saturates by lia. done. }
  unfold doubling. assert (i * 2 ^ Z.of_nat k < m ∨ m ≤ i * 2 ^ Z.of_nat k) as [Hlt|Hge] by lia.
  - right. rewrite Z.min_l by lia. unfold powers.
    assert (k = 0 ∨ k = 1 ∨ k = 2 ∨ k = 3 ∨ k = 4 ∨ k = 5 ∨ k = 6 ∨ k = 7 ∨ k = 8 ∨ k = 9)%nat as Hks by lia.
    destruct Hi as [-> | ->]; repeat destruct Hks as [-> | Hks]; try subst k; simpl in *; try lia; tauto.
  - left. rewrite Z.min_r by lia. done.
Qed.

Lemma schedule_step i m k :
  i = 1 ∨ i = 2 → 0 ≤ m ≤ 600 → schedule_step_ok i m k = true.
Proof.
  intros Hi Hm. unfold schedule_step_ok. apply bool_decide_eq_true_2.
  assert (∀ j, 0 ≤ doubling i m j ≤ 600) as Hd.
  { intros j. unfold doubling. assert (0 ≤ 2 ^ Z.of_nat j) by (apply Z.pow_nonneg; lia). nia. }
  destruct (whole_seconds (doubling i m k) (Hd k)) as (-> & -> & _).
  destruct (whole_seconds m Hm) as (-> & _).
  rewrite min_exact by (done || by apply doubling_power). rewrite doubling_next by lia.
  apply whole_seconds, Hd.
Qed.

Lemma delays_schedule i m n k :
  i = 1 ∨ i = 2 → 0 ≤ m ≤ 600 →
  delays n (mkBackoff (from_secs i) (from_secs m) (from_secs (doubling i m k)) (of_Z 2)) =
  Some (map (λ j, from_secs (doubling i m j)) (seq k n),
        mkBackoff (from_secs i) (from_secs m) (from_secs (doubling i m (k + n))) (of_Z 2)).
Proof.
  intros Hi Hm. revert k. induction n as [|n IH]; intros k; simpl.
  { by rewrite Nat.add_0_r. }
  pose proof (schedule_step i m k Hi Hm) as Hs. apply bool_decide_eq_true_1 in Hs.
  unfold next_delay. cbn [bo_current bo_max bo_multiplier bo_initial].
  rewrite Hs. cbn [mbind option_bind]. rewrite IH. cbn [mbind option_bind].
  replace (k + S n)%nat with (S k + n)%nat by lia. do 4 f_equal.
  unfold from_secs, doubling, NANOS. lia.
Qed.

(** A backoff somewhere on its schedule. *)
Definition on_schedule (i m : Z) (b : ExponentialBackoff) : Prop :=
  ∃ k, b = mkBackoff (from_secs i) (from_secs m) (from_secs (doubling i m k)) (of_Z 2).

Lemma next_delay_on_schedule i m b :
  (i = 1 ∨ i = 2) → i ≤ m ≤ 600 → on_schedule i m b →
  ∃ d b', next_delay b = Some (d, b') ∧ on_schedule i m b' ∧ from_secs i ≤ d ≤ from_secs m.
Proof.
  intros Hi Hm [k ->]. pose proof (schedule_step i m k Hi ltac:(lia)) as Hs.
  apply bool_decide_eq_true_1 in Hs.
  exists (from_secs (doubling i m k)), (mkBackoff (from_secs i) (from_secs m) (from_secs (doubling i m (S k))) (of_Z 2)).
  assert (i <= doubling i m k <= m).
  { unfold doubling. assert (1 ≤ 2 ^ Z.of_nat k) by (apply (Z.pow_le_mono_r 2 0); lia). nia. }
  split_and!; [|by exists (S k)|unfold from_secs, NANOS; lia..].
  unfold next_delay. cbn [bo_current bo_max bo_multiplier bo_initial]. rewrite Hs. cbn [mbind option_bind].
  rewrite Z.min_l by (unfold from_secs, NANOS; lia). done.
Qed.

Lemma on_schedule_reset i m b : i ≤ m → on_schedule i m b → on_schedule i m (backoff_reset b).
Proof.
  intros Him [k ->]. exists O. unfold backoff_reset, doubling. simpl. by rewrite Z.mul_1_r, Z.min_l by lia.
Qed.

Lemma on_schedule_new i m : i ≤ m → on_schedule i m (backoff_with_defaults (from_secs i) (from_secs m)).
Proof. intros Him. exists O. unfold doubling. by rewrite Z.mul_1_r, Z.min_l by lia. Qed.

(** C35. The reconnection schedules are the documented ones: starting at one or two
    seconds, and for every maximum up to ten minutes, drawing [n] delays never panics
    and gives [min(initial * 2^k, max)] seconds for [k = 0 .. n-1]; a reset starts
    the schedule over. *)
Theorem backoff_schedule i m n :
  i = 1 ∨ i = 2 → i ≤ m ≤ 600 →
  ∃ b, delays n (backoff_with_defaults (from_secs i) (from_secs m)) =
         Some (map (λ k, from_secs (Z.min (i * 2 ^ Z.of_nat k) m)) (seq 0 n), b) ∧
       backoff_reset b = backoff_with_defaults (from_secs i) (from_secs m).
Proof.
  intros Hi Hm. eexists.
  assert (backoff_with_defaults (from_secs i) (from_secs m) =
          mkBackoff (from_secs i) (from_secs m) (from_secs (doubling i m 0)) (of_Z 2)) as ->.
  { unfold doubling. rewrite Z.mul_1_r, Z.min_l by lia. done. }
  rewrite delays_schedule by (done || lia). split; [done|].
  unfold backoff_reset, doubling. simpl. rewrite Z.mul_1_r, Z.min_l by lia. done.
Qed.

Lemma backoff_schedule_witness :
  ∃ b, delays 7 (backoff_with_defaults (from_secs 2) (from_secs 60)) =
         Some (map from_secs [2; 4; 8; 16; 32; 60; 60], b) ∧
       backoff_reset b = backoff_with_defaults (from_secs 2) (from_secs 60).
Proof. apply (backoff_schedule 2 60 7); [by right|lia]. Defined.

(** A parser that knows three texts. *)
#[local] Instance three_texts : SerdeJson := {
  from_str text :=
    if decide (text = "[2,'7','Heartbeat',{}]")%string then
      Ok (VArray [json_u 2; VString "7"; VString "Heartbeat"; VObject []])
    else if decide (text = "[4,'8',null]")%string then Ok (VArray [json_u 4; VString "8"; VNull])
    else if decide (text = "[2,'9','Heartbeat',{},1]")%string then
      Ok (VArray [json_u 2; VString "9"; VString "Heartbeat"; VObject []; json_u 1])
    else Err "expected value"%string;
  to_json v := Err "not written"%string
}.

Lemma parse_correct_witness :
  parse 5 "[2,'7','Heartbeat',{}]" = Ok (mkFrame "[2,'7','Heartbeat',{}]" (Call "Heartbeat") "7" 5) ∧
  parse 5 "hello" ≠ Ok (mkFrame "hello" CallResult "7" 5).
Proof.
  split.
  - apply (proj2 (parse_correct 5 "[2,'7','Heartbeat',{}]" (mkFrame "[2,'7','Heartbeat',{}]" (Call "Heartbeat") "7" 5))
      [json_u 2; VString "7"; VString "Heartbeat"; VObject []] (Call "Heartbeat") "7"%string); [reflexivity|constructor].
  - intros E. apply parse_correct in E as (arr & Hf & _). vm_compute in Hf. discriminate Hf.
Defined.

Lemma undocumented_accepted_witness :
  parse 5 "[4,'8',null]" = Ok (mkFrame "[4,'8',null]" CallError "8" 5) ∧
  parse 5 "[2,'9','Heartbeat',{},1]" = Ok (mkFrame "[2,'9','Heartbeat',{},1]" (Call "Heartbeat") "9" 5).
Proof.
  destruct (undocumented_accepted 5 "[4,'8',null]" "[2,'9','Heartbeat',{},1]" "8" "9" "Heartbeat" (VObject []) (json_u 1)) as (H1 & H2 & _);
    [reflexivity..|]. exact (conj H1 H2).
Defined.
