(* ===== verification/StateManager.v ===== *)
(** * Connection state manager and health endpoint (src/state.rs, src/health.rs)

    The process-wide record of the three connections, with the events it
    broadcasts, the message counters, and the health status the HTTP endpoint
    derives from it. The broadcast channel is the list of events sent to it;
    the code ignores whether anybody receives them. *)

From S2P Require Import Prelude Json Models.

Local Open Scope Z_scope.

Inductive HealthStatus := Healthy | Idle | Degraded | Unhealthy.

#[export] Instance HealthStatus_eq_dec : EqDecision HealthStatus.
Proof. solve_decision. Defined.

Record ConnectionMetrics := mkMetrics {
  charger_to_central_forwarded : Z;
  charger_to_central_dropped : Z;
  central_to_charger_forwarded : Z;
  central_to_charger_dropped : Z
}.

Definition metrics_default : ConnectionMetrics := mkMetrics 0 0 0 0.

Record ConnectionStateManager := mkManager {
  upstream_state : ConnectionState;
  downstream_state : ConnectionState;
  mqtt_state : ConnectionState;
  listener_bound : bool;
  state_tx : list StateChange;
  metrics : ConnectionMetrics
}.

(** [ConnectionStateManager::new]. *)
Definition manager_new : ConnectionStateManager :=
  mkManager Disconnected Disconnected Disconnected false [] metrics_default.

(** The field [transition] selects. *)
Definition state_of (m : ConnectionStateManager) (c : ConnectionId) : ConnectionState :=
  match c with
  | Upstream => upstream_state m
  | Downstream => downstream_state m
  | Mqtt => mqtt_state m
  end.

Definition set_state_of (m : ConnectionStateManager) (c : ConnectionId) (s : ConnectionState) :
    ConnectionStateManager :=
  match c with
  | Upstream => mkManager s (downstream_state m) (mqtt_state m) (listener_bound m) (state_tx m) (metrics m)
  | Downstream => mkManager (upstream_state m) s (mqtt_state m) (listener_bound m) (state_tx m) (metrics m)
  | Mqtt => mkManager (upstream_state m) (downstream_state m) s (listener_bound m) (state_tx m) (metrics m)
  end.

Definition broadcast (m : ConnectionStateManager) (e : StateChange) : ConnectionStateManager :=
  mkManager (upstream_state m) (downstream_state m) (mqtt_state m) (listener_bound m)
            (state_tx m ++ [e]) (metrics m).

(** [ConnectionStateManager::transition], at the time [now]. *)
Definition transition (now : Z) (m : ConnectionStateManager) (conn : ConnectionId)
    (new_state : ConnectionState) : ConnectionStateManager :=
  let old_state := state_of m conn in
  if decide (old_state = new_state) then m
  else broadcast (set_state_of m conn new_state) (mkStateChange conn old_state new_state now).

(** [set_listener_bound]. *)
Definition set_listener_bound (m : ConnectionStateManager) (bound : bool) : ConnectionStateManager :=
  mkManager (upstream_state m) (downstream_state m) (mqtt_state m) bound (state_tx m) (metrics m).

(** [health_status]. *)
Definition health_status (m : ConnectionStateManager) : HealthStatus :=
  if negb (listener_bound m) then Unhealthy
  else if negb (bool_decide (downstream_state m = Connected)) then Idle
  else
    match upstream_state m with
    | Connected => if bool_decide (mqtt_state m = Connected) then Healthy else Degraded
    | Connecting | Reconnecting => Degraded
    | Disconnected => Unhealthy
    end.

Definition set_metrics (m : ConnectionStateManager) (x : ConnectionMetrics) : ConnectionStateManager :=
  mkManager (upstream_state m) (downstream_state m) (mqtt_state m) (listener_bound m) (state_tx m) x.

(** [record_forwarded]: [+= 1] on a 64-bit counter. *)
Definition record_forwarded (m : ConnectionStateManager) (d : Direction) : ConnectionStateManager :=
  let x := metrics m in
  set_metrics m
    match d with
    | ChargerToCentral =>
        mkMetrics (wrap_u64 (charger_to_central_forwarded x + 1)) (charger_to_central_dropped x)
                  (central_to_charger_forwarded x) (central_to_charger_dropped x)
    | CentralToCharger =>
        mkMetrics (charger_to_central_forwarded x) (charger_to_central_dropped x)
                  (wrap_u64 (central_to_charger_forwarded x + 1)) (central_to_charger_dropped x)
    end.

(** [record_dropped]. *)
Definition record_dropped (m : ConnectionStateManager) (d : Direction) (count : Z) : ConnectionStateManager :=
  let x := metrics m in
  set_metrics m
    match d with
    | ChargerToCentral =>
        mkMetrics (charger_to_central_forwarded x) (wrap_u64 (charger_to_central_dropped x + count))
                  (central_to_charger_forwarded x) (central_to_charger_dropped x)
    | CentralToCharger =>
        mkMetrics (charger_to_central_forwarded x) (charger_to_central_dropped x)
                  (central_to_charger_forwarded x) (wrap_u64 (central_to_charger_dropped x + count))
    end.

(** [for _ in 0..n { mgr.record_forwarded(d) }]. *)
Fixpoint record_forwarded_n (n : nat) (m : ConnectionStateManager) (d : Direction) : ConnectionStateManager :=
  match n with O => m | S n => record_forwarded_n n (record_forwarded m d) d end.

(** ** The health endpoint *)

Record HealthResponse := mkHealthResponse {
  hr_status : HealthStatus;
  hr_upstream : ConnectionState;
  hr_downstream : ConnectionState;
  hr_mqtt : ConnectionState;
  hr_listening : bool;
  hr_uptime_seconds : Z;
  hr_messages : ConnectionMetrics
}.

Inductive StatusCode := OK | SERVICE_UNAVAILABLE.

#[export] Instance StatusCode_eq_dec : EqDecision StatusCode.
Proof. solve_decision. Defined.

(** The derived [Serialize] of the response and of its parts. *)
Definition HealthStatus_serialize (s : HealthStatus) : Value :=
  VString match s with
          | Healthy => "healthy"
          | Idle => "idle"
          | Degraded => "degraded"
          | Unhealthy => "unhealthy"
          end.

Definition HealthResponse_to_value (r : HealthResponse) : Value :=
  VObject
    [("status", HealthStatus_serialize (hr_status r));
     ("upstream", ConnectionState_serialize (hr_upstream r));
     ("downstream", ConnectionState_serialize (hr_downstream r));
     ("mqtt", ConnectionState_serialize (hr_mqtt r));
     ("listening", VBool (hr_listening r));
     ("uptime_seconds", json_u (hr_uptime_seconds r));
     ("messages", VObject
        [("charger_to_central_forwarded", json_u (charger_to_central_forwarded (hr_messages r)));
         ("charger_to_central_dropped", json_u (charger_to_central_dropped (hr_messages r)));
         ("central_to_charger_forwarded", json_u (central_to_charger_forwarded (hr_messages r)));
         ("central_to_charger_dropped", json_u (central_to_charger_dropped (hr_messages r)))])]%string.

(** [health_handler], [uptime] after the start of the proxy. *)
Definition health_handler (m : ConnectionStateManager) (uptime : Z) : StatusCode * HealthResponse :=
  let response :=
    mkHealthResponse (health_status m) (upstream_state m) (downstream_state m) (mqtt_state m)
      (listener_bound m) (uptime / NANOS)
      (mkMetrics (charger_to_central_forwarded (metrics m)) (charger_to_central_dropped (metrics m))
                 (central_to_charger_forwarded (metrics m)) (central_to_charger_dropped (metrics m))) in
  let http_status :=
    match hr_status response with
    | Healthy | Idle | Degraded => OK
    | Unhealthy => SERVICE_UNAVAILABLE
    end in
  (http_status, response).

(** ** Lemmas: states and events *)

Lemma state_of_set m c c' s :
  state_of (set_state_of m c s) c' = if decide (c = c') then s else state_of m c'.
Proof. by destruct c, c'. Qed.

Lemma state_of_transition now m c c' s :
  state_of (transition now m c s) c' = if decide (c = c') then s else state_of m c'.
Proof.
  unfold transition. case_decide as Hs.
  - case_decide; [by subst|done].
  - rewrite <- state_of_set. by destruct c, c'.
Qed.

Lemma transition_same now m c s : state_of m c = s → transition now m c s = m.
Proof. intros <-. unfold transition. by case_decide. Qed.

Lemma listener_bound_transition now m c s : listener_bound (transition now m c s) = listener_bound m.
Proof. unfold transition. case_decide; [done|]. by destruct c. Qed.

Lemma metrics_transition now m c s : metrics (transition now m c s) = metrics m.
Proof. unfold transition. case_decide; [done|]. by destruct c. Qed.

Lemma state_of_record m c d n : state_of (record_forwarded m d) c = state_of m c ∧
  state_of (record_dropped m d n) c = state_of m c.
Proof. by destruct c, d. Qed.

Lemma record_forwarded_n_states n m d :
  upstream_state (record_forwarded_n n m d) = upstream_state m ∧
  downstream_state (record_forwarded_n n m d) = downstream_state m.
Proof. revert m. induction n as [|n IH]; intros m; simpl; [done|]. rewrite !(proj1 (IH _)), (proj2 (IH _)). by destruct d. Qed.

(** The events of one connection. *)
Definition events_of (c : ConnectionId) (l : list StateChange) : list StateChange :=
  List.filter (λ e, bool_decide (connection e = c)) l.

(** The events lead from [s] to [t] with each step a real change. *)
Fixpoint event_path (s : ConnectionState) (l : list StateChange) (t : ConnectionState) : Prop :=
  match l with
  | [] => s = t
  | e :: rest => previous e = s ∧ previous e ≠ current e ∧ event_path (current e) rest t
  end.

Lemma event_path_app s t u l1 l2 :
  event_path s l1 t → event_path t l2 u → event_path s (l1 ++ l2) u.
Proof. revert s. induction l1 as [|e l1 IH]; simpl; intros s; [by intros ->|]. intros (? & ? & ?) ?. eauto. Qed.

(** An operation on the manager, as its clients call them. *)
Inductive ManagerOp :=
  | OpTransition (now : Z) (c : ConnectionId) (s : ConnectionState)
  | OpListener (bound : bool)
  | OpForwarded (d : Direction)
  | OpDropped (d : Direction) (n : Z).

Definition apply_op (m : ConnectionStateManager) (op : ManagerOp) : ConnectionStateManager :=
  match op with
  | OpTransition now c s => transition now m c s
  | OpListener b => set_listener_bound m b
  | OpForwarded d => record_forwarded m d
  | OpDropped d n => record_dropped m d n
  end.

Definition log_inv (m : ConnectionStateManager) : Prop :=
  ∀ c, event_path Disconnected (events_of c (state_tx m)) (state_of m c).

Lemma log_inv_op m op : log_inv m → log_inv (apply_op m op).
Proof.
  intros Hm c. destruct op as [now c' s|b|d|d n]; simpl;
    pose proof (Hm c) as Hc; [clear Hc|by destruct c|by destruct d, c|by destruct d, c].
  rewrite state_of_transition. unfold transition. case_decide as Heq.
  - case_decide; [subst|]; apply Hm.
  - replace (state_tx (broadcast _ _)) with (state_tx m ++ [mkStateChange c' (state_of m c') s now])
      by (by destruct c').
    unfold events_of. rewrite List.filter_app. simpl.
    case_decide as Hc; [subst c'; rewrite bool_decide_eq_true_2 by done|rewrite bool_decide_eq_false_2 by done].
    + eapply event_path_app; [apply Hm|done].
    + rewrite app_nil_r. apply Hm.
Qed.

(** The broadcast log of any run of the manager is faithful: for each of the
    three connections its events form a path of real changes from [Disconnected]
    to the connection's present state, so a subscriber that replays them knows the
    state. *)
Theorem transition_log_path ops c :
  let m := foldl apply_op manager_new ops in
  event_path Disconnected (events_of c (state_tx m)) (state_of m c).
Proof.
  simpl. revert c. change (log_inv (foldl apply_op manager_new ops)).
  assert (log_inv manager_new) as Hm by (by intros []).
  revert Hm. generalize manager_new as m. induction ops as [|op ops IH]; simpl; auto using log_inv_op.
Qed.

(** The health endpoint answers 503 exactly when the listener is not bound, or a
    charger is connected while the upstream connection is down; it reports [Idle]
    whenever it listens and no charger is connected, and [Healthy] exactly when the
    listener and all three connections are up. *)
Theorem health_table m uptime :
  (fst (health_handler m uptime) = SERVICE_UNAVAILABLE ↔
     listener_bound m = false ∨ (downstream_state m = Connected ∧ upstream_state m = Disconnected)) ∧
  (hr_status (snd (health_handler m uptime)) = Idle ↔
     listener_bound m = true ∧ downstream_state m ≠ Connected) ∧
  (hr_status (snd (health_handler m uptime)) = Healthy ↔
     listener_bound m = true ∧ ∀ c, state_of m c = Connected).
Proof.
  destruct m as [u d q b l x]. unfold health_handler, health_status. simpl.
  split_and!; (split; [|intros H]).
  all: try (destruct b, u, d, q; simpl; naive_solver).
  - destruct b, u, d, q; simpl; intros; split; try done; by intros [].
  - destruct H as [-> H]. pose proof (H Upstream). pose proof (H Downstream). pose proof (H Mqtt).
    by simplify_eq/=.
Qed.
