(* ===== verification/Config.v ===== *)
(** * Configuration (src/config.rs)

    The configuration records with their defaults, validation, the report of
    missing parameters and the loading pipeline. Reading the YAML file and the
    environment, and deserialising them, is the [config] crate: parameters of
    [load_from_path]. Whether a file exists and can be read is asked of the
    operating system: parameters of [validate]. *)

From S2P Require Import Prelude Float64 Models.

Local Open Scope Z_scope.

Inductive LogLevel := Debug | Info | Warning | Error.

(** [impl Display for LogLevel]. *)
Definition LogLevel_fmt (l : LogLevel) : string :=
  match l with Debug => "DEBUG" | Info => "INFO" | Warning => "WARNING" | Error => "ERROR" end.

#[export] Instance LogLevel_eq_dec : EqDecision LogLevel.
Proof. solve_decision. Defined.

(** [std::net::IpAddr]: the bits of a version 4 or version 6 address. *)
Inductive IpAddr := V4 (bits : Z) | V6 (bits : Z).

Definition is_ipv4 (a : IpAddr) : bool := match a with V4 _ => true | V6 _ => false end.

#[export] Instance IpAddr_eq_dec : EqDecision IpAddr.
Proof. solve_decision. Defined.

(** ** Defaults *)

Definition default_health_port : Z := 8080.
Definition default_listen_address : IpAddr := V4 0.
Definition default_log_level : LogLevel := Info.
Definition default_message_buffer : nat := 100.
Definition default_mqtt_buffer : nat := 500.
Definition default_max_backoff : Z := 60.
Definition default_state_file : string := "/var/lib/ocpp-proxy/state.json".

Record MqttConfig := mkMqttConfig {
  host : string;
  mqtt_port : Z;
  username : string;
  password : string;
  ca_cert_path : option string;
  client_cert_path : option string;
  client_key_path : option string
}.

(** [MqttConfig::tls_enabled], [::client_auth_enabled]. *)
Definition tls_enabled (m : MqttConfig) : bool := bool_decide (is_Some (ca_cert_path m)).
Definition client_auth_enabled (m : MqttConfig) : bool :=
  bool_decide (is_Some (client_cert_path m)) && bool_decide (is_Some (client_key_path m)).

Record BufferConfig := mkBufferConfig {
  message_buffer_size : nat;
  mqtt_buffer_size : nat;
  max_backoff_seconds : Z
}.

Definition BufferConfig_default : BufferConfig :=
  mkBufferConfig default_message_buffer default_mqtt_buffer default_max_backoff.

(** ** Charging *)

Inductive ChargingProfilePurpose := ChargePointMaxProfile | TxDefaultProfile.
Inductive ChargingProfileKind := Absolute | Relative.
Inductive ChargingRateUnit := Amps | Watts.

#[export] Instance ChargingProfilePurpose_eq_dec : EqDecision ChargingProfilePurpose.
Proof. solve_decision. Defined.
#[export] Instance ChargingProfileKind_eq_dec : EqDecision ChargingProfileKind.
Proof. solve_decision. Defined.
#[export] Instance ChargingRateUnit_eq_dec : EqDecision ChargingRateUnit.
Proof. solve_decision. Defined.

Definition purpose_as_str (p : ChargingProfilePurpose) : string :=
  match p with
  | ChargePointMaxProfile => "ChargePointMaxProfile"
  | TxDefaultProfile => "TxDefaultProfile"
  end.
Definition kind_as_str (k : ChargingProfileKind) : string :=
  match k with Absolute => "Absolute" | Relative => "Relative" end.
Definition rate_unit_as_str (u : ChargingRateUnit) : string :=
  match u with Amps => "A" | Watts => "W" end.

Definition default_max_limit_a : f64 := of_Z 32.
Definition default_min_limit_a : f64 := of_Z 6.
Definition default_profile_id : Z := 1001.
Definition default_purpose : ChargingProfilePurpose := TxDefaultProfile.
Definition default_profile_kind : ChargingProfileKind := Absolute.
Definition default_rate_unit : ChargingRateUnit := Amps.
Definition default_number_phases : option Z := Some 1.
Definition default_nominal_voltage : f64 := of_Z 230.
Definition default_command_timeout : Z := 30.
Definition default_true : bool := true.
Definition default_allowed_configuration_keys : list string :=
  ["MeterValueSampleInterval"; "MeterValuesSampledData"; "ClockAlignedDataInterval";
   "MeterValuesAlignedData"; "StopTxnSampledData"; "StopTxnAlignedData"].

Record ChargingConfig := mkChargingConfig {
  enabled : bool;
  max_limit_a : f64;
  min_limit_a : f64;
  connector_id : Z;
  profile_id : Z;
  stack_level : Z;
  purpose : ChargingProfilePurpose;
  profile_kind : ChargingProfileKind;
  rate_unit : ChargingRateUnit;
  number_phases : option Z;
  nominal_voltage_v : f64;
  command_timeout_seconds : Z;
  reapply_on_connect : bool;
  allowed_configuration_keys : list string
}.

#[export] Instance ChargingConfig_eq_dec : EqDecision ChargingConfig.
Proof. solve_decision. Defined.

(** [ChargingConfig::default]. *)
Definition ChargingConfig_default : ChargingConfig :=
  mkChargingConfig false default_max_limit_a default_min_limit_a 0 default_profile_id 0
    default_purpose default_profile_kind default_rate_unit default_number_phases
    default_nominal_voltage default_command_timeout true default_allowed_configuration_keys.

(** [ChargingConfig::command_timeout]. *)
Definition command_timeout (c : ChargingConfig) : Z := from_secs (command_timeout_seconds c).

(** An [if] of a validation: the message, when the test holds. *)
Definition check (bad : bool) (msg : string) : list string := if bad then [msg] else [].

Definition bad_max_limit (c : ChargingConfig) : bool :=
  negb (is_finite (max_limit_a c)) || fle (max_limit_a c) fzero || flt (of_Z 80) (max_limit_a c).
Definition bad_min_limit (c : ChargingConfig) : bool :=
  negb (is_finite (min_limit_a c)) || flt (min_limit_a c) fzero.
Definition bad_limit_order (c : ChargingConfig) : bool := flt (max_limit_a c) (min_limit_a c).
Definition bad_profile_id (c : ChargingConfig) : bool := profile_id c <=? 0.
Definition bad_connector (c : ChargingConfig) : bool :=
  bool_decide (purpose c = ChargePointMaxProfile) && negb (connector_id c =? 0).
Definition bad_phases (c : ChargingConfig) : bool :=
  match number_phases c with Some p => (p =? 0) || (4 <=? p) | None => false end.
Definition bad_voltage (c : ChargingConfig) : bool :=
  negb (is_finite (nominal_voltage_v c))
  || negb (fle (of_Z 100) (nominal_voltage_v c) && fle (nominal_voltage_v c) (of_Z 480)).
Definition bad_timeout (c : ChargingConfig) : bool :=
  negb ((1 <=? command_timeout_seconds c) && (command_timeout_seconds c <=? 300)).

(** [ChargingConfig::validate]. *)
Definition charging_validate (c : ChargingConfig) : list string :=
  check (bad_max_limit c)
    ("charging.max_limit_a must be between 0 and 80 (amps), got: " +:+ fmt_f64 (max_limit_a c)) ++
  check (bad_min_limit c)
    ("charging.min_limit_a must be zero or positive, got: " +:+ fmt_f64 (min_limit_a c)) ++
  check (bad_limit_order c)
    ("charging.min_limit_a (" +:+ fmt_f64 (min_limit_a c) +:+ ") must not exceed charging.max_limit_a ("
       +:+ fmt_f64 (max_limit_a c) +:+ ")") ++
  check (bad_profile_id c)
    ("charging.profile_id must be a positive integer, got: " +:+ pretty (profile_id c)) ++
  check (bad_connector c)
    ("charging.connector_id must be 0 for ChargePointMaxProfile, got: " +:+ pretty (connector_id c)) ++
  check (bad_phases c)
    ("charging.number_phases must be 1, 2, 3 or null, got: "
       +:+ match number_phases c with Some p => "Some(" +:+ pretty p +:+ ")" | None => "None" end) ++
  check (bad_voltage c)
    ("charging.nominal_voltage_v must be between 100 and 480, got: " +:+ fmt_f64 (nominal_voltage_v c)) ++
  check (bad_timeout c)
    ("charging.command_timeout_seconds must be between 1 and 300, got: "
       +:+ pretty (command_timeout_seconds c)).

(** ** The whole configuration *)

Record ProxyConfig := mkProxyConfig {
  central_system_url : string;
  listen_port : Z;
  listen_address : IpAddr;
  upstream_bind_address : option IpAddr;
  charge_point_id : option string;
  health_port : Z;
  mqtt : MqttConfig;
  log_level : LogLevel;
  buffers : BufferConfig;
  state_file : string;
  charging : ChargingConfig
}.

Section validate.
(** [Path::exists] and whether [File::open] succeeds. *)
Context (exists_ : string → bool) (readable : string → bool).

(** One certificate path of [validate]'s loop. *)
Definition check_path (name : string) (path : option string) : list string :=
  match path with
  | Some path =>
      if negb (exists_ path) then [name +:+ " does not exist: " +:+ path]
      else if negb (readable path) then [name +:+ " exists but is not readable: " +:+ path]
      else []
  | None => []
  end.

(** [ProxyConfig::validate]. *)
Definition validate (c : ProxyConfig) : list string :=
  check (listen_port c <? 1024)
    ("listen_port must be between 1024 and 65535, got: " +:+ pretty (listen_port c)) ++
  check (health_port c <? 1024)
    ("health_port must be between 1024 and 65535, got: " +:+ pretty (health_port c)) ++
  check (listen_port c =? health_port c)
    ("listen_port and health_port must differ, both are: " +:+ pretty (listen_port c)) ++
  check (negb (String.prefix "ws://" (central_system_url c))
         && negb (String.prefix "wss://" (central_system_url c)))
    ("central_system_url must start with ws:// or wss://, got: " +:+ central_system_url c) ++
  check (mqtt_port (mqtt c) =? 0) "mqtt.port must be between 1 and 65535" ++
  check_path "mqtt.ca_cert_path" (ca_cert_path (mqtt c)) ++
  check_path "mqtt.client_cert_path" (client_cert_path (mqtt c)) ++
  check_path "mqtt.client_key_path" (client_key_path (mqtt c)) ++
  check (negb (eqb (bool_decide (is_Some (client_cert_path (mqtt c))))
                   (bool_decide (is_Some (client_key_path (mqtt c))))))
    "mqtt.client_cert_path and mqtt.client_key_path must be set together" ++
  check (negb (tls_enabled (mqtt c)) && client_auth_enabled (mqtt c))
    "mqtt client certificates require mqtt.ca_cert_path to be set" ++
  charging_validate (charging c).
End validate.

(** ** Missing parameters *)

Record RawMqttConfig := mkRawMqtt {
  raw_host : option string;
  raw_port : option Z;
  raw_username : option string;
  raw_password : option string
}.

Record RawProxyConfig := mkRawProxy {
  raw_central_system_url : option string;
  raw_listen_port : option Z;
  raw_mqtt : option RawMqttConfig
}.


(** [RawProxyConfig::missing_required]. *)
Definition missing_required (r : RawProxyConfig) : list string :=
  check (is_none (raw_central_system_url r)) "central_system_url" ++
  check (is_none (raw_listen_port r)) "listen_port" ++
  match raw_mqtt r with
  | None => ["mqtt.host"; "mqtt.port"; "mqtt.username"; "mqtt.password"]
  | Some m =>
      check (is_none (raw_host m)) "mqtt.host" ++
      check (is_none (raw_port m)) "mqtt.port" ++
      check (is_none (raw_username m)) "mqtt.username" ++
      check (is_none (raw_password m)) "mqtt.password"
  end.

Definition newline : string := String.String (Ascii.ascii_of_nat 10) "".

Section load.
Context {Settings : Type}.
(** The [config] crate: building the layered settings from the file and the
    environment, and the two deserialisations. *)
Context (build : string → result Settings string)
        (deserialize_raw : Settings → result RawProxyConfig string)
        (deserialize : Settings → result ProxyConfig string).
Context (exists_ : string → bool) (readable : string → bool).

(** [ProxyConfig::load_from_path]. *)
Definition load_from_path (config_path : string) : result ProxyConfig ProxyError :=
  match build config_path with
  | Err e => Err (ConfigError ("Failed to load configuration: " +:+ e))
  | Ok settings =>
      let missing := match deserialize_raw settings with Ok r => missing_required r | Err _ => [] end in
      if decide (missing ≠ []) then
        Err (ConfigError ("Missing required configuration parameter"
          +:+ (if bool_decide (length missing = 1%nat) then "" else "s") +:+ ":" +:+ newline
          +:+ String.concat newline (map (λ m, "  - " +:+ m) missing)))
      else
        match deserialize settings with
        | Err e => Err (ConfigError ("Failed to deserialize configuration: " +:+ e))
        | Ok proxy_config =>
            let errors := validate exists_ readable proxy_config in
            if decide (errors ≠ []) then
              Err (ConfigError ("Configuration validation failed:" +:+ newline
                     +:+ String.concat newline errors))
            else Ok proxy_config
        end
  end.

(** [ProxyConfig::load]: the path comes from [CONFIG_FILE_PATH]. *)
Definition load (config_file_path : option string) : result ProxyConfig ProxyError :=
  load_from_path (default "./config.yaml"%string config_file_path).
End load.

(** ** Theorems *)

(** What the session and the command code may assume of a charging configuration. *)
Record valid_charging (c : ChargingConfig) : Prop := {
  vc_max_finite : is_finite (max_limit_a c) = true;
  vc_max_pos : flt fzero (max_limit_a c) = true;
  vc_max_80 : fle (max_limit_a c) (of_Z 80) = true;
  vc_min_finite : is_finite (min_limit_a c) = true;
  vc_min_nonneg : fle fzero (min_limit_a c) = true;
  vc_min_le_max : fle (min_limit_a c) (max_limit_a c) = true;
  vc_profile_id : 0 < profile_id c;
  vc_connector : purpose c = ChargePointMaxProfile → connector_id c = 0;
  vc_phases : ∀ p, number_phases c = Some p → p ≠ 0 ∧ p < 4;
  vc_voltage_low : fle (of_Z 100) (nominal_voltage_v c) = true;
  vc_voltage_high : fle (nominal_voltage_v c) (of_Z 480) = true;
  vc_timeout : 1 ≤ command_timeout_seconds c ≤ 300
}.

Lemma check_nil bad msg : check bad msg = [] ↔ bad = false.
Proof. by destruct bad. Qed.

Lemma fle_flt_false a b : fle a b = true → flt b a = false.
Proof.
  destruct (flt b a) eqn:E; [|done]. apply flt_fle_false in E. congruence.
Qed.

Lemma not_fle_flt a b :
  is_finite a = true → is_finite b = true → fle a b = false → flt b a = true.
Proof. intros Ha Hb H. destruct (flt b a) eqn:E; [done|]. apply not_flt_fle in E; congruence. Qed.

Lemma flt_not_fle a b : flt a b = true → fle b a = false.
Proof. apply flt_fle_false. Qed.

Lemma voltage_finite a :
  fle (of_Z 100) a = true → fle a (of_Z 480) = true → is_finite a = true.
Proof. intros H1 H2. destruct a as [|[]| |]; try done; by vm_compute in H1, H2. Qed.

Lemma charging_validate_valid c : charging_validate c = [] → valid_charging c.
Proof.
  unfold charging_validate. intros H.
  rewrite !app_nil, !check_nil in H. destruct_and! H.
  unfold bad_max_limit, bad_min_limit, bad_limit_order, bad_profile_id, bad_connector, bad_phases,
    bad_voltage, bad_timeout in *.
  repeat match goal with
  | H : _ || _ = false |- _ => apply orb_false_iff in H as [? ?]
  | H : negb _ = false |- _ => apply negb_false_iff in H
  | H : _ && _ = true |- _ => apply andb_true_iff in H as [? ?]
  end.
  assert (is_finite (of_Z 80) = true) by done.
  constructor; try done; eauto using not_fle_flt, not_flt_fle.
  - by apply Z.leb_gt.
  - match goal with Hx : _ && _ = false |- _ => apply andb_false_iff in Hx as [Hc|Hc] end;
      [apply bool_decide_eq_false in Hc; done|]. intros _. by apply negb_false_iff, Z.eqb_eq in Hc.
  - intros p Hp. rewrite Hp in *. simpl in *. lia.
  - lia.
Qed.

Lemma valid_charging_validate c : valid_charging c → charging_validate c = [].
Proof.
  intros [? Hpos ? ? Hmin Hle ? Hconn Hph Hlo Hhi ?]. unfold charging_validate.
  assert (bad_max_limit c = false) as ->.
  { unfold bad_max_limit. rewrite flt_not_fle, fle_flt_false by done. by rewrite vc_max_finite0. }
  assert (bad_min_limit c = false) as ->.
  { unfold bad_min_limit. rewrite fle_flt_false by done. by rewrite vc_min_finite0. }
  assert (bad_limit_order c = false) as -> by (by apply fle_flt_false).
  assert (bad_profile_id c = false) as -> by (unfold bad_profile_id; lia).
  assert (bad_connector c = false) as ->.
  { unfold bad_connector. case_bool_decide as Hp; [|done]. by rewrite Hconn. }
  assert (bad_phases c = false) as ->.
  { unfold bad_phases. destruct (number_phases c) as [p|]; [|done]. specialize (Hph p eq_refl). lia. }
  assert (bad_voltage c = false) as ->.
  { unfold bad_voltage. rewrite Hlo, Hhi, voltage_finite by done. done. }
  assert (bad_timeout c = false) as -> by (unfold bad_timeout; lia).
  done.
Qed.

(** A charging section passes validation exactly when it meets every documented
    constraint: a finite ceiling in (0, 80] A, a finite minimum in [0, ceiling], a
    positive profile id, connector 0 for a [ChargePointMaxProfile], 1 to 3 phases,
    100 to 480 V and a timeout of 1 to 300 s. *)
Theorem charging_validate_iff c : charging_validate c = [] ↔ valid_charging c.
Proof. split; [apply charging_validate_valid|apply valid_charging_validate]. Qed.

Section missing.
(** Whether a required parameter is absent, by its name. *)
Definition absent (r : RawProxyConfig) (name : string) : bool :=
  let in_mqtt {A} (f : RawMqttConfig → option A) := match raw_mqtt r with Some m => is_none (f m) | None => true end in
  if decide (name = "central_system_url"%string) then is_none (raw_central_system_url r)
  else if decide (name = "listen_port"%string) then is_none (raw_listen_port r)
  else if decide (name = "mqtt.host"%string) then in_mqtt raw_host
  else if decide (name = "mqtt.port"%string) then in_mqtt raw_port
  else if decide (name = "mqtt.username"%string) then in_mqtt raw_username
  else in_mqtt raw_password.

Definition required : list string :=
  ["central_system_url"; "listen_port"; "mqtt.host"; "mqtt.port"; "mqtt.username"; "mqtt.password"].

Lemma missing_required_filter r : missing_required r = List.filter (absent r) required.
Proof.
  destruct r as [[] [] [[[] [] [] []]|]]; vm_compute; reflexivity.
Qed.
End missing.

Section load_props.
Context {Settings : Type} (build : string → result Settings string)
        (deserialize_raw : Settings → result RawProxyConfig string)
        (deserialize : Settings → result ProxyConfig string)
        (exists_ readable : string → bool).

Lemma check_path_nil name p :
  check_path exists_ readable name p = [] ↔ ∀ path, p = Some path → exists_ path = true ∧ readable path = true.
Proof.
  destruct p as [path|]; simpl; [|naive_solver].
  destruct (exists_ path) eqn:?, (readable path) eqn:?; simpl; naive_solver congruence.
Qed.

(** What a loaded configuration guarantees. *)
Record valid_config (c : ProxyConfig) : Prop := {
  vp_listen_port : 1024 ≤ listen_port c;
  vp_health_port : 1024 ≤ health_port c;
  vp_ports_differ : listen_port c ≠ health_port c;
  vp_scheme : String.prefix "ws://" (central_system_url c) = true ∨
              String.prefix "wss://" (central_system_url c) = true;
  vp_mqtt_port : mqtt_port (mqtt c) ≠ 0;
  vp_certs : ∀ path, path ∈ option_list (ca_cert_path (mqtt c)) ++ option_list (client_cert_path (mqtt c))
                       ++ option_list (client_key_path (mqtt c)) →
             exists_ path = true ∧ readable path = true;
  vp_pair : is_Some (client_cert_path (mqtt c)) ↔ is_Some (client_key_path (mqtt c));
  vp_client_needs_ca : is_Some (client_cert_path (mqtt c)) → is_Some (ca_cert_path (mqtt c));
  vp_charging : valid_charging (charging c)
}.

Lemma validate_valid c : validate exists_ readable c = [] → valid_config c.
Proof.
  unfold validate. intros H.
  rewrite !app_nil, !check_nil in H.
  destruct H as (H1 & H2 & H3 & H4 & H5 & H6 & H7 & H8 & H9 & H10 & H11).
  rewrite check_path_nil in H6, H7, H8. unfold tls_enabled, client_auth_enabled in *.
  destruct c as [url lp la ub cp hp [h mp un pw ca cc ck] ll bf sf ch]; simpl in *.
  constructor; simpl; try lia.
  - apply andb_false_iff in H4 as [H4|H4]; apply negb_false_iff in H4; auto.
  - intros path Hp. destruct ca, cc, ck; simpl in Hp;
      rewrite ?elem_of_cons, elem_of_nil in Hp; naive_solver.
  - destruct cc, ck; simpl in *; try done; by split; intros [? ?].
  - destruct ca, cc, ck; simpl in *; try done; by intros [? ?].
  - by apply charging_validate_valid.
Qed.

(** A configuration that loads is safe to run with: unprivileged and distinct
    ports, a WebSocket URL, a real MQTT port, certificate files that exist and can
    be read, client certificates only in pairs and under a CA, and a valid charging
    section. *)
Theorem load_valid path c :
  load build deserialize_raw deserialize exists_ readable path = Ok c → valid_config c.
Proof.
  unfold load, load_from_path. intros H. apply validate_valid.
  case_hyp H; repeat case_decide; simplify_eq/=; by apply dec_stable.
Qed.

(** When required parameters are absent, loading fails with a configuration error
    that names all of them at once, in a fixed order, whatever else is wrong. *)
Theorem load_reports_all_missing path settings r :
  build path = Ok settings → deserialize_raw settings = Ok r →
  List.filter (absent r) required ≠ [] →
  load_from_path build deserialize_raw deserialize exists_ readable path =
  Err (ConfigError ("Missing required configuration parameter"
    +:+ (if bool_decide (length (List.filter (absent r) required) = 1%nat) then "" else "s") +:+ ":" +:+ newline
    +:+ String.concat newline (map (λ m, "  - " +:+ m)%string (List.filter (absent r) required)))).
Proof.
  intros Hb Hr Hne. unfold load_from_path. rewrite Hb, Hr, missing_required_filter.
  by rewrite decide_True.
Qed.
End load_props.

(** A minimal accepted configuration, and the settings that give it. *)
Definition sample_config : ProxyConfig :=
  mkProxyConfig "ws://cs.example/ocpp" 9000 default_listen_address None None 8080
    (mkMqttConfig "broker" 1883 "user" "secret" None None None) Info BufferConfig_default
    default_state_file ChargingConfig_default.

Lemma load_valid_witness : valid_config (λ _, false) (λ _, false) sample_config.
Proof.
  apply (load_valid (λ _, Ok ()) (λ _, Ok (mkRawProxy (Some "u"%string) (Some 1) (Some (mkRawMqtt (Some "h"%string) (Some 1) (Some "u"%string) (Some "p"%string)))))
           (λ _, Ok sample_config) (λ _, false) (λ _, false) None sample_config).
  vm_compute. reflexivity.
Defined.

Lemma load_reports_all_missing_witness :
  load_from_path (λ _, Ok ()) (λ _, Ok (mkRawProxy None (Some 1) None)) (λ _, Ok sample_config)
    (λ _, false) (λ _, false) "config.yaml" =
  Err (ConfigError ("Missing required configuration parameters:" +:+ newline +:+
       "  - central_system_url" +:+ newline +:+ "  - mqtt.host" +:+ newline +:+ "  - mqtt.port" +:+ newline
       +:+ "  - mqtt.username" +:+ newline +:+ "  - mqtt.password")).
Proof.
  apply (load_reports_all_missing (λ _, Ok ()) (λ _, Ok (mkRawProxy None (Some 1) None))
           (λ _, Ok sample_config) (λ _, false) (λ _, false) "config.yaml" () (mkRawProxy None (Some 1) None));
    vm_compute; done.
Defined.
