(* ===== verification/Text.v ===== *)
(** * Text, as the program handles it

    Rust strings are byte strings here (their UTF-8 encoding). This file has the
    standard library's operations on them that the program uses: UTF-8 validation,
    [trim], [split], ASCII case, [join] and the quoting of [{:?}]. *)

From Stdlib Require Import Ascii.
From S2P Require Import Prelude Float64.

Definition chars (s : string) : list ascii := String.list_ascii_of_string s.
Definition of_chars (l : list ascii) : string := String.string_of_list_ascii l.
Definition code (c : ascii) : Z := Z.of_N (N_of_ascii c).
Definition chr (z : Z) : ascii := ascii_of_N (Z.to_N z).

(** [str::to_ascii_lowercase]. *)
Definition to_ascii_lowercase (s : string) : string := of_chars (ascii_lower <$> chars s).

(** ** [str::split] with a character *)

Fixpoint split_chars (c : ascii) (s : list ascii) : list (list ascii) :=
  match s with
  | [] => [[]]
  | x :: s =>
      if decide (x = c) then [] :: split_chars c s
      else
        match split_chars c s with
        | part :: parts => (x :: part) :: parts
        | [] => [[x]]
        end
  end.

Definition split (c : ascii) (s : string) : list string := of_chars <$> split_chars c (chars s).

(** ** [str::trim] *)

(** The UTF-8 encodings of the characters with the Unicode property White_Space. *)
Definition white_space : list (list ascii) :=
  map (map chr)
    ([[9]; [10]; [11]; [12]; [13]; [32]; [194; 133]; [194; 160]; [225; 154; 128]]
     ++ map (λ n, [226; 128; 128 + Z.of_nat n]) (seq 0 11)
     ++ [[226; 128; 168]; [226; 128; 169]; [226; 128; 175]; [226; 129; 159]; [227; 128; 128]])%Z.

Fixpoint strip_prefix (p s : list ascii) : option (list ascii) :=
  match p, s with
  | [], _ => Some s
  | x :: p, y :: s => if decide (x = y) then strip_prefix p s else None
  | _, _ => None
  end.

Fixpoint strip_one (ps : list (list ascii)) (s : list ascii) : option (list ascii) :=
  match ps with
  | [] => None
  | p :: ps => match strip_prefix p s with Some s' => Some s' | None => strip_one ps s end
  end.

Fixpoint strip_all (fuel : nat) (ps : list (list ascii)) (s : list ascii) : list ascii :=
  match fuel with
  | O => s
  | S fuel => match strip_one ps s with Some s' => strip_all fuel ps s' | None => s end
  end.

Definition trim (s : string) : string :=
  let l := chars s in
  let l := strip_all (length l) white_space l in
  of_chars (reverse (strip_all (length l) (map reverse white_space) (reverse l))).

(** ** [std::str::from_utf8] *)

Definition between (lo hi : Z) (c : ascii) : bool := ((lo <=? code c) && (code c <=? hi))%Z.

(** The number of continuation bytes a leading byte calls for, and the range of the first. *)
Definition utf8_lead (c : ascii) : option (nat * Z * Z) :=
  if between 0 127 c then Some (0, 0%Z, 0%Z)
  else if between 194 223 c then Some (1, 128%Z, 191%Z)
  else if between 224 224 c then Some (2, 160%Z, 191%Z)
  else if between 225 236 c then Some (2, 128%Z, 191%Z)
  else if between 237 237 c then Some (2, 128%Z, 159%Z)
  else if between 238 239 c then Some (2, 128%Z, 191%Z)
  else if between 240 240 c then Some (3, 144%Z, 191%Z)
  else if between 241 243 c then Some (3, 128%Z, 191%Z)
  else if between 244 244 c then Some (3, 128%Z, 143%Z)
  else None.

Fixpoint utf8_valid (pending : nat) (lo hi : Z) (s : list ascii) : bool :=
  match s with
  | [] => bool_decide (pending = 0)
  | c :: s =>
      match pending with
      | O => match utf8_lead c with Some (n, lo, hi) => utf8_valid n lo hi s | None => false end
      | S n => between lo hi c && utf8_valid n 128 191 s
      end
  end.

Definition from_utf8 (payload : string) : option string :=
  if utf8_valid 0 0 0 (chars payload) then Some payload else None.

(** ** [{:?}] of a string *)

Definition quote : string := String.String (ascii_of_nat 34) "".
Definition backslash : string := String.String (ascii_of_nat 92) "".

Definition hex_digit (z : Z) : string :=
  String.String (chr (if z <? 10 then 48 + z else 87 + z)%Z) "".

Definition debug_char (c : ascii) : string :=
  let z := code c in
  (if z =? 34 then backslash +:+ quote
   else if z =? 92 then backslash +:+ backslash
   else if z =? 9 then backslash +:+ "t"
   else if z =? 10 then backslash +:+ "n"
   else if z =? 13 then backslash +:+ "r"
   else if z =? 0 then backslash +:+ "0"
   else if (z <? 32) || (z =? 127) then
     backslash +:+ "u{" +:+ (if z <? 16 then "" else hex_digit (z / 16)) +:+ hex_digit (z mod 16) +:+ "}"
   else String.String c "")%Z%string.

(** Escapes as [str]'s [Debug] does; characters beyond ASCII print as themselves. *)
Definition debug_str (s : string) : string :=
  quote +:+ String.concat "" (map debug_char (chars s)) +:+ quote.

(** ** Lemmas *)

Lemma of_chars_chars s : of_chars (chars s) = s.
Proof. apply String.string_of_list_ascii_of_string. Qed.

Lemma chars_of_chars l : chars (of_chars l) = l.
Proof. apply String.list_ascii_of_string_of_list_ascii. Qed.

Lemma chars_app s t : chars (s +:+ t) = chars s ++ chars t.
Proof. induction s as [|c s IH]; simpl; [done|]. unfold chars in *. simpl. by rewrite IH. Qed.

Lemma of_chars_app l1 l2 : of_chars (l1 ++ l2) = of_chars l1 +:+ of_chars l2.
Proof. induction l1 as [|c l IH]; simpl; [done|]. unfold of_chars in *. by rewrite IH. Qed.

Lemma chars_inj s t : chars s = chars t → s = t.
Proof. intros E%(f_equal of_chars). by rewrite !of_chars_chars in E. Qed.

Lemma length_app_string s t : String.length (s +:+ t) = String.length s + String.length t.
Proof. induction s as [|c s IH]; [done|]. exact (f_equal S IH). Qed.

Lemma app_string_assoc s t u : s +:+ (t +:+ u) = (s +:+ t) +:+ u.
Proof. induction s as [|c s IH]; [done|]. exact (f_equal (String.String c) IH). Qed.

Lemma app_string_inj_l s t u : s +:+ t = s +:+ u → t = u.
Proof. induction s as [|c s IH]; [done|]. intros E. apply IH. by injection E. Qed.

Lemma split_chars_nil c s : split_chars c s ≠ [].
Proof. destruct s as [|x s]; simpl; [done|]. case_decide; [done|]. by destruct (split_chars c s). Qed.

Lemma split_chars_no_sep c s : c ∉ s → split_chars c s = [s].
Proof.
  induction s as [|x s IH]; simpl; [done|]. intros Hc.
  rewrite decide_False by (intros ->; apply Hc; left).
  rewrite IH; [done|]. intros ?. apply Hc. by right.
Qed.

Lemma split_chars_app c s t :
  c ∉ s → split_chars c (s ++ c :: t) = s :: split_chars c t.
Proof.
  induction s as [|x s IH]; simpl; intros Hc; [by rewrite decide_True|].
  rewrite decide_False by (intros ->; apply Hc; left).
  rewrite IH; [done|]. intros ?. apply Hc. by right.
Qed.

(** The first part, and what follows the separator, if there is one. *)
Lemma split_chars_cons c s p ps :
  split_chars c s = p :: ps →
  c ∉ p ∧ ((ps = [] ∧ s = p) ∨ ∃ t, s = p ++ c :: t ∧ split_chars c t = ps).
Proof.
  revert p ps. induction s as [|x s IH]; simpl; intros p ps.
  { intros [= <- <-]. split; [apply not_elem_of_nil|by left]. }
  case_decide as Hx.
  { intros [= <- <-]. subst x. split; [apply not_elem_of_nil|]. right. by exists s. }
  destruct (split_chars c s) as [|q qs] eqn:E; [by apply split_chars_nil in E|].
  intros [= <- <-]. destruct (IH q qs eq_refl) as [Hq Hs]. split.
  { rewrite not_elem_of_cons. done. }
  destruct Hs as [[-> ->]|(t & -> & Ht)]; [by left|]. right. by exists t.
Qed.

Lemma split_chars_app_sep c s t : split_chars c (s ++ c :: t) = split_chars c s ++ split_chars c t.
Proof.
  induction s as [|x s IH]; simpl; [by rewrite decide_True|]. case_decide; [by rewrite IH|].
  rewrite IH. by destruct (split_chars c s) eqn:E; [apply split_chars_nil in E|].
Qed.

Lemma split_app_sep c s t : split c (s +:+ String.String c t) = split c s ++ split c t.
Proof. unfold split. rewrite chars_app. simpl. by rewrite split_chars_app_sep, fmap_app. Qed.

(** Texts without the character. *)
Definition no_char (c : ascii) (s : string) : Prop := c ∉ chars s.

#[export] Instance no_char_dec c s : Decision (no_char c s).
Proof. unfold no_char. apply _. Defined.

Lemma split_no_sep c s : no_char c s → split c s = [s].
Proof. intros Hs. unfold split. rewrite split_chars_no_sep by done. simpl. by rewrite of_chars_chars. Qed.

Lemma split_app c s t :
  no_char c s → split c (s +:+ String.String c t) = s :: split c t.
Proof.
  intros Hs. unfold split. rewrite chars_app. simpl.
  rewrite split_chars_app by done. simpl. by rewrite of_chars_chars.
Qed.

Lemma split_cons c s p ps :
  split c s = p :: ps →
  no_char c p ∧ ((ps = [] ∧ s = p) ∨ ∃ t, s = p +:+ String.String c t ∧ split c t = ps).
Proof.
  unfold split, no_char. destruct (split_chars c (chars s)) as [|q qs] eqn:E; simpl; [done|].
  intros [= <- <-]. rewrite chars_of_chars.
  apply split_chars_cons in E as [Hq [[-> Hs]|(t & Hs & Ht)]]; split; try done.
  - left. by rewrite <- Hs, of_chars_chars.
  - right. exists (of_chars t). split.
    + apply chars_inj. rewrite chars_app, chars_of_chars, Hs. simpl. unfold chars at 1. simpl.
      change (String.list_ascii_of_string (of_chars t)) with (chars (of_chars t)).
      by rewrite chars_of_chars.
    + by rewrite chars_of_chars, Ht.
Qed.

Lemma split_not_nil c s : split c s ≠ [].
Proof. unfold split. intros E%fmap_nil_inv. by apply split_chars_nil in E. Qed.

Lemma length_chars s : length (chars s) = String.length s.
Proof. induction s as [|c s IH]; simpl; [done|]. by rewrite <- IH. Qed.

(** Texts with different endings of one length differ. *)
Lemma app_string_suffix_ne s t u v :
  String.length u = String.length v → u ≠ v → s +:+ u ≠ t +:+ v.
Proof.
  intros Hlen Hne E%(f_equal chars). rewrite !chars_app in E.
  apply app_inj_2 in E as [_ E]; [|by rewrite !length_chars]. by apply Hne, chars_inj.
Qed.

(** ** Decimal numbers *)

Lemma pretty_N_go_no_dash x s : no_char "-" s → no_char "-" (pretty_N_go x s).
Proof.
  revert s. induction (N.lt_wf_0 x) as [x _ IH]; intros s Hs.
  assert (x = 0 ∨ 0 < x)%N as [->|Hx] by lia; [by rewrite pretty_N_go_0|].
  rewrite pretty_N_go_step by done. apply IH; [apply N.div_lt; lia|].
  intros [Hd|Hin]%elem_of_cons; [|by apply Hs].
  revert Hd. unfold pretty_N_char. by repeat case_match.
Qed.

Lemma pretty_Z_no_dash (z : Z) : (0 ≤ z)%Z → no_char "-" (pretty z).
Proof.
  intros Hz. destruct z as [|p|p]; [by apply (bool_decide_eq_true_1 _)| |lia].
  change (no_char "-" (pretty_N_go (Npos p) "")). apply pretty_N_go_no_dash, not_elem_of_nil.
Qed.

(** What follows the last separator. *)
Lemma app_string_last_inj c s t u v :
  no_char c u → no_char c v → s +:+ String.String c u = t +:+ String.String c v → u = v.
Proof.
  intros Hu Hv E%(f_equal chars). rewrite !chars_app in E.
  change (chars s ++ c :: chars u = chars t ++ c :: chars v) in E.
  apply (f_equal reverse) in E. rewrite !reverse_app, !reverse_cons, <- !app_assoc in E.
  apply (f_equal (split_chars c)) in E. simpl in E.
  rewrite !split_chars_app in E by (by rewrite elem_of_reverse).
  injection E as E _. apply (inj reverse) in E. by apply chars_inj.
Qed.
