(* ===== verification/JsonText.v ===== *)
(** * JSON text and calendar dates

    Instances of [SerdeJson] and [Chrono] that read and write what the libraries do:
    RFC 8259 text, and RFC 3339 dates of the proleptic Gregorian calendar. The theorems
    do not depend on them, they hold for every codec with the laws; the translated unit
    tests of the repository run on these, because their inputs and outputs are text. *)

From Stdlib Require Import Ascii.
From S2P Require Import Prelude Float64 Json Text.

Local Open Scope Z_scope.

(** ** Reading *)

Definition is_space (c : ascii) : bool := existsb (Z.eqb (code c)) [9; 10; 13; 32].

Fixpoint skip_spaces (l : list ascii) : list ascii :=
  match l with
  | c :: rest => if is_space c then skip_spaces rest else l
  | [] => []
  end.

Definition expect (text : string) (l : list ascii) : option (list ascii) := strip_prefix (chars text) l.

Definition hex_value (c : ascii) : option Z :=
  let z := code c in
  if between 48 57 c then Some (z - 48)
  else if between 97 102 c then Some (z - 87)
  else if between 65 70 c then Some (z - 55)
  else None.

(** The four digits of an escape. *)
Definition read_hex4 (l : list ascii) : option (Z * list ascii) :=
  match l with
  | a :: b :: c :: d :: rest =>
      a ← hex_value a; b ← hex_value b; c ← hex_value c; d ← hex_value d;
      Some (((a * 16 + b) * 16 + c) * 16 + d, rest)
  | _ => None
  end.

Definition utf8_encode (z : Z) : list ascii :=
  if z <? 128 then [chr z]
  else if z <? 2048 then [chr (192 + z / 64); chr (128 + z mod 64)]
  else if z <? 65536 then [chr (224 + z / 4096); chr (128 + z / 64 mod 64); chr (128 + z mod 64)]
  else [chr (240 + z / 262144); chr (128 + z / 4096 mod 64); chr (128 + z / 64 mod 64); chr (128 + z mod 64)].

(** After [\u]: a code point, or the two halves of a surrogate pair. *)
Definition read_unicode (l : list ascii) : option (list ascii * list ascii) :=
  '(z, rest) ← read_hex4 l;
  if (z <? 55296) || (57343 <? z) then Some (utf8_encode z, rest)
  else if z <? 56320 then
    rest ← strip_prefix [chr 92; "u"%char] rest;
    '(lo, rest) ← read_hex4 rest;
    if (56320 <=? lo) && (lo <? 57344) then Some (utf8_encode (65536 + (z - 55296) * 1024 + (lo - 56320)), rest) else None
  else None.

Definition escape_of (c : ascii) : option Z :=
  let z := code c in
  if (z =? 34) || (z =? 92) || (z =? 47) then Some z
  else if z =? 98 then Some 8
  else if z =? 102 then Some 12
  else if z =? 110 then Some 10
  else if z =? 114 then Some 13
  else if z =? 116 then Some 9
  else None.

(** The rest of a string, after its opening quote. *)
Fixpoint read_string (fuel : nat) (acc l : list ascii) : option (string * list ascii) :=
  match fuel, l with
  | S fuel, c :: rest =>
      let z := code c in
      if z =? 34 then Some (of_chars (reverse acc), rest)
      else if z =? 92 then
        match rest with
        | e :: rest =>
            if code e =? 117 then '(u, rest) ← read_unicode rest; read_string fuel (reverse u ++ acc) rest
            else x ← escape_of e; read_string fuel (chr x :: acc) rest
        | [] => None
        end
      else if z <? 32 then None
      else read_string fuel (c :: acc) rest
  | _, _ => None
  end.

(** A number: the characters it is made of, and whether it is an integer. *)
Definition read_digits (l : list ascii) : option (list ascii) :=
  let '(_, n, rest) := take_digits 0 0 l in if n =? 0 then None else Some rest.

Definition read_integer_part (l : list ascii) : option (list ascii) :=
  match l with
  | "0"%char :: rest => Some rest
  | _ => read_digits l
  end.

Definition read_number (l : list ascii) : option (Value * list ascii) :=
  let '(neg, l0) := match l with "-"%char :: rest => (true, rest) | _ => (false, l) end in
  l1 ← read_integer_part l0;
  l2 ← match l1 with "."%char :: rest => read_digits rest | _ => Some l1 end;
  l3 ← match l2 with
       | c :: rest =>
           if bool_decide (ascii_lower c = "e"%char)
           then read_digits (match rest with "+"%char :: r | "-"%char :: r => r | _ => rest end)
           else Some l2
       | [] => Some l2
       end;
  let text := take (length l - length l3) l in
  let '(n, _, _) := take_digits 0 0 l0 in
  let n := if neg then - n else n in
  if (length l3 =? length l1)%nat && (in_i64 n || in_u64 n) && negb (neg && (n =? 0)) then Some (json_u n, l3)
  else a ← parse_f64 (of_chars text); if is_finite a then Some (VNumber (NFloat a), l3) else None.

(** A value, with the white space before it. A key that comes again replaces the
    value it had. *)
Fixpoint read_value (fuel : nat) (l : list ascii) : option (Value * list ascii) :=
  match fuel with
  | O => None
  | S fuel =>
      match skip_spaces l with
      | [] => None
      | c :: rest =>
          let z := code c in
          if z =? 34 then '(s, rest) ← read_string (S (length rest)) [] rest; Some (VString s, rest)
          else if z =? 91 then
            match skip_spaces rest with
            | "]"%char :: rest => Some (VArray [], rest)
            | _ => read_items fuel [] rest
            end
          else if z =? 123 then
            match skip_spaces rest with
            | "}"%char :: rest => Some (VObject [], rest)
            | _ => read_members fuel [] rest
            end
          else if z =? 110 then rest ← expect "null" (c :: rest); Some (VNull, rest)
          else if z =? 116 then rest ← expect "true" (c :: rest); Some (VBool true, rest)
          else if z =? 102 then rest ← expect "false" (c :: rest); Some (VBool false, rest)
          else read_number (c :: rest)
      end
  end
with read_items (fuel : nat) (acc : list Value) (l : list ascii) : option (Value * list ascii) :=
  match fuel with
  | O => None
  | S fuel =>
      '(v, rest) ← read_value fuel l;
      match skip_spaces rest with
      | ","%char :: rest => read_items fuel (v :: acc) rest
      | "]"%char :: rest => Some (VArray (reverse (v :: acc)), rest)
      | _ => None
      end
  end
with read_members (fuel : nat) (acc : Map) (l : list ascii) : option (Value * list ascii) :=
  match fuel with
  | O => None
  | S fuel =>
      match skip_spaces l with
      | c :: rest =>
          if code c =? 34 then
            '(k, rest) ← read_string (S (length rest)) [] rest;
            rest ← expect ":" (skip_spaces rest);
            '(v, rest) ← read_value fuel rest;
            match skip_spaces rest with
            | ","%char :: rest => read_members fuel (map_insert k v acc) rest
            | "}"%char :: rest => Some (VObject (map_insert k v acc), rest)
            | _ => None
            end
          else None
      | [] => None
      end
  end.

(** [serde_json::from_str]: one value, and nothing after it. *)
Definition read_json (text : string) : option Value :=
  '(v, rest) ← read_value (2 * S (length (chars text))) (chars text);
  match skip_spaces rest with [] => if representable v then Some v else None | _ => None end.

(** ** Writing *)

Definition escape_char (c : ascii) : string :=
  let z := code c in
  (if z =? 34 then backslash +:+ quote
   else if z =? 92 then backslash +:+ backslash
   else if z =? 8 then backslash +:+ "b"
   else if z =? 9 then backslash +:+ "t"
   else if z =? 10 then backslash +:+ "n"
   else if z =? 12 then backslash +:+ "f"
   else if z =? 13 then backslash +:+ "r"
   else if z <? 32 then backslash +:+ "u00" +:+ hex_digit (z / 16) +:+ hex_digit (z mod 16)
   else String.String c "")%Z%string.

Definition write_string (s : string) : string :=
  quote +:+ String.concat "" (escape_char <$> chars s) +:+ quote.

(** A double keeps its point, or gets one. *)
Definition write_f64 (a : f64) : string :=
  let text := fmt_f64 a in
  if existsb (Ascii.eqb ".") (chars text) then text else text +:+ ".0".

Fixpoint write_json (v : Value) : string :=
  match v with
  | VNull => "null"
  | VBool b => if b then "true" else "false"
  | VNumber (NInt z) => pretty z
  | VNumber (NFloat a) => if is_finite a then write_f64 a else "null"
  | VString s => write_string s
  | VArray l => "[" +:+ String.concat "," (map write_json l) +:+ "]"
  | VObject m => "{" +:+ String.concat "," (map (λ kv, write_string (fst kv) +:+ ":" +:+ write_json (snd kv)) m) +:+ "}"
  end.

Definition json_text : SerdeJson := {|
  from_str s := match read_json s with Some v => Ok v | None => Err "not JSON"%string end;
  to_json v := Ok (write_json v)
|}.

Lemma json_text_representable raw w : @from_str json_text raw = Ok w → representable w = true.
Proof.
  simpl. unfold read_json. destruct (read_value _ _) as [[v rest]|]; [|done]. simpl.
  destruct (skip_spaces rest); [|done]. by destruct (representable v) eqn:E; [intros [= <-]|].
Qed.

(** JSON text with its quotes written ['], for the tests. *)
Definition js (text : string) : string := of_chars ((λ c, if code c =? 39 then chr 34 else c) <$> chars text).

(** ** The calendar *)

(** The date of a day counted from 1970-01-01: eras of 400 years, years from March on. *)
Definition civil_of_days (days : Z) : Z * Z * Z :=
  let z := days + 719468 in
  let era := z / 146097 in
  let doe := z mod 146097 in
  let yoe := (doe - doe / 1460 + doe / 36524 - doe / 146096) / 365 in
  let doy := doe - (365 * yoe + yoe / 4 - yoe / 100) in
  let mp := (5 * doy + 2) / 153 in
  let day := doy - (153 * mp + 2) / 5 + 1 in
  let month := if mp <? 10 then mp + 3 else mp - 9 in
  (yoe + 400 * era + (if month <=? 2 then 1 else 0), month, day).

Definition days_of_civil (y m d : Z) : Z :=
  let y := if m <=? 2 then y - 1 else y in
  let era := y / 400 in
  let yoe := y mod 400 in
  let doy := (153 * (if 2 <? m then m - 3 else m + 9) + 2) / 5 + d - 1 in
  era * 146097 + (yoe * 365 + yoe / 4 - yoe / 100 + doy) - 719468.

(** Nanoseconds since the epoch. *)
Definition utc_time (y m d h mi s : Z) : Z := (days_of_civil y m d * 86400 + h * 3600 + mi * 60 + s) * NANOS.

Definition pad (width : nat) (z : Z) : string :=
  let text := pretty z in zeros (width - String.length text) +:+ text.

Definition fmt_seconds (t : Z) : string :=
  let secs := t / NANOS in
  let '(y, m, d) := civil_of_days (secs / 86400) in
  let s := secs mod 86400 in
  pad 4 y +:+ "-" +:+ pad 2 m +:+ "-" +:+ pad 2 d +:+ "T"
    +:+ pad 2 (s / 3600) +:+ ":" +:+ pad 2 (s / 60 mod 60) +:+ ":" +:+ pad 2 (s mod 60).

(** As many digits as are needed, in threes. *)
Definition fmt_subsec (n : Z) : string :=
  if n =? 0 then ""
  else if n mod 1000000 =? 0 then "." +:+ pad 3 (n / 1000000)
  else if n mod 1000 =? 0 then "." +:+ pad 6 (n / 1000)
  else "." +:+ pad 9 n.

Definition calendar : Chrono := {|
  from_std := λ d, if bool_decide (0 ≤ d ≤ chrono_max) then Some d else None;
  to_rfc3339 := λ t, fmt_seconds t +:+ fmt_subsec (t mod NANOS) +:+ "+00:00";
  to_rfc3339_secs := λ t, fmt_seconds t +:+ "Z";
  to_rfc3339_millis := λ t, fmt_seconds t +:+ "." +:+ pad 3 (t mod NANOS / 1000000) +:+ "Z"
|}.

Lemma calendar_laws : @ChronoLaws calendar.
Proof. constructor. intros d Hd. simpl. by rewrite bool_decide_true. Qed.

Example calendar_date : @to_rfc3339_millis calendar (utc_time 2024 2 29 23 59 58 + 45000000) = "2024-02-29T23:59:58.045Z"%string.
Proof. vm_compute. reflexivity. Qed.

Example json_text_read :
  read_json (js "[ 2 ,'i\u00e9\n', -0.5e1, {'a':[],'b':null,'a':true} ,18446744073709551615]") =
  Some (VArray [json_u 2; VString (of_chars [chr 105; chr 195; chr 169; chr 10]); VNumber (NFloat (of_Z (-5)));
                VObject [("a", VBool true); ("b", VNull)]%string; json_u (2 ^ 64 - 1)]).
Proof. vm_compute. reflexivity. Qed.

Example json_text_write :
  write_json (VArray [json_f64 (of_Z 16); VObject [("k"%string, VString (of_chars [chr 34; chr 7]))]; VBool false]) =
  js "[16.0,{'k':'\'\u0007'},false]".
Proof. vm_compute. reflexivity. Qed.
