(* ===== verification/TestKit.v ===== *)
(** * Assertions for the translated unit tests

    A unit test of the repository is a boolean here: the conjunction of its assertions,
    [false] where an [unwrap] of it would panic. The tests run on JSON text and dates as
    the libraries write them ([json_text], [calendar]). *)

From Stdlib Require Import Ascii.
From S2P Require Import Prelude Float64 Json Text JsonText.

Local Open Scope Z_scope.

Declare Scope test_scope.
Delimit Scope test_scope with test.

(** [assert_eq!] and [assert_ne!]. *)
Notation "x == y" := (bool_decide (x = y)) (at level 70, no associativity) : test_scope.
Notation "x != y" := (negb (bool_decide (x = y))) (at level 70, no associativity) : test_scope.

(** [unwrap] of a [Result], of an [Option], and [unwrap_err]. *)
Notation "'ok!' x := e 'in' b" := (match e with Ok x => b | Err _ => false end)
  (at level 200, x pattern, b at level 200, right associativity) : test_scope.
Notation "'some!' x := e 'in' b" := (match e with Some x => b | None => false end)
  (at level 200, x pattern, b at level 200, right associativity) : test_scope.
Notation "'err!' x := e 'in' b" := (match e with Err x => b | Ok _ => false end)
  (at level 200, x pattern, b at level 200, right associativity) : test_scope.

Definition is_err {A E} (r : result A E) : bool := negb (is_ok r).
Definition is_some {A} (o : option A) : bool := negb (is_none o).

(** [str::starts_with] and [str::contains]. *)
Definition starts_with (p s : string) : bool := is_some (strip_prefix (chars p) (chars s)).

Fixpoint contains_chars (p s : list ascii) : bool :=
  is_some (strip_prefix p s) || match s with [] => false | _ :: s => contains_chars p s end.
Definition contains (p s : string) : bool := contains_chars (chars p) (chars s).

(** Indexing a [Value]: [null] where there is nothing. *)
Definition at_key (k : string) (v : Value) : Value := default VNull (get_key k v).
Definition at_index (i : nat) (v : Value) : Value := default VNull (get_index i v).

(** [==] on [Value]: objects do not depend on the order of their entries. *)
Fixpoint json_eq (v w : Value) : bool :=
  match v, w with
  | VNull, VNull => true
  | VBool a, VBool b => Bool.eqb a b
  | VNumber a, VNumber b => bool_decide (a = b)
  | VString a, VString b => bool_decide (a = b)
  | VArray l, VArray l' =>
      (fix go (l l' : list Value) : bool :=
         match l, l' with
         | [], [] => true
         | x :: l, y :: l' => json_eq x y && go l l'
         | _, _ => false
         end) l l'
  | VObject m, VObject m' =>
      (length m =? length m')%nat &&
      forallb (λ kv, match map_get (fst kv) m' with Some y => json_eq (snd kv) y | None => false end) m
  | _, _ => false
  end.

(** [json!] and [serde_json::from_str(..).unwrap()] of a constant text. *)
Definition json (text : string) : Value := default VNull (read_json (js text)).

(** A double literal. *)
Definition lit (text : string) : f64 := default fzero (parse_f64 text).

(** All the tests of a list pass. *)
Definition all_pass (tests : list bool) : bool := forallb id tests.

Lemma all_pass_forall tests : all_pass tests = true ↔ Forall (λ b, b = true) tests.
Proof.
  unfold all_pass. rewrite forallb_forall, Forall_forall. by split; intros Hb b Hin; apply Hb, list_elem_of_In.
Qed.
