(* ===== verification/Logging.v ===== *)
(** * Logging (src/logging.rs, and the log lines of src/shutdown.rs)

    A log line is a record of its level, fields and message; [tracing] hands it to the
    subscriber, which writes those its filter enables. The filter is the library's, met
    through an interface; how a record becomes a line of JSON is the library's too. *)

From S2P Require Import Prelude Float64 Json Models Config.

Local Open Scope Z_scope.

(** ** Records *)

(** The levels of [tracing], by severity. *)
Inductive Level := LDebug | LInfo | LWarn | LError.

Definition severity (l : Level) : nat := match l with LDebug => 1 | LInfo => 2 | LWarn => 3 | LError => 4 end.

Inductive FieldValue := FStr (s : string) | FU64 (z : Z).

Record LogRecord := mkRecord {
  lr_level : Level;
  lr_fields : list (string * FieldValue);
  lr_message : string
}.

(** ** The filter *)

(** [EnvFilter]: [filter_parse] is what [try_from_default_env] does with the value of
    RUST_LOG, [filter_new] is [EnvFilter::new]. *)
Class EnvFilterLib (F : Type) := {
  filter_parse : string → option F;
  filter_new : string → F;
  filter_enables : F → LogRecord → bool
}.

(** A directive that is the name of a level enables it and the more severe ones. *)
Definition directives : list (string * Level) :=
  [("debug", LDebug); ("info", LInfo); ("warn", LWarn); ("error", LError)]%string.

Class EnvFilterLaws (F : Type) `{EnvFilterLib F} : Prop := {
  filter_new_level name l r : (name, l) ∈ directives →
    filter_enables (filter_new name) r = (severity l <=? severity (lr_level r))%nat
}.

Section logging.
Context {F : Type} `{EnvFilterLib F}.

Definition default_directive (level : LogLevel) : string :=
  match level with Debug => "debug" | Info => "info" | Warning => "warn" | Error => "error" end.

(** [build_env_filter], with the value of RUST_LOG. *)
Definition build_env_filter (rust_log : option string) (level : LogLevel) : F :=
  default (filter_new (default_directive level)) (rust_log ≫= filter_parse).

(** What the subscriber of [init_logging] writes of the records that are logged. *)
Definition written (rust_log : option string) (level : LogLevel) (records : list LogRecord) : list LogRecord :=
  retain (filter_enables (build_env_filter rust_log level)) records.
End logging.

(** ** The lines *)

Definition log_ocpp_message_summary (message_type action unique_id direction : string) : list LogRecord :=
  [mkRecord LDebug
     [("component", FStr "forwarder"); ("message_type", FStr message_type); ("action", FStr action);
      ("unique_id", FStr unique_id); ("direction", FStr direction)]%string "OCPP message forwarded"].

(** [latency.as_millis() as u64]: the conversion keeps the low 64 bits. *)
Definition as_millis_u64 (d : Z) : Z := wrap_u64 (d / 1000000).

Definition log_latency_warning (latency : Z) (unique_id direction : string) : list LogRecord :=
  if from_millis 500 <? latency then
    [mkRecord LWarn
       [("component", FStr "forwarder"); ("latency_ms", FU64 (as_millis_u64 latency)); ("unique_id", FStr unique_id);
        ("direction", FStr direction)]%string "Message forwarding latency exceeded 500ms threshold"]
  else [].

Definition log_connection_state_change (connection_id previous_state new_state : string) : list LogRecord :=
  [mkRecord LInfo
     [("component", FStr "state"); ("connection_id", FStr connection_id); ("previous_state", FStr previous_state);
      ("new_state", FStr new_state)]%string "Connection state transition"].

Definition log_error (cat connection_id : string) (unique_id : option string) (desc : string) : list LogRecord :=
  [mkRecord LError
     [("component", FStr cat); ("connection_id", FStr connection_id); ("unique_id", FStr (default "N/A" unique_id));
      ("error_category", FStr cat)]%string desc].

(** [log_startup_begin] and [log_startup_complete] of src/shutdown.rs: the instant, and
    the line; the line with the time that has passed since. *)
Definition log_startup_begin (c : Clock) : Z * list LogRecord :=
  (instant_now c, [mkRecord LInfo [("component", FStr "startup")]%string "OCPP Proxy startup sequence initiated"]).

Definition log_startup_complete (startup_time : Z) (c : Clock) : list LogRecord :=
  [mkRecord LInfo [("component", FStr "startup"); ("elapsed_ms", FU64 (as_millis_u64 (Z.max 0 (instant_now c - startup_time))))]%string
     "Proxy startup complete — ready to accept connections"].

(** ** Theorems *)

Section logging_theorems.
Context {F : Type} `{EnvFilterLaws F}.

(** RUST_LOG comes first: when it holds a filter, that decides what is written, whatever
    the configuration says; without one, or with one that cannot be parsed, a line is
    written exactly when it is at least as severe as the configured level. *)
Theorem rust_log_first rust_log level r :
  match rust_log ≫= filter_parse with
  | Some f => written rust_log level [r] = if filter_enables f r then [r] else []
  | None => written rust_log level [r] =
      if (severity match level with Debug => LDebug | Info => LInfo | Warning => LWarn | Error => LError end
            <=? severity (lr_level r))%nat then [r] else []
  end.
Proof.
  unfold written, build_env_filter. destruct (rust_log ≫= filter_parse) as [f|]; simpl; [done|].
  destruct level; simpl; by erewrite filter_new_level by (repeat constructor).
Qed.
End logging_theorems.

(** Forwarding is called slow above half a second and not at it; the line says how many
    whole milliseconds it took, for any latency of less than half a billion years. *)
Theorem latency_warning_threshold latency uid direction :
  0 ≤ latency →
  (log_latency_warning latency uid direction = [] ↔ latency ≤ from_millis 500) ∧
  (from_millis 500 < latency < from_millis (2 ^ 64) →
   ∃ r ms, log_latency_warning latency uid direction = [r] ∧ lr_level r = LWarn ∧
     ("latency_ms"%string, FU64 ms) ∈ lr_fields r ∧ from_millis ms ≤ latency < from_millis (ms + 1) ∧ 500 ≤ ms).
Proof.
  intros Hl. unfold log_latency_warning. destruct (Z.ltb_spec (from_millis 500) latency) as [Hs|Hs].
  - split; [split; [done|lia]|]. intros [_ Hm]. unfold from_millis in *. eexists _, (as_millis_u64 latency). split; [done|].
    split; [done|]. split; [simpl; set_solver|]. unfold as_millis_u64, wrap_u64.
    assert (0 ≤ latency / 1000000 < 2 ^ 64) as Hq by (split; [apply Z.div_pos|apply Z.div_lt_upper_bound]; lia).
    rewrite Z.mod_small by done. pose proof (Z.mul_div_le latency 1000000). pose proof (Z.mod_pos_bound latency 1000000).
    pose proof (Z.div_mod latency 1000000). split; [lia|]. apply Z.div_le_lower_bound; lia.
  - split; [by split|lia].
Qed.

(** ** Witnesses *)

(** A filter that is a level. *)
#[local] Instance level_filter : EnvFilterLib (option Level) := {
  filter_parse s := match list_find (λ nl, nl.1 = s) directives with Some (_, (_, l)) => Some (Some l) | None => None end;
  filter_new s := match list_find (λ nl, nl.1 = s) directives with Some (_, (_, l)) => Some l | None => None end;
  filter_enables f r := match f with Some l => (severity l <=? severity (lr_level r))%nat | None => false end
}.

#[local] Instance level_filter_laws : EnvFilterLaws (option Level).
Proof.
  constructor. intros name l r Hd. unfold directives in Hd. rewrite !elem_of_cons, elem_of_nil in Hd.
  by destruct Hd as [[= -> ->]|[[= -> ->]|[[= -> ->]|[[= -> ->]|[]]]]].
Qed.

Lemma latency_warning_threshold_witness :
  ∃ r, log_latency_warning (from_millis 600) "test-id-456" "central_to_charger" = [r] ∧ lr_level r = LWarn.
Proof.
  destruct (latency_warning_threshold (from_millis 600) "test-id-456" "central_to_charger") as [_ Hr]; [vm_compute; discriminate|].
  destruct Hr as (r & _ & Hr & Hl & _); [split; reflexivity|]. exists r. split; [exact Hr|exact Hl].
Defined.

(** A level configured, and one in RUST_LOG. *)
Example rust_log_overrides :
  written (Some "error"%string) Debug (log_latency_warning (from_millis 600) "u" "d") = [] ∧
  written (Some "no such level"%string) Warning (log_latency_warning (from_millis 600) "u" "d") ≠ [].
Proof. split; vm_compute; [reflexivity|discriminate]. Qed.

Lemma rust_log_first_witness :
  written (Some "no such level"%string) Warning (log_error "tls" "mqtt" None "no certificate") =
    log_error "tls" "mqtt" None "no certificate" ∧
  written (Some "error"%string) Debug (log_connection_state_change "mqtt" "connected" "reconnecting") = [].
Proof.
  split.
  - exact (rust_log_first (Some "no such level"%string) Warning _).
  - exact (rust_log_first (Some "error"%string) Debug _).
Defined.
