(* ===== verification/Upstream.v ===== *)
(** * Connecting to the Central System (src/upstream.rs)

    The URL of a charger, and the one attempt to connect that [run_session] makes at a
    time; retrying is the session's (Session.v). The URL library, the operating system's
    sockets and the WebSocket handshake are interfaces over a state of the network, [W];
    their laws say what they record, so that theorems can speak of which addresses were
    dialled, from where, and with which headers. A future raced against the timeout is a
    state transformer whose result is [None] when the timer fired while it waited. *)

From Stdlib Require Import Ascii.
From S2P Require Import Prelude Float64 Text Models Config.

Local Open Scope Z_scope.

Definition CONNECT_TIMEOUT : Z := from_secs 10.

(** ** Addresses and their text *)

Definition SocketAddr : Type := IpAddr * Z.

(** [{:x}] of a 16-bit segment. *)
Fixpoint hex_go (fuel : nat) (z : Z) : string :=
  match fuel with
  | O => ""
  | S fuel => (if z <? 16 then "" else hex_go fuel (z / 16)) +:+ hex_digit (z mod 16)
  end.
Definition hex_u16 (z : Z) : string := hex_go 4 z.

Definition octets (n : nat) (bits : Z) : list Z :=
  (λ i, Z.land (Z.shiftr bits (8 * Z.of_nat i)) 255) <$> reverse (seq 0 n).
Definition segments (bits : Z) : list Z :=
  (λ i, Z.land (Z.shiftr bits (16 * Z.of_nat i)) 65535) <$> reverse (seq 0 8).

Definition ipv4_fmt (bits : Z) : string := String.concat "." (pretty <$> octets 4 bits).

(** The longest run of zero segments, the first of the longest: where it starts and its
    length. [cur] is the run that ends before [i]. *)
Fixpoint zero_run (i : nat) (cur best : nat * nat) (l : list Z) : nat * nat :=
  match l with
  | [] => best
  | z :: l =>
      if z =? 0 then
        let cur := (if decide (cur.2 = 0%nat) then i else cur.1, S cur.2) in
        zero_run (S i) cur (if decide (best.2 < cur.2)%nat then cur else best) l
      else zero_run (S i) (0%nat, 0%nat) best l
  end.

Definition fmt_segments (l : list Z) : string := String.concat ":" (hex_u16 <$> l).

(** [impl Display for Ipv6Addr]. *)
Definition ipv6_fmt (bits : Z) : string :=
  let l := segments bits in
  if bool_decide (take 6 l = [0; 0; 0; 0; 0; 65535]) then "::ffff:" +:+ ipv4_fmt (Z.land bits (2 ^ 32 - 1))
  else
    let '(start, len) := zero_run 0 (0%nat, 0%nat) (0%nat, 0%nat) l in
    if decide (1 < len)%nat then fmt_segments (take start l) +:+ "::" +:+ fmt_segments (drop (start + len) l)
    else fmt_segments l.

(** [impl Display for IpAddr]. *)
Definition ip_fmt (a : IpAddr) : string := match a with V4 bits => ipv4_fmt bits | V6 bits => ipv6_fmt bits end.

Example ip_fmt_v4 : ip_fmt (V4 (10 * 2 ^ 24 + 7)) = "10.0.0.7"%string.
Proof. reflexivity. Qed.
Example ip_fmt_v6 : ip_fmt <$> [V6 1; V6 0; V6 (65535 * 2 ^ 32 + 1); V6 (8193 * 2 ^ 112 + 3512 * 2 ^ 96 + 26)]
  = ["::1"; "::"; "::ffff:0.0.0.1"; "2001:db8::1a"]%string.
Proof. vm_compute. reflexivity. Qed.

(** ** The URL library *)

Class UrlLib (Url : Type) := {
  url_path : Url → string;
  set_path : Url → string → Url;
  url_as_str : Url → string;
  host_str : Url → option string;
  port_or_known_default : Url → option Z
}.

(** [path.ends_with('/')]. *)
Definition ends_with_slash (s : string) : bool := bool_decide (last (chars s) = Some "/"%char).

Definition build_upstream_url {Url} `{UrlLib Url} (base_url : Url) (charge_point_id : string) : Url :=
  let path := url_path base_url in
  let path := if negb (ends_with_slash path) then path +:+ "/" else path in
  set_path base_url (path +:+ charge_point_id).

(** The characters a URL path carries as they are, and the path segments it does not
    resolve. *)
Definition plain_char (c : ascii) : bool :=
  between 48 57 c || between 65 90 c || between 97 122 c
  || bool_decide (c ∈ ["-"; "."; "_"; "~"; "!"; "$"; "&"; "("; ")"; "*"; "+"; ","; ";"; "="; ":"; "@"]%char).
Definition plain_segment (s : string) : bool :=
  forallb plain_char (chars s) && negb (bool_decide (s = "."%string)) && negb (bool_decide (s = ".."%string)).
Definition plain_path (s : string) : bool :=
  bool_decide (head (chars s) = Some "/"%char) && forallb plain_segment (split "/"%char s).

(** The library keeps a path of plain segments, and setting the path leaves the
    authority alone. *)
Class UrlLaws (Url : Type) `{UrlLib Url} := {
  url_path_set u p : plain_path p = true → url_path (set_path u p) = p;
  host_set_path u p : host_str (set_path u p) = host_str u;
  port_set_path u p : port_or_known_default (set_path u p) = port_or_known_default u
}.

(** ** The network *)

(** [Req], [Header], [Sock], [Tcp] and [Ws] are the libraries' requests, header values,
    sockets, TCP streams and WebSocket streams. An awaited operation is given the deadline
    of the timeout around it and yields [None] when that comes first. *)
Class Network (W Req Header Sock Tcp Ws : Type) := {
  into_client_request : string → result Req string;
  header_value : string → result Header string;
  insert_header : Req → string → Header → Req;
  net_now : W → Z;
  lookup_host : Z → string → Z → W → W * option (result (list SocketAddr) string);
  new_v4 : W → W * result Sock string;
  new_v6 : W → W * result Sock string;
  sock_bind : Sock → SocketAddr → W → W * result unit string;
  sock_connect : Z → Sock → SocketAddr → W → W * option (result Tcp string);
  connect_async_tls : Z → Req → W → W * option (result Ws string);
  client_async_tls : Z → Req → Tcp → W → W * option (result Ws string)
}.

(** A TCP connect: where from, where to, and how it ended. *)
Record Dial := mkDial { dial_from : option IpAddr; dial_to : SocketAddr; dial_end : option (result unit string) }.

(** A result without its value. *)
Definition outcome {A} (r : result A string) : result unit string :=
  match r with Ok _ => Ok () | Err e => Err e end.

(** What the network remembers: the TCP connects of bound sockets, in order; the
    handshakes; and the address a socket is bound to. No timer fires early. *)
Class NetworkLaws (W Req Header Sock Tcp Ws : Type) `{Network W Req Header Sock Tcp Ws} := {
  dials : W → list Dial;
  handshakes : W → list Req;
  bound_to : W → Sock → option IpAddr;
  req_header : Req → string → option Header;
  insert_header_eq req n v : req_header (insert_header req n v) n = Some v;
  lookup_host_log dl h p w w' r : lookup_host dl h p w = (w', r) →
    dials w' = dials w ∧ handshakes w' = handshakes w ∧ (r = None → dl ≤ net_now w');
  new_v4_log w w' r : new_v4 w = (w', r) → dials w' = dials w ∧ handshakes w' = handshakes w;
  new_v6_log w w' r : new_v6 w = (w', r) → dials w' = dials w ∧ handshakes w' = handshakes w;
  sock_bind_log s a w w' r : sock_bind s a w = (w', r) →
    dials w' = dials w ∧ handshakes w' = handshakes w ∧ (r = Ok () → bound_to w' s = Some a.1);
  sock_connect_log dl s a w w' r : sock_connect dl s a w = (w', r) →
    dials w' = dials w ++ [mkDial (bound_to w s) a (outcome <$> r)] ∧ handshakes w' = handshakes w ∧
    (r = None → dl ≤ net_now w');
  connect_async_log dl req w w' r : connect_async_tls dl req w = (w', r) →
    handshakes w' = handshakes w ++ [req] ∧ (r = None → dl ≤ net_now w');
  client_async_log dl req s w w' r : client_async_tls dl req s w = (w', r) →
    dials w' = dials w ∧ handshakes w' = handshakes w ++ [req] ∧ (r = None → dl ≤ net_now w')
}.

(** ** Futures over the network *)

Section upstream.
Context {Url W Req Header Sock Tcp Ws : Type} `{UrlLib Url} `{Network W Req Header Sock Tcp Ws}.

(** A future: [None] when the deadline came first. *)
Definition Future (A : Type) : Type := W → W * option (result A ProxyError).

Definition ready {A} (r : result A ProxyError) : Future A := λ w, (w, Some r).
Definition and_then {A B} (m : Future A) (k : A → Future B) : Future B := λ w,
  let '(w, r) := m w in
  match r with Some (Ok a) => k a w | Some (Err e) => (w, Some (Err e)) | None => (w, None) end.
(** [map_err] to an upstream error, for an operation awaited and for one that is not. *)
Definition awaiting {A} (text : string → string) (op : W → W * option (result A string)) : Future A := λ w,
  let '(w, r) := op w in
  (w, (λ r, match r with Ok a => Ok a | Err e => Err (ConnectionUpstream (text e)) end) <$> r).
Definition at_once {A} (text : string → string) (op : W → W * result A string) : Future A :=
  awaiting text (λ w, let '(w, r) := op w in (w, Some r)).

Local Notation "'let!' x ':=' m 'in' k" := (and_then m (λ x, k)) (at level 10, x pattern, m at level 100, k at level 200).

(** ** A bound connection *)

(** The loop of [connect_bound] over the addresses it has kept. *)
Fixpoint connect_each (dl : Z) (host : string) (bind : IpAddr) (addrs : list SocketAddr) (last_err : option string) :
    Future Tcp :=
  match addrs with
  | [] =>
      ready (Err (ConnectionUpstream
        match last_err with
        | Some e => "Failed to connect to '" +:+ host +:+ "': " +:+ e
        | None => "No address for '" +:+ host +:+ "' matching bind family " +:+ ip_fmt bind
        end))
  | addr :: addrs =>
      let! socket := at_once (λ e, "Failed to create socket: " +:+ e) (if is_ipv4 bind then new_v4 else new_v6) in
      let! _ := at_once (λ e, "Failed to bind upstream socket to " +:+ ip_fmt bind +:+ ": " +:+ e)
                  (sock_bind socket (bind, 0)) in
      λ w,
        let '(w, r) := sock_connect dl socket addr w in
        match r with
        | None => (w, None)
        | Some (Ok stream) => (w, Some (Ok stream))
        | Some (Err e) => connect_each dl host bind addrs (Some e) w
        end
  end.

(** The addresses of the bind address's family. *)
Definition same_family (bind : IpAddr) (addrs : list SocketAddr) : list SocketAddr :=
  retain (λ a, eqb (is_ipv4 a.1) (is_ipv4 bind)) addrs.

Definition connect_bound (dl : Z) (url : Url) (bind : IpAddr) : Future Tcp :=
  match host_str url with
  | None => ready (Err (ConnectionUpstream "Central System URL has no host"))
  | Some host =>
      let port := default 80 (port_or_known_default url) in
      let! addrs := awaiting (λ e, "Failed to resolve '" +:+ host +:+ "': " +:+ e) (lookup_host dl host port) in
      connect_each dl host bind (same_family bind addrs) None
  end.

(** ** [connect_upstream] *)

(** The request with the charger's subprotocol. *)
Definition upstream_request (url : Url) (subprotocol : string) : result Req ProxyError :=
  match into_client_request (url_as_str url) with
  | Err e => Err (ConnectionUpstream ("Failed to build WebSocket request: " +:+ e))
  | Ok request =>
      match header_value subprotocol with
      | Err e => Err (ConnectionUpstream ("Invalid subprotocol header value: " +:+ e))
      | Ok v => Ok (insert_header request "Sec-WebSocket-Protocol" v)
      end
  end.

(** The async block [connect]. *)
Definition connect (dl : Z) (url : Url) (request : Req) (bind_address : option IpAddr) : Future Ws :=
  match bind_address with
  | None => awaiting (λ e, "WebSocket connection failed: " +:+ e) (connect_async_tls dl request)
  | Some bind =>
      let! stream := connect_bound dl url bind in
      awaiting (λ e, "WebSocket connection failed: " +:+ e) (client_async_tls dl request stream)
  end.

Definition timed_out (connect_timeout : Z) : ProxyError :=
  ConnectionUpstream ("Connection timed out after " +:+ pretty (connect_timeout / NANOS) +:+ " seconds").

Definition connect_upstream (url : Url) (subprotocol : string) (bind_address : option IpAddr) (connect_timeout : Z)
    (w : W) : W * result Ws ProxyError :=
  match upstream_request url subprotocol with
  | Err e => (w, Err e)
  | Ok request =>
      let '(w, r) := connect (net_now w + connect_timeout) url request bind_address w in
      (w, default (Err (timed_out connect_timeout)) r)
  end.
End upstream.

(** ** Lemmas *)

Section lemmas.
Context {Url W Req Header Sock Tcp Ws : Type} `{UrlLib Url} `{NetworkLaws W Req Header Sock Tcp Ws}.

Lemma and_then_inv {A B} (m : Future (W := W) A) (k : A → Future B) w w' r :
  and_then m k w = (w', r) →
  (∃ a w1, m w = (w1, Some (Ok a)) ∧ k a w1 = (w', r)) ∨
  (∃ e, m w = (w', Some (Err e)) ∧ r = Some (Err e)) ∨ (m w = (w', None) ∧ r = None).
Proof.
  unfold and_then. destruct (m w) as [w1 [[a|e]|]]; intros Hk; [left; by exists a, w1|right; left|right; right];
    injection Hk as <- <-; [by exists e|done].
Qed.

Lemma awaiting_inv {A} (text : string → string) (op : W → W * option (result A string)) w w' r :
  awaiting text op w = (w', r) →
  ∃ r0, op w = (w', r0) ∧
    r = (λ r, match r with Ok a => Ok a | Err e => Err (ConnectionUpstream (text e)) end) <$> r0.
Proof. unfold awaiting. destruct (op w) as [w1 r0]. intros [= <- <-]. by exists r0. Qed.

Lemma at_once_inv {A} (text : string → string) (op : W → W * result A string) w w' r :
  at_once text op w = (w', r) →
  ∃ r0, op w = (w', r0) ∧ r = Some match r0 with Ok a => Ok a | Err e => Err (ConnectionUpstream (text e)) end.
Proof.
  unfold at_once. intros (r0 & Hop & ->)%awaiting_inv. destruct (op w) as [w1 r1]. injection Hop as <- <-. by exists r1.
Qed.

(** An upstream error, or none. *)
Definition upstream_error {A} (r : option (result A ProxyError)) : Prop :=
  match r with Some (Err e) => ∃ text, e = ConnectionUpstream text | _ => True end.

(** How the dials of a bound connection went, from [bind] to [cands], with its result:
    every one but the last failed, and the result is the last one's; none is skipped. *)
Inductive dialled {A} (bind : IpAddr) (host : string) :
    option string → list SocketAddr → list Dial → option (result A ProxyError) → Prop :=
  | dialled_none e : dialled bind host (Some e) [] [] (Some (Err (ConnectionUpstream ("Failed to connect to '" +:+ host +:+ "': " +:+ e))))
  | dialled_empty : dialled bind host None [] [] (Some (Err (ConnectionUpstream ("No address for '" +:+ host +:+ "' matching bind family " +:+ ip_fmt bind))))
  | dialled_local last_err a cands text :
      dialled bind host last_err (a :: cands) [] (Some (Err (ConnectionUpstream text)))
  | dialled_ok last_err a cands x : dialled bind host last_err (a :: cands) [mkDial (Some bind) a (Some (Ok ()))] (Some (Ok x))
  | dialled_pending last_err a cands : dialled bind host last_err (a :: cands) [mkDial (Some bind) a None] None
  | dialled_next last_err a cands e l r :
      dialled bind host (Some e) cands l r →
      dialled bind host last_err (a :: cands) (mkDial (Some bind) a (Some (Err e)) :: l) r.

Lemma new_socket_log bind w w' (r : result Sock string) :
  (if is_ipv4 bind then new_v4 else new_v6) w = (w', r) → dials w' = dials w ∧ handshakes w' = handshakes w.
Proof. destruct (is_ipv4 bind); [apply new_v4_log|apply new_v6_log]. Qed.

Lemma connect_each_log dl host bind addrs last_err w w' r :
  connect_each dl host bind addrs last_err w = (w', r) →
  ∃ l, dials w' = dials w ++ l ∧ handshakes w' = handshakes w ∧ (r = None → dl ≤ net_now w') ∧
    dialled bind host last_err addrs l r.
Proof.
  revert last_err w. induction addrs as [|a addrs IH]; intros last_err w; simpl.
  { intros [= <- <-]. exists []. rewrite app_nil_r. split_and!; [done..|]. destruct last_err; constructor. }
  intros [(socket & w1 & Hs & Hk)|[(e & Hs & ->)|[Hs ->]]]%and_then_inv;
    apply at_once_inv in Hs as (r0 & Hs & Hr0); apply new_socket_log in Hs as [Hd1 Hh1]; destruct r0; try done;
    simplify_eq/=; [|exists []; rewrite app_nil_r; split_and!; [done..|constructor]].
  apply and_then_inv in Hk as [([] & w2 & Hs & Hk)|[(e & Hs & ->)|[Hs ->]]];
    apply at_once_inv in Hs as (r0 & Hs & Hr0); apply sock_bind_log in Hs as (Hd2 & Hh2 & Hb); destruct r0 as [[]|]; try done;
    simplify_eq/=; [|exists []; rewrite app_nil_r; split_and!; [congruence..|done|constructor]].
  destruct (sock_connect dl _ a w2) as [w3 r3] eqn:Hc. apply sock_connect_log in Hc as (Hd3 & Hh3 & Ht).
  rewrite Hb in Hd3 by done. destruct r3 as [[x|e]|].
  - injection Hk as <- <-. eexists. split_and!; [by rewrite Hd3, Hd2, Hd1|congruence|done|]. constructor.
  - destruct (IH _ _ Hk) as (l & Hd4 & Hh4 & Ht4 & Hl). eexists. split_and!;
      [rewrite Hd4, Hd3, Hd2, Hd1, <- app_assoc; reflexivity|congruence|done|by constructor].
  - injection Hk as <- <-. eexists. split_and!; [by rewrite Hd3, Hd2, Hd1|congruence|by intros; apply Ht|constructor].
Qed.

(** The dials of a bound connection: from [bind], to the candidates in their order from the
    first on, and only the last one does not fail. *)
Lemma dialled_spec {A} bind host last_err cands l (r : option (result A ProxyError)) :
  dialled bind host last_err cands l r →
  Forall (λ d, dial_from d = Some bind) l ∧
  dial_to <$> l `prefix_of` cands ∧
  Forall (λ d, ∃ e, dial_end d = Some (Err e)) (take (pred (length l)) l) ∧
  ((∃ x, r = Some (Ok x)) ↔ dial_end <$> last l = Some (Some (Ok ()))) ∧
  (r = None ↔ dial_end <$> last l = Some None) ∧
  (∀ e, (length l = length cands)%nat → (default last_err ((λ d, match dial_end d with Some (Err e) => Some e | _ => None end) <$> last l)) = Some e →
    r = Some (Err (ConnectionUpstream ("Failed to connect to '" +:+ host +:+ "': " +:+ e)))) ∧
  upstream_error r.
Proof.
  induction 1 as [e| |last_err a cands text|last_err a cands x|last_err a cands|last_err a cands e l r Hd IH].
  1-5: simpl; split_and!; try done; try (by repeat constructor); try apply prefix_nil; try (by eexists);
    try (by split; [intros [] || intros|first [done|by eexists]]); try (by intros e' _ [= <-]); try (by apply prefix_cons, prefix_nil).
  - destruct IH as (? & ? & Hfail & Hok & Hpend & Hlast & ?). split_and!; [by constructor|by apply prefix_cons| | | | |done].
    + destruct l as [|d l]; [constructor|]. simpl in *. constructor; [by eexists|done].
    + rewrite Hok. by destruct l.
    + rewrite Hpend. by destruct l.
    + intros e' Hl He. apply Hlast; [simpl in Hl; lia|]. destruct l as [|d l]; [done|].
      destruct (proj2 (last_is_Some (d :: l)) ltac:(done)) as [y Hy].
      change (default last_err ((λ d, match dial_end d with Some (Err e) => Some e | _ => None end) <$> last (d :: l)) = Some e') in He.
      by rewrite Hy in He |- *.
Qed.

Lemma connect_bound_log dl url bind w w' (r : option (result Tcp ProxyError)) :
  connect_bound dl url bind w = (w', r) →
  ∃ l, dials w' = dials w ++ l ∧ handshakes w' = handshakes w ∧ (r = None → dl ≤ net_now w') ∧ upstream_error r ∧
    Forall (λ d, dial_from d = Some bind ∧ is_ipv4 (dial_to d).1 = is_ipv4 bind) l ∧
    ((∃ s, r = Some (Ok s)) → dial_end <$> last l = Some (Some (Ok ()))).
Proof.
  unfold connect_bound. destruct (host_str url) as [host|].
  2: { intros [= <- <-]. exists []. rewrite app_nil_r. split_and!; try done; [by eexists|by intros []]. }
  intros [(addrs & w1 & Hs & Hk)|[(e & Hs & ->)|[Hs ->]]]%and_then_inv;
    apply awaiting_inv in Hs as ([[|]|] & Hs & Hr0); simplify_eq/=; apply lookup_host_log in Hs as (Hd & Hh & Ht).
  - apply connect_each_log in Hk as (l & Hd' & Hh' & Ht' & Hl). exists l.
    destruct (dialled_spec _ _ _ _ _ _ Hl) as (Hfrom & Hto & _ & Hok & _ & _ & He).
    split_and!; [congruence..|done|done| |by intros; apply Hok].
    apply Forall_forall. intros d Hin. rewrite Forall_forall in Hfrom. split; [by apply Hfrom|].
    destruct Hto as [rest Hto]. assert (dial_to d ∈ same_family bind _) as [_ Hf]%elem_of_retain
      by (rewrite Hto; apply elem_of_app; left; by apply list_elem_of_fmap_2).
    by apply eqb_prop in Hf.
  - exists []. rewrite app_nil_r. split_and!; try done; [by eexists|by intros []].
  - exists []. rewrite app_nil_r. split_and!; try done; [auto|by intros []].
Qed.

(** One attempt: at most one handshake, with the request given, and no stream without it. *)
Lemma connect_log dl url req bind w w' (r : option (result Ws ProxyError)) :
  connect dl url req bind w = (w', r) →
  ∃ hs, handshakes w' = handshakes w ++ hs ∧ (hs = [] ∨ hs = [req]) ∧ ((∃ x, r = Some (Ok x)) → hs = [req]) ∧
    (r = None → dl ≤ net_now w') ∧ upstream_error r.
Proof.
  unfold connect. destruct bind as [bind|].
  - intros [(tcp & w1 & Hs & Hk)|[(e & Hs & ->)|[Hs ->]]]%and_then_inv;
      apply connect_bound_log in Hs as (l & _ & Hh & Ht & He & _).
    + apply awaiting_inv in Hk as (r0 & Hk & ->). apply client_async_log in Hk as (_ & Hh' & Ht'). exists [req].
      split_and!; [by rewrite Hh', Hh|by right|done|destruct r0; [done|auto]|destruct r0 as [[]|]; try done; by eexists].
    + exists []. rewrite app_nil_r. split_and!; [done|by left|by intros []|done|done].
    + exists []. rewrite app_nil_r. split_and!; [done|by left|by intros []|auto|done].
  - intros (r0 & Hk & ->)%awaiting_inv. apply connect_async_log in Hk as (Hh' & Ht'). exists [req].
    split_and!; [done|by right|done|destruct r0; [done|auto]|destruct r0 as [[]|]; try done; by eexists].
Qed.

(** C30. Every attempt to connect ends in a stream or in one kind of error. A failure is always
    one of the upstream connection; when the timer fires, the report is the time-out, and
    the time is indeed over; at most one handshake is made, a stream never comes without
    it, and it asks for the subprotocol given, the one the charger negotiated. *)
Theorem connect_upstream_outcome url subprotocol bind timeout w w' (r : result Ws ProxyError) :
  connect_upstream url subprotocol bind timeout w = (w', r) →
  (∀ e, r = Err e → category e = "connection_upstream"%string) ∧
  (∃ hs, handshakes w' = handshakes w ++ hs ∧ (length hs ≤ 1)%nat ∧ (is_ok r = true → length hs = 1%nat) ∧
     Forall (λ req, ∃ v, header_value subprotocol = Ok v ∧ req_header req "Sec-WebSocket-Protocol" = Some v) hs) ∧
  (∀ request, upstream_request url subprotocol = Ok request →
     (connect (net_now w + timeout) url request bind w).2 = None →
     r = Err (timed_out timeout) ∧ net_now w + timeout ≤ net_now w').
Proof.
  unfold connect_upstream, upstream_request. intros Hc.
  destruct (into_client_request (url_as_str url)) as [req|e];
    [destruct (header_value subprotocol) as [v|e] eqn:Hv|]; simplify_eq/=.
  2,3: split_and!; [by intros ? [= <-]|exists []; rewrite app_nil_r; split_and!; [done|simpl; lia|done|constructor]|done].
  destruct (connect _ _ _ _ _) as [w1 r1] eqn:E. injection Hc as <- <-.
  destruct (connect_log _ _ _ _ _ _ _ E) as (hs & Hh & Hhs & Hok & Ht & He). split_and!.
  - intros e Hr. destruct r1 as [[|]|]; simplify_eq/=; [by destruct He as [? ->]|done].
  - exists hs. split_and!; [done|destruct Hhs as [->| ->]; simpl; lia| |].
    + destruct r1 as [[x|]|]; try done. intros _. by rewrite Hok by by eexists.
    + destruct Hhs as [->| ->]; constructor; [|done]. exists v. split; [done|]. apply insert_header_eq.
  - intros ? [= <-]. rewrite E. simpl. intros ->. split; [done|by apply Ht].
Qed.

(** C29. With a source address configured, the charger's traffic leaves from it or not at all:
    every TCP connection an attempt opens is from that address and to an address of its
    family, and a stream is given only over the last one of them, which succeeded. *)
Theorem bound_source_only url subprotocol bind timeout w w' (r : result Ws ProxyError) :
  connect_upstream url subprotocol (Some bind) timeout w = (w', r) →
  ∃ l, dials w' = dials w ++ l ∧
    Forall (λ d, dial_from d = Some bind ∧ is_ipv4 (dial_to d).1 = is_ipv4 bind) l ∧
    (is_ok r = true → dial_end <$> last l = Some (Some (Ok ()))).
Proof.
  unfold connect_upstream. intros Hc.
  destruct (upstream_request url subprotocol) as [request|e].
  2: { injection Hc as <- <-. exists []. by rewrite app_nil_r. }
  unfold connect in Hc. destruct (and_then _ _ _) as [w1 r1] eqn:E. injection Hc as <- <-.
  apply and_then_inv in E as [(tcp & w2 & Hs & Hk)|[(e & Hs & ->)|[Hs ->]]];
    apply connect_bound_log in Hs as (l & Hd & _ & _ & _ & Hfrom & Hok); exists l; try done.
  apply awaiting_inv in Hk as (r0 & Hk & ->). apply client_async_log in Hk as (Hd' & _).
  split_and!; [by rewrite Hd', Hd|done|]. intros _. apply Hok. by eexists.
Qed.

(** The addresses a bound connection tries are those of its family, in the order the
    resolver gave them and from the first on; all that it tried before the last failed;
    it succeeds exactly when the last one did; and when every one of them was tried and
    failed, the error is that of the last. *)
Theorem connect_bound_in_order dl url bind host w w1 addrs w' (r : option (result Tcp ProxyError)) :
  host_str url = Some host →
  lookup_host dl host (default 80 (port_or_known_default url)) w = (w1, Some (Ok addrs)) →
  connect_bound dl url bind w = (w', r) →
  ∃ l, dials w' = dials w ++ l ∧ dial_to <$> l `prefix_of` same_family bind addrs ∧
    Forall (λ d, ∃ e, dial_end d = Some (Err e)) (take (pred (length l)) l) ∧
    ((∃ x, r = Some (Ok x)) ↔ dial_end <$> last l = Some (Some (Ok ()))) ∧
    (∀ e, length l = length (same_family bind addrs) → dial_end <$> last l = Some (Some (Err e)) →
      r = Some (Err (ConnectionUpstream ("Failed to connect to '" +:+ host +:+ "': " +:+ e)))) ∧
    (same_family bind addrs = [] →
      r = Some (Err (ConnectionUpstream ("No address for '" +:+ host +:+ "' matching bind family " +:+ ip_fmt bind)))).
Proof.
  unfold connect_bound. intros -> Hlook. unfold and_then at 1, awaiting. rewrite Hlook. simpl. intros Hc.
  apply lookup_host_log in Hlook as (Hd1 & _). pose proof Hc as Hc'.
  apply connect_each_log in Hc as (l & Hd & _ & _ & Hl). exists l.
  destruct (dialled_spec _ _ _ _ _ _ Hl) as (_ & Hto & Hfail & Hok & _ & Hlast & _).
  split_and!; [by rewrite Hd, Hd1|done..| |].
  - intros e Hlen He. apply Hlast; [done|]. destruct (last l) as [d|]; [|done]. simpl in *. by injection He as ->.
  - intros Hnil. rewrite Hnil in Hc'. simpl in Hc'. by injection Hc' as _ <-.
Qed.
End lemmas.

(** The id reaches the Central System as the charger gave it: with a base URL and an id of
    plain characters, the id is the last segment of the path, after the base's own, and
    host and port are the base's. *)
Theorem url_mirrors_id {Url} `{UrlLaws Url} (base : Url) id :
  plain_path (url_path base) = true → plain_segment id = true →
  let url := build_upstream_url base id in
  url_path url = url_path base +:+ (if ends_with_slash (url_path base) then "" else "/") +:+ id ∧
  last (split "/"%char (url_path url)) = Some id ∧
  host_str url = host_str base ∧ port_or_known_default url = port_or_known_default base.
Proof.
  intros Hbase Hid. unfold build_upstream_url. apply andb_prop in Hbase as [Hhead Hsegs].
  assert (no_char "/" id) as Hno.
  { apply andb_prop in Hid as [[Hid _]%andb_prop _]. rewrite forallb_forall in Hid. intros Hin.
    apply list_elem_of_In in Hin. by specialize (Hid _ Hin). }
  assert (∃ p, (if negb (ends_with_slash (url_path base)) then url_path base +:+ "/" else url_path base) +:+ id
      = p +:+ String.String "/" id ∧
    url_path base +:+ (if ends_with_slash (url_path base) then "" else "/") +:+ id = p +:+ String.String "/" id ∧
    forallb plain_segment (split "/"%char p) = true ∧ (p = ""%string ∨ head (chars p) = Some "/"%char)) as (p & -> & -> & Hp & Hph).
  { apply bool_decide_eq_true_1 in Hhead. unfold ends_with_slash. case_bool_decide as Hlast; simpl.
    - apply last_Some in Hlast as [q Hq]. exists (of_chars q).
      assert (url_path base = of_chars q +:+ "/") as E by (apply chars_inj; by rewrite chars_app, chars_of_chars).
      rewrite E in Hsegs |- *. split_and!; [by rewrite <- app_string_assoc..| |].
      + rewrite split_app_sep, forallb_app in Hsegs. by apply andb_prop in Hsegs as [? _].
      + rewrite chars_of_chars. destruct q as [|x q]; [by left|right]. by rewrite Hq in Hhead.
    - exists (url_path base). split_and!; [by rewrite <- app_string_assoc|done..|by right]. }
  rewrite url_path_set.
  - split_and!; [done| |apply host_set_path|apply port_set_path].
    by rewrite split_app_sep, (split_no_sep _ id), last_snoc.
  - unfold plain_path. rewrite split_app_sep, forallb_app, Hp, (split_no_sep _ id) by done. simpl. rewrite Hid.
    rewrite andb_true_r. apply bool_decide_eq_true_2. rewrite chars_app.
    destruct Hph as [->|Hph]; [done|]. by destruct (chars p).
Qed.

(** ** Instances for examples: a URL with its parts, and a network that follows a script *)

Record SampleUrl := mkSampleUrl { su_scheme : string; su_host : option string; su_port : option Z; su_path : string }.

#[export] Instance sample_url : UrlLib SampleUrl := {
  url_path := su_path;
  set_path u p := mkSampleUrl (su_scheme u) (su_host u) (su_port u) p;
  url_as_str u := su_scheme u +:+ "://" +:+ default ""%string (su_host u) +:+ su_path u;
  host_str := su_host;
  port_or_known_default := su_port
}.

#[export] Program Instance sample_url_laws : UrlLaws SampleUrl := {}.
Next Obligation. done. Qed.
Next Obligation. done. Qed.
Next Obligation. done. Qed.

(** A host with addresses of its own, a resolver's answer, the addresses that accept and
    those it listens on itself;
    an operation that waits takes a second. Sockets are numbered. *)
Record SampleNet := mkSampleNet {
  sn_now : Z;
  sn_local : list IpAddr;
  sn_resolver : result (list SocketAddr) string;
  sn_listening : list SocketAddr;
  sn_dials : list Dial;
  sn_handshakes : list (string * list (string * string));
  sn_bound : gmap nat IpAddr;
  sn_next : nat;
  sn_serving : list SocketAddr
}.

Definition sn_wait (dl : Z) (n : SampleNet) (d : list Dial) (h : list (string * list (string * string))) : SampleNet * bool :=
  let now := sn_now n + from_secs 1 in
  (mkSampleNet now (sn_local n) (sn_resolver n) (sn_listening n)
     (sn_dials n ++ d) (sn_handshakes n ++ h) (sn_bound n) (sn_next n) (sn_serving n), negb (dl <=? now)).

#[local] Arguments sn_wait : simpl never.

Definition sn_socket (n : SampleNet) : SampleNet * result nat string :=
  (mkSampleNet (sn_now n) (sn_local n) (sn_resolver n) (sn_listening n) (sn_dials n) (sn_handshakes n) (sn_bound n)
     (S (sn_next n)) (sn_serving n), Ok (sn_next n)).

Definition sn_bind (s : nat) (a : SocketAddr) (n : SampleNet) : SampleNet * result unit string :=
  if bool_decide (a.1 ∈ sn_local n) then
    (mkSampleNet (sn_now n) (sn_local n) (sn_resolver n) (sn_listening n) (sn_dials n) (sn_handshakes n)
       (<[s := a.1]> (sn_bound n)) (sn_next n) (sn_serving n), Ok ())
  else (n, Err "Cannot assign requested address"%string).

Definition sn_connect (dl : Z) (s : nat) (a : SocketAddr) (n : SampleNet) : SampleNet * option (result unit string) :=
  let r := if bool_decide (a ∈ sn_listening n) then Ok () else Err "Connection refused"%string in
  let r := if (sn_wait dl n [] []).2 then Some r else None in
  ((sn_wait dl n [mkDial (sn_bound n !! s) a r] []).1, r).

Definition sn_handshake (dl : Z) (req : string * list (string * string)) (n : SampleNet) :
    SampleNet * option (result unit string) :=
  let '(n, in_time) := sn_wait dl n [] [req] in (n, if in_time then Some (Ok ()) else None).

#[export] Instance sample_network : Network SampleNet (string * list (string * string)) string nat unit unit := {
  into_client_request url := Ok (url, []);
  header_value v := Ok v;
  insert_header req n v := (req.1, (n, v) :: req.2);
  net_now := sn_now;
  lookup_host dl _ _ n := let '(n', in_time) := sn_wait dl n [] [] in (n', if in_time then Some (sn_resolver n) else None);
  new_v4 := sn_socket;
  new_v6 := sn_socket;
  sock_bind := sn_bind;
  sock_connect := sn_connect;
  connect_async_tls dl req n := sn_handshake dl req n;
  client_async_tls dl req _ n := sn_handshake dl req n
}.

Definition find_header (l : list (string * string)) (n : string) : option string :=
  snd <$> List.find (λ h, bool_decide (h.1 = n)) l.

Lemma sn_wait_log dl n d h n' b :
  sn_wait dl n d h = (n', b) →
  sn_dials n' = sn_dials n ++ d ∧ sn_handshakes n' = sn_handshakes n ++ h ∧ (b = false → dl ≤ sn_now n').
Proof.
  intros [= <- <-]. split_and!; [done..|]. simpl. intros Hb%negb_false_iff. by apply Z.leb_le in Hb.
Qed.

#[export] Program Instance sample_network_laws :
  NetworkLaws SampleNet (string * list (string * string)) string nat unit unit := {
  dials := sn_dials;
  handshakes := sn_handshakes;
  bound_to n s := sn_bound n !! s;
  req_header req n := find_header req.2 n
}.
Next Obligation. intros req n v. unfold find_header. simpl. by rewrite bool_decide_eq_true_2. Qed.
Next Obligation.
  intros dl h p n n' r. cbn -[sn_wait]. destruct (sn_wait dl n [] []) as [n1 b] eqn:E. intros [= <- <-].
  apply sn_wait_log in E as (Hd & Hh & Ht). rewrite Hd, Hh, !app_nil_r. split_and!; [done..|]. destruct b; [done|auto].
Qed.
Next Obligation. by intros n n' r [= <- <-]. Qed.
Next Obligation. by intros n n' r [= <- <-]. Qed.
Next Obligation.
  intros s a n n' r. simpl. unfold sn_bind. case_bool_decide; intros [= <- <-]; [|done].
  split_and!; [done..|]. intros _. apply lookup_insert_eq.
Qed.
Next Obligation.
  intros dl s a n n' r. simpl. unfold sn_connect. destruct (sn_wait dl n [] []).2 eqn:E; intros [= <- <-].
  - split_and!; [by case_bool_decide|by unfold sn_wait; simpl; rewrite app_nil_r|by case_bool_decide].
  - unfold sn_wait in *. simpl in *. split_and!; [done|by rewrite app_nil_r|]. intros _.
    apply negb_false_iff in E. by apply Z.leb_le in E.
Qed.
Next Obligation.
  intros dl req n n' r. simpl. unfold sn_handshake. destruct (sn_wait dl n [] [req]) as [n1 b] eqn:E. intros [= <- <-].
  apply sn_wait_log in E as (_ & Hh & Ht); rewrite Hh. split; [done|]. destruct b; [done|auto].
Qed.
Next Obligation.
  intros dl req s n n' r. cbn -[sn_wait]. unfold sn_handshake. destruct (sn_wait dl n [] [req]) as [n1 b] eqn:E. intros [= <- <-].
  apply sn_wait_log in E as (Hd & Hh & Ht). rewrite Hd, Hh, app_nil_r. split_and!; [done..|]. destruct b; [done|auto].
Qed.

(** ** Witnesses *)

Definition mobie_url : SampleUrl := mkSampleUrl "ws" (Some "10.0.0.10"%string) (Some 80) "/ocpp/1.6".
Definition cs_addr (k : Z) : SocketAddr := (V4 (10 * 2 ^ 24 + k), 80).
Definition apn_addr : IpAddr := V4 (10 * 2 ^ 24 + 200).

(** Three addresses, one of the other family; the second of the family accepts. *)
Definition apn_net : SampleNet :=
  mkSampleNet 0 [apn_addr] (Ok [(V6 1, 80); cs_addr 1; cs_addr 2]) [cs_addr 2] [] [] ∅ 0 [].

Definition charger_url : SampleUrl := build_upstream_url mobie_url "CP-EXAMPLE-0001".

Lemma url_mirrors_id_witness :
  url_as_str charger_url = "ws://10.0.0.10/ocpp/1.6/CP-EXAMPLE-0001"%string ∧
  last (split "/"%char (url_path charger_url)) = Some "CP-EXAMPLE-0001"%string.
Proof.
  split; [reflexivity|].
  destruct (url_mirrors_id mobie_url "CP-EXAMPLE-0001") as (_ & Hl & _);
    [vm_compute; reflexivity|vm_compute; reflexivity|exact Hl].
Defined.

Definition apn_attempt (timeout : Z) : SampleNet * result unit ProxyError :=
  connect_upstream charger_url "ocpp1.6" (Some apn_addr) timeout apn_net.

Lemma connect_upstream_outcome_witness :
  (apn_attempt CONNECT_TIMEOUT).2 = Ok () ∧ length (sn_handshakes (apn_attempt CONNECT_TIMEOUT).1) = 1%nat ∧
  (apn_attempt (from_secs 2)).2 = Err (timed_out (from_secs 2)) ∧ from_secs 2 ≤ sn_now (apn_attempt (from_secs 2)).1.
Proof.
  split; [vm_compute; reflexivity|]. split.
  - destruct (apn_attempt CONNECT_TIMEOUT) as [w r] eqn:E.
    destruct (connect_upstream_outcome _ _ _ _ _ _ _ E) as (_ & (hs & Hh & _ & Hok & _) & _).
    vm_compute in E. injection E as <- <-. specialize (Hok eq_refl). simpl in Hh |- *. rewrite <- Hh in Hok. exact Hok.
  - destruct (apn_attempt (from_secs 2)) as [w r] eqn:E.
    destruct (connect_upstream_outcome _ _ _ _ _ _ _ E) as (_ & _ & Ht).
    exact (Ht _ eq_refl ltac:(vm_compute; reflexivity)).
Defined.

Lemma bound_source_only_witness : Forall (λ d, dial_from d = Some apn_addr) (sn_dials (apn_attempt CONNECT_TIMEOUT).1).
Proof.
  destruct (apn_attempt CONNECT_TIMEOUT) as [w r] eqn:E.
  destruct (bound_source_only _ _ _ _ _ _ _ E) as (l & Hd & Hfrom & _).
  simpl in Hd |- *. rewrite Hd. eapply Forall_impl; [exact Hfrom|]. intros d [Hd' _]. exact Hd'.
Defined.

Lemma connect_bound_in_order_witness :
  ∃ l, sn_dials (connect_bound (from_secs 10) charger_url apn_addr apn_net).1 = l ∧
    dial_to <$> l `prefix_of` [cs_addr 1; cs_addr 2] ∧ dial_end <$> last l = Some (Some (Ok ())).
Proof.
  destruct (connect_bound (from_secs 10) charger_url apn_addr apn_net) as [w r] eqn:E.
  destruct (connect_bound_in_order (from_secs 10) charger_url apn_addr "10.0.0.10" apn_net (sn_wait (from_secs 10) apn_net [] []).1
    [(V6 1, 80); cs_addr 1; cs_addr 2] w r) as (l & Hd & Hto & _ & Hok & _);
    [vm_compute; reflexivity|reflexivity|exact E|].
  exists l. split; [exact Hd|]. split; [exact Hto|]. apply Hok. vm_compute in E. injection E as <- <-. exists tt. reflexivity.
Defined.
