(* ===== verification/Command.v ===== *)
(** * Proxy-originated commands (src/command.rs)

    Topics, payload parsing, the limit policy, the OCPP frames the proxy builds, the
    results it reports, and the reading of the charger's answer. The queue of calls
    and the router are in CallQueue.v. *)

From Stdlib Require Import Ascii.
From S2P Require Import Prelude Float64 Json Text Models Config.

Local Open Scope Z_scope.

Definition UNIQUE_ID_PREFIX : string := "proxy-".
Definition COMMAND_SUBSCRIPTIONS : list string := ["ocpp/+/command"; "ocpp/+/command/current_limit"].
Definition COMMAND_CHANNEL_CAPACITY : nat := 32.
Definition CENTRAL_CALL_GRACE : Z := from_secs 10.

(** ** Topics *)

Definition command_topic (charge_point_id : string) : string :=
  "ocpp/" +:+ charge_point_id +:+ "/command".
Definition current_limit_topic (charge_point_id : string) : string :=
  "ocpp/" +:+ charge_point_id +:+ "/command/current_limit".
Definition command_result_topic (charge_point_id : string) : string :=
  "ocpp/" +:+ charge_point_id +:+ "/command/result".

Inductive CommandTopic := TopicCommand | TopicCurrentLimit.

#[export] Instance CommandTopic_eq_dec : EqDecision CommandTopic.
Proof. solve_decision. Defined.

(** [Iterator::next] on the parts of a topic. *)
Definition next {A} (l : list A) : option A * list A :=
  match l with [] => (None, []) | x :: l => (Some x, l) end.

Definition parse_command_topic (topic : string) : option (string * CommandTopic) :=
  let parts := split "/" topic in
  '(first, parts) ← (let '(x, l) := next parts in x ← x; Some (x, l));
  if decide (first ≠ "ocpp"%string) then None
  else
    '(charge_point_id, parts) ← (let '(x, l) := next parts in x ← x; Some (x, l));
    if decide (charge_point_id = ""%string) then None
    else
      '(third, parts) ← (let '(x, l) := next parts in x ← x; Some (x, l));
      if decide (third ≠ "command"%string) then None
      else
        let '(p4, parts) := next parts in
        let '(p5, _) := next parts in
        match p4, p5 with
        | None, _ => Some (charge_point_id, TopicCommand)
        | Some name, None =>
            if decide (name = "current_limit"%string) then Some (charge_point_id, TopicCurrentLimit) else None
        | _, _ => None
        end.

(** ** Commands *)

Definition default_schedule_duration : Z := 3600.

Inductive ProxyCommand :=
  | SetCurrentLimit (limit_a : f64)
  | ClearCurrentLimit
  | GetConfiguration (keys : list string)
  | ChangeConfiguration (key value : string)
  | TriggerMessage (requested_message : string) (connector_id : option Z)
  | GetCompositeSchedule (connector_id : option Z) (duration_s : Z).

#[export] Instance ProxyCommand_eq_dec : EqDecision ProxyCommand.
Proof. solve_decision. Defined.

(** [ProxyCommand::action]. *)
Definition action (c : ProxyCommand) : string :=
  match c with
  | SetCurrentLimit _ => "SetChargingProfile"
  | ClearCurrentLimit => "ClearChargingProfile"
  | GetConfiguration _ => "GetConfiguration"
  | ChangeConfiguration _ _ => "ChangeConfiguration"
  | TriggerMessage _ _ => "TriggerMessage"
  | GetCompositeSchedule _ _ => "GetCompositeSchedule"
  end.

(** [ProxyCommand::is_limit_command]. *)
Definition is_limit_command (c : ProxyCommand) : bool :=
  match c with SetCurrentLimit _ | ClearCurrentLimit => true | _ => false end.

(** *** The derived (de)serialisation: tag [command], names in snake case *)

Definition as_f64 (v : Value) : option f64 :=
  match v with
  | VNumber (NInt z) => Some (of_Z z)
  | VNumber (NFloat a) => Some a
  | _ => None
  end.

Definition as_u32 (v : Value) : option Z :=
  z ← as_u64 v; if z <? 2 ^ 32 then Some z else None.

Fixpoint as_strings (l : list Value) : option (list string) :=
  match l with
  | [] => Some []
  | v :: l => s ← as_str v; ss ← as_strings l; Some (s :: ss)
  end.

(** A field with [#[serde(default)]]. *)
Definition field_or {A} (k : string) (m : Map) (dflt : A) (f : Value → option A) : option A :=
  match map_get k m with Some v => f v | None => Some dflt end.

Definition as_opt_u32 (v : Value) : option (option Z) :=
  match v with VNull => Some None | _ => Some <$> as_u32 v end.

Definition ProxyCommand_of_value (v : Value) : option ProxyCommand :=
  m ← as_object v;
  tag ← map_get "command" m ≫= as_str;
  if decide (tag = "set_current_limit"%string) then
    SetCurrentLimit <$> (map_get "limit_a" m ≫= as_f64)
  else if decide (tag = "clear_current_limit"%string) then Some ClearCurrentLimit
  else if decide (tag = "get_configuration"%string) then
    GetConfiguration <$> field_or "keys" m [] (λ v, as_array v ≫= as_strings)
  else if decide (tag = "change_configuration"%string) then
    key ← map_get "key" m ≫= as_str;
    value ← map_get "value" m ≫= as_str;
    Some (ChangeConfiguration key value)
  else if decide (tag = "trigger_message"%string) then
    msg ← map_get "requested_message" m ≫= as_str;
    conn ← field_or "connector_id" m None as_opt_u32;
    Some (TriggerMessage msg conn)
  else if decide (tag = "get_composite_schedule"%string) then
    conn ← field_or "connector_id" m None as_opt_u32;
    dur ← field_or "duration_s" m default_schedule_duration as_u32;
    Some (GetCompositeSchedule conn dur)
  else None.

Definition ProxyCommand_to_value (c : ProxyCommand) : Value :=
  VObject match c with
  | SetCurrentLimit a => [("command", json_str "set_current_limit"); ("limit_a", json_f64 a)]
  | ClearCurrentLimit => [("command", json_str "clear_current_limit")]
  | GetConfiguration keys =>
      [("command", json_str "get_configuration"); ("keys", VArray (json_str <$> keys))]
  | ChangeConfiguration k v =>
      [("command", json_str "change_configuration"); ("key", json_str k); ("value", json_str v)]
  | TriggerMessage msg conn =>
      [("command", json_str "trigger_message"); ("requested_message", json_str msg);
       ("connector_id", json_opt json_u conn)]
  | GetCompositeSchedule conn dur =>
      [("command", json_str "get_composite_schedule"); ("connector_id", json_opt json_u conn);
       ("duration_s", json_u dur)]
  end%string.

Inductive CommandSource := SourceMqtt | SourceReapply.

#[export] Instance CommandSource_eq_dec : EqDecision CommandSource.
Proof. solve_decision. Defined.

Definition source_as_str (s : CommandSource) : string :=
  match s with SourceMqtt => "mqtt" | SourceReapply => "reapply" end.

Record CommandRequest := mkRequest {
  req_id : string;
  req_command : ProxyCommand;
  req_source : CommandSource;
  issued_at : Z
}.

(** [CommandRequest::new] at the time [now]. *)
Definition request_new (now : Z) (id : string) (c : ProxyCommand) (s : CommandSource) : CommandRequest :=
  mkRequest id c s now.

(** [DateTime::timestamp_millis]. *)
Definition timestamp_millis (t : Z) : Z := t / 1000000.

(** [CommandRequest::generated_id]. *)
Definition generated_id (now : Z) (prefix : string) : string :=
  prefix +:+ "-" +:+ pretty (timestamp_millis now).

(** ** Payloads *)

Section payload.
Context `{SerdeJson} (serde_error : Value → string).

Definition text_of (v : Value) : string := match to_json v with Ok s => s | Err e => e end.

(** The bare payload of the [current_limit] topic. *)
Definition parse_limit_text (text : string) : result ProxyCommand string :=
  let lowered := to_ascii_lowercase text in
  if bool_decide (lowered ∈ ["clear"; "off"; "none"; "null"]%string) then Ok ClearCurrentLimit
  else
    let? limit_a := ok_or (parse_f64 text)
      ("expected a number of amps or 'clear' on the current_limit topic, got " +:+ debug_str text)%string in
    Ok (SetCurrentLimit limit_a).

(** The [id] of a JSON command. *)
Definition request_id (now : Z) (id : option Value) : result string string :=
  match id with
  | Some (VString s) =>
      if decide (trim s ≠ ""%string) then Ok s
      else Err ("id must be a string or number, got " +:+ text_of (VString s))%string
  | Some (VNumber n) => Ok (text_of (VNumber n))
  | Some VNull | None => Ok (generated_id now "cmd")
  | Some other => Err ("id must be a string or number, got " +:+ text_of other)%string
  end.

(** The leniency on a [limit_a] given as a string. *)
Definition lenient_limit (object : Map) : Map :=
  match map_get "limit_a" object with
  | Some (VString s) =>
      match parse_f64 (trim s) with
      | Some n => map_insert "limit_a" (json_f64 n) object
      | None => object
      end
  | _ => object
  end.

Definition unrecognised (v : Value) : string :=
  "unrecognised command (" +:+ serde_error v +:+ "); expected one of set_current_limit, "
    +:+ "clear_current_limit, get_configuration, change_configuration, "
    +:+ "trigger_message, get_composite_schedule".

Definition parse_command_payload (now : Z) (kind : CommandTopic) (payload : string) :
    result CommandRequest string :=
  let? utf8 := ok_or (from_utf8 payload) "payload is not UTF-8"%string in
  let text := trim utf8 in
  if decide (text = ""%string) then Err "payload is empty"%string
  else if bool_decide (kind = TopicCurrentLimit) && negb (String.prefix "{" text) then
    let? command := parse_limit_text text in
    Ok (request_new now (generated_id now "limit") command SourceMqtt)
  else
    let? value :=
      match from_str text with Ok v => Ok v | Err e => Err ("payload is not valid JSON: " +:+ e)%string end in
    let? object := ok_or (as_object value) "payload must be a JSON object"%string in
    let? id := request_id now (map_get "id" object) in
    let object := lenient_limit (map_remove "id" object) in
    let? command := ok_or (ProxyCommand_of_value (VObject object)) (unrecognised (VObject object)) in
    Ok (request_new now id command SourceMqtt).
End payload.

(** ** The limit policy *)

Record ResolvedLimit := mkResolved {
  requested_a : f64;
  applied_a : f64;
  resolved_detail : option string
}.

(** [let round = |a| (a * 10.0).round() / 10.0]. *)
Definition round_tenth (a : f64) : f64 := fdiv (fround (fmul a (of_Z 10))) (of_Z 10).

Definition resolve_limit (config : ChargingConfig) (req : f64) : result ResolvedLimit string :=
  if negb (is_finite req) || flt req fzero then
    Err ("limit_a must be a non-negative number, got " +:+ fmt_f64 req)%string
  else if feq req fzero then
    Ok (mkResolved req fzero
      (Some "0 A pauses charging (the charger reports SuspendedEVSE); the transaction stays open"%string))
  else if flt req (min_limit_a config) then
    Ok (mkResolved req fzero
      (Some (fmt_f64 req +:+ " A is below the " +:+ fmt_f64 (min_limit_a config)
        +:+ " A minimum an EV will charge at; sending 0 A, which pauses charging")%string))
  else if flt (max_limit_a config) req then
    Ok (mkResolved req (round_tenth (max_limit_a config))
      (Some ("clamped to the configured ceiling of " +:+ fmt_f64 (max_limit_a config) +:+ " A")%string))
  else Ok (mkResolved req (round_tenth req) None).

(** ** Building the frame *)

Definition TRIGGERABLE_MESSAGES : list string :=
  ["BootNotification"; "DiagnosticsStatusNotification"; "FirmwareStatusNotification";
   "Heartbeat"; "MeterValues"; "StatusNotification"].

Record PreparedCall := mkPrepared {
  pc_unique_id : string;
  pc_action : string;
  pc_raw : string;
  pc_applied_limit_a : option f64;
  pc_detail : option string
}.

Section prepare.
Context `{SerdeJson} `{Chrono}.

Definition set_charging_profile_payload (config : ChargingConfig) (limit_a : f64) (now : Z) : Value :=
  let phases := of_Z (default 1 (number_phases config)) in
  let limit :=
    match rate_unit config with
    | Amps => limit_a
    | Watts =>
        fdiv (fround (fmul (fmul (fmul limit_a (nominal_voltage_v config)) phases) (of_Z 10))) (of_Z 10)
    end in
  let period := [("startPeriod", json_u 0); ("limit", json_f64 limit)]%string in
  let period :=
    match number_phases config with
    | Some p => map_insert "numberPhases" (json_u p) period
    | None => period
    end in
  let schedule := [("chargingRateUnit", json_str (rate_unit_as_str (rate_unit config)));
                   ("chargingSchedulePeriod", VArray [VObject period])]%string in
  let schedule :=
    if bool_decide (profile_kind config = Absolute)
    then map_insert "startSchedule" (json_str (to_rfc3339_secs now)) schedule
    else schedule in
  VObject [("connectorId", json_u (connector_id config));
           ("csChargingProfiles", VObject
              [("chargingProfileId", json_u (profile_id config));
               ("stackLevel", json_u (stack_level config));
               ("chargingProfilePurpose", json_str (purpose_as_str (purpose config)));
               ("chargingProfileKind", json_str (kind_as_str (profile_kind config)));
               ("chargingSchedule", VObject schedule)])]%string.

Definition clear_charging_profile_payload (config : ChargingConfig) : Value :=
  VObject [("id", json_u (profile_id config)); ("connectorId", json_u (connector_id config));
           ("chargingProfilePurpose", json_str (purpose_as_str (purpose config)));
           ("stackLevel", json_u (stack_level config))]%string.

(** The payload of a request, with the applied limit and the note for the result:
    the match of [prepare_call]. *)
Definition prepare_payload (config : ChargingConfig) (command : ProxyCommand) (now : Z) :
    result (Value * option f64 * option string) string :=
  match command with
  | SetCurrentLimit limit_a =>
      let? resolved := resolve_limit config limit_a in
      Ok (set_charging_profile_payload config (applied_a resolved) now,
          Some (applied_a resolved), resolved_detail resolved)
  | ClearCurrentLimit => Ok (clear_charging_profile_payload config, None, None)
  | GetConfiguration keys =>
      let payload := if decide (keys = []) then VObject []
                     else VObject [("key"%string, VArray (json_str <$> keys))] in
      Ok (payload, None, None)
  | ChangeConfiguration key value =>
      if negb (bool_decide (key ∈ allowed_configuration_keys config)) then
        Err ("configuration key " +:+ debug_str key +:+ " is not in charging.allowed_configuration_keys")%string
      else Ok (VObject [("key", json_str key); ("value", json_str value)]%string, None, None)
  | TriggerMessage requested_message conn =>
      if negb (bool_decide (requested_message ∈ TRIGGERABLE_MESSAGES)) then
        Err ("requested_message must be one of " +:+ String.concat ", " TRIGGERABLE_MESSAGES
               +:+ ", got " +:+ debug_str requested_message)%string
      else
        let payload := [("requestedMessage"%string, json_str requested_message)] in
        let payload := match conn with Some c => map_insert "connectorId" (json_u c) payload | None => payload end in
        Ok (VObject payload, None, None)
  | GetCompositeSchedule conn duration_s =>
      Ok (VObject [("connectorId", json_u (default (connector_id config) conn));
                   ("duration", json_u duration_s);
                   ("chargingRateUnit", json_str (rate_unit_as_str (rate_unit config)))]%string, None, None)
  end.

(** [json!([2, unique_id, action, payload])]. *)
Definition call_array (uid act : string) (payload : Value) : Value :=
  VArray [json_u 2; json_str uid; json_str act; payload].

Definition prepare_call (config : ChargingConfig) (request : CommandRequest) (uid : string) (now : Z) :
    result PreparedCall string :=
  let? (payload, applied, detail) := prepare_payload config (req_command request) now in
  let act := action (req_command request) in
  let? text :=
    match to_json (call_array uid act payload) with
    | Ok s => Ok s
    | Err e => Err ("could not serialise the OCPP frame: " +:+ e)%string
    end in
  Ok (mkPrepared uid act text applied detail).
End prepare.

(** ** Results *)

Inductive CommandStatus :=
  | Accepted | Rejected | CsError | Timeout | CsNotConnected | Invalid | Superseded.

#[export] Instance CommandStatus_eq_dec : EqDecision CommandStatus.
Proof. solve_decision. Defined.

Definition status_as_str (s : CommandStatus) : string :=
  match s with
  | Accepted => "accepted"
  | Rejected => "rejected"
  | CsError => "error"
  | Timeout => "timeout"
  | CsNotConnected => "not_connected"
  | Invalid => "invalid"
  | Superseded => "superseded"
  end.

Record CommandResult := mkResult {
  res_id : string;
  res_command : Value;
  res_source : CommandSource;
  res_status : CommandStatus;
  res_action : option string;
  res_requested_limit_a : option f64;
  res_applied_limit_a : option f64;
  res_ocpp_request : option Value;
  res_charger_response : option Value;
  res_detail : option string;
  res_timestamp : string
}.

(** The derived [Serialize] of a result. *)
Definition CommandResult_to_value (r : CommandResult) : Value :=
  let opt {A} (k : string) (f : A → Value) (o : option A) : list (string * Value) :=
    match o with Some a => [(k, f a)] | None => [] end in
  VObject ([("id", json_str (res_id r)); ("command", res_command r);
            ("source", json_str (source_as_str (res_source r)));
            ("status", json_str (status_as_str (res_status r)))]%string
    ++ opt "action"%string json_str (res_action r)
    ++ opt "requested_limit_a"%string json_f64 (res_requested_limit_a r)
    ++ opt "applied_limit_a"%string json_f64 (res_applied_limit_a r)
    ++ opt "ocpp_request"%string id (res_ocpp_request r)
    ++ opt "charger_response"%string id (res_charger_response r)
    ++ opt "detail"%string json_str (res_detail r)
    ++ [("timestamp"%string, json_str (res_timestamp r))]).

Record InFlight := mkInFlight {
  fl_request : CommandRequest;
  fl_prepared : PreparedCall;
  fl_sent_at : Z
}.

Section results.
Context `{SerdeJson} `{Chrono}.

(** [CommandResult::for_request]. *)
Definition for_request (now : Z) (request : CommandRequest) (status : CommandStatus)
    (detail : option string) : CommandResult :=
  let requested := match req_command request with SetCurrentLimit a => Some a | _ => None end in
  mkResult (req_id request) (ProxyCommand_to_value (req_command request)) (req_source request) status
    (Some (action (req_command request))) requested None None None detail (to_rfc3339_millis now).

(** [CommandResult::invalid_payload]. *)
Definition invalid_payload (now : Z) (detail : string) : CommandResult :=
  mkResult (generated_id now "invalid") VNull SourceMqtt Invalid None None None None None
    (Some detail) (to_rfc3339_millis now).

(** [CommandResult::for_in_flight]. *)
Definition for_in_flight (now : Z) (f : InFlight) (status : CommandStatus)
    (charger_response : option Value) (detail : option string) : CommandResult :=
  let result := for_request now (fl_request f) status None in
  mkResult (res_id result) (res_command result) (res_source result) (res_status result)
    (Some (pc_action (fl_prepared f))) (res_requested_limit_a result)
    (pc_applied_limit_a (fl_prepared f)) (result_ok (from_str (pc_raw (fl_prepared f))))
    charger_response
    (match pc_detail (fl_prepared f), detail with
     | Some a, Some b => Some (a +:+ "; " +:+ b)%string
     | a, b => option_or a b
     end)
    (res_timestamp result).

(** [CommandResult::is_limit_result]. *)
Definition is_limit_result (r : CommandResult) : bool :=
  match res_action r with
  | Some a => bool_decide (a = "SetChargingProfile"%string) || bool_decide (a = "ClearChargingProfile"%string)
  | None => false
  end.

(** ** The charger's answer *)

(** The status and note of a [CallResult], from the action asked and the [status] answered. *)
Definition call_result_status (act : string) (status : option string) : CommandStatus * option string :=
  match status with
  | None => (Accepted, None)
  | Some st =>
      if decide (st = "Accepted"%string) then (Accepted, None)
      else if decide (act = "ClearChargingProfile"%string ∧ st = "Unknown"%string) then
        (Accepted, Some "the charger held no matching profile; nothing to clear"%string)
      else if decide (act = "ChangeConfiguration"%string ∧ st = "RebootRequired"%string) then
        (Accepted, Some "stored; the charger needs a reboot before it takes effect"%string)
      else (Rejected, Some ("charger answered " +:+ st)%string)
  end.

Definition interpret_response (act : string) (frame : OcppFrame) :
    CommandStatus * option Value * option string :=
  let parsed := match from_str (raw frame) with Ok v => v | Err _ => VNull end in
  match message_type frame with
  | CallError =>
      let code := default "UnknownError"%string (get_index 2 parsed ≫= as_str) in
      let descr := default ""%string (get_index 3 parsed ≫= as_str) in
      let response := VObject [("errorCode", json_str code); ("errorDescription", json_str descr);
                               ("errorDetails", default VNull (get_index 4 parsed))]%string in
      let detail := if decide (descr = ""%string) then ("charger returned CallError " +:+ code)%string
                    else ("charger returned CallError " +:+ code +:+ ": " +:+ descr)%string in
      (CsError, Some response, Some detail)
  | CallResult =>
      let payload := default VNull (get_index 2 parsed) in
      let status := get_key "status" payload ≫= as_str in
      let '(status, detail) := call_result_status act status in
      (status, Some payload, detail)
  | Call _ => (CsError, None, Some "expected a response, got a Call"%string)
  end.
End results.

(** ** Theorems: topics *)

Definition topic_of (k : CommandTopic) (charge_point_id : string) : string :=
  match k with
  | TopicCommand => command_topic charge_point_id
  | TopicCurrentLimit => current_limit_topic charge_point_id
  end.

Lemma no_char_of c s : bool_decide (no_char c s) = true → no_char c s.
Proof. apply bool_decide_eq_true_1. Qed.

Lemma split_command_topic id : no_char "/" id →
  split "/" (command_topic id) = ["ocpp"; id; "command"]%string ∧
  split "/" (current_limit_topic id) = ["ocpp"; id; "command"; "current_limit"]%string.
Proof.
  intros Hid. unfold command_topic, current_limit_topic.
  change ("ocpp/" +:+ id +:+ "/command")%string
    with ("ocpp" +:+ String.String "/" (id +:+ String.String "/" "command"))%string.
  change ("ocpp/" +:+ id +:+ "/command/current_limit")%string
    with ("ocpp" +:+ String.String "/" (id +:+ String.String "/" ("command" +:+ String.String "/" "current_limit")))%string.
  rewrite !split_app by (done || by apply no_char_of). by rewrite !split_no_sep by (by apply no_char_of).
Qed.

Lemma split_inv3 t a b c :
  split "/" t = [a; b; c] → no_char "/" b ∧ t = (a +:+ "/" +:+ b +:+ "/" +:+ c)%string.
Proof.
  intros (_ & [[? _]|(t1 & -> & H)])%split_cons; [done|].
  apply split_cons in H as (Hb & [[? _]|(t2 & -> & H)]); [done|].
  apply split_cons in H as (_ & [[_ ->]|(t3 & -> & H)]); [done|by apply split_not_nil in H].
Qed.

Lemma split_inv4 t a b c d :
  split "/" t = [a; b; c; d] → no_char "/" b ∧ t = (a +:+ "/" +:+ b +:+ "/" +:+ c +:+ "/" +:+ d)%string.
Proof.
  intros (_ & [[? _]|(t1 & -> & H)])%split_cons; [done|].
  apply split_cons in H as (Hb & [[? _]|(t2 & -> & H)]); [done|].
  apply split_cons in H as (_ & [[? _]|(t3 & -> & H)]); [done|].
  apply split_cons in H as (_ & [[_ ->]|(t4 & -> & H)]); [done|by apply split_not_nil in H].
Qed.

(** Reading a command topic inverts building one: [parse_command_topic] answers
    [(id, kind)] exactly for the two topics of a non-empty charge point id without a
    slash, and nothing for every other topic. *)
Theorem parse_command_topic_iff t id k :
  parse_command_topic t = Some (id, k) ↔ id ≠ ""%string ∧ no_char "/" id ∧ t = topic_of k id.
Proof.
  split.
  - unfold parse_command_topic. intros H.
    destruct (split "/" t) as [|a [|b [|c [|d [|e rest]]]]] eqn:E; simpl in H.
    all: repeat (case_decide; simplify_eq/=). all: try done.
    + by apply split_inv3 in E as [? ->].
    + by apply split_inv4 in E as [? ->].
  - intros (Hne & Hs & ->). destruct (split_command_topic id Hs) as [H1 H2].
    unfold parse_command_topic, topic_of. destruct k; rewrite ?H1, ?H2; simpl;
      by rewrite decide_False.
Qed.

Lemma parse_command_topic_iff_witness :
  parse_command_topic "ocpp/CP-1/command/current_limit" = Some ("CP-1"%string, TopicCurrentLimit).
Proof. apply parse_command_topic_iff. split; [done|]. split; [by apply no_char_of|done]. Defined.

(** MQTT topic filters, level by level: [+] stands for any one level. *)
Definition topic_matches (filter topic : string) : Prop :=
  Forall2 (λ f l, f = "+"%string ∨ f = l) (split "/" filter) (split "/" topic).

Lemma topic_matches_command f t :
  f ∈ COMMAND_SUBSCRIPTIONS → topic_matches f t →
  ∃ id, no_char "/" id ∧ ∃ k, t = topic_of k id.
Proof.
  unfold topic_matches. intros Hf Hm.
  assert (f = "ocpp/+/command"%string ∨ f = "ocpp/+/command/current_limit"%string) as [-> | ->]
    by (unfold COMMAND_SUBSCRIPTIONS in Hf; set_solver).
  - change (split "/" "ocpp/+/command") with ["ocpp"; "+"; "command"]%string in Hm.
    destruct (split "/" t) as [|a [|b [|c [|]]]] eqn:E;
      repeat match goal with H : Forall2 _ _ _ |- _ => inversion H; clear H; subst end.
    apply split_inv3 in E as [Hb ->]. exists b. split; [done|]. exists TopicCommand.
    repeat match goal with H : _ ∨ _ |- _ => destruct H; simplify_eq/= end; done.
  - change (split "/" "ocpp/+/command/current_limit") with ["ocpp"; "+"; "command"; "current_limit"]%string in Hm.
    destruct (split "/" t) as [|a [|b [|c [|d [|]]]]] eqn:E;
      repeat match goal with H : Forall2 _ _ _ |- _ => inversion H; clear H; subst end.
    apply split_inv4 in E as [Hb ->]. exists b. split; [done|]. exists TopicCurrentLimit.
    repeat match goal with H : _ ∨ _ |- _ => destruct H; simplify_eq/= end; done.
Qed.

Lemma topic_of_not_result k id id' : topic_of k id ≠ command_result_topic id'.
Proof.
  unfold topic_of, command_topic, current_limit_topic, command_result_topic.
  change "/command/result"%string with ("/command/" +:+ "result")%string.
  destruct k.
  - change "/command"%string with ("/c" +:+ "ommand")%string.
    rewrite !app_string_assoc. by apply app_string_suffix_ne.
  - change "/command/current_limit"%string with ("/command/current" +:+ "_limit")%string.
    rewrite !app_string_assoc. by apply app_string_suffix_ne.
Qed.

(** What the subscriptions deliver is commands and nothing else: a topic matched
    by a subscription, with a non-empty charge point id, is a topic that
    [parse_command_topic] recognises; and no result topic is ever matched, so the
    proxy does not read its own output back. *)
Theorem subscriptions_deliver_commands f t :
  f ∈ COMMAND_SUBSCRIPTIONS → topic_matches f t →
  (∃ id k, t = topic_of k id ∧ (id ≠ ""%string → parse_command_topic t = Some (id, k))) ∧
  (∀ id, t ≠ command_result_topic id).
Proof.
  intros Hf Hm. destruct (topic_matches_command f t Hf Hm) as (id & Hid & k & ->). split.
  - exists id, k. split; [done|]. intros Hne. destruct (split_command_topic id Hid) as [H1 H2].
    unfold parse_command_topic, topic_of. destruct k; rewrite ?H1, ?H2; simpl; by rewrite decide_False.
  - intros id'. apply topic_of_not_result.
Qed.

Lemma subscriptions_deliver_commands_witness :
  topic_matches "ocpp/+/command" "ocpp/CP-1/command" ∧
  ∀ id, "ocpp/CP-1/command"%string ≠ command_result_topic id.
Proof.
  assert (topic_matches "ocpp/+/command" "ocpp/CP-1/command") as Hm.
  { unfold topic_matches. vm_compute.
    repeat (apply Forall2_cons_2; [by (by left) || (by right)|]). apply Forall2_nil_2. }
  split; [exact Hm|].
  apply (subscriptions_deliver_commands "ocpp/+/command" "ocpp/CP-1/command"); [by left|exact Hm].
Defined.

(** ** Theorems: the limit policy *)

(** The limit asked, or the ceiling when it asks for more. *)
Definition limit_source (c : ChargingConfig) (req v : f64) : Prop :=
  v = req ∨ (v = max_limit_a c ∧ flt (max_limit_a c) req = true).

(** C15. Under a valid configuration a limit request is refused exactly when it is not
    a non-negative number; otherwise it pauses (0 A) when it is zero or under the
    minimum, and else it is the request or the ceiling, a value between the minimum
    and the ceiling, rounded to a tenth of an amp. *)
Theorem resolve_limit_policy c req :
  valid_charging c →
  match resolve_limit c req with
  | Err _ => is_finite req = false ∨ flt req fzero = true
  | Ok r =>
      requested_a r = req ∧ is_finite req = true ∧ flt req fzero = false ∧
      ((applied_a r = fzero ∧ (feq req fzero = true ∨ flt req (min_limit_a c) = true)) ∨
       ∃ v, applied_a r = round_tenth v ∧ limit_source c req v ∧
            fle (min_limit_a c) v = true ∧ fle v (max_limit_a c) = true)
  end.
Proof.
  intros Hc. unfold resolve_limit, limit_source.
  destruct (is_finite req) eqn:Hfin; simpl; [|by left].
  destruct (flt req fzero) eqn:Hneg; [by right|].
  destruct (feq req fzero) eqn:Hzero; simpl; [naive_solver|].
  destruct (flt req (min_limit_a c)) eqn:Hmin; simpl; [naive_solver|].
  destruct (flt (max_limit_a c) req) eqn:Hmax; simpl; split_and!; try done; right.
  - exists (max_limit_a c). split_and!; [done|by right|apply Hc|].
    apply not_flt_fle; try apply Hc. unfold flt, SFltb.
    pose proof (SFcompare_sym (max_limit_a c) (max_limit_a c)) as E.
    by destruct (SFcompare (max_limit_a c) (max_limit_a c)) as [[]|].
  - exists req. split_and!; [done|by left| |]; apply not_flt_fle; done || apply Hc.
Qed.

Lemma ChargingConfig_default_valid : valid_charging ChargingConfig_default.
Proof. apply charging_validate_valid. vm_compute. reflexivity. Qed.

Lemma resolve_limit_policy_witness :
  valid_charging ChargingConfig_default ∧
  match resolve_limit ChargingConfig_default (of_Z 40) with
  | Ok r => requested_a r = of_Z 40
  | Err _ => False
  end.
Proof.
  split; [apply ChargingConfig_default_valid|].
  pose proof (resolve_limit_policy ChargingConfig_default (of_Z 40) ChargingConfig_default_valid) as H.
  destruct (resolve_limit ChargingConfig_default (of_Z 40)) eqn:E; [apply H|].
  vm_compute in E. discriminate E.
Defined.

(** Tenths of an amp. *)
Definition tenths (n : Z) : f64 := fdiv (of_Z n) (of_Z 10).

Definition tenths_table : list (Z * f64) := map (λ n, (Z.of_nat n, tenths (Z.of_nat n))) (seq 0 801).

Lemma round_tenth_table :
  forallb (λ '(n, a), bool_decide (round_tenth a = a)) tenths_table = true.
Proof. vm_compute. reflexivity. Qed.

Lemma tenths_step_table :
  forallb (λ n, flt (tenths (Z.of_nat n)) (tenths (Z.of_nat (S n)))) (seq 0 800) = true.
Proof. vm_compute. reflexivity. Qed.

Lemma tenths_in_table n : 0 ≤ n ≤ 800 → In (n, tenths n) tenths_table.
Proof.
  intros Hn. unfold tenths_table. apply in_map_iff. exists (Z.to_nat n).
  rewrite Z2Nat.id by lia. split; [done|]. apply in_seq. lia.
Qed.

Lemma round_tenth_exact n : 0 ≤ n ≤ 800 → round_tenth (tenths n) = tenths n.
Proof.
  intros Hn%tenths_in_table. pose proof round_tenth_table as H. rewrite forallb_forall in H.
  apply H in Hn. by apply bool_decide_eq_true_1 in Hn.
Qed.

Lemma tenths_lt n k : (n + S k <= 800)%nat → flt (tenths (Z.of_nat n)) (tenths (Z.of_nat (n + S k))) = true.
Proof.
  intros Hn. pose proof tenths_step_table as H. rewrite forallb_forall in H.
  induction k as [|k IH].
  - rewrite Nat.add_1_r. apply H, in_seq. lia.
  - apply (flt_trans _ (tenths (Z.of_nat (n + S k)))); [apply IH; lia|].
    replace (n + S (S k))%nat with (S (n + S k)) by lia. apply H, in_seq. lia.
Qed.

Lemma tenths_order n m : 0 ≤ n ≤ 800 → 0 ≤ m ≤ 800 → flt (tenths n) (tenths m) = (n <? m).
Proof.
  intros Hn Hm.
  assert (∀ a b, 0 ≤ a → a < b ≤ 800 → flt (tenths a) (tenths b) = true) as Hlt.
  { intros a b Ha Hb. replace a with (Z.of_nat (Z.to_nat a)) by lia.
    replace b with (Z.of_nat (Z.to_nat a + S (Z.to_nat (b - a) - 1))) by lia. apply tenths_lt. lia. }
  destruct (Z.ltb_spec n m) as [?|Hge]; [apply Hlt; lia|].
  destruct (decide (n = m)) as [->|Hne]; [apply flt_irrefl|].
  apply flt_asym, Hlt; lia.
Qed.

Lemma tenths_sign_table :
  forallb (λ '(n, a), is_finite a && negb (flt a fzero) && Bool.eqb (feq a fzero) (n =? 0)) tenths_table = true.
Proof. vm_compute. reflexivity. Qed.

Lemma tenths_sign n :
  0 ≤ n ≤ 800 → is_finite (tenths n) = true ∧ flt (tenths n) fzero = false ∧ feq (tenths n) fzero = (n =? 0).
Proof.
  intros Hn%tenths_in_table. pose proof tenths_sign_table as H. rewrite forallb_forall in H.
  apply H in Hn. apply andb_prop in Hn as [[Hf Hs%negb_true_iff]%andb_prop Hz%eqb_prop]. done.
Qed.

(** C16. Limits in tenths of an amp are handled exactly: when ceiling, minimum and
    request are tenths up to 80 A, the charger is sent 0 A for a request under the
    minimum and otherwise the lesser of request and ceiling, to the bit. *)
Theorem resolve_limit_exact_tenths c n lo hi :
  0 < n ≤ 800 → 0 ≤ lo ≤ hi → hi ≤ 800 →
  min_limit_a c = tenths lo → max_limit_a c = tenths hi →
  ∃ r, resolve_limit c (tenths n) = Ok r ∧
       applied_a r = if n <? lo then fzero else tenths (Z.min n hi).
Proof.
  intros Hn Hlo Hhi Emin Emax. unfold resolve_limit. rewrite Emin, Emax.
  destruct (tenths_sign n ltac:(lia)) as (-> & -> & ->).
  rewrite !tenths_order by lia. replace (n =? 0) with false by lia. simpl.
  destruct (n <? lo) eqn:El; [eauto|].
  destruct (hi <? n) eqn:Eh; (eexists; split; [done|]); simpl; rewrite round_tenth_exact by lia; f_equal; lia.
Qed.

Lemma resolve_limit_exact_tenths_witness :
  ∃ r, resolve_limit ChargingConfig_default (tenths 405) = Ok r ∧ applied_a r = tenths 320.
Proof.
  apply (resolve_limit_exact_tenths ChargingConfig_default 405 60 320); try lia; vm_compute; reflexivity.
Defined.

(** A ceiling that is not a whole number of tenths. *)
Definition ceiling_config : ChargingConfig :=
  let c := ChargingConfig_default in
  mkChargingConfig (enabled c) (default fzero (parse_f64 "16.06")) (min_limit_a c) (connector_id c)
    (profile_id c) (stack_level c) (purpose c) (profile_kind c) (rate_unit c) (number_phases c)
    (nominal_voltage_v c) (command_timeout_seconds c) (reapply_on_connect c)
    (allowed_configuration_keys c).

(** The ceiling is not always one: rounding to a tenth can go up, so under a
    valid configuration with a ceiling of 16.06 A a request for 20 A is answered as
    clamped to the ceiling and is sent to the charger as 16.1 A. *)
Theorem ceiling_exceeded_by_rounding :
  charging_validate ceiling_config = [] ∧
  ∃ r, resolve_limit ceiling_config (of_Z 20) = Ok r ∧
       flt (max_limit_a ceiling_config) (applied_a r) = true ∧ applied_a r = tenths 161.
Proof. split; [vm_compute; reflexivity|]. eexists. split; [vm_compute; reflexivity|]. by vm_compute. Qed.

(** ** Theorems: the frames built *)

(** The integers of a configuration and of a command have their Rust types. *)
Definition config_typed (c : ChargingConfig) : bool :=
  in_u64 (connector_id c) && in_i64 (profile_id c) && in_u64 (stack_level c) &&
  match number_phases c with Some p => in_u64 p | None => true end.

Definition command_typed (c : ProxyCommand) : bool :=
  match c with
  | TriggerMessage _ (Some conn) => in_u64 conn
  | GetCompositeSchedule conn duration_s =>
      in_u64 duration_s && match conn with Some k => in_u64 k | None => true end
  | _ => true
  end.

(** The requests [prepare_call] sends on. *)
Definition command_allowed (config : ChargingConfig) (c : ProxyCommand) : Prop :=
  match c with
  | SetCurrentLimit a => is_finite a = true ∧ flt a fzero = false
  | ChangeConfiguration key _ => key ∈ allowed_configuration_keys config
  | TriggerMessage m _ => m ∈ TRIGGERABLE_MESSAGES
  | _ => True
  end.

Lemma resolve_limit_ok config req :
  match resolve_limit config req with
  | Ok _ => is_finite req = true ∧ flt req fzero = false
  | Err _ => ¬ (is_finite req = true ∧ flt req fzero = false)
  end.
Proof.
  unfold resolve_limit. destruct (is_finite req), (flt req fzero); simpl; try naive_solver.
  repeat (case_match; simplify_eq/=); naive_solver.
Qed.

Lemma representable_f64 a : representable (json_f64 a) = true.
Proof. unfold json_f64. by destruct (is_finite a) eqn:E. Qed.

Lemma representable_strings l : forallb representable (json_str <$> l) = true.
Proof. by induction l. Qed.

Section prepare_lemmas.
Context `{SerdeJson} `{Chrono}.

Lemma set_profile_representable config a now :
  config_typed config = true → representable (set_charging_profile_payload config a now) = true.
Proof.
  unfold config_typed. intros [[[Hc Hp]%andb_prop Hs]%andb_prop Hn]%andb_prop.
  unfold set_charging_profile_payload.
  destruct (rate_unit config), (bool_decide (profile_kind config = Absolute)), (number_phases config);
    simpl; rewrite ?Hc, ?Hp, ?Hs, ?Hn, ?representable_f64, ?orb_true_r; reflexivity.
Qed.

Lemma prepare_payload_spec config c now :
  config_typed config = true → command_typed c = true →
  match prepare_payload config c now with
  | Ok (payload, _, _) => command_allowed config c ∧ representable payload = true
  | Err _ => ¬ command_allowed config c
  end.
Proof.
  intros Hconf Hc. pose proof Hconf as Htyped. unfold config_typed in Htyped.
  apply andb_prop in Htyped as [[[Hcid Hpid]%andb_prop Hst]%andb_prop Hph].
  destruct c as [a| |keys|key value|m conn|conn dur]; simpl in *.
  - pose proof (resolve_limit_ok config a) as Hr.
    destruct (resolve_limit config a); [|done]. split; [done|]. by apply set_profile_representable.
  - rewrite Hpid, Hcid, Hst, ?orb_true_r. done.
  - case_decide; simpl; by rewrite ?representable_strings.
  - case_bool_decide; simpl; done.
  - case_bool_decide; simpl; [|done]. split; [done|].
    destruct conn; simpl; [by rewrite Hc, orb_true_r|done].
  - apply andb_prop in Hc as [Hd Hk]. rewrite Hd, ?orb_true_r.
    destruct conn; simpl in *; rewrite ?Hk, ?Hcid, ?orb_true_r; done.
Qed.

Lemma call_array_parses `{!SerdeJsonLaws} uid act payload :
  representable payload = true →
  ∃ text, to_json (call_array uid act payload) = Ok text ∧
          ∀ t, parse t text = Ok (mkFrame text (Call act) uid t).
Proof.
  intros Hp. destruct (to_json_from_str (call_array uid act payload)) as (text & w & -> & Hw & Hs).
  { simpl. by rewrite Hp. }
  exists text. split; [done|]. intros t.
  apply same_json_array in Hs as (l' & -> & Hl).
  repeat match goal with
  | H : Forall2 same_json (_ :: _) _ |- _ => apply Forall2_cons_inv_l in H as (? & ? & ? & H & ->)
  | H : Forall2 same_json [] _ |- _ => apply Forall2_nil_inv_l in H as ->
  | H : same_json (json_u _) _ |- _ => apply same_json_int in H as ->
  | H : same_json (json_str _) _ |- _ => apply same_json_string in H as ->
  end.
  eapply parse_shape; [done|]. apply shape_call.
Qed.

(** C17. A request is turned into a frame exactly when its guards allow it (a
    non-negative finite limit, a listed configuration key, a listed message), and
    then the text sent reads back, through the parser the proxy uses on the wire,
    as the Call of the request's action under the unique id it was given. *)
Theorem prepare_call_sound `{!SerdeJsonLaws} config request uid now :
  config_typed config = true → command_typed (req_command request) = true →
  match prepare_call config request uid now with
  | Ok p => command_allowed config (req_command request) ∧ pc_unique_id p = uid ∧
            pc_action p = action (req_command request) ∧
            ∀ t, parse t (pc_raw p) = Ok (mkFrame (pc_raw p) (Call (action (req_command request))) uid t)
  | Err _ => ¬ command_allowed config (req_command request)
  end.
Proof.
  intros Hconf Hc. pose proof (prepare_payload_spec config _ now Hconf Hc) as Hp.
  unfold prepare_call. destruct (prepare_payload config _ now) as [[[payload a] d]|]; [|done].
  destruct Hp as [Hallowed Hrep].
  destruct (call_array_parses uid (action (req_command request)) payload Hrep) as (text & -> & Hparse).
  done.
Qed.
End prepare_lemmas.

(** A calendar for examples: dates are written as their number of nanoseconds. *)
Definition plain_chrono : Chrono := {|
  from_std := λ d, if bool_decide (0 ≤ d ≤ chrono_max) then Some d else None;
  to_rfc3339 := pretty;
  to_rfc3339_secs := λ t, pretty (t / NANOS);
  to_rfc3339_millis := λ t, pretty (t / 1000000)
|}.

Lemma plain_chrono_laws : @ChronoLaws plain_chrono.
Proof. constructor. intros d Hd. simpl. by rewrite bool_decide_true. Qed.

Definition sample_request : CommandRequest :=
  request_new 0 "cmd-1" (SetCurrentLimit (of_Z 10)) SourceMqtt.

Lemma prepare_call_sound_witness :
  match @prepare_call reference_codec plain_chrono ChargingConfig_default sample_request "proxy-1-1" 0 with
  | Ok p => pc_action p = "SetChargingProfile"%string
  | Err _ => False
  end.
Proof.
  pose proof (@prepare_call_sound reference_codec plain_chrono reference_codec_laws ChargingConfig_default
    sample_request "proxy-1-1" 0 eq_refl eq_refl) as H.
  destruct (prepare_call _ _ _ _); [apply H|]. apply H. by vm_compute.
Defined.

(** ** Theorems: the charger's answer *)

Section answer.
Context `{SerdeJson}.

(** The [status] text of a response's payload, when it has one. *)
Definition answer_status (frame : OcppFrame) : option string :=
  match from_str (raw frame) with
  | Ok v => (get_index 2 v ≫= get_key "status") ≫= as_str
  | Err _ => None
  end.

(** The answers that leave the charger in the state the command asked for. *)
Definition accepting (act : string) (status : option string) : Prop :=
  status = None ∨ status = Some "Accepted"%string ∨
  (act = "ClearChargingProfile"%string ∧ status = Some "Unknown"%string) ∨
  (act = "ChangeConfiguration"%string ∧ status = Some "RebootRequired"%string).

Lemma call_result_status_spec act st :
  (call_result_status act st).1 = Accepted ∧ accepting act st ∨
  (call_result_status act st).1 = Rejected ∧ ¬ accepting act st.
Proof.
  unfold call_result_status, accepting. destruct st as [st|]; [|by left; split; [|left]].
  repeat case_decide; simpl; naive_solver.
Qed.

(** The verdict on an answer: accepted exactly when it is a CallResult whose
    status is absent, is Accepted, or is one of the two that leave the wanted state
    in place; an error exactly when it is no CallResult; rejected otherwise. *)
Theorem interpret_response_verdict act frame :
  match (interpret_response act frame).1.1 with
  | Accepted => message_type frame = CallResult ∧ accepting act (answer_status frame)
  | Rejected => message_type frame = CallResult ∧ ¬ accepting act (answer_status frame)
  | CsError => message_type frame ≠ CallResult
  | _ => False
  end.
Proof.
  unfold interpret_response. destruct (message_type frame); simpl; [done| |done].
  assert (answer_status frame =
    get_key "status" (default VNull (get_index 2 (match from_str (raw frame) with Ok v => v | Err _ => VNull end)))
      ≫= as_str) as ->.
  { unfold answer_status. destruct (from_str (raw frame)) as [v|]; [|done]. by destruct (get_index 2 v). }
  set (st := _ ≫= as_str). pose proof (call_result_status_spec act st) as Hs.
  destruct (call_result_status act st) as [s d]. simpl in *. destruct Hs as [[-> ?]|[-> ?]]; done.
Qed.
End answer.
