(* ===== verification/ConfigLoad.v ===== *)
(** * Deserialising the configuration (src/config.rs)

    What the derived [Deserialize] of the configuration's structs does with the settings
    the [config] crate has put together: which keys are read, which may be absent, and
    what stands in for them. How one setting is read as a string or a number is the
    crate's and serde's code, the class [SettingsLib]. *)

From Stdlib Require Import Ascii.
From S2P Require Import Prelude Float64 Json Models Config Text Command.

Local Open Scope Z_scope.

(** ** The settings *)

(** A tree of settings. [read_table] gives access to the entries of a table; the readers
    fail on a setting of another type, [read_uint] and [read_int] also on one that is out
    of the range of the integer type; [read_enum] gives the one of the variants' names
    that the setting is (whether letter case counts is the crate's affair). *)
Class SettingsLib (S : Type) := {
  is_nil : S → bool;
  read_table : S → result (string → option S) string;
  read_string : S → result string string;
  read_uint : Z → S → result Z string;
  read_int : Z → S → result Z string;
  read_f64 : S → result f64 string;
  read_bool : S → result bool string;
  read_list : S → result (list S) string;
  read_ip : S → result IpAddr string;
  read_enum : list string → S → result string string;
  missing_field : string → string;
  unknown_variant : string → string
}.

(** An integer that is read is one of its type, and a variant one of those offered. *)
Class SettingsLaws (S : Type) `{SettingsLib S} : Prop := {
  read_uint_range bits s z : read_uint bits s = Ok z → 0 ≤ z < 2 ^ bits;
  read_int_range bits s z : read_int bits s = Ok z → - 2 ^ (bits - 1) ≤ z < 2 ^ (bits - 1);
  read_enum_in names s name : read_enum names s = Ok name → name ∈ names
}.

(** The fields a chain of [?] has read, one equation each. *)
Ltac de_inv E :=
  repeat match type of E with
  | match ?x with Ok _ => _ | Err _ => _ end = Ok _ =>
      let F := fresh "F" in destruct x eqn:F; [|done]
  end.

Section deserialize.
Context {S : Type} `{SettingsLib S}.

(** ** The fields of a struct *)

(** A field without a default, one of an [Option] type, and one with a default. *)
Definition de_required {A} (read : S → result A string) (k : string) (t : string → option S) : result A string :=
  match t k with Some s => read s | None => Err (missing_field k) end.

Definition de_opt {A} (read : S → result A string) (s : S) : result (option A) string :=
  if is_nil s then Ok None else let? a := read s in Ok (Some a).

Definition de_optional {A} (read : S → result A string) (k : string) (t : string → option S) : result (option A) string :=
  match t k with Some s => de_opt read s | None => Ok None end.

Definition de_default {A} (d : A) (read : S → result A string) (k : string) (t : string → option S) : result A string :=
  match t k with Some s => read s | None => Ok d end.

(** A fieldless enum, by the names of its variants. *)
Fixpoint variant {A} (l : list (string * A)) (name : string) : result A string :=
  match l with
  | [] => Err (unknown_variant name)
  | (n, a) :: l => if decide (n = name) then Ok a else variant l name
  end.

Definition read_variant {A} (l : list (string * A)) (s : S) : result A string :=
  let? name := read_enum (l.*1) s in variant l name.

Fixpoint read_all {A} (read : S → result A string) (l : list S) : result (list A) string :=
  match l with
  | [] => Ok []
  | s :: l => let? a := read s in let? rest := read_all read l in Ok (a :: rest)
  end.

(** ** The structs *)

Definition LogLevel_deserialize : S → result LogLevel string :=
  read_variant [("DEBUG", Debug); ("INFO", Info); ("WARNING", Warning); ("ERROR", Error)]%string.

Definition purpose_deserialize : S → result ChargingProfilePurpose string :=
  read_variant [("ChargePointMaxProfile", ChargePointMaxProfile); ("TxDefaultProfile", TxDefaultProfile)]%string.
Definition kind_deserialize : S → result ChargingProfileKind string :=
  read_variant [("Absolute", Absolute); ("Relative", Relative)]%string.
Definition rate_unit_deserialize : S → result ChargingRateUnit string :=
  read_variant [("A", Amps); ("W", Watts)]%string.

Definition MqttConfig_deserialize (s : S) : result MqttConfig string :=
  let? t := read_table s in
  let? host := de_required read_string "host" t in
  let? port := de_required (read_uint 16) "port" t in
  let? username := de_required read_string "username" t in
  let? password := de_required read_string "password" t in
  let? ca := de_optional read_string "ca_cert_path" t in
  let? cert := de_optional read_string "client_cert_path" t in
  let? key := de_optional read_string "client_key_path" t in
  Ok (mkMqttConfig host port username password ca cert key).

(** [LogConfig] has one field. *)
Definition LogConfig_deserialize (s : S) : result LogLevel string :=
  let? t := read_table s in de_default default_log_level LogLevel_deserialize "level" t.

Definition read_usize (s : S) : result nat string := let? z := read_uint 64 s in Ok (Z.to_nat z).

Definition BufferConfig_deserialize (s : S) : result BufferConfig string :=
  let? t := read_table s in
  let? message := de_default default_message_buffer read_usize "message_buffer_size" t in
  let? mqtt := de_default default_mqtt_buffer read_usize "mqtt_buffer_size" t in
  let? backoff := de_default default_max_backoff (read_uint 64) "max_backoff_seconds" t in
  Ok (mkBufferConfig message mqtt backoff).

Definition ChargingConfig_deserialize (s : S) : result ChargingConfig string :=
  let? t := read_table s in
  let? enabled := de_default false read_bool "enabled" t in
  let? max := de_default default_max_limit_a read_f64 "max_limit_a" t in
  let? min := de_default default_min_limit_a read_f64 "min_limit_a" t in
  let? connector := de_default 0 (read_uint 32) "connector_id" t in
  let? profile := de_default default_profile_id (read_int 64) "profile_id" t in
  let? stack := de_default 0 (read_uint 32) "stack_level" t in
  let? purpose := de_default default_purpose purpose_deserialize "purpose" t in
  let? kind := de_default default_profile_kind kind_deserialize "profile_kind" t in
  let? unit := de_default default_rate_unit rate_unit_deserialize "rate_unit" t in
  let? phases := de_default default_number_phases (de_opt (read_uint 32)) "number_phases" t in
  let? voltage := de_default default_nominal_voltage read_f64 "nominal_voltage_v" t in
  let? timeout := de_default default_command_timeout (read_uint 64) "command_timeout_seconds" t in
  let? reapply := de_default default_true read_bool "reapply_on_connect" t in
  let? keys := de_default default_allowed_configuration_keys
                 (λ s, let? l := read_list s in read_all read_string l) "allowed_configuration_keys" t in
  Ok (mkChargingConfig enabled max min connector profile stack purpose kind unit phases voltage timeout reapply keys).

Definition ProxyConfig_deserialize (s : S) : result ProxyConfig string :=
  let? t := read_table s in
  let? url := de_required read_string "central_system_url" t in
  let? port := de_required (read_uint 16) "listen_port" t in
  let? address := de_default default_listen_address read_ip "listen_address" t in
  let? bind := de_optional read_ip "upstream_bind_address" t in
  let? id := de_optional read_string "charge_point_id" t in
  let? health := de_default default_health_port (read_uint 16) "health_port" t in
  let? mqtt := de_required MqttConfig_deserialize "mqtt" t in
  let? level := de_default default_log_level LogConfig_deserialize "logging" t in
  let? buffers := de_default BufferConfig_default BufferConfig_deserialize "buffers" t in
  let? file := de_default default_state_file read_string "state_file" t in
  let? charging := de_default ChargingConfig_default ChargingConfig_deserialize "charging" t in
  Ok (mkProxyConfig url port address bind id health mqtt level buffers file charging).

(** ** The all-optional mirror *)

Definition RawMqttConfig_deserialize (s : S) : result RawMqttConfig string :=
  let? t := read_table s in
  let? host := de_optional read_string "host" t in
  let? port := de_optional (read_uint 16) "port" t in
  let? username := de_optional read_string "username" t in
  let? password := de_optional read_string "password" t in
  Ok (mkRawMqtt host port username password).

Definition RawProxyConfig_deserialize (s : S) : result RawProxyConfig string :=
  let? t := read_table s in
  let? url := de_optional read_string "central_system_url" t in
  let? port := de_optional (read_uint 16) "listen_port" t in
  let? mqtt := de_optional RawMqttConfig_deserialize "mqtt" t in
  Ok (mkRawProxy url port mqtt).

(** [load_from_path], with what it deserialises. *)
Definition load_settings (build : string → result S string) (exists_ readable : string → bool) (path : string) :
    result ProxyConfig ProxyError :=
  load_from_path build RawProxyConfig_deserialize ProxyConfig_deserialize exists_ readable path.

(** ** Theorems *)

Lemma de_required_inv {A} (read : S → result A string) k (t : string → option S) a :
  de_required read k t = Ok a → ∃ s, t k = Some s ∧ read s = Ok a.
Proof. unfold de_required. destruct (t k) as [s|]; [|done]. by exists s. Qed.

Lemma de_default_inv {A} (d : A) (read : S → result A string) k (t : string → option S) a :
  de_default d read k t = Ok a → match t k with Some s => read s = Ok a | None => a = d end.
Proof. unfold de_default. destruct (t k); [done|]. by intros [= <-]. Qed.

Lemma de_optional_inv {A} (read : S → result A string) k (t : string → option S) o :
  de_optional read k t = Ok o →
  match t k with Some s => if is_nil s then o = None else ∃ a, o = Some a ∧ read s = Ok a | None => o = None end.
Proof.
  unfold de_optional, de_opt. destruct (t k) as [s|]; [|by intros [= <-]]. destruct (is_nil s); [by intros [= <-]|].
  destruct (read s) as [a|e]; [|done]. intros [= <-]. by exists a.
Qed.

(** The value of the settings under [k], when they are a table. *)
Definition setting (s : S) (k : string) : option S :=
  match read_table s with Ok t => t k | Err _ => None end.

Lemma de_default_none {A} (d : A) (read : S → result A string) k (t : string → option S) a :
  t k = None → de_default d read k t = Ok a → a = d.
Proof. intros Hk. unfold de_default. rewrite Hk. by intros [= <-]. Qed.

(** A setting that is absent from its section has the documented default; a section that
    is absent has the defaults of all its settings. *)
Theorem absent_setting_default s c :
  ProxyConfig_deserialize s = Ok c →
  (setting s "listen_address" = None → listen_address c = default_listen_address) ∧
  (setting s "health_port" = None → health_port c = 8080) ∧
  (setting s "logging" = None → log_level c = Info) ∧
  (setting s "buffers" = None → buffers c = mkBufferConfig 100 500 60) ∧
  (setting s "state_file" = None → state_file c = default_state_file) ∧
  (setting s "charging" = None → charging c = ChargingConfig_default ∧ enabled (charging c) = false) ∧
  (∀ ch, setting s "charging" = Some ch →
     (setting ch "enabled" = None → enabled (charging c) = false) ∧
     (setting ch "max_limit_a" = None → max_limit_a (charging c) = of_Z 32) ∧
     (setting ch "number_phases" = None → number_phases (charging c) = Some 1) ∧
     (setting ch "allowed_configuration_keys" = None →
        allowed_configuration_keys (charging c) = default_allowed_configuration_keys)).
Proof.
  unfold ProxyConfig_deserialize, setting. intros E. destruct (read_table s) as [t|e]; [|done]. de_inv E.
  injection E as <-. simpl. split_and!; try (intros Hk; by eapply de_default_none).
  - intros Hk. enough (a9 = ChargingConfig_default) as ->; [done|]. by eapply de_default_none.
  - intros ch Hch.
    match goal with F : de_default ChargingConfig_default _ _ _ = Ok _ |- _ =>
      apply de_default_inv in F; rewrite Hch in F; rename F into Fc end.
    unfold ChargingConfig_deserialize in Fc. destruct (read_table ch) as [tc|e]; [|done]. de_inv Fc.
    injection Fc as <-. simpl. split_and!; intros Hk; by eapply de_default_none.
Qed.

(** ** The types of what is read *)

(** The integers of a configuration have their Rust types. *)
Record in_range (c : ProxyConfig) : Prop := {
  ir_listen_port : 0 ≤ listen_port c < 65536;
  ir_health_port : 0 ≤ health_port c < 65536;
  ir_mqtt_port : 0 ≤ mqtt_port (mqtt c) < 65536;
  ir_backoff : 0 ≤ max_backoff_seconds (buffers c) < 2 ^ 64;
  ir_timeout : 0 ≤ command_timeout_seconds (charging c) < 2 ^ 64;
  ir_charging : config_typed (charging c) = true
}.

Context `{!SettingsLaws S}.

Lemma uint_field bits d k (t : string → option S) z :
  0 ≤ d < 2 ^ bits → de_default d (read_uint bits) k t = Ok z → 0 ≤ z < 2 ^ bits.
Proof.
  intros Hd E. apply de_default_inv in E. destruct (t k) as [s|]; [by eapply read_uint_range|by subst].
Qed.

Lemma uint_required bits k (t : string → option S) z :
  de_required (read_uint bits) k t = Ok z → 0 ≤ z < 2 ^ bits.
Proof. intros (s & _ & E)%de_required_inv. by eapply read_uint_range. Qed.

Lemma MqttConfig_in_range s m : MqttConfig_deserialize s = Ok m → 0 ≤ mqtt_port m < 65536.
Proof.
  unfold MqttConfig_deserialize. intros E. destruct (read_table s) as [t|e]; [|done]. de_inv E. injection E as <-.
  by eapply (uint_required 16).
Qed.

Lemma BufferConfig_in_range s b : BufferConfig_deserialize s = Ok b → 0 ≤ max_backoff_seconds b < 2 ^ 64.
Proof.
  unfold BufferConfig_deserialize. intros E. destruct (read_table s) as [t|e]; [|done]. de_inv E. injection E as <-.
  eapply (uint_field 64); [|done]. by compute.
Qed.

Lemma ChargingConfig_in_range s c :
  ChargingConfig_deserialize s = Ok c → 0 ≤ command_timeout_seconds c < 2 ^ 64 ∧ config_typed c = true.
Proof.
  unfold ChargingConfig_deserialize. intros E. destruct (read_table s) as [t|e]; [|done]. de_inv E. injection E as <-.
  simpl. split; [eapply (uint_field 64); [|done]; by compute|].
  unfold config_typed, in_u64, in_i64. simpl.
  repeat match goal with
  | F : de_default _ (read_uint _) ?k _ = Ok _ |- _ => apply uint_field in F; [|by compute]
  end.
  repeat (apply andb_true_intro; split); try (apply bool_decide_true; lia).
  - match goal with F : de_default _ (read_int _) _ _ = Ok ?z |- _ =>
      apply de_default_inv in F; apply bool_decide_true; destruct (t "profile_id");
      [apply read_int_range in F; lia|subst z; by compute] end.
  - match goal with F : de_default _ (de_opt _) _ _ = Ok ?o |- _ => apply de_default_inv in F; destruct (t "number_phases") as [n|] end.
    + unfold de_opt in *. destruct (is_nil n); [by simplify_eq|]. destruct (read_uint 32 n) as [z|] eqn:Hz; [|done].
      simplify_eq. apply read_uint_range in Hz. apply bool_decide_true. lia.
    + subst. by vm_compute.
Qed.

Lemma ProxyConfig_in_range s c : ProxyConfig_deserialize s = Ok c → in_range c.
Proof.
  unfold ProxyConfig_deserialize. intros E. destruct (read_table s) as [t|e]; [|done]. de_inv E. injection E as <-.
  constructor; simpl.
  - by eapply (uint_required 16).
  - eapply (uint_field 16); [|done]. by compute.
  - match goal with F : de_required MqttConfig_deserialize _ _ = Ok _ |- _ => apply de_required_inv in F as (m & _ & F) end.
    by eapply MqttConfig_in_range.
  - match goal with F : de_default _ BufferConfig_deserialize _ _ = Ok _ |- _ => apply de_default_inv in F; destruct (t _) end.
    + by eapply BufferConfig_in_range.
    + subst. by compute.
  - match goal with F : de_default _ ChargingConfig_deserialize _ _ = Ok _ |- _ => apply de_default_inv in F; destruct (t _) end.
    + by eapply ChargingConfig_in_range.
    + subst. by compute.
  - match goal with F : de_default _ ChargingConfig_deserialize _ _ = Ok _ |- _ => apply de_default_inv in F; destruct (t _) end.
    + by eapply ChargingConfig_in_range.
    + subst. by vm_compute.
Qed.
End deserialize.

(** ** Loading *)

Section loading.
Context {S : Type} `{SettingsLaws S}.
Context (build : string → result S string) (exists_ readable : string → bool).

(** C32. A configuration that loads from settings has the types its structs declare and
    passes [validate]: the ports are unprivileged port numbers and differ, the timeout of
    a command is between one second and five minutes, and every integer that goes into a
    charging frame is one that JSON text can carry. *)
Theorem loaded_settings_sound path c :
  load_settings build exists_ readable path = Ok c →
  1024 ≤ listen_port c ≤ 65535 ∧ 1024 ≤ health_port c ≤ 65535 ∧ listen_port c ≠ health_port c ∧
  1 ≤ mqtt_port (mqtt c) ≤ 65535 ∧ 0 ≤ max_backoff_seconds (buffers c) < 2 ^ 64 ∧
  1 ≤ command_timeout_seconds (charging c) ≤ 300 ∧ 0 < profile_id (charging c) < 2 ^ 63 ∧
  config_typed (charging c) = true ∧ valid_config exists_ readable c.
Proof.
  unfold load_settings, load_from_path. intros E. case_match; [|done]. case_match; [done|].
  destruct (ProxyConfig_deserialize a) as [c'|e] eqn:Hd; [|done]. case_decide; [done|]. injection E as ->.
  assert (valid_config exists_ readable c) as V by (by apply (validate_valid build)).
  apply ProxyConfig_in_range in Hd as [].
  pose proof (vp_listen_port _ _ _ V). pose proof (vp_health_port _ _ _ V). pose proof (vp_mqtt_port _ _ _ V).
  pose proof (vc_timeout _ (vp_charging _ _ _ V)). pose proof (vc_profile_id _ (vp_charging _ _ _ V)).
  pose proof ir_charging0 as Ht. unfold config_typed in Ht. apply andb_prop in Ht as [[[_ Hp]%andb_prop _]%andb_prop _].
  unfold in_i64 in Hp. apply bool_decide_eq_true in Hp.
  split_and!; try lia; try done. by apply (vp_ports_differ _ _ _ V).
Qed.

(** The settings under a key that are a value, not [null]. *)
Definition given (s : S) (k : string) : bool :=
  match setting s k with Some v => negb (is_nil v) | None => false end.

(** A required parameter, by its path, is not given. *)
Definition not_given (s : S) (name : string) : bool :=
  if decide (name = "central_system_url")%string then negb (given s "central_system_url")
  else if decide (name = "listen_port")%string then negb (given s "listen_port")
  else match setting s "mqtt" with
       | Some m =>
           is_nil m || existsb (λ k, bool_decide (name = "mqtt." +:+ k)%string && negb (given m k))
                        ["host"; "port"; "username"; "password"]%string
       | None => true
       end.

Lemma optional_given {A} (read : S → result A string) s t k o :
  read_table s = Ok t → de_optional read k t = Ok o → is_none o = negb (given s k).
Proof.
  intros Ht E. apply de_optional_inv in E. unfold given, setting. rewrite Ht.
  destruct (t k) as [v|]; [|by subst]. destruct (is_nil v); [by subst|]. by destruct E as (a & -> & _).
Qed.

Lemma RawMqtt_given m r :
  RawMqttConfig_deserialize m = Ok r →
  is_none (raw_host r) = negb (given m "host") ∧ is_none (raw_port r) = negb (given m "port") ∧
  is_none (raw_username r) = negb (given m "username") ∧ is_none (raw_password r) = negb (given m "password").
Proof.
  unfold RawMqttConfig_deserialize. intros E. destruct (read_table m) as [t|e] eqn:Ht; [|done]. de_inv E.
  injection E as <-. simpl. split_and!; by eapply optional_given.
Qed.

Lemma RawProxy_missing s r :
  RawProxyConfig_deserialize s = Ok r → missing_required r = List.filter (not_given s) required.
Proof.
  unfold RawProxyConfig_deserialize. intros E. destruct (read_table s) as [t|e] eqn:Ht; [|done]. de_inv E.
  injection E as <-.
  match goal with F : de_optional read_string _ _ = Ok ?u |- _ => pose proof (optional_given _ _ _ _ _ Ht F) as Hu end.
  match goal with F : de_optional (read_uint 16) _ _ = Ok ?u |- _ => pose proof (optional_given _ _ _ _ _ Ht F) as Hp end.
  match goal with F : de_optional RawMqttConfig_deserialize _ _ = Ok ?u |- _ => apply de_optional_inv in F; rename F into Hm end.
  assert (setting s "mqtt" = t "mqtt"%string) as Hset by (unfold setting; by rewrite Ht).
  unfold missing_required, required. simpl. unfold not_given. simpl. rewrite !Hset, Hu, Hp. clear Hset Hu Hp.
  destruct (t "mqtt"%string) as [m|].
  - destruct (is_nil m); simpl.
    + subst. simpl. by destruct (given s _), (given s _).
    + destruct Hm as (r & -> & Hr). apply RawMqtt_given in Hr as (-> & -> & -> & ->). rewrite !orb_false_r.
      by destruct (given s _), (given s _), (given m "host"), (given m "port"), (given m "username"), (given m "password").
  - subst. simpl. by destruct (given s _), (given s _).
Qed.

(** C33. When the settings that are given can be read, loading fails for what is not given
    exactly when a required setting is absent or [null], and then the error names every
    one of them, in the order of the structs. When a required setting is given but cannot
    be read, no list is made: the settings are read straight into the configuration,
    and what is missing is not named ([malformed_hides_missing]). *)
Theorem missing_settings_named path s :
  build path = Ok s →
  let missing := List.filter (not_given s) required in
  load_settings build exists_ readable path =
  if is_ok (RawProxyConfig_deserialize s) && negb (bool_decide (missing = [])) then
    Err (ConfigError ("Missing required configuration parameter"
      +:+ (if bool_decide (length missing = 1%nat) then "" else "s") +:+ ":" +:+ newline
      +:+ String.concat newline (map (λ m, "  - " +:+ m)%string missing)))
  else
    match ProxyConfig_deserialize s with
    | Err e => Err (ConfigError ("Failed to deserialize configuration: " +:+ e))
    | Ok c => if decide (validate exists_ readable c = []) then Ok c
              else Err (ConfigError ("Configuration validation failed:" +:+ newline
                          +:+ String.concat newline (validate exists_ readable c)))
    end.
Proof.
  intros Hb missing. unfold load_settings, load_from_path. rewrite Hb.
  destruct (RawProxyConfig_deserialize s) as [r|e] eqn:Hr; simpl.
  2: { destruct (ProxyConfig_deserialize s); [|done]. by repeat case_decide. }
  rewrite (RawProxy_missing _ _ Hr). fold missing. destruct (decide (missing = [])) as [Hm|Hm].
  - rewrite (bool_decide_true (missing = [])) by done. rewrite decide_False by (intros F; by apply F). simpl.
    destruct (ProxyConfig_deserialize s); [|done]. by repeat case_decide.
  - rewrite (bool_decide_false (missing = [])) by done. by rewrite decide_True.
Qed.
End loading.

(** ** Settings as a tree of values *)

(** Settings that are a tree of JSON values, as a YAML file without tags is one: an
    integer in range is read as one, a number as a double, a variant by its exact name,
    an address from its four decimal parts. *)
Definition read_decimal (s : string) : option Z :=
  let '(z, n, rest) := take_digits 0 0 (chars s) in
  match rest with [] => if (0 <? n) && (z <? 256) then Some z else None | _ => None end.

Definition read_dotted (s : string) : option IpAddr :=
  match read_decimal <$> split "."%char s with
  | [Some a; Some b; Some c; Some d] => Some (V4 (((a * 256 + b) * 256 + c) * 256 + d))
  | _ => None
  end.

Definition invalid_type : string := "invalid type".

Definition in_bounds (lo hi : Z) (z : Z) : option Z := if (lo <=? z) && (z <? hi) then Some z else None.

Definition tree_int (lo hi : Z) (v : Value) : result Z string :=
  match v with VNumber (NInt z) => ok_or (in_bounds lo hi z) invalid_type | _ => Err invalid_type end.

#[local] Instance tree_settings : SettingsLib Value := {|
  is_nil v := match v with VNull => true | _ => false end;
  read_table v := match v with VObject m => Ok (λ k, map_get k m) | _ => Err invalid_type end;
  read_string v := ok_or (as_str v) invalid_type;
  read_uint bits v := tree_int 0 (2 ^ bits) v;
  read_int bits v := tree_int (- 2 ^ (bits - 1)) (2 ^ (bits - 1)) v;
  read_f64 v := match v with VNumber _ => ok_or (as_f64 v) invalid_type | _ => Err invalid_type end;
  read_bool v := match v with VBool b => Ok b | _ => Err invalid_type end;
  read_list v := ok_or (as_array v) invalid_type;
  read_ip v := ok_or (s ← as_str v; read_dotted s) invalid_type;
  read_enum names v :=
    match as_str v with Some s => if decide (s ∈ names) then Ok s else Err "unknown variant"%string | None => Err invalid_type end;
  missing_field k := "missing field `" +:+ k +:+ "`";
  unknown_variant k := "unknown variant `" +:+ k +:+ "`"
|}.

Lemma tree_int_range lo hi v z : tree_int lo hi v = Ok z → lo ≤ z < hi.
Proof.
  destruct v as [| |[n|]| | |]; try done. simpl. unfold in_bounds.
  destruct ((lo <=? n) && (n <? hi)) eqn:E; [|done]. intros [= <-]. lia.
Qed.

#[local] Instance tree_settings_laws : SettingsLaws Value.
Proof.
  constructor.
  - intros bits v z. apply tree_int_range.
  - intros bits v z. apply tree_int_range.
  - intros names v name. simpl. destruct (as_str v) as [s|]; [|done]. case_decide; [|done]. by intros [= <-].
Qed.

(** The smallest settings that load. *)
Definition base_settings : list (string * Value) :=
  [("central_system_url", VString "ws://cs.example/ocpp"); ("listen_port", VNumber (NInt 9000));
   ("mqtt", VObject [("host", VString "mqtt.example"); ("port", VNumber (NInt 1883));
                     ("username", VString "u"); ("password", VString "p")])]%string.

Definition base_config : ProxyConfig :=
  mkProxyConfig "ws://cs.example/ocpp" 9000 default_listen_address None None 8080
    (mkMqttConfig "mqtt.example" 1883 "u" "p" None None None)
    Info BufferConfig_default default_state_file ChargingConfig_default.

Lemma absent_setting_default_witness :
  setting (VObject base_settings) "charging" = None ∧ charging base_config = ChargingConfig_default.
Proof.
  split; [reflexivity|].
  destruct (absent_setting_default (VObject base_settings) base_config) as (_ & _ & _ & _ & _ & H & _);
    [vm_compute; reflexivity|]. destruct H as [H _]; [reflexivity|exact H].
Defined.

Lemma loaded_settings_sound_witness :
  load_settings (λ _, Ok (VObject base_settings)) (λ _, false) (λ _, false) "config.yaml" = Ok base_config ∧
  1024 ≤ listen_port base_config ≤ 65535.
Proof.
  split; [vm_compute; reflexivity|].
  apply (loaded_settings_sound (λ _, Ok (VObject base_settings)) (λ _, false) (λ _, false) "config.yaml" base_config).
  vm_compute. reflexivity.
Defined.

(** Without the URL and with a [null] password. *)
Definition short_settings : Value :=
  VObject [("listen_port", VNumber (NInt 9000));
           ("mqtt", VObject [("host", VString "h"); ("port", VNumber (NInt 1)); ("username", VString "u"); ("password", VNull)])]%string.

Lemma missing_settings_named_witness :
  load_settings (λ _, Ok short_settings) (λ _, false) (λ _, false) "config.yaml" =
  Err (ConfigError ("Missing required configuration parameters:" +:+ newline +:+ "  - central_system_url" +:+ newline
         +:+ "  - mqtt.password")).
Proof.
  refine (eq_trans (missing_settings_named (λ _, Ok short_settings) (λ _, false) (λ _, false) "config.yaml"
                short_settings eq_refl) _).
  vm_compute. reflexivity.
Defined.

(** The same settings with a port that is not a number. *)
Definition malformed_settings : Value :=
  VObject [("listen_port", VString "nine thousand");
           ("mqtt", VObject [("host", VString "h"); ("port", VNumber (NInt 1)); ("username", VString "u"); ("password", VNull)])]%string.

(** Finding: a required setting that cannot be read keeps the missing ones from being
    named. Two are absent here, the URL and the password; the error names the first
    only, as the reader of the configuration met it. *)
Theorem malformed_hides_missing :
  List.filter (not_given malformed_settings) required = ["central_system_url"; "mqtt.password"]%string ∧
  load_settings (λ _, Ok malformed_settings) (λ _, false) (λ _, false) "config.yaml" =
    Err (ConfigError "Failed to deserialize configuration: missing field `central_system_url`").
Proof. vm_compute. split; reflexivity. Qed.
