(* ===== verification/CallQueue.v ===== *)
(** * The queue of proxy Calls and the command router (src/command.rs)

    [LocalCallQueue] is the per-session queue: one Call in flight, queued limit
    commands coalesced, everything bounded by age and by count. [CommandRouter] finds
    the session of a charge point; the channels it sends on come from the
    [MpscSender] interface. *)

From Stdlib Require Import Ascii.
From S2P Require Import Prelude Float64 Json Text Models Config Command.

Local Open Scope Z_scope.

(** ** LocalCallQueue *)

Record LocalCallQueue := mkQueue {
  queued : list CommandRequest;
  in_flight : option InFlight;
  q_timeout : Z;
  q_capacity : nat;
  q_sequence : Z
}.

(** [LocalCallQueue::new]. *)
Definition queue_new (timeout : Z) (capacity : nat) : LocalCallQueue :=
  mkQueue [] None timeout (capacity `max` 1)%nat 0.

Definition set_queued (q : LocalCallQueue) (l : list CommandRequest) : LocalCallQueue :=
  mkQueue l (in_flight q) (q_timeout q) (q_capacity q) (q_sequence q).

Definition with_in_flight (q : LocalCallQueue) (f : option InFlight) : LocalCallQueue :=
  mkQueue (queued q) f (q_timeout q) (q_capacity q) (q_sequence q).

(** [LocalCallQueue::push]: the queue, and the requests it displaced. *)
Definition push (q : LocalCallQueue) (request : CommandRequest) : LocalCallQueue * list CommandRequest :=
  let is_limit r := is_limit_command (req_command r) in
  let '(kept, displaced) :=
    if is_limit request then (retain (λ r, negb (is_limit r)) (queued q), retain is_limit (queued q))
    else (queued q, []) in
  let '(l, oldest) := push_evict (q_capacity q) request kept in
  (set_queued q l, displaced ++ option_list oldest).

Definition has_in_flight (q : LocalCallQueue) : bool := bool_decide (is_Some (in_flight q)).

Definition is_empty (q : LocalCallQueue) : bool := bool_decide (queued q = []) && negb (has_in_flight q).

Definition queued_len (q : LocalCallQueue) : nat := length (queued q).

Definition is_ours (q : LocalCallQueue) (uid : string) : bool :=
  match in_flight q with Some f => bool_decide (pc_unique_id (fl_prepared f) = uid) | None => false end.

Definition next_unique_id (now : Z) (q : LocalCallQueue) : string * LocalCallQueue :=
  let seq := wrap_u64 (q_sequence q + 1) in
  ((UNIQUE_ID_PREFIX +:+ pretty (timestamp_millis now) +:+ "-" +:+ pretty seq)%string,
   mkQueue (queued q) (in_flight q) (q_timeout q) (q_capacity q) seq).

Definition pop_next (q : LocalCallQueue) : option CommandRequest * LocalCallQueue :=
  if has_in_flight q then (None, q)
  else match queued q with
       | [] => (None, q)
       | r :: rest => (Some r, set_queued q rest)
       end.

Definition set_in_flight (now : Z) (q : LocalCallQueue) (request : CommandRequest) (p : PreparedCall) :
    LocalCallQueue :=
  with_in_flight q (Some (mkInFlight request p now)).

Definition take_response (q : LocalCallQueue) (uid : string) : option InFlight * LocalCallQueue :=
  if is_ours q uid then (in_flight q, with_in_flight q None) else (None, q).

(** [Instant::elapsed], which never goes under zero. *)
Definition elapsed (since now : Z) : Z := Z.max 0 (now - since).

Section expire.
Context `{Chrono}.

Definition max_age (q : LocalCallQueue) : Z := default (from_secs 30) (from_std (q_timeout q)).

Definition request_expired (q : LocalCallQueue) (now : Z) (r : CommandRequest) : bool :=
  max_age q <=? now - issued_at r.

(** [LocalCallQueue::expire]: the queue, the requests too old, the call unanswered. *)
Definition expire (c : Clock) (q : LocalCallQueue) :
    LocalCallQueue * list CommandRequest * option InFlight :=
  let expired := retain (request_expired q (utc_now c)) (queued q) in
  let q := set_queued q (retain (λ r, negb (request_expired q (utc_now c) r)) (queued q)) in
  match in_flight q with
  | Some f =>
      if q_timeout q <=? elapsed (fl_sent_at f) (instant_now c)
      then (with_in_flight q None, expired, Some f)
      else (q, expired, None)
  | None => (q, expired, None)
  end.
End expire.

(** [LocalCallQueue::drain]. *)
Definition drain_queue (q : LocalCallQueue) : LocalCallQueue * list CommandRequest * option InFlight :=
  (with_in_flight (set_queued q []) None, queued q, in_flight q).

(** ** CommandRouter *)

Inductive DispatchError := NotConnected | QueueFull.

#[export] Instance DispatchError_eq_dec : EqDecision DispatchError.
Proof. solve_decision. Defined.

Record Registration (T : Type) := mkRegistration {
  reg_generation : Z;
  reg_tx : T
}.
Arguments mkRegistration {T} _ _.
Arguments reg_generation {T} _.
Arguments reg_tx {T} _.

(** The shared map; the mutex makes each operation one step. *)
Abbreviation CommandRouter T := (gmap string (Registration T)).

Section router.
Context {T : Type} `{MpscSender T CommandRequest}.
Implicit Types (router : CommandRouter T).

Definition register (router : CommandRouter T) (id : string) (generation : Z) (tx : T) : CommandRouter T :=
  <[id := mkRegistration generation tx]> router.

Definition deregister (router : CommandRouter T) (id : string) (generation : Z) : CommandRouter T * bool :=
  match router !! id with
  | Some reg => if reg_generation reg =? generation then (delete id router, true) else (router, false)
  | None => (router, false)
  end.

Definition is_connected (router : CommandRouter T) (id : string) : bool :=
  bool_decide (is_Some (router !! id)).

Definition dispatch_error (e : TrySendError) : DispatchError :=
  match e with Full => QueueFull | Closed => NotConnected end.

Definition dispatch (router : CommandRouter T) (id : string) (request : CommandRequest) :
    CommandRouter T * result unit DispatchError :=
  match router !! id with
  | None => (router, Err NotConnected)
  | Some reg =>
      let '(tx, r) := try_send (reg_tx reg) request in
      (<[id := mkRegistration (reg_generation reg) tx]> router,
       match r with Ok () => Ok () | Err e => Err (dispatch_error e) end)
  end.
End router.

(** ** Lemmas: what a queue holds *)

Definition is_limit_request (r : CommandRequest) : bool := is_limit_command (req_command r).

(** Every request the queue answers for. *)
Definition pending (q : LocalCallQueue) : list CommandRequest :=
  queued q ++ option_list (fl_request <$> in_flight q).

Lemma push_queued q r :
  queued (push q r).1 =
  push_bounded (q_capacity q) (if is_limit_request r then retain (λ x, negb (is_limit_request x)) (queued q)
                               else queued q) r.
Proof.
  unfold push, push_bounded, is_limit_request.
  destruct (is_limit_command (req_command r)); by destruct (push_evict _ _ _).
Qed.

Lemma push_rest q r :
  in_flight (push q r).1 = in_flight q ∧ q_timeout (push q r).1 = q_timeout q ∧
  q_capacity (push q r).1 = q_capacity q ∧ q_sequence (push q r).1 = q_sequence q.
Proof.
  unfold push. destruct (is_limit_command (req_command r)); by destruct (push_evict _ _ _).
Qed.

Lemma push_pending q r : (push q r).2 ++ pending (push q r).1 ≡ₚ r :: pending q.
Proof.
  unfold pending. destruct (push_rest q r) as (-> & _).
  assert ((push q r).2 ++ queued (push q r).1 ≡ₚ r :: queued q) as Hq.
  { unfold push. destruct (is_limit_command (req_command r)).
    - pose proof (push_evict_app (q_capacity q) r (retain (λ r, negb (is_limit_command (req_command r))) (queued q))) as E.
      destruct (push_evict _ _ _) as [l o]. simpl in *. rewrite <- app_assoc, E.
      rewrite app_assoc, (Permutation_app_comm _ [r]). simpl. f_equiv.
      apply (retain_split (λ r, is_limit_command (req_command r))).
    - pose proof (push_evict_app (q_capacity q) r (queued q)) as E.
      destruct (push_evict _ _ _) as [l o]. simpl in *. rewrite E. by rewrite (Permutation_app_comm _ [r]). }
  by rewrite app_assoc, Hq.
Qed.

Lemma push_submseteq q r : queued (push q r).1 ⊆+ queued q ++ [r].
Proof.
  rewrite push_queued. etrans; [apply sublist_submseteq, push_bounded_sublist|]. apply submseteq_skips_r.
  destruct (is_limit_request r); [|done]. apply sublist_submseteq, retain_sublist.
Qed.

Lemma pop_next_pending q r q' :
  pop_next q = (Some r, q') → pending q = r :: pending q' ∧ in_flight q = None ∧ in_flight q' = None.
Proof.
  unfold pop_next, has_in_flight, pending. case_bool_decide as Hf; [done|].
  assert (in_flight q = None) as Hn by (destruct (in_flight q); naive_solver).
  destruct (queued q) eqn:E; [done|]. intros [= <- <-]. simpl. by rewrite Hn.
Qed.

Lemma pop_next_None q q' :
  pop_next q = (None, q') → q' = q ∧ (is_Some (in_flight q) ∨ queued q = []).
Proof.
  unfold pop_next, has_in_flight. case_bool_decide as Hf; [naive_solver|].
  destruct (queued q); naive_solver.
Qed.

Lemma set_in_flight_pending now q r p :
  in_flight q = None → pending (set_in_flight now q r p) ≡ₚ r :: pending q.
Proof. intros E. unfold pending. simpl. rewrite E. simpl. by rewrite app_nil_r, (Permutation_app_comm _ [r]). Qed.

Lemma next_unique_id_pending now q : pending (next_unique_id now q).2 = pending q.
Proof. done. Qed.

Lemma take_response_pending q uid :
  option_list (fl_request <$> (take_response q uid).1) ++ pending (take_response q uid).2 ≡ₚ pending q.
Proof.
  unfold take_response, pending. destruct (is_ours q uid); simpl; [|done].
  rewrite app_nil_r. apply Permutation_app_comm.
Qed.

Lemma take_response_Some q uid f q' :
  take_response q uid = (Some f, q') →
  in_flight q = Some f ∧ pc_unique_id (fl_prepared f) = uid ∧ q' = with_in_flight q None.
Proof.
  unfold take_response, is_ours. destruct (in_flight q) as [g|] eqn:E; [|done].
  case_bool_decide; [|done]. by intros [= <- <-].
Qed.

Lemma expire_pending `{Chrono} c q :
  let '(q', expired, f) := expire c q in
  expired ++ option_list (fl_request <$> f) ++ pending q' ≡ₚ pending q.
Proof.
  unfold expire, pending. simpl.
  pose proof (retain_split (request_expired q (utc_now c)) (queued q)) as Hs.
  destruct (in_flight q) as [f|] eqn:Ef; [destruct (q_timeout q <=? _)|]; simpl; rewrite ?Ef; simpl;
    rewrite ?app_nil_r; try done.
  - by rewrite <- Permutation_middle, Hs, (Permutation_app_comm (queued q)).
  - by rewrite app_assoc, Hs.
Qed.

Lemma drain_pending q :
  let '(q', l, f) := drain_queue q in l ++ option_list (fl_request <$> f) = pending q ∧ pending q' = [].
Proof. done. Qed.

(** ** Theorems: coalescing *)

(** The last limit command of a run of requests, and every other request. *)
Fixpoint coalesce (l : list CommandRequest) : list CommandRequest :=
  match l with
  | [] => []
  | r :: l =>
      if is_limit_request r && existsb is_limit_request l then coalesce l else r :: coalesce l
  end.

Definition last_n {A} (n : nat) (l : list A) : list A := drop (length l - n) l.

Definition not_limit (r : CommandRequest) : bool := negb (is_limit_request r).

Lemma coalesce_snoc_other l r : is_limit_request r = false → coalesce (l ++ [r]) = coalesce l ++ [r].
Proof.
  intros Hr. induction l as [|x l IH]; simpl; [by rewrite andb_false_r|].
  rewrite existsb_app. simpl. rewrite Hr, !orb_false_r, IH. by destruct (_ && _).
Qed.

Lemma coalesce_snoc_limit l r :
  is_limit_request r = true → coalesce (l ++ [r]) = retain not_limit l ++ [r].
Proof.
  intros Hr. induction l as [|x l IH]; simpl; [by rewrite andb_false_r|].
  rewrite existsb_app. simpl. rewrite Hr, orb_true_r, andb_true_r, IH.
  unfold not_limit. by destruct (is_limit_request x).
Qed.

Lemma retain_not_limit_cons x l :
  retain not_limit (x :: l) = if is_limit_request x then retain not_limit l else x :: retain not_limit l.
Proof. simpl. unfold not_limit at 1. by destruct (is_limit_request x). Qed.

(** At most one limit command is left, and nothing else is lost. *)
Lemma coalesce_split l :
  (coalesce l = retain not_limit l ∧ existsb is_limit_request l = false) ∨
  ∃ l1 x l2, coalesce l = l1 ++ x :: l2 ∧ is_limit_request x = true ∧
             retain not_limit l = l1 ++ l2 ∧ existsb is_limit_request l = true.
Proof.
  induction l as [|x l IH]; [by left|]. rewrite retain_not_limit_cons. simpl.
  destruct (is_limit_request x) eqn:Hx; simpl.
  - destruct IH as [[-> ->]|(l1 & y & l2 & -> & Hy & Hl & ->)]; right; [|naive_solver].
    exists [], x, (retain not_limit l). done.
  - destruct IH as [[-> ->]|(l1 & y & l2 & -> & Hy & Hl & ->)]; [by left|].
    right. exists (x :: l1), y, l2. by rewrite Hl.
Qed.

Lemma retain_not_limit_idem l : Forall (λ r, not_limit r = true) (retain not_limit l).
Proof. apply Forall_forall. by intros r [_ ?]%elem_of_retain. Qed.

Lemma retain_app {A} (k : A → bool) l1 l2 : retain k (l1 ++ l2) = retain k l1 ++ retain k l2.
Proof. apply List.filter_app. Qed.

Lemma last_n_app_le {A} n (l1 l2 : list A) :
  (length l2 <= n)%nat → last_n n (l1 ++ l2) = last_n (n - length l2) l1 ++ l2.
Proof.
  intros Hn. unfold last_n. rewrite drop_app, length_app.
  replace (length l1 + length l2 - n - length l1)%nat with 0%nat by lia. simpl. f_equal. f_equal. lia.
Qed.

Lemma last_n_app_ge {A} n (l1 l2 : list A) : (n <= length l2)%nat → last_n n (l1 ++ l2) = last_n n l2.
Proof.
  intros Hn. unfold last_n. rewrite drop_app, length_app, drop_ge by lia. simpl. f_equal. lia.
Qed.

Lemma last_n_length {A} n (l : list A) : (length (last_n n l) <= n)%nat.
Proof. unfold last_n. rewrite length_drop. lia. Qed.

Lemma push_last_n {A} n (l : list A) x :
  (0 < n)%nat → push_bounded n (last_n n l) x = last_n n (l ++ [x]).
Proof.
  intros Hn. pose proof (last_n_length n l). rewrite push_bounded_drop by lia.
  replace (n `max` 1)%nat with n by lia.
  change (last_n n (last_n n l ++ [x]) = last_n n (l ++ [x])).
  rewrite !last_n_app_le by (simpl; lia). f_equal. simpl. unfold last_n.
  rewrite drop_drop, length_drop. f_equal. lia.
Qed.

Lemma push_short {A} n (l : list A) x : (length l < n)%nat → push_bounded n l x = l ++ [x].
Proof. intros Hn. unfold push_bounded, push_evict. by rewrite decide_False by lia. Qed.

(** Taking the limit command out of a full queue leaves one place more. *)
Lemma retain_last_n n l :
  (0 < n)%nat →
  retain not_limit (last_n n (coalesce l)) = last_n n (retain not_limit l) ∨
  retain not_limit (last_n n (coalesce l)) = last_n (n - 1) (retain not_limit l).
Proof.
  intros Hn. pose proof (retain_not_limit_idem l) as Hall.
  destruct (coalesce_split l) as [[-> _]|(l1 & x & l2 & -> & Hx & E & _)].
  { left. apply retain_all. by apply Forall_drop. }
  rewrite E in *. apply Forall_app in Hall as [Hl1 Hl2].
  destruct (decide (n <= length l2)%nat) as [Hle|Hgt].
  - left. change (x :: l2) with ([x] ++ l2). rewrite app_assoc, !last_n_app_ge by done.
    apply retain_all. by apply Forall_drop.
  - right. rewrite !last_n_app_le by (simpl; lia). rewrite retain_app, retain_not_limit_cons, Hx. simpl.
    rewrite !retain_all by (done || by apply Forall_drop). f_equal. f_equal. lia.
Qed.

(** Requests pushed one after the other. *)
Definition push_all (q : LocalCallQueue) (l : list CommandRequest) : LocalCallQueue :=
  foldl (λ q r, (push q r).1) q l.

Lemma push_all_rest q l :
  in_flight (push_all q l) = in_flight q ∧ q_capacity (push_all q l) = q_capacity q.
Proof.
  revert q. induction l as [|r l IH]; intros q; simpl; [done|].
  destruct (IH (push q r).1) as [-> ->]. by destruct (push_rest q r) as (-> & _ & -> & _).
Qed.

(** C12. The queue a session has built by pushing requests is the specified one: of
    the limit commands only the last, every other command in the order it came, and
    of those the newest up to the capacity (which is never under one). *)
Theorem queue_refines_coalesce timeout capacity l :
  queued (push_all (queue_new timeout capacity) l) = last_n (capacity `max` 1) (coalesce l).
Proof.
  set (n := (capacity `max` 1)%nat). assert (0 < n)%nat as Hn by (unfold n; lia).
  induction l as [|r l IH] using rev_ind; [done|].
  unfold push_all in *. rewrite foldl_app. simpl.
  rewrite push_queued, IH. change (q_capacity (foldl _ _ l)) with (q_capacity (push_all (queue_new timeout capacity) l)).
  destruct (push_all_rest (queue_new timeout capacity) l) as [_ ->]. simpl. fold n.
  destruct (is_limit_request r) eqn:Hr.
  - rewrite coalesce_snoc_limit by done. fold not_limit.
    change (λ x, negb (is_limit_request x)) with not_limit.
    destruct (retain_last_n n l Hn) as [->| ->]; [by apply push_last_n|].
    rewrite push_short by (pose proof (last_n_length (n - 1) (retain not_limit l)); lia).
    by rewrite last_n_app_le by (simpl; lia).
  - rewrite coalesce_snoc_other by done. by apply push_last_n.
Qed.

(** ** Theorems: unique ids *)

(** The ids of successive calls of [next_unique_id], at the times given. *)
Fixpoint unique_ids (times : list Z) (q : LocalCallQueue) : list string :=
  match times with
  | [] => []
  | t :: times => let '(uid, q) := next_unique_id t q in uid :: unique_ids times q
  end.

Definition id_with (seq : Z) (uid : string) : Prop :=
  ∃ ms : string, uid = (UNIQUE_ID_PREFIX +:+ ms +:+ "-" +:+ pretty seq)%string.

Lemma id_with_inj n m uid : 0 ≤ n → 0 ≤ m → id_with n uid → id_with m uid → n = m.
Proof.
  intros Hn Hm [ms ->] [ms' E]. apply (inj pretty).
  apply (app_string_last_inj "-" (UNIQUE_ID_PREFIX +:+ ms) (UNIQUE_ID_PREFIX +:+ ms'));
    [by apply pretty_Z_no_dash..|]. rewrite <- !app_string_assoc. exact E.
Qed.

Lemma unique_ids_with times q :
  0 ≤ q_sequence q → q_sequence q + Z.of_nat (length times) <= u64_max →
  Forall (λ uid, ∃ n, q_sequence q < n ∧ id_with n uid) (unique_ids times q) ∧ NoDup (unique_ids times q).
Proof.
  revert q. induction times as [|t times IH]; intros q Hq Hlen; [split; constructor|].
  simpl in *. rewrite wrap_u64_id by (unfold u64_max in *; apply bool_decide_eq_true_2; lia).
  set (q' := mkQueue _ _ _ _ _). destruct (IH q') as [Hall Hnd]; [simpl; lia..|]. simpl in Hall. split.
  - constructor; [exists (q_sequence q + 1); split; [lia|by eexists]|].
    eapply Forall_impl; [exact Hall|]. intros uid (n & ? & ?). exists n. split; [lia|done].
  - constructor; [|done]. intros Hin.
    eapply Forall_forall in Hall as (n & ? & Hn); [|exact Hin].
    assert (n = q_sequence q + 1); [|lia]. eapply id_with_inj; [lia| |exact Hn|by eexists]. lia.
Qed.

(** The ids a session sends its Calls under are never repeated, whatever the
    clock does, and carry the proxy's prefix, so an answer names one Call only (for
    as long as the 64-bit counter lasts). *)
Theorem unique_ids_distinct times q :
  q_sequence q = 0 → Z.of_nat (length times) <= u64_max →
  NoDup (unique_ids times q) ∧
  Forall (λ uid, String.prefix UNIQUE_ID_PREFIX uid = true) (unique_ids times q).
Proof.
  intros Hq Hlen. destruct (unique_ids_with times q) as [Hall Hnd]; [lia..|]. split; [done|].
  eapply Forall_impl; [exact Hall|]. intros uid (n & _ & ms & ->).
  unfold UNIQUE_ID_PREFIX. cbn. by destruct (ms +:+ _)%string.
Qed.

Lemma unique_ids_distinct_witness :
  unique_ids [5000000; 5000000] (queue_new 0 8) = ["proxy-5-1"; "proxy-5-2"]%string ∧
  NoDup (unique_ids [5000000; 5000000] (queue_new 0 8)).
Proof.
  split; [by vm_compute|]. refine (proj1 (unique_ids_distinct [5000000; 5000000] (queue_new 0 8) eq_refl _)).
  by vm_compute.
Defined.

(** ** Theorems: expiry *)

Section expire_lemmas.
Context `{Chrono}.

Definition call_expired (q : LocalCallQueue) (now : Z) (f : InFlight) : Prop :=
  q_timeout q <= elapsed (fl_sent_at f) now.

(** A sweep of the queue takes exactly what has waited its time: the requests
    queued as long as the timeout, in order, and the Call in flight as long as it;
    what is younger stays, so nothing kept is over age and nothing young is lost. *)
Theorem expire_exact c q :
  let '(q', expired, f) := expire c q in
  expired = retain (request_expired q (utc_now c)) (queued q) ∧
  queued q' = retain (λ r, negb (request_expired q (utc_now c) r)) (queued q) ∧
  match in_flight q with
  | None => f = None ∧ in_flight q' = None
  | Some g => call_expired q (instant_now c) g ∧ f = Some g ∧ in_flight q' = None ∨
              ¬ call_expired q (instant_now c) g ∧ f = None ∧ in_flight q' = Some g
  end.
Proof.
  unfold expire, call_expired. simpl. destruct (in_flight q) as [g|] eqn:E; simpl; [|by rewrite E].
  destruct (Z.leb_spec (q_timeout q) (elapsed (fl_sent_at g) (instant_now c))); simpl;
    split_and!; try done; [by left|right]. rewrite E. split_and!; [lia|done..].
Qed.
End expire_lemmas.

(** ** Theorems: the router *)

Section router_lemmas.
Context {T : Type} `{MpscSender T CommandRequest}.
Implicit Types (router : CommandRouter T).

Inductive RouterOp :=
  | OpRegister (id : string) (generation : Z) (tx : T)
  | OpDeregister (id : string) (generation : Z)
  | OpDispatch (id : string) (request : CommandRequest).

Definition apply_router (router : CommandRouter T) (op : RouterOp) : CommandRouter T :=
  match op with
  | OpRegister id generation tx => register router id generation tx
  | OpDeregister id generation => (deregister router id generation).1
  | OpDispatch id request => (dispatch router id request).1
  end.

(** What can end the registration of [id] under [generation]. *)
Definition ends (id : string) (generation : Z) (op : RouterOp) : bool :=
  match op with
  | OpRegister id' _ _ => bool_decide (id' = id)
  | OpDeregister id' g => bool_decide (id' = id) && (g =? generation)
  | OpDispatch _ _ => false
  end.

Definition registered (router : CommandRouter T) (id : string) : option Z := reg_generation <$> router !! id.

Lemma registered_dispatch router id request id' :
  registered (dispatch router id request).1 id' = registered router id'.
Proof.
  unfold dispatch, registered. destruct (router !! id) as [reg|] eqn:E; [|done].
  destruct (try_send _ _) as [tx r]. simpl. destruct (decide (id' = id)) as [->|].
  - by rewrite lookup_insert_eq, E.
  - by rewrite lookup_insert_ne.
Qed.

Lemma registered_register router id g tx id' :
  registered (register router id g tx) id' = if decide (id' = id) then Some g else registered router id'.
Proof.
  unfold register, registered. case_decide as Hid; [subst; by rewrite lookup_insert_eq|by rewrite lookup_insert_ne].
Qed.

Lemma registered_deregister router id g id' :
  registered (deregister router id g).1 id' =
  if decide (id' = id ∧ registered router id = Some g) then None else registered router id'.
Proof.
  unfold deregister, registered.
  destruct (router !! id) as [reg|] eqn:E; simpl; [|by rewrite decide_False by naive_solver].
  destruct (Z.eqb_spec (reg_generation reg) g) as [<-|Hne]; simpl.
  - destruct (decide (id' = id)) as [->|Hid]; [by rewrite decide_True, lookup_delete_eq|].
    by rewrite decide_False, lookup_delete_ne by naive_solver.
  - by rewrite decide_False by naive_solver.
Qed.

Lemma registered_keeps router id g op :
  registered router id = Some g → ends id g op = false → registered (apply_router router op) id = Some g.
Proof.
  intros Hr He. destruct op as [id' g' tx|id' g'|id' req]; simpl in *.
  - rewrite registered_register, decide_False; [done|]. apply bool_decide_eq_false in He. congruence.
  - rewrite registered_deregister. destruct (decide _) as [[<- Hg]|]; [|done].
    rewrite bool_decide_true in He by done. simpl in He. apply Z.eqb_neq in He. congruence.
  - by rewrite registered_dispatch.
Qed.

(** A displaced session cannot unregister its successor: once a charge point is
    registered under a generation, whatever other sessions do (any deregistration
    under another generation included) a command for it reaches that registration's
    inbox, until it is registered again or deregistered under that generation. *)
Theorem router_keeps_successor router id g tx ops :
  Forall (λ op, ends id g op = false) ops →
  registered (foldl apply_router (register router id g tx) ops) id = Some g.
Proof.
  intros Hops. assert (registered (register router id g tx) id = Some g) as Hr.
  { by rewrite registered_register, decide_True. }
  revert Hr. generalize (register router id g tx). induction Hops as [|op ops Hop _ IH]; intros m Hm; simpl; [done|].
  by apply IH, registered_keeps.
Qed.

(** The router's answer names the case: not connected exactly when the charge
    point has no registration or its session's inbox is closed, full when the inbox
    is full; and only a success has put the request in the inbox. *)
Theorem dispatch_outcome router id request :
  match router !! id, dispatch router id request with
  | None, (router', res) => router' = router ∧ res = Err NotConnected
  | Some reg, (router', res) =>
      registered router' id = Some (reg_generation reg) ∧
      reg_tx <$> router' !! id = Some (try_send (reg_tx reg) request).1 ∧
      match (try_send (reg_tx reg) request).2 with
      | Ok () => res = Ok ()
      | Err Full => res = Err QueueFull
      | Err Closed => res = Err NotConnected
      end
  end.
Proof.
  unfold dispatch, registered. destruct (router !! id) as [reg|] eqn:E; [|done].
  destruct (try_send (reg_tx reg) request) as [tx r]. rewrite lookup_insert_eq. simpl.
  by destruct r as [[]|[]].
Qed.
End router_lemmas.

Lemma router_keeps_successor_witness :
  registered (foldl apply_router (register ∅ "CP-1" 2 []) [OpDeregister "CP-1" 1; OpDispatch "CP-1" sample_request])
    "CP-1" = Some 2.
Proof.
  apply (router_keeps_successor ∅ "CP-1" 2 ([] : list CommandRequest)
           [OpDeregister "CP-1" 1; OpDispatch "CP-1" sample_request]).
  repeat constructor.
Defined.
