(* ===== verification/Forwarder.v ===== *)
(** * Message forwarder (src/forwarder.rs)

    The priority path: forwarding byte for byte, call tracking, the buffers of the
    two directions, and the events for the MQTT publisher. Sockets are met through
    the [MessageSink] interface, whose laws say what a sink has delivered; the
    channel to the publisher through [MpscSender]. *)

From S2P Require Import Prelude Json Models Command.

Local Open Scope Z_scope.

(** ** Events for the publisher *)

Inductive MqttEvent :=
  | EvMessageForwarded (charge_point_id : string) (frame : OcppFrame) (direction : Direction) (action : string)
  | EvStateChange (charge_point_id : string) (upstream downstream : ConnectionState)
  | EvCommandResult (charge_point_id : string) (result : CommandResult).

(** ** Call tracking *)

Record PendingCall := mkPending {
  pd_action : string;
  pd_direction : Direction;
  pd_sent_at : Z
}.

Record CallTracker := mkTracker {
  pending_calls : gmap string PendingCall;
  tracker_max_age : Z
}.

(** [CallTracker::new]. *)
Definition tracker_new (max_age : Z) : CallTracker := mkTracker ∅ max_age.

Definition track_call (now : Z) (t : CallTracker) (uid act : string) (d : Direction) : CallTracker :=
  mkTracker (<[uid := mkPending act d now]> (pending_calls t)) (tracker_max_age t).

(** [CallTracker::resolve]. *)
Definition resolve (t : CallTracker) (uid : string) : CallTracker * option string :=
  (mkTracker (delete uid (pending_calls t)) (tracker_max_age t), pd_action <$> pending_calls t !! uid).

Definition pending_count (t : CallTracker) : nat := size (pending_calls t).

Section tracker.
Context `{Chrono}.

(** [CallTracker::cleanup_expired]: the tracker, and how many entries went. *)
Definition tracker_cleanup (now : Z) (t : CallTracker) : CallTracker * nat :=
  let max_age := default (from_secs 300) (from_std (tracker_max_age t)) in
  let kept := filter (λ '(_, p), now - pd_sent_at p < max_age) (pending_calls t) in
  (mkTracker kept (tracker_max_age t), (size (pending_calls t) - size kept)%nat).

Definition has_recent_pending_in (now : Z) (t : CallTracker) (d : Direction) (max_age : Z) : bool :=
  let max_age := default (from_secs 10) (from_std max_age) in
  existsb (λ '(_, p), bool_decide (pd_direction p = d) && (now - pd_sent_at p <? max_age))
          (map_to_list (pending_calls t)).
End tracker.

(** ** Sinks *)

(** The trait [MessageSink]: the sink after an awaited [send_raw], and its outcome. *)
Class MessageSink (S : Type) := {
  send_raw : S → string → S * result unit ProxyError
}.

(** What a client may assume of a sink: it has delivered exactly the texts it
    accepted, in order. *)
Class MessageSinkLaws (S : Type) `{MessageSink S} := {
  delivered : S → list string;
  send_raw_delivered s text s' r :
    send_raw s text = (s', r) → delivered s' = delivered s ++ (if is_ok r then [text] else [])
}.

(** [ChannelSink::send_raw]. *)
Record ChannelSink (T : Type) := mkChannelSink { cs_tx : T }.
Arguments mkChannelSink {T} _.
Arguments cs_tx {T} _.

Definition channel_send_raw {T} `{AsyncSender T string} (s : ChannelSink T) (text : string) :
    ChannelSink T * result unit ProxyError :=
  let '(tx, ok) := send_wait (cs_tx s) text in
  (mkChannelSink tx, if ok : bool then Ok () else Err (Forwarding "Destination channel closed")).

#[export] Instance channel_sink {T} `{AsyncSender T string} : MessageSink (ChannelSink T) :=
  { send_raw := channel_send_raw }.

#[export] Program Instance channel_sink_laws {T} `{AsyncSenderLaws T string} : MessageSinkLaws (ChannelSink T) :=
  { delivered s := accepted (cs_tx s) }.
Next Obligation.
  intros T ?? [tx] text s' r. simpl. unfold channel_send_raw. simpl.
  destruct (send_wait tx text) as [tx' ok] eqn:E. intros [= <- <-]. simpl.
  rewrite (send_wait_accepted _ _ _ _ E). by destruct ok.
Qed.

(** A sink that takes a number of texts and then fails: an instance for examples. *)
Record ListSink := mkListSink { ls_sent : list string; ls_room : nat }.

#[export] Instance list_sink : MessageSink ListSink := {
  send_raw s text :=
    match ls_room s with
    | O => (s, Err (Forwarding "closed"))
    | S n => (mkListSink (ls_sent s ++ [text]) n, Ok ())
    end
}.

#[export] Program Instance list_sink_laws : MessageSinkLaws ListSink := { delivered := ls_sent }.
Next Obligation.
  intros s text s' r. simpl. destruct (ls_room s); intros [= <- <-]; simpl; [by rewrite app_nil_r|done].
Qed.

(** ** The forwarder *)

Record MessageForwarder (T : Type) := mkForwarder {
  upstream_buffer : list OcppFrame;
  downstream_buffer : list OcppFrame;
  max_buffer_size : nat;
  max_buffer_duration : Z;
  mqtt_tx : T;
  call_tracker : CallTracker;
  fwd_charge_point_id : string
}.
Arguments mkForwarder {T} _ _ _ _ _ _ _.
Arguments upstream_buffer {T} _.
Arguments downstream_buffer {T} _.
Arguments max_buffer_size {T} _.
Arguments max_buffer_duration {T} _.
Arguments mqtt_tx {T} _.
Arguments call_tracker {T} _.
Arguments fwd_charge_point_id {T} _.

Section forwarder.
Context {T : Type} `{MpscSender T MqttEvent} `{Chrono}.
Implicit Types (fwd : MessageForwarder T).

Definition with_charge_point_id (tx : T) (size : nat) (duration tracker_age : Z) (id : string) :
    MessageForwarder T :=
  mkForwarder [] [] size duration tx (tracker_new tracker_age) id.

(** [MessageForwarder::new]. *)
Definition forwarder_new (tx : T) (size : nat) (duration tracker_age : Z) : MessageForwarder T :=
  with_charge_point_id tx size duration tracker_age "unknown".

Definition set_upstream_buffer fwd (l : list OcppFrame) : MessageForwarder T :=
  mkForwarder l (downstream_buffer fwd) (max_buffer_size fwd) (max_buffer_duration fwd) (mqtt_tx fwd)
    (call_tracker fwd) (fwd_charge_point_id fwd).
Definition set_downstream_buffer fwd (l : list OcppFrame) : MessageForwarder T :=
  mkForwarder (upstream_buffer fwd) l (max_buffer_size fwd) (max_buffer_duration fwd) (mqtt_tx fwd)
    (call_tracker fwd) (fwd_charge_point_id fwd).
Definition set_mqtt_tx fwd (tx : T) : MessageForwarder T :=
  mkForwarder (upstream_buffer fwd) (downstream_buffer fwd) (max_buffer_size fwd) (max_buffer_duration fwd)
    tx (call_tracker fwd) (fwd_charge_point_id fwd).
Definition set_call_tracker fwd (t : CallTracker) : MessageForwarder T :=
  mkForwarder (upstream_buffer fwd) (downstream_buffer fwd) (max_buffer_size fwd) (max_buffer_duration fwd)
    (mqtt_tx fwd) t (fwd_charge_point_id fwd).

Definition has_recent_pending_call (now : Z) fwd (d : Direction) (max_age : Z) : bool :=
  has_recent_pending_in now (call_tracker fwd) d max_age.

(** [MessageForwarder::resolve_action]. *)
Definition resolve_action (now : Z) fwd (frame : OcppFrame) (d : Direction) : MessageForwarder T * string :=
  match message_type frame with
  | Call act => (set_call_tracker fwd (track_call now (call_tracker fwd) (unique_id frame) act d), act)
  | CallResult | CallError =>
      let '(t, act) := resolve (call_tracker fwd) (unique_id frame) in
      (set_call_tracker fwd t, default "Unknown"%string act)
  end.

(** [let _ = self.mqtt_tx.try_send(event)]. *)
Definition send_event fwd (e : MqttEvent) : MessageForwarder T :=
  set_mqtt_tx fwd (try_send (mqtt_tx fwd) e).1.

Definition forward_message {S} `{MessageSink S} (now : Z) fwd (frame : OcppFrame) (sink : S) (d : Direction) :
    MessageForwarder T * S * result unit ProxyError :=
  let '(sink, sent) := send_raw sink (raw frame) in
  match sent with
  | Err e => (fwd, sink, Err e)
  | Ok _ =>
      let '(fwd, act) := resolve_action now fwd frame d in
      let fwd := send_event fwd (EvMessageForwarded (fwd_charge_point_id fwd) frame d act) in
      (fwd, sink, Ok ())
  end.

Definition forward_upstream {S} `{MessageSink S} (now : Z) fwd frame (sink : S) :=
  forward_message now fwd frame sink ChargerToCentral.

Definition forward_downstream {S} `{MessageSink S} (now : Z) fwd frame (sink : S) :=
  forward_message now fwd frame sink CentralToCharger.

Definition buffer_upstream fwd (frame : OcppFrame) : MessageForwarder T :=
  set_upstream_buffer fwd (push_bounded (max_buffer_size fwd) (upstream_buffer fwd) frame).

Definition buffer_downstream fwd (frame : OcppFrame) : MessageForwarder T :=
  set_downstream_buffer fwd (push_bounded (max_buffer_size fwd) (downstream_buffer fwd) frame).

(** The loop of the two flushes: pop, send, and put the frame back when sending fails. *)
Fixpoint flush_buffer {S} `{MessageSink S} (buffer : list OcppFrame) (sink : S) :
    list OcppFrame * S * result unit ProxyError :=
  match buffer with
  | [] => ([], sink, Ok ())
  | frame :: rest =>
      let '(sink, sent) := send_raw sink (raw frame) in
      match sent with
      | Err e => (frame :: rest, sink, Err e)
      | Ok _ => flush_buffer rest sink
      end
  end.

Definition flush_upstream {S} `{MessageSink S} fwd (sink : S) : MessageForwarder T * S * result nat ProxyError :=
  let count := length (upstream_buffer fwd) in
  let '(buffer, sink, r) := flush_buffer (upstream_buffer fwd) sink in
  (set_upstream_buffer fwd buffer, sink, match r with Ok _ => Ok count | Err e => Err e end).

Definition flush_downstream {S} `{MessageSink S} fwd (sink : S) : MessageForwarder T * S * result nat ProxyError :=
  let count := length (downstream_buffer fwd) in
  let '(buffer, sink, r) := flush_buffer (downstream_buffer fwd) sink in
  (set_downstream_buffer fwd buffer, sink, match r with Ok _ => Ok count | Err e => Err e end).

Definition discard_downstream_buffer fwd : MessageForwarder T := set_downstream_buffer fwd [].

(** The test of the two [retain]s of [evict_expired_messages]. *)
Definition fresh (now : Z) (max_duration : Z) (frame : OcppFrame) : bool :=
  now - default (from_secs 30) (from_std max_duration) <=? received_at frame.

Definition evict_expired_messages (now : Z) fwd : MessageForwarder T * nat :=
  let up := retain (fresh now (max_buffer_duration fwd)) (upstream_buffer fwd) in
  let down := retain (fresh now (max_buffer_duration fwd)) (downstream_buffer fwd) in
  let upstream_evicted := (length (upstream_buffer fwd) - length up)%nat in
  let downstream_evicted := (length (downstream_buffer fwd) - length down)%nat in
  (set_downstream_buffer (set_upstream_buffer fwd up) down, (upstream_evicted + downstream_evicted)%nat).

Definition cleanup_expired_calls (now : Z) fwd : MessageForwarder T * nat :=
  let '(t, n) := tracker_cleanup now (call_tracker fwd) in (set_call_tracker fwd t, n).

Definition pending_calls_count fwd : nat := pending_count (call_tracker fwd).
End forwarder.

(** ** Lemmas *)

Section forwarder_lemmas.
Context {T : Type} `{MpscSender T MqttEvent} `{Chrono}.
Implicit Types (fwd : MessageForwarder T).

Lemma resolve_action_rest now fwd frame d :
  upstream_buffer (resolve_action now fwd frame d).1 = upstream_buffer fwd ∧
  downstream_buffer (resolve_action now fwd frame d).1 = downstream_buffer fwd ∧
  mqtt_tx (resolve_action now fwd frame d).1 = mqtt_tx fwd ∧
  max_buffer_size (resolve_action now fwd frame d).1 = max_buffer_size fwd ∧
  max_buffer_duration (resolve_action now fwd frame d).1 = max_buffer_duration fwd ∧
  fwd_charge_point_id (resolve_action now fwd frame d).1 = fwd_charge_point_id fwd.
Proof. unfold resolve_action. by destruct (message_type frame). Qed.

Lemma resolve_action_set_tx now fwd frame d tx :
  resolve_action now (set_mqtt_tx fwd tx) frame d =
  (set_mqtt_tx (resolve_action now fwd frame d).1 tx, (resolve_action now fwd frame d).2).
Proof. unfold resolve_action. by destruct (message_type frame). Qed.

Section sink.
Context {S : Type} `{MessageSinkLaws S}.
Implicit Types (sink : S).

Lemma forward_message_spec now fwd frame sink d :
  let '(fwd', sink', r) := forward_message now fwd frame sink d in
  delivered sink' = delivered sink ++ (if is_ok r then [raw frame] else []) ∧
  upstream_buffer fwd' = upstream_buffer fwd ∧ downstream_buffer fwd' = downstream_buffer fwd ∧
  max_buffer_size fwd' = max_buffer_size fwd ∧ max_buffer_duration fwd' = max_buffer_duration fwd ∧
  fwd_charge_point_id fwd' = fwd_charge_point_id fwd ∧ (is_ok r = false → fwd' = fwd).
Proof.
  unfold forward_message. destruct (send_raw sink (raw frame)) as [sink' [u|e]] eqn:E;
    apply send_raw_delivered in E; simpl in *.
  - destruct (resolve_action_rest now fwd frame d) as (E1 & E2 & _ & E3 & E4 & E5).
    destruct (resolve_action now fwd frame d) as [fwd' act]. simpl in *. done.
  - done.
Qed.

Lemma flush_buffer_spec buffer sink :
  let '(rest, sink', r) := flush_buffer buffer sink in
  ∃ sent, buffer = sent ++ rest ∧ delivered sink' = delivered sink ++ (raw <$> sent) ∧
          (is_ok r = true ↔ rest = []).
Proof.
  revert sink. induction buffer as [|frame buffer IH]; intros sink; simpl.
  { exists []. simpl. by rewrite app_nil_r. }
  destruct (send_raw sink (raw frame)) as [sink' [u|e]] eqn:E; apply send_raw_delivered in E; simpl in *.
  - specialize (IH sink'). destruct (flush_buffer buffer sink') as [[rest sink2] r].
    destruct IH as (sent & -> & Hd & Hr). exists (frame :: sent). rewrite Hd, E. simpl.
    by rewrite <- app_assoc.
  - exists []. by rewrite E, !app_nil_r.
Qed.
End sink.

(** ** Theorems: forwarding *)

(** Forwarding is verbatim and all or nothing: on success the sink has received
    exactly the bytes the frame was read from and the publisher's channel was offered
    exactly one event, for this charge point, frame and direction; on failure nothing
    was delivered and the forwarder, its call tracker included, is as before. *)
Theorem forward_verbatim {S} `{MessageSinkLaws S} now fwd frame (sink : S) d :
  let '(fwd', sink', r) := forward_message now fwd frame sink d in
  match r with
  | Ok _ => delivered sink' = delivered sink ++ [raw frame] ∧
            upstream_buffer fwd' = upstream_buffer fwd ∧ downstream_buffer fwd' = downstream_buffer fwd ∧
            ∃ act, mqtt_tx fwd' =
              (try_send (mqtt_tx fwd) (EvMessageForwarded (fwd_charge_point_id fwd) frame d act)).1 ∧
              (∀ a, message_type frame = Call a → act = a)
  | Err _ => delivered sink' = delivered sink ∧ fwd' = fwd
  end.
Proof.
  pose proof (forward_message_spec now fwd frame sink d) as Hspec. revert Hspec.
  unfold forward_message. destruct (send_raw sink (raw frame)) as [sink' [u|e]]; [|rewrite app_nil_r; naive_solver].
  pose proof (resolve_action_rest now fwd frame d) as (_ & _ & Etx & _ & _ & Eid).
  destruct (resolve_action now fwd frame d) as [fwd' act] eqn:Ea. simpl in *.
  intros (-> & -> & -> & _). split_and!; try done. exists act. rewrite Etx, Eid. split; [done|].
  intros a Ha. unfold resolve_action in Ea. rewrite Ha in Ea. by injection Ea.
Qed.

(** MQTT never holds charging back: whatever the state of the publisher's
    channel (full or closed included), forwarding delivers the same bytes, gives the
    same outcome and leaves the same buffers and call tracker; only the channel itself
    differs. *)
Theorem mqtt_backpressure_harmless {S} `{MessageSink S} now fwd frame (sink : S) d tx :
  let '(fwd1, sink1, r1) := forward_message now fwd frame sink d in
  let '(fwd2, sink2, r2) := forward_message now (set_mqtt_tx fwd tx) frame sink d in
  sink1 = sink2 ∧ r1 = r2 ∧ fwd2 = set_mqtt_tx fwd1 (mqtt_tx fwd2).
Proof.
  unfold forward_message. destruct (send_raw sink (raw frame)) as [sink' [u|e]]; [|done].
  rewrite resolve_action_set_tx. by destruct (resolve_action now fwd frame d) as [fwd' act].
Qed.

(** A flush sends the buffer in order and loses nothing: what was delivered,
    then what is left in the buffer, is the buffer as it was; and it reports the
    buffer's whole length exactly when everything went out, else an error. *)
Theorem flush_fifo {S} `{MessageSinkLaws S} fwd (sink : S) :
  let '(fwd', sink', r) := flush_upstream fwd sink in
  ∃ sent, upstream_buffer fwd = sent ++ upstream_buffer fwd' ∧
          delivered sink' = delivered sink ++ (raw <$> sent) ∧
          downstream_buffer fwd' = downstream_buffer fwd ∧
          match r with
          | Ok n => n = length (upstream_buffer fwd) ∧ upstream_buffer fwd' = []
          | Err _ => upstream_buffer fwd' ≠ []
          end.
Proof.
  unfold flush_upstream. pose proof (flush_buffer_spec (upstream_buffer fwd) sink) as Hf.
  destruct (flush_buffer (upstream_buffer fwd) sink) as [[rest sink'] r].
  destruct Hf as (sent & E & Hd & Hr). exists sent. split_and!; try done.
  destruct r; simpl in *; [naive_solver|]. intros ->. naive_solver.
Qed.

(** ** Theorems: buffers *)

Inductive BufferOp :=
  | OpBufferUp (frame : OcppFrame)
  | OpBufferDown (frame : OcppFrame)
  | OpEvict (now : Z)
  | OpDiscard.

Definition apply_buffer fwd (op : BufferOp) : MessageForwarder T :=
  match op with
  | OpBufferUp frame => buffer_upstream fwd frame
  | OpBufferDown frame => buffer_downstream fwd frame
  | OpEvict now => (evict_expired_messages now fwd).1
  | OpDiscard => discard_downstream_buffer fwd
  end.

(** The frames given to one direction's buffer. *)
Definition given (up : bool) (op : BufferOp) : list OcppFrame :=
  match op, up with OpBufferUp frame, true | OpBufferDown frame, false => [frame] | _, _ => [] end.

Definition buffer_of (up : bool) fwd : list OcppFrame :=
  if up then upstream_buffer fwd else downstream_buffer fwd.

Lemma apply_buffer_spec up fwd op :
  max_buffer_size (apply_buffer fwd op) = max_buffer_size fwd ∧
  (length (buffer_of up fwd) <= max_buffer_size fwd `max` 1 →
   length (buffer_of up (apply_buffer fwd op)) <= max_buffer_size fwd `max` 1)%nat ∧
  sublist (buffer_of up (apply_buffer fwd op)) (buffer_of up fwd ++ given up op).
Proof.
  split; [by destruct op|].
  destruct op as [frame|frame|now|], up; simpl; rewrite ?app_nil_r; split; intros;
    auto using push_bounded_length, push_bounded_sublist, retain_sublist, sublist_nil_l; try lia.
  all: etrans; [apply retain_length|done].
Qed.

(** Whatever is buffered, evicted and discarded, each buffer stays within its
    configured size (one at least) and is a subsequence, in order, of the frames it
    was given. *)
Theorem buffers_bounded_in_order up tx size duration age id ops :
  let fwd := foldl apply_buffer (with_charge_point_id tx size duration age id) ops in
  (length (buffer_of up fwd) <= size `max` 1)%nat ∧
  sublist (buffer_of up fwd) (concat (given up <$> ops)).
Proof.
  simpl. set (fwd0 := with_charge_point_id tx size duration age id).
  assert (max_buffer_size (foldl apply_buffer fwd0 ops) = size ∧
          (length (buffer_of up (foldl apply_buffer fwd0 ops)) <= size `max` 1)%nat ∧
          sublist (buffer_of up (foldl apply_buffer fwd0 ops)) (concat (given up <$> ops))) as (_ & ? & ?); [|done].
  induction ops as [|op ops IH] using rev_ind.
  { destruct up; simpl; (split_and!; [done|lia|constructor]). }
  rewrite foldl_app, fmap_app, concat_app. simpl. rewrite app_nil_r.
  destruct IH as (Hsize & Hlen & Hsub).
  destruct (apply_buffer_spec up (foldl apply_buffer fwd0 ops) op) as (Es & Hl & Hs).
  rewrite Es, Hsize in *. split_and!; [done|by apply Hl|]. etrans; [exact Hs|]. by apply sublist_app.
Qed.

(** An eviction removes exactly the messages older than the retention period,
    from both buffers, keeping the order of the rest, and counts them. *)
Theorem evict_exact now fwd :
  let '(fwd', n) := evict_expired_messages now fwd in
  let ok := fresh now (max_buffer_duration fwd) in
  upstream_buffer fwd' = retain ok (upstream_buffer fwd) ∧
  downstream_buffer fwd' = retain ok (downstream_buffer fwd) ∧
  n = length (retain (λ f, negb (ok f)) (upstream_buffer fwd ++ downstream_buffer fwd)).
Proof.
  simpl. split_and!; try done. set (ok := fresh now (max_buffer_duration fwd)).
  pose proof (Permutation_length (retain_split ok (upstream_buffer fwd))) as Hu.
  pose proof (Permutation_length (retain_split ok (downstream_buffer fwd))) as Hd.
  assert (∀ l1 l2, length (retain (λ f, negb (ok f)) (l1 ++ l2)) =
    length (retain (λ f, negb (ok f)) l1) + length (retain (λ f, negb (ok f)) l2))%nat as ->.
  { intros. unfold retain. by rewrite List.filter_app, length_app. }
  rewrite !length_app in *. lia.
Qed.

(** ** Theorems: call tracking *)

(** Frames forwarded one after the other, seen by the tracker. *)
Definition track_all fwd (l : list (Z * OcppFrame * Direction)) : MessageForwarder T :=
  foldl (λ fwd '(now, frame, d), (resolve_action now fwd frame d).1) fwd l.

Lemma resolve_action_lookup now fwd frame d uid :
  unique_id frame ≠ uid →
  pending_calls (call_tracker (resolve_action now fwd frame d).1) !! uid = pending_calls (call_tracker fwd) !! uid.
Proof.
  intros Hne. unfold resolve_action. destruct (message_type frame); simpl;
    by rewrite ?lookup_insert_ne, ?lookup_delete_ne.
Qed.

(** An answer is attributed to its question: after a Call is forwarded, and any
    other frames in either direction under other unique ids, the answer carrying its
    unique id is published under the Call's action, and the tracker forgets the Call. *)
Theorem answer_attributed fwd now call act d l now' answer d' :
  message_type call = Call act →
  Forall (λ '(_, frame, _), unique_id frame ≠ unique_id call) l →
  is_call (message_type answer) = false → unique_id answer = unique_id call →
  let fwd1 := track_all (resolve_action now fwd call d).1 l in
  (resolve_action now' fwd1 answer d').2 = act ∧
  pending_calls (call_tracker (resolve_action now' fwd1 answer d').1) !! unique_id call = None.
Proof.
  intros Hcall Hl Ha Huid fwd1.
  assert (pending_calls (call_tracker fwd1) !! unique_id call = Some (mkPending act d now)) as Hp.
  { assert (pending_calls (call_tracker (resolve_action now fwd call d).1) !! unique_id call =
            Some (mkPending act d now)) as Hs.
    { unfold resolve_action. rewrite Hcall. simpl. by rewrite lookup_insert_eq. }
    revert Hs. unfold fwd1, track_all. generalize (resolve_action now fwd call d).1.
    induction Hl as [|[[t frame] dd] l Hne _ IH]; intros m Hm; simpl; [done|].
    apply IH. by rewrite resolve_action_lookup. }
  clearbody fwd1. unfold resolve_action. destruct (message_type answer); simpl in *; try done;
    by rewrite Huid, Hp, lookup_delete_eq.
Qed.
End forwarder_lemmas.

(** ** Witnesses and examples *)

Definition call_frame (uid act : string) : OcppFrame := mkFrame "[2]" (Call act) uid 0.
Definition result_frame (uid : string) : OcppFrame := mkFrame "[3]" CallResult uid 0.

Definition empty_forwarder : MessageForwarder (list MqttEvent) :=
  with_charge_point_id [] 100 (from_secs 30) (from_secs 300) "CP-1".

Lemma answer_attributed_witness :
  (resolve_action 5 (track_all (resolve_action 1 empty_forwarder (call_frame "7" "Heartbeat") ChargerToCentral).1
     [(2, call_frame "8" "Reset", CentralToCharger)]) (result_frame "7") CentralToCharger).2 = "Heartbeat"%string.
Proof.
  apply (answer_attributed empty_forwarder 1 (call_frame "7" "Heartbeat") "Heartbeat" ChargerToCentral
    [(2, call_frame "8" "Reset", CentralToCharger)] 5 (result_frame "7") CentralToCharger); try done.
  by repeat constructor.
Defined.

(** The charger asks under an id, the Central System asks under the same id before
    answering: each side chooses its ids, so nothing forbids it. *)
Definition crossed_calls : MessageForwarder (list MqttEvent) :=
  track_all empty_forwarder
    [(1, call_frame "7" "Heartbeat", ChargerToCentral); (2, call_frame "7" "Reset", CentralToCharger)].

(** The tracker keys Calls by unique id alone, so Calls crossing under one id
    are confused: the Central System's answer to the charger's Heartbeat is published
    as the answer to a Reset, and with it the Central System's own Call counts as
    answered, although the charger has not replied. *)
Theorem crossed_ids_confused :
  let '(fwd, act) := resolve_action 3 crossed_calls (result_frame "7") CentralToCharger in
  act = "Reset"%string ∧
  @has_recent_pending_call _ plain_chrono 2 crossed_calls CentralToCharger CENTRAL_CALL_GRACE = true ∧
  @has_recent_pending_call _ plain_chrono 3 fwd CentralToCharger CENTRAL_CALL_GRACE = false.
Proof. by vm_compute. Qed.
