(* ===== verification/Session.v ===== *)
(** * One charger's session (src/session.rs)

    A session is a state machine: it connects to the Central System, forwards until
    something ends the connection, waits and connects again, and at the end tears
    down. Each arm of the code's selects is a definition over the session's record;
    [step] puts them together, one awaited event at a time, and a run is a list of
    timed events, so every interleaving of the arms is a run.

    The sockets and channels are parameters met through interfaces: the writer's
    channel to the charger ([AsyncSender]), the sink of the upstream WebSocket
    ([UpstreamLink]), the channel to the publisher ([MpscSender]). The senders of one
    channel that the code clones share it, so the record holds one: the publisher's
    channel sits in the forwarder. *)

From S2P Require Import Prelude Float64 Json Models StateManager Config Command CallQueue Forwarder.

Local Open Scope Z_scope.

Definition CLOSE_NORMAL : Z := 1000.
Definition CLOSE_GOING_AWAY : Z := 1001.

(** ** Messages of the two WebSocket libraries *)

Inductive AxumMessage :=
  | AxText (text : string)
  | AxBinary (data : string)
  | AxPing (data : string)
  | AxPong (data : string)
  | AxClose (frame : option (Z * string)).

Inductive TungMessage :=
  | TuText (text : string)
  | TuBinary (data : string)
  | TuPing (data : string)
  | TuPong (data : string)
  | TuClose
  | TuFrame.

(** What the stream of a WebSocket yields: the end, an error, or a message. *)
Definition Incoming (M : Type) : Type := option (result M string).

(** ** Configuration *)

(** The URL is kept as the text it is printed as. *)
Record SessionConfig := mkSessionConfig {
  central_system_url : string;
  upstream_bind_address : option IpAddr;
  subprotocol : string;
  message_buffer_size : nat;
  sc_max_buffer_duration : Z;
  connect_timeout : Z;
  initial_backoff : Z;
  max_backoff : Z;
  max_reconnect_window : Z;
  call_tracker_max_age : Z;
  charging : ChargingConfig
}.

(** ** Sinks *)

(** The charger's sink: texts go through the writer task's channel. *)
Record ChargerSink (C : Type) := mkChargerSink { ch_tx : C }.
Arguments mkChargerSink {C} _.
Arguments ch_tx {C} _.

Definition charger_send_raw {C} `{AsyncSender C AxumMessage} (s : ChargerSink C) (text : string) :
    ChargerSink C * result unit ProxyError :=
  let '(tx, ok) := send_wait (ch_tx s) (AxText text) in
  (mkChargerSink tx, if ok : bool then Ok () else Err (Forwarding "Charger connection closed")).

#[export] Instance charger_sink {C} `{AsyncSender C AxumMessage} : MessageSink (ChargerSink C) :=
  { send_raw := charger_send_raw }.

(** The sending half of the upstream WebSocket; an error is its printed form. *)
Class UpstreamLink (U : Type) := { link_send : U → TungMessage → U * result unit string }.

Class UpstreamLinkLaws (U : Type) `{UpstreamLink U} := {
  link_sent : U → list TungMessage;
  link_send_sent u m u' r :
    link_send u m = (u', r) → link_sent u' = link_sent u ++ (if is_ok r then [m] else [])
}.

Record UpstreamSink (U : Type) := mkUpstreamSink { up_sink : U }.
Arguments mkUpstreamSink {U} _.
Arguments up_sink {U} _.

Definition upstream_send_raw {U} `{UpstreamLink U} (s : UpstreamSink U) (text : string) :
    UpstreamSink U * result unit ProxyError :=
  let '(u, r) := link_send (up_sink s) (TuText text) in
  (mkUpstreamSink u,
   match r with
   | Ok _ => Ok ()
   | Err e => Err (ConnectionUpstream ("Failed to send to Central System: " +:+ e)%string)
   end).

#[export] Instance upstream_sink {U} `{UpstreamLink U} : MessageSink (UpstreamSink U) :=
  { send_raw := upstream_send_raw }.

(** The texts among what was sent. *)
Definition tung_texts (l : list TungMessage) : list string :=
  omap (λ m, match m with TuText t => Some t | _ => None end) l.
Definition axum_texts (l : list AxumMessage) : list string :=
  omap (λ m, match m with AxText t => Some t | _ => None end) l.

#[export] Program Instance charger_sink_laws {C} `{AsyncSenderLaws C AxumMessage} :
  MessageSinkLaws (ChargerSink C) := { delivered s := axum_texts (accepted (ch_tx s)) }.
Next Obligation.
  intros C ?? [tx] text s' r. simpl. unfold charger_send_raw. simpl.
  destruct (send_wait tx (AxText text)) as [tx' ok] eqn:E. intros [= <- <-]. simpl.
  rewrite (send_wait_accepted _ _ _ _ E). unfold axum_texts. rewrite omap_app. by destruct ok.
Qed.

#[export] Program Instance upstream_sink_laws {U} `{UpstreamLinkLaws U} :
  MessageSinkLaws (UpstreamSink U) := { delivered s := tung_texts (link_sent (up_sink s)) }.
Next Obligation.
  intros U ?? [u] text s' r. simpl. unfold upstream_send_raw. simpl.
  destruct (link_send u (TuText text)) as [u' [[]|e]] eqn:E; intros [= <- <-]; simpl;
    rewrite (link_send_sent _ _ _ _ E); unfold tung_texts; rewrite omap_app; done.
Qed.

(** ** The state of a session *)

(** Where [run_session] is suspended: in [connect_upstream], in the wait after a failed
    connect, in [forward_loop] with the upstream connection, in the wait after a lost
    one, in the teardown once every result is out, or returned. *)
Inductive Phase (U : Type) :=
  | PhConnect
  | PhRetry (delay : Z)
  | PhForward (up : U)
  | PhLost (delay : Z)
  | PhClosing
  | PhEnded.
Arguments PhConnect {U}.
Arguments PhRetry {U} delay.
Arguments PhForward {U} up.
Arguments PhLost {U} delay.
Arguments PhClosing {U}.
Arguments PhEnded {U}.

(** [s_past] is history: the upstream connections given up, with what they sent. *)
Record Session (T C U : Type) := mkSession {
  s_id : string;
  s_forwarder : MessageForwarder T;
  s_backoff : ExponentialBackoff;
  s_reconnecting_since : option Z;
  s_close_code : Z;
  s_local : LocalCallQueue;
  s_commands_open : bool;
  s_charger : C;
  s_state : ConnectionStateManager;
  s_inbox : list CommandRequest;
  s_past : list U;
  s_phase : Phase U
}.
Arguments mkSession {T C U} _ _ _ _ _ _ _ _ _ _ _ _.
Arguments s_id {T C U} _.
Arguments s_forwarder {T C U} _.
Arguments s_backoff {T C U} _.
Arguments s_reconnecting_since {T C U} _.
Arguments s_close_code {T C U} _.
Arguments s_local {T C U} _.
Arguments s_commands_open {T C U} _.
Arguments s_charger {T C U} _.
Arguments s_state {T C U} _.
Arguments s_inbox {T C U} _.
Arguments s_past {T C U} _.
Arguments s_phase {T C U} _.

Inductive LoopOutcome := ChargerGone | UpstreamLost | Shutdown.

(** What a session waits for. *)
Inductive Event (U : Type) :=
  | EvConnect (r : result U ProxyError)
  | EvCharger (m : Incoming AxumMessage)
  | EvUpstream (m : Incoming TungMessage)
  | EvCommand
  | EvCommandsClosed
  | EvCommandTick
  | EvHousekeeping
  | EvSlept
  | EvCancelled
  | EvDispatched (request : CommandRequest)
  | EvOthers (m : ConnectionStateManager).
Arguments EvConnect {U} r.
Arguments EvCharger {U} m.
Arguments EvUpstream {U} m.
Arguments EvCommand {U}.
Arguments EvCommandsClosed {U}.
Arguments EvCommandTick {U}.
Arguments EvHousekeeping {U}.
Arguments EvSlept {U}.
Arguments EvCancelled {U}.
Arguments EvDispatched {U} request.
Arguments EvOthers {U} m.

(** ** Field updates *)

Section setters.
Context {T C U : Type}.
Implicit Types (s : Session T C U).

Definition set_forwarder s x : Session T C U :=
  mkSession (s_id s) x (s_backoff s) (s_reconnecting_since s) (s_close_code s) (s_local s)
    (s_commands_open s) (s_charger s) (s_state s) (s_inbox s) (s_past s) (s_phase s).
Definition set_backoff s x : Session T C U :=
  mkSession (s_id s) (s_forwarder s) x (s_reconnecting_since s) (s_close_code s) (s_local s)
    (s_commands_open s) (s_charger s) (s_state s) (s_inbox s) (s_past s) (s_phase s).
Definition set_since s x : Session T C U :=
  mkSession (s_id s) (s_forwarder s) (s_backoff s) x (s_close_code s) (s_local s)
    (s_commands_open s) (s_charger s) (s_state s) (s_inbox s) (s_past s) (s_phase s).
Definition set_close_code s x : Session T C U :=
  mkSession (s_id s) (s_forwarder s) (s_backoff s) (s_reconnecting_since s) x (s_local s)
    (s_commands_open s) (s_charger s) (s_state s) (s_inbox s) (s_past s) (s_phase s).
Definition set_local s x : Session T C U :=
  mkSession (s_id s) (s_forwarder s) (s_backoff s) (s_reconnecting_since s) (s_close_code s) x
    (s_commands_open s) (s_charger s) (s_state s) (s_inbox s) (s_past s) (s_phase s).
Definition set_commands_open s x : Session T C U :=
  mkSession (s_id s) (s_forwarder s) (s_backoff s) (s_reconnecting_since s) (s_close_code s) (s_local s)
    x (s_charger s) (s_state s) (s_inbox s) (s_past s) (s_phase s).
Definition set_charger s x : Session T C U :=
  mkSession (s_id s) (s_forwarder s) (s_backoff s) (s_reconnecting_since s) (s_close_code s) (s_local s)
    (s_commands_open s) x (s_state s) (s_inbox s) (s_past s) (s_phase s).
Definition set_state s x : Session T C U :=
  mkSession (s_id s) (s_forwarder s) (s_backoff s) (s_reconnecting_since s) (s_close_code s) (s_local s)
    (s_commands_open s) (s_charger s) x (s_inbox s) (s_past s) (s_phase s).
Definition set_inbox s x : Session T C U :=
  mkSession (s_id s) (s_forwarder s) (s_backoff s) (s_reconnecting_since s) (s_close_code s) (s_local s)
    (s_commands_open s) (s_charger s) (s_state s) x (s_past s) (s_phase s).
Definition set_phase s x : Session T C U :=
  mkSession (s_id s) (s_forwarder s) (s_backoff s) (s_reconnecting_since s) (s_close_code s) (s_local s)
    (s_commands_open s) (s_charger s) (s_state s) (s_inbox s) (s_past s) x.

(** The upstream connection is dropped: it goes to the history. *)
Definition drop_link s : Session T C U :=
  mkSession (s_id s) (s_forwarder s) (s_backoff s) (s_reconnecting_since s) (s_close_code s) (s_local s)
    (s_commands_open s) (s_charger s) (s_state s) (s_inbox s)
    (s_past s ++ match s_phase s with PhForward up => [up] | _ => [] end) (s_phase s).
End setters.

Section session.
Context {T C U : Type} `{MpscSender T MqttEvent} `{AsyncSender C AxumMessage} `{UpstreamLink U}
  `{SerdeJson} `{Chrono}.
Context (config : SessionConfig).
Implicit Types (s : Session T C U).

(** ** Status and results *)

Definition publish_status s (upstream downstream : ConnectionState) : Session T C U :=
  set_forwarder s (send_event (s_forwarder s) (EvStateChange (s_id s) upstream downstream)).

Definition set_upstream_state (now : Z) s (new_state : ConnectionState) : Session T C U :=
  if decide (upstream_state (s_state s) = new_state) then s
  else
    let s := set_state s (transition now (s_state s) Upstream new_state) in
    publish_status s (upstream_state (s_state s)) (downstream_state (s_state s)).

Definition emit_command_result s (result : CommandResult) : Session T C U :=
  set_forwarder s (send_event (s_forwarder s) (EvCommandResult (s_id s) result)).

Definition emit_all s (results : list CommandResult) : Session T C U :=
  foldl emit_command_result s results.

Definition complete_local_call (now : Z) s (f : InFlight) (frame : OcppFrame) : Session T C U :=
  let '(status, response, detail) := interpret_response (pc_action (fl_prepared f)) frame in
  emit_command_result s (for_in_flight now f status response detail).

(** ** Sending proxy Calls *)

(** The [while let] of [send_local_calls]: [false] is [Err(())], the charger is gone.
    The fuel is the length of the queue, and each turn takes a request from it. *)
Fixpoint send_loop (fuel : nat) (c : Clock) s : Session T C U * bool :=
  match fuel with
  | O => (s, true)
  | S fuel =>
      let '(next, local) := pop_next (s_local s) in
      match next with
      | None => (s, true)
      | Some request =>
          let '(uid, local) := next_unique_id (utc_now c) local in
          let s := set_local s local in
          match prepare_call (charging config) request uid (utc_now c) with
          | Err reason =>
              send_loop fuel c
                (emit_command_result s (for_request (utc_now c) request Invalid (Some reason)))
          | Ok prepared =>
              let '(sink, r) := send_raw (mkChargerSink (s_charger s)) (pc_raw prepared) in
              let s := set_charger s (ch_tx sink) in
              match r with
              | Err _ =>
                  (emit_command_result s (for_request (utc_now c) request CsNotConnected
                     (Some "charger connection closed before the command was sent"%string)), false)
              | Ok _ => (set_local s (set_in_flight (instant_now c) (s_local s) request prepared), true)
              end
          end
      end
  end.

Definition send_local_calls (c : Clock) s : Session T C U * bool :=
  if has_in_flight (s_local s) || is_empty (s_local s) then (s, true)
  else if has_recent_pending_call (utc_now c) (s_forwarder s) CentralToCharger CENTRAL_CALL_GRACE
  then (s, true)
  else send_loop (queued_len (s_local s)) c s.

(** A handler's result: the session, and the outcome when it ends the loop. *)
Definition charger_gone_unless (r : Session T C U * bool) : Session T C U * option LoopOutcome :=
  (fst r, if snd r then None else Some ChargerGone).

(** ** The arms of [forward_loop] *)

(** A parsed frame of the charger that is not ours: forward, or buffer and reconnect. *)
Definition forward_charger_frame (c : Clock) s (up : U) (frame : OcppFrame) (text : string) :
    Session T C U * option LoopOutcome :=
  let '(fwd, sink, r) := forward_upstream (utc_now c) (s_forwarder s) frame (mkUpstreamSink up) in
  let s := set_phase (set_forwarder s fwd) (PhForward (up_sink sink)) in
  match r with
  | Ok _ =>
      let s := set_state s (record_forwarded (s_state s) ChargerToCentral) in
      if is_empty (s_local s) then (s, None) else charger_gone_unless (send_local_calls c s)
  | Err _ =>
      match parse (utc_now c) text with
      | Ok frame => (set_forwarder s (buffer_upstream (s_forwarder s) frame), Some UpstreamLost)
      | Err _ => (s, Some UpstreamLost)
      end
  end.

(** [take_response], tried for answers only. *)
Definition take_answer (local : LocalCallQueue) (frame : OcppFrame) : option InFlight * LocalCallQueue :=
  if is_call (message_type frame) then (None, local) else take_response local (unique_id frame).

Definition on_charger_text (c : Clock) s (up : U) (text : string) : Session T C U * option LoopOutcome :=
  match parse (utc_now c) text with
  | Ok frame =>
      let '(answered, local) := take_answer (s_local s) frame in
      match answered with
      | Some f =>
          charger_gone_unless
            (send_local_calls c (complete_local_call (utc_now c) (set_local s local) f frame))
      | None => forward_charger_frame c s up frame text
      end
  | Err _ =>
      let '(sink, r) := send_raw (mkUpstreamSink up) text in
      (set_phase s (PhForward (up_sink sink)), if is_ok r then None else Some UpstreamLost)
  end.

Definition on_charger (c : Clock) s (up : U) (incoming : Incoming AxumMessage) :
    Session T C U * option LoopOutcome :=
  match incoming with
  | Some (Ok (AxText text)) => on_charger_text c s up text
  | Some (Ok (AxBinary _)) => (s, None)
  | Some (Ok (AxClose _)) | None => (s, Some ChargerGone)
  | Some (Ok _) => (s, None)
  | Some (Err _) => (s, Some ChargerGone)
  end.

Definition on_upstream_text (c : Clock) s (text : string) : Session T C U * option LoopOutcome :=
  let sink := mkChargerSink (s_charger s) in
  match parse (utc_now c) text with
  | Ok frame =>
      let '(fwd, sink, r) := forward_downstream (utc_now c) (s_forwarder s) frame sink in
      let s := set_charger (set_forwarder s fwd) (ch_tx sink) in
      match r with
      | Ok _ => (set_state s (record_forwarded (s_state s) CentralToCharger), None)
      | Err _ => (s, Some ChargerGone)
      end
  | Err _ =>
      let '(sink, r) := send_raw sink text in
      (set_charger s (ch_tx sink), if is_ok r then None else Some ChargerGone)
  end.

Definition on_upstream (c : Clock) s (up : U) (incoming : Incoming TungMessage) :
    Session T C U * option LoopOutcome :=
  match incoming with
  | Some (Ok (TuText text)) => on_upstream_text c s text
  | Some (Ok (TuPing data)) =>
      let '(up, r) := link_send up (TuPong data) in
      (set_phase s (PhForward up), if is_ok r then None else Some UpstreamLost)
  | Some (Ok TuClose) | None => (s, Some UpstreamLost)
  | Some (Ok _) => (s, None)
  | Some (Err _) => (s, Some UpstreamLost)
  end.

(** The result of a request displaced from the queue. *)
Definition displaced_result (now : Z) (displaced : CommandRequest) : CommandResult :=
  if is_limit_command (req_command displaced)
  then for_request now displaced Superseded
         (Some "a newer limit command arrived before this one was sent"%string)
  else for_request now displaced Rejected (Some "command queue full; oldest dropped"%string).

Definition on_command (c : Clock) s (request : CommandRequest) : Session T C U * option LoopOutcome :=
  let '(local, displaced) := push (s_local s) request in
  let s := emit_all (set_local s local) (displaced_result (utc_now c) <$> displaced) in
  charger_gone_unless (send_local_calls c s).

(** The result of a request that waited too long, and of a Call not answered in time. *)
Definition expired_result (now : Z) (request : CommandRequest) : CommandResult :=
  for_request now request Timeout
    (Some ("not sent within " +:+ pretty (command_timeout_seconds (charging config))
       +:+ " s (the charger was busy answering the Central System, or the line was down)")%string).

Definition unanswered_result (now : Z) (f : InFlight) : CommandResult :=
  for_in_flight now f Timeout None
    (Some ("no answer from the charger within " +:+ pretty (command_timeout_seconds (charging config))
       +:+ " s")%string).

Definition on_command_tick (c : Clock) s : Session T C U * option LoopOutcome :=
  let '(local, expired, f) := expire c (s_local s) in
  let s := emit_all (set_local s local) (expired_result (utc_now c) <$> expired) in
  let s := emit_all s (unanswered_result (utc_now c) <$> option_list f) in
  charger_gone_unless (send_local_calls c s).

Definition on_housekeeping (c : Clock) s : Session T C U :=
  let '(fwd, _) := evict_expired_messages (utc_now c) (s_forwarder s) in
  let '(fwd, _) := cleanup_expired_calls (utc_now c) fwd in
  set_forwarder s fwd.

(** ** Connecting *)

(** The top of [loop 'session]. *)
Definition begin_connect (c : Clock) s : Session T C U :=
  set_phase (set_upstream_state (utc_now c) s Connecting) PhConnect.

(** The teardown of [run_session], up to its sleep. *)
Definition count_dropped s : Session T C U :=
  let up := length (upstream_buffer (s_forwarder s)) in
  let down := length (downstream_buffer (s_forwarder s)) in
  if decide (0 < up + down)%nat then
    set_state s (record_dropped (record_dropped (s_state s) ChargerToCentral (Z.of_nat up))
                   CentralToCharger (Z.of_nat down))
  else s.

Definition unsent_result (now : Z) (request : CommandRequest) : CommandResult :=
  for_request now request CsNotConnected (Some "charger session ended before the command was sent"%string).

Definition interrupted_result (now : Z) (f : InFlight) : CommandResult :=
  for_in_flight now f Timeout None (Some "charger session ended before it answered"%string).

Definition close_message s : AxumMessage :=
  AxClose (Some (s_close_code s, "Proxy session ending"%string)).

(** The results of everything still owed one: queued, in flight, and in the inbox. *)
Definition settle (now : Z) s : Session T C U :=
  let '(local, requests, f) := drain_queue (s_local s) in
  let s := emit_all (set_local s local) (unsent_result now <$> requests) in
  let s := emit_all s (interrupted_result now <$> option_list f) in
  emit_all (set_inbox s []) (unsent_result now <$> s_inbox s).

Definition teardown (c : Clock) s : Session T C U :=
  let s := settle (utc_now c) (count_dropped s) in
  let '(charger, _) := send_wait (s_charger s) (close_message s) in
  set_phase (set_charger s charger) PhClosing.

(** After the sleep and the end of the writer. *)
Definition close_down (c : Clock) s : Session T C U :=
  set_phase (set_upstream_state (utc_now c) s Disconnected) PhEnded.

(** The error branch of the connect: [None] is a panic of the backoff. *)
Definition connect_failed (c : Clock) s : option (Session T C U) :=
  let started := default (instant_now c) (s_reconnecting_since s) in
  let s := set_since s (Some started) in
  let waited := elapsed started (instant_now c) in
  if max_reconnect_window config <=? waited then
    Some (teardown c (set_close_code s CLOSE_GOING_AWAY))
  else
    let s := set_upstream_state (utc_now c) s Reconnecting in
    '(delay, backoff) ← next_delay (s_backoff s);
    let rest := Z.max (Z.max 0 (max_reconnect_window config - waited)) (from_millis 1) in
    Some (set_phase (set_backoff s backoff) (PhRetry (Z.min delay rest))).

(** Connected: the buffered messages go first. *)
Definition connected (c : Clock) s (up : U) : Session T C U :=
  let s := set_since (set_backoff s (backoff_reset (s_backoff s))) None in
  let s := set_upstream_state (utc_now c) s Connected in
  let '(fwd, sink, r) := flush_upstream (s_forwarder s) (mkUpstreamSink up) in
  let s := set_phase (set_forwarder s fwd) (PhForward (up_sink sink)) in
  match r with
  | Ok n => set_state s (record_forwarded_n n (s_state s) ChargerToCentral)
  | Err _ => begin_connect c (drop_link s)
  end.

Definition upstream_lost (c : Clock) s : option (Session T C U) :=
  let s := set_forwarder s (discard_downstream_buffer (s_forwarder s)) in
  let s := set_upstream_state (utc_now c) s Reconnecting in
  let s := set_since s (Some (default (instant_now c) (s_reconnecting_since s))) in
  '(delay, backoff) ← next_delay (s_backoff s);
  Some (set_phase (set_backoff s backoff) (PhLost delay)).

(** The match on the outcome of the loop. *)
Definition after_loop (c : Clock) (r : Session T C U * option LoopOutcome) : option (Session T C U) :=
  let '(s, outcome) := r in
  match outcome with
  | None => Some s
  | Some ChargerGone | Some Shutdown => Some (teardown c (drop_link s))
  | Some UpstreamLost => upstream_lost c (drop_link s)
  end.

(** The test of the reconnect wait on what the charger's stream yields. *)
Definition hung_up (incoming : Incoming AxumMessage) : bool :=
  match incoming with
  | None | Some (Err _) | Some (Ok (AxClose _)) => true
  | _ => false
  end.

(** ** Steps *)

Definition session_new (c : Clock) (id : string) (tx : T) (charger : C) (m : ConnectionStateManager) :
    Session T C U :=
  begin_connect c
    (mkSession id
       (with_charge_point_id tx (message_buffer_size config) (sc_max_buffer_duration config)
          (call_tracker_max_age config) id)
       (backoff_with_defaults (initial_backoff config) (max_backoff config)) None CLOSE_NORMAL
       (queue_new (command_timeout (charging config)) COMMAND_CHANNEL_CAPACITY) true
       charger m [] [] PhConnect).

(** A charger's event in [forward_loop], by arm. *)
Definition loop_event (c : Clock) s (up : U) (ev : Event U) : option (Session T C U * option LoopOutcome) :=
  match ev with
  | EvCharger incoming => Some (on_charger c s up incoming)
  | EvUpstream incoming => Some (on_upstream c s up incoming)
  | EvCommand =>
      if s_commands_open s then
        match s_inbox s with
        | request :: inbox => Some (on_command c (set_inbox s inbox) request)
        | [] => None
        end
      else None
  | EvCommandsClosed =>
      if s_commands_open s && bool_decide (s_inbox s = []) then Some (set_commands_open s false, None) else None
  | EvCommandTick => if is_empty (s_local s) then None else Some (on_command_tick c s)
  | EvHousekeeping => Some (on_housekeeping c s, None)
  | EvCancelled => Some (s, Some Shutdown)
  | _ => None
  end.

(** One event: [None] when the session is not waiting for it (or panics). Dispatches
    and the other tasks' changes to the shared states come at any time. *)
Definition step (c : Clock) s (ev : Event U) : option (Session T C U) :=
  match ev, s_phase s with
  | EvOthers m, _ => Some (set_state s m)
  | EvDispatched _, PhEnded => None
  | EvDispatched request, _ => Some (set_inbox s (s_inbox s ++ [request]))
  | EvConnect (Ok up), PhConnect => Some (connected c s up)
  | EvConnect (Err _), PhConnect => connect_failed c s
  | EvSlept, PhRetry _ => Some (begin_connect c s)
  | EvCancelled, PhRetry _ => Some (teardown c s)
  | EvCharger incoming, PhRetry _ => Some (if hung_up incoming then teardown c s else begin_connect c s)
  | EvSlept, PhLost _ => Some (begin_connect c s)
  | EvCancelled, PhLost _ => Some (teardown c s)
  | EvSlept, PhClosing => Some (close_down c s)
  | ev, PhForward up => r ← loop_event c s up ev; after_loop c r
  | _, _ => None
  end.

(** A run: the events in the order they are handled, each with its clock. *)
Fixpoint run (events : list (Clock * Event U)) s : option (Session T C U) :=
  match events with
  | [] => Some s
  | (c, ev) :: events => s ← step c s ev; run events s
  end.
End session.

(** The writer task: it drains the charger's channel into the socket, up to a close
    message or a failure, and closes the socket. *)
Class WsSink (W M : Type) := { ws_send : W → M → W * bool; ws_close : W → W }.

Fixpoint write_all {W} `{WsSink W AxumMessage} (ws : W) (queue : list AxumMessage) : W :=
  match queue with
  | [] => ws
  | msg :: queue =>
      let is_close := match msg with AxClose _ => true | _ => false end in
      let '(ws, ok) := ws_send ws msg in
      if negb ok then ws
      else if is_close : bool then ws
      else write_all ws queue
  end.

Definition charger_writer {W} `{WsSink W AxumMessage} (ws : W) (queue : list AxumMessage) : W :=
  ws_close (write_all ws queue).

(** ** Lemmas: what the handlers leave alone *)

Section frame.
Context {T C U : Type} `{MpscSender T MqttEvent} `{AsyncSender C AxumMessage} `{UpstreamLink U}
  `{SerdeJson} `{Chrono}.
Context (config : SessionConfig).
Implicit Types (s : Session T C U).

Lemma run_app l1 l2 s s1 s2 :
  run config l1 s = Some s1 → run config l2 s1 = Some s2 → run config (l1 ++ l2) s = Some s2.
Proof.
  revert s. induction l1 as [|[c ev] l1 IH]; intros s Hr Hr2; [by injection Hr as ->|]. cbn [app run] in *.
  destruct (step config c s ev) as [q|]; [|done]. by apply (IH q).
Qed.

(** The part of a session that only the connections change. *)
Definition transport s :=
  (s_id s, s_backoff s, s_reconnecting_since s, s_close_code s, s_past s, s_phase s,
   upstream_buffer (s_forwarder s), downstream_buffer (s_forwarder s),
   max_buffer_size (s_forwarder s)).

Lemma emit_transport s x : transport (emit_command_result s x) = transport s.
Proof. done. Qed.

Lemma emit_all_transport s l : transport (emit_all s l) = transport s.
Proof. revert s. induction l as [|x l IH]; intros s; simpl; [done|]. by rewrite IH. Qed.

Lemma complete_transport now s f frame : transport (complete_local_call now s f frame) = transport s.
Proof. unfold complete_local_call. by destruct (interpret_response _ _) as [[??]?]. Qed.

Lemma set_upstream_state_transport now s st : transport (set_upstream_state now s st) = transport s.
Proof. unfold set_upstream_state. by case_decide. Qed.

Lemma send_loop_transport fuel c s : transport (send_loop config fuel c s).1 = transport s.
Proof.
  revert s. induction fuel as [|fuel IH]; intros s; simpl; [done|].
  destruct (pop_next (s_local s)) as [[request|] local]; [|done].
  destruct (prepare_call _ _ _ _); [|by rewrite IH].
  destruct (charger_send_raw _ _) as [sink [u|e]]; done.
Qed.

Lemma send_local_calls_transport c s : transport (send_local_calls config c s).1 = transport s.
Proof. unfold send_local_calls. repeat case_match; try done. apply send_loop_transport. Qed.

Lemma count_dropped_transport s : transport (count_dropped s) = transport s.
Proof. unfold count_dropped. by case_decide. Qed.

(** The shared parts: what a session has in its queue and its inbox, and the states. *)
Lemma emit_all_local s l : s_local (emit_all s l) = s_local s.
Proof. revert s. induction l as [|x l IH]; intros s; simpl; [done|]. by rewrite IH. Qed.
Lemma emit_all_inbox s l : s_inbox (emit_all s l) = s_inbox s.
Proof. revert s. induction l as [|x l IH]; intros s; simpl; [done|]. by rewrite IH. Qed.
Lemma emit_all_charger s l : s_charger (emit_all s l) = s_charger s.
Proof. revert s. induction l as [|x l IH]; intros s; simpl; [done|]. by rewrite IH. Qed.
Lemma emit_all_state s l : s_state (emit_all s l) = s_state s.
Proof. revert s. induction l as [|x l IH]; intros s; simpl; [done|]. by rewrite IH. Qed.

Lemma set_upstream_state_rest now s st :
  s_local (set_upstream_state now s st) = s_local s ∧ s_inbox (set_upstream_state now s st) = s_inbox s ∧
  s_charger (set_upstream_state now s st) = s_charger s ∧
  upstream_state (s_state (set_upstream_state now s st)) = st.
Proof.
  unfold set_upstream_state. case_decide as Hs; [done|]. simpl. split_and!; try done.
  apply (state_of_transition now (s_state s) Upstream Upstream st).
Qed.

Lemma settle_transport now s : transport (settle now s) = transport s.
Proof.
  unfold settle. simpl. rewrite emit_all_transport.
  change (transport (emit_all (emit_all (set_local s (with_in_flight (set_queued (s_local s) []) None))
    (unsent_result now <$> queued (s_local s))) (interrupted_result now <$> option_list (in_flight (s_local s))))
    = transport s).
  by rewrite !emit_all_transport.
Qed.

Lemma settle_rest now s :
  pending (s_local (settle now s)) = [] ∧ s_inbox (settle now s) = [] ∧ s_charger (settle now s) = s_charger s ∧
  s_state (settle now s) = s_state s.
Proof.
  unfold settle. simpl. rewrite !emit_all_local, !emit_all_inbox, !emit_all_charger, !emit_all_state. simpl.
  by rewrite !emit_all_local, !emit_all_charger, !emit_all_state.
Qed.
End frame.

(** ** Instances for examples: a link that takes a number of messages, and frames *)

Record ListLink := mkListLink { ll_sent : list TungMessage; ll_room : nat }.

#[export] Instance list_link : UpstreamLink ListLink := {
  link_send u m :=
    match ll_room u with O => (u, Err "closed"%string) | S n => (mkListLink (ll_sent u ++ [m]) n, Ok ()) end
}.

#[export] Program Instance list_link_laws : UpstreamLinkLaws ListLink := { link_sent := ll_sent }.
Next Obligation.
  intros u m u' r. simpl. destruct (ll_room u); intros [= <- <-]; simpl; [by rewrite app_nil_r|done].
Qed.

(** The text of a frame under the example codec. *)
Definition frame_text (elements : list Value) : string := @text_of reference_codec (VArray elements).
Definition heartbeat_text : string :=
  frame_text [json_u 2; json_str "7"; json_str "Heartbeat"; VObject []].
Definition accepted_text (uid : string) : string :=
  frame_text [json_u 3; json_str uid; VObject [("status", json_str "Accepted")]]%string.

Definition sample_session_config : SessionConfig :=
  mkSessionConfig "wss://cs.example/ocpp" None "ocpp1.6" 100 (from_secs 30) (from_secs 10) (from_secs 1)
    (from_secs 60) (from_secs 300) (from_secs 300) ChargingConfig_default.

Definition at_time (t : Z) : Clock := {| utc_now := from_secs t; instant_now := from_secs t |}.

Definition ExampleSession : Type := Session (list MqttEvent) (CountedChannel AxumMessage) ListLink.

Definition example_session : ExampleSession :=
  @session_new _ _ _ recording_sender sample_session_config (at_time 0) "CP-1" [] (mkCounted [] 1000) manager_new.

Definition example_run (events : list (Clock * Event ListLink)) (s : ExampleSession) : option ExampleSession :=
  @run _ _ _ recording_sender counted_sender list_link reference_codec plain_chrono sample_session_config events s.

Definition good_link : ListLink := mkListLink [] 1000.
Definition dead_link : ListLink := mkListLink [] 0.
