(* ===== verification/SessionShared.v ===== *)
(** * What a session does to what it shares (src/session.rs)

    A session shares the state manager with every other task, its inbox with the
    publisher, and the channel of events. This file says what any step of a session may do
    to them: move the upstream state and the counters, take from the inbox, and add
    events. *)

From S2P Require Import Prelude Float64 Json Models StateManager Config Command CallQueue Forwarder Session.

Local Open Scope Z_scope.

(** The operations on the manager a session makes. *)
Definition session_op (op : ManagerOp) : Prop :=
  match op with OpTransition _ Upstream _ | OpForwarded _ | OpDropped _ _ => True | _ => False end.

Section shared.
Context {C U : Type} `{AsyncSender C AxumMessage} `{UpstreamLink U} `{SerdeJson} `{Chrono}.
Context (config : SessionConfig).
Abbreviation Session := (Session (list MqttEvent) C U).
Implicit Types (s : Session).

(** Over the change from [s] to [s'] the session keeps to its part of what is shared. *)
Record touches s s' : Prop := {
  touches_id : s_id s' = s_id s;
  touches_inbox : (length (s_inbox s') ≤ length (s_inbox s))%nat;
  touches_events : ∃ l, mqtt_tx (s_forwarder s') = mqtt_tx (s_forwarder s) ++ l;
  touches_state : ∃ ops, Forall session_op ops ∧ s_state s' = foldl apply_op (s_state s) ops
}.

#[export] Instance touches_preorder : PreOrder touches.
Proof.
  split.
  - intros s. split; [done|done|exists []; by rewrite app_nil_r|by exists []].
  - intros s1 s2 s3 [E1 L1 (l1 & M1) (o1 & F1 & S1)] [E2 L2 (l2 & M2) (o2 & F2 & S2)]. split; [congruence|lia| |].
    + exists (l1 ++ l2). by rewrite M2, M1, app_assoc.
    + exists (o1 ++ o2). rewrite Forall_app, foldl_app, S2, S1. done.
Qed.

(** Changes of the private parts only. *)
Lemma touches_same s s' :
  s_id s' = s_id s → s_inbox s' = s_inbox s → mqtt_tx (s_forwarder s') = mqtt_tx (s_forwarder s) →
  s_state s' = s_state s → touches s s'.
Proof. intros Ei En Em Es. split; [done|by rewrite En|exists []; by rewrite app_nil_r|by exists []]. Qed.

(** One operation on the manager, and nothing else. *)
Lemma touches_op s s' op :
  session_op op → s_id s' = s_id s → s_inbox s' = s_inbox s →
  mqtt_tx (s_forwarder s') = mqtt_tx (s_forwarder s) → s_state s' = apply_op (s_state s) op → touches s s'.
Proof. intros Hop Ei En Em Es. split; [done|by rewrite En|exists []; by rewrite app_nil_r|exists [op]; by repeat constructor]. Qed.

Lemma touches_emit s x : touches s (emit_command_result s x).
Proof. split; [done..| |by exists []]. by eexists. Qed.

Lemma touches_emit_all s l : touches s (emit_all s l).
Proof. revert s. induction l as [|x l IH]; intros s; [done|]. etrans; [apply touches_emit|apply IH]. Qed.

Lemma touches_upstream_state now s st : touches s (set_upstream_state now s st).
Proof.
  unfold set_upstream_state. case_decide; [done|]. split; [done|done|by eexists|].
  exists [OpTransition now Upstream st]. by repeat constructor.
Qed.

Lemma touches_complete now s f frame : touches s (complete_local_call now s f frame).
Proof. unfold complete_local_call. destruct (interpret_response _ _) as [[??]?]. apply touches_emit. Qed.

Lemma touches_record_n n s d s' :
  s_id s' = s_id s → s_inbox s' = s_inbox s → mqtt_tx (s_forwarder s') = mqtt_tx (s_forwarder s) →
  s_state s' = record_forwarded_n n (s_state s) d → touches s s'.
Proof.
  intros Ei En Em Es. split; [done|by rewrite En|exists []; by rewrite app_nil_r|].
  exists (replicate n (OpForwarded d)). split; [apply Forall_replicate; done|]. rewrite Es.
  generalize (s_state s). clear. induction n as [|n IH]; intros m; simpl; [done|apply IH].
Qed.

Lemma touches_forward now s frame {S} `{MessageSink S} (sink : S) d s' :
  s_forwarder s' = (forward_message now (s_forwarder s) frame sink d).1.1 →
  s_id s' = s_id s → s_inbox s' = s_inbox s → s_state s' = s_state s → touches s s'.
Proof.
  intros Ef Ei En Es. split; [done|by rewrite En| |by exists []]. rewrite Ef. unfold forward_message.
  destruct (send_raw sink (raw frame)) as [sink' [u|e]]; [|exists []; by rewrite app_nil_r].
  pose proof (resolve_action_rest now (s_forwarder s) frame d) as (_ & _ & E & _).
  destruct (resolve_action _ _ _ _) as [fwd act]. simpl in *. rewrite E. by eexists.
Qed.

Lemma touches_send_loop fuel c s : touches s (send_loop config fuel c s).1.
Proof.
  revert s. induction fuel as [|fuel IH]; intros s; simpl; [done|].
  destruct (pop_next (s_local s)) as [[request|] local]; [|done].
  destruct (prepare_call _ _ _ _); [|etrans; [|apply IH]; etrans; [|apply touches_emit]; by apply touches_same].
  destruct (charger_send_raw _ _) as [sink [u|e]]; [by apply touches_same|].
  simpl. etrans; [|apply touches_emit]. by apply touches_same.
Qed.

Lemma touches_calls c s : touches s (charger_gone_unless (send_local_calls config c s)).1.
Proof. unfold charger_gone_unless, send_local_calls. simpl. repeat case_match; try done. apply touches_send_loop. Qed.

Lemma touches_count_dropped s : touches s (count_dropped s).
Proof.
  unfold count_dropped. case_decide; [|done]. split; [done..|exists []; by rewrite app_nil_r|].
  eexists [OpDropped _ _; OpDropped _ _]. split; [by repeat constructor|done].
Qed.

Lemma touches_settle now s : touches s (settle now s).
Proof.
  unfold settle. simpl. set (s0 := set_local s _). assert (touches s s0) as Ht0 by (by apply touches_same).
  etrans; [exact Ht0|]. etrans; [|apply touches_emit_all].
  set (s1 := emit_all (emit_all _ _) _).
  assert (touches s0 s1) as Ht1 by (unfold s1; etrans; apply touches_emit_all). etrans; [exact Ht1|].
  split; [done|simpl; lia|exists []; by rewrite app_nil_r|by exists []].
Qed.

Lemma touches_teardown c s : touches s (teardown c s).
Proof.
  unfold teardown. cbv zeta. etrans; [apply touches_count_dropped|]. etrans; [apply touches_settle|].
  destruct (send_wait _ _). by apply touches_same.
Qed.

Lemma touches_begin_connect c s : touches s (begin_connect c s).
Proof. unfold begin_connect. etrans; [apply touches_upstream_state|by apply touches_same]. Qed.

(** ** The arms *)

Lemma touches_charger_frame c s up frame text : touches s (forward_charger_frame config c s up frame text).1.
Proof.
  unfold forward_charger_frame, forward_upstream.
  pose proof (touches_forward (utc_now c) s frame (mkUpstreamSink up) ChargerToCentral) as Hf.
  destruct (forward_message _ _ _ _ _) as [[fwd sink] r]. simpl in Hf.
  destruct r; simpl.
  - set (s1 := set_state _ _). assert (touches s s1) as Ht1.
    { etrans; [apply (Hf (set_phase (set_forwarder s fwd) (PhForward (up_sink sink)))); done|].
      by apply (touches_op _ _ (OpForwarded ChargerToCentral)). }
    destruct (is_empty _); [done|]. etrans; [exact Ht1|apply touches_calls].
  - destruct (parse _ _); simpl; (etrans; [apply (Hf (set_phase (set_forwarder s fwd) (PhForward (up_sink sink)))); done|]); by apply touches_same.
Qed.

Lemma touches_on_charger c s up m : touches s (on_charger config c s up m).1.
Proof.
  destruct m as [[[text| | | |]|e]|]; simpl; try done. unfold on_charger_text.
  destruct (parse _ _) as [frame|e]; [|destruct (send_raw _ _); by apply touches_same].
  destruct (take_answer (s_local s) frame) as [[f|] local]; [|apply touches_charger_frame].
  etrans; [|apply touches_calls]. etrans; [|apply touches_complete]. by apply touches_same.
Qed.

Lemma touches_on_upstream c s up m : touches s (on_upstream c s up m).1.
Proof.
  destruct m as [[[text| |data| | |]|e]|]; simpl; try done; [|destruct (link_send _ _); by apply touches_same].
  unfold on_upstream_text. destruct (parse _ _) as [frame|e]; [|destruct (send_raw _ _); by apply touches_same].
  unfold forward_downstream.
  pose proof (touches_forward (utc_now c) s frame (mkChargerSink (s_charger s)) CentralToCharger) as Hf.
  destruct (forward_message _ _ _ _ _) as [[fwd sink] r]. simpl in Hf. destruct r; simpl; [|by apply Hf].
  etrans; [apply (Hf (set_charger (set_forwarder s fwd) (ch_tx sink))); done|].
  by apply (touches_op _ _ (OpForwarded CentralToCharger)).
Qed.

Lemma touches_on_command c s request : touches s (on_command config c s request).1.
Proof.
  unfold on_command. destruct (push (s_local s) request) as [local displaced].
  etrans; [|apply touches_calls]. etrans; [|apply touches_emit_all]. by apply touches_same.
Qed.

Lemma touches_on_tick c s : touches s (on_command_tick config c s).1.
Proof.
  unfold on_command_tick. destruct (expire c (s_local s)) as [[local expired] f].
  etrans; [|apply touches_calls]. etrans; [|apply touches_emit_all]. etrans; [|apply touches_emit_all].
  by apply touches_same.
Qed.

Lemma touches_loop_event c s up ev r : loop_event config c s up ev = Some r → touches s r.1.
Proof.
  destruct ev as [x|m|m| | | | | | |request|m]; simpl; intros Hr; simplify_eq/=.
  - apply touches_on_charger.
  - apply touches_on_upstream.
  - destruct (s_commands_open s), (s_inbox s) as [|request inbox] eqn:Ei; simplify_eq/=.
    etrans; [|apply touches_on_command].
    split; [done|rewrite Ei; simpl; lia|exists []; by rewrite app_nil_r|by exists []].
  - case_match; simplify_eq/=. by apply touches_same.
  - case_match; simplify_eq/=. apply touches_on_tick.
  - unfold on_housekeeping. by apply touches_same.
  - done.
Qed.

Lemma touches_upstream_lost c s s' : upstream_lost c s = Some s' → touches s s'.
Proof.
  unfold upstream_lost. set (s0 := set_forwarder s _).
  pose proof (touches_upstream_state (utc_now c) s0 Reconnecting) as E.
  destruct (next_delay _) as [[d b]|]; intros Hs; simplify_eq/=.
  etrans; [by apply (touches_same s s0)|]. etrans; [exact E|by apply touches_same].
Qed.

Lemma touches_after_loop c s o s' : after_loop c (s, o) = Some s' → touches s s'.
Proof.
  assert (touches s (drop_link s)) as Hd by (by apply touches_same).
  unfold after_loop. destruct o as [[| |]|]; intros Hs; simplify_eq/=; try done.
  - etrans; [exact Hd|apply touches_teardown].
  - etrans; [exact Hd|by eapply touches_upstream_lost].
  - etrans; [exact Hd|apply touches_teardown].
Qed.

Lemma touches_connected c s up : touches s (connected c s up).
Proof.
  unfold connected. set (s0 := set_since _ _). assert (touches s s0) as Ht0 by (by apply touches_same).
  etrans; [exact Ht0|]. etrans; [apply (touches_upstream_state (utc_now c) s0 Connected)|].
  generalize (set_upstream_state (utc_now c) s0 Connected). intros s1.
  unfold flush_upstream. destruct (flush_buffer _ _) as [[rest sink] [u|e]]; cbn [fst snd].
  - by eapply touches_record_n.
  - etrans; [|apply touches_begin_connect]. by apply touches_same.
Qed.

Lemma touches_connect_failed c s s' : connect_failed config c s = Some s' → touches s s'.
Proof.
  unfold connect_failed. destruct (_ <=? _); intros Hs.
  - injection Hs as <-. etrans; [|apply touches_teardown]. by apply touches_same.
  - set (s0 := set_since s _) in Hs. pose proof (touches_upstream_state (utc_now c) s0 Reconnecting) as E.
    destruct (next_delay _) as [[d b]|]; simplify_eq/=.
    etrans; [by apply (touches_same s s0)|]. etrans; [exact E|by apply touches_same].
Qed.

(** An event of the session's own. *)
Definition own_event (ev : Event U) : bool :=
  match ev with EvDispatched _ | EvOthers _ => false | _ => true end.

Lemma step_touches c s ev s' : own_event ev = true → step config c s ev = Some s' → touches s s'.
Proof.
  intros Hown Hs.
  assert (∀ up r, loop_event config c s up ev = Some r → after_loop c r = Some s' → touches s s') as Hl.
  { intros up [s1 o] Hr%touches_loop_event Ha%touches_after_loop. by etrans. }
  unfold step in Hs.
  destruct ev as [[up|e]|m|m| | | | | | |request|m], (s_phase s) eqn:Hp; simplify_eq/=;
    try (apply bind_Some in Hs as (r & Hr & Ha); by eapply Hl);
    try (by apply (Hl up (on_charger config c s up m)));
    try (by apply (Hl up (on_upstream c s up m)));
    try (by apply (Hl up (s, Some Shutdown))); try (by apply (Hl up (on_housekeeping c s, None)));
    try apply touches_teardown; try apply touches_begin_connect; try apply touches_connected.
  - by eapply touches_connect_failed.
  - destruct (hung_up m); [apply touches_teardown|apply touches_begin_connect].
  - unfold close_down. etrans; [apply (touches_upstream_state (utc_now c) s Disconnected)|by apply touches_same].
Qed.
End shared.
