(* ===== verification/SessionRelay.v ===== *)
(** * Relaying: the charger's frames across reconnections (src/session.rs)

    What a session puts on its upstream connections, taken together, is what it
    heard from the charger: in order, nothing repeated, and nothing lost but the text
    that is no OCPP frame and whose send fails ([unparsed_text_lost]). *)

From S2P Require Import Prelude Float64 Json Models StateManager Config Command CallQueue Forwarder Session.

Local Open Scope Z_scope.

(** Whether a text is an OCPP frame: the time of its arrival does not matter. *)
Definition parses `{SerdeJson} (text : string) : bool := is_ok (parse 0 text).

Lemma parses_at `{SerdeJson} now text : is_ok (parse now text) = parses text.
Proof.
  unfold parses, parse. destruct (from_str text) as [v|e]; [|done]. simpl. destruct (as_array v) as [arr|]; [|done]. simpl.
  case_decide; [done|]. destruct (as_u64 _); [|done]. simpl. destruct (as_str _); [|done]. simpl. by destruct (frame_type _ _).
Qed.

(** ** Theorems: the charger's frames, across reconnections *)

Section relay.
Context {T C U : Type} `{MpscSender T MqttEvent} `{AsyncSenderLaws C AxumMessage} `{UpstreamLinkLaws U}
  `{SerdeJson} `{Chrono}.
Context (config : SessionConfig).
Implicit Types (s : Session T C U).

Definition link_texts (up : U) : list string := tung_texts (link_sent up).

Definition phase_links (p : Phase U) : list U := match p with PhForward up => [up] | _ => [] end.

(** Every text put on an upstream connection of the session, in order. *)
Definition sent_upstream s : list string := concat (link_texts <$> s_past s ++ phase_links (s_phase s)).

(** With what waits in the buffer. *)
Definition relayed s : list string := sent_upstream s ++ (raw <$> upstream_buffer (s_forwarder s)).

Definition forwarding s : bool := match s_phase s with PhForward _ => true | _ => false end.

(** The buffer is in use only while there is no connection. *)
Definition buffer_inv s : Prop :=
  (forwarding s = true → upstream_buffer (s_forwarder s) = []) ∧ (length (upstream_buffer (s_forwarder s)) <= 1)%nat.

Lemma transport_relayed s s' : transport s = transport s' →
  relayed s = relayed s' ∧ s_phase s = s_phase s' ∧ upstream_buffer (s_forwarder s) = upstream_buffer (s_forwarder s').
Proof. unfold transport, relayed, sent_upstream. intros E. by simplify_eq/=; repeat match goal with E : _ = _ |- _ => rewrite E end. Qed.

Lemma link_texts_send up m up' r :
  link_send up m = (up', r) →
  link_texts up' = link_texts up ++ (if is_ok r then tung_texts [m] else []).
Proof.
  intros E%link_send_sent. unfold link_texts. rewrite E. unfold tung_texts. rewrite omap_app. by destruct (is_ok r).
Qed.

Lemma sent_upstream_forward s up :
  s_phase s = PhForward up → sent_upstream s = concat (link_texts <$> s_past s) ++ link_texts up.
Proof. intros E. unfold sent_upstream. rewrite E, fmap_app, concat_app. simpl. by rewrite app_nil_r. Qed.

Lemma teardown_relayed c s :
  relayed (teardown c s) = concat (link_texts <$> s_past s) ++ (raw <$> upstream_buffer (s_forwarder s)) ∧
  s_phase (teardown c s) = PhClosing ∧ upstream_buffer (s_forwarder (teardown c s)) = upstream_buffer (s_forwarder s).
Proof.
  unfold teardown. assert (transport (settle (utc_now c) (count_dropped s)) = transport s) as E.
  { by rewrite settle_transport, count_dropped_transport. }
  cbv zeta. revert E. generalize (settle (utc_now c) (count_dropped s)). intros s1 E.
  destruct (send_wait _ _) as [ch ok]. unfold relayed, sent_upstream. simpl. rewrite app_nil_r.
  unfold transport in E. simplify_eq/=. repeat match goal with E : _ = _ |- _ => rewrite E end. done.
Qed.

Lemma begin_connect_relayed c s :
  relayed (begin_connect c s) = concat (link_texts <$> s_past s) ++ (raw <$> upstream_buffer (s_forwarder s)) ∧
  s_phase (begin_connect c s) = PhConnect ∧
  upstream_buffer (s_forwarder (begin_connect c s)) = upstream_buffer (s_forwarder s).
Proof.
  unfold begin_connect. pose proof (set_upstream_state_transport (utc_now c) s Connecting) as E.
  unfold relayed, sent_upstream. simpl. rewrite app_nil_r.
  unfold transport in E. simplify_eq/=. repeat match goal with E : _ = _ |- _ => rewrite E end. done.
Qed.

Lemma upstream_lost_relayed c s s' :
  upstream_lost c s = Some s' →
  relayed s' = concat (link_texts <$> s_past s) ++ (raw <$> upstream_buffer (s_forwarder s)) ∧
  forwarding s' = false ∧ upstream_buffer (s_forwarder s') = upstream_buffer (s_forwarder s).
Proof.
  unfold upstream_lost. set (s1 := set_forwarder s _).
  pose proof (set_upstream_state_transport (utc_now c) s1 Reconnecting) as E.
  set (s2 := set_upstream_state _ _ _) in *. intros Hs.
  destruct (next_delay _) as [[d b]|]; simplify_eq/=.
  unfold relayed, sent_upstream, forwarding. simpl. rewrite app_nil_r. unfold transport in E.
  simplify_eq/=. repeat match goal with E : _ = _ |- _ => rewrite E end. done.
Qed.

(** Leaving the loop, or staying in it, loses nothing. *)
Lemma after_loop_relayed c s o s' :
  forwarding s = true → after_loop c (s, o) = Some s' →
  relayed s' = relayed s ∧ upstream_buffer (s_forwarder s') = upstream_buffer (s_forwarder s) ∧
  (forwarding s' = true → o = None).
Proof.
  intros Hf. unfold after_loop. destruct (s_phase s) as [| |up| | |] eqn:Hp; try (unfold forwarding in Hf; by rewrite Hp in Hf).
  assert (relayed s = concat (link_texts <$> s_past (drop_link s)) ++ (raw <$> upstream_buffer (s_forwarder s))) as E.
  { unfold relayed, sent_upstream, drop_link. simpl. by rewrite Hp. }
  destruct o as [[| |]|]; intros Hs; simplify_eq/=; try done.
  - destruct (teardown_relayed c (drop_link s)) as (-> & Hph & ->). unfold forwarding. by rewrite Hph, E.
  - apply upstream_lost_relayed in Hs as (-> & Hph & ->). by rewrite Hph, E.
  - destruct (teardown_relayed c (drop_link s)) as (-> & Hph & ->). unfold forwarding. by rewrite Hph, E.
Qed.

(** What a handler of [forward_loop] does to the frames: [new] are relayed, in order,
    and the buffer is used only when the connection is lost. *)
Definition relays (new : list string) s (r : Session T C U * option LoopOutcome) : Prop :=
  relayed r.1 = relayed s ++ new ∧ forwarding r.1 = true ∧
  (r.2 ≠ Some UpstreamLost → upstream_buffer (s_forwarder r.1) = []) ∧
  (length (upstream_buffer (s_forwarder r.1)) <= 1)%nat.

Lemma relays_calls new c s s1 :
  relayed s1 = relayed s ++ new → forwarding s1 = true → upstream_buffer (s_forwarder s1) = [] →
  relays new s (charger_gone_unless (send_local_calls config c s1)).
Proof.
  intros E Hf Hb. unfold charger_gone_unless.
  destruct (transport_relayed _ _ (send_local_calls_transport config c s1)) as (Er & Ep & Eb).
  unfold relays, forwarding. simpl. rewrite Er, Ep, Eb, Hb. split_and!; try done. simpl. lia.
Qed.

Lemma relays_same s s1 o :
  transport s1 = transport s → forwarding s = true → upstream_buffer (s_forwarder s) = [] →
  relays [] s (s1, o).
Proof.
  intros E%transport_relayed Hf Hb. destruct E as (Er & Ep & Eb). unfold relays, forwarding in *. simpl.
  rewrite Er, Ep, Eb, Hb, app_nil_r. split_and!; try done. simpl. lia.
Qed.

(** A text the session keeps for itself: the answer to the proxy's own Call. *)
Definition consumed (c : Clock) s (text : string) : bool :=
  match parse (utc_now c) text with
  | Ok frame => bool_decide (is_Some (take_answer (s_local s) frame).1)
  | Err _ => false
  end.

Lemma relayed_send s s1 up up1 extra text :
  s_phase s = PhForward up → s_phase s1 = PhForward up1 → s_past s1 = s_past s →
  upstream_buffer (s_forwarder s) = [] →
  link_texts up1 ++ (raw <$> upstream_buffer (s_forwarder s1)) = link_texts up ++ extra →
  extra = [text] → relayed s1 = relayed s ++ [text].
Proof.
  intros Hp Hp1 Hpast Hb E ->. unfold relayed.
  rewrite (sent_upstream_forward _ _ Hp), (sent_upstream_forward _ _ Hp1), Hpast, Hb. simpl.
  by rewrite app_nil_r, <- !app_assoc, E.
Qed.

Lemma forward_charger_frame_relays c s up frame text :
  s_phase s = PhForward up → upstream_buffer (s_forwarder s) = [] →
  parse (utc_now c) text = Ok frame →
  relays [text] s (forward_charger_frame config c s up frame text).
Proof.
  intros Hp Hb Hparse. unfold forward_charger_frame, forward_upstream.
  pose proof (forward_message_spec (utc_now c) (s_forwarder s) frame (mkUpstreamSink up) ChargerToCentral) as Hspec.
  destruct (forward_message _ _ _ _ _) as [[fwd sink] r]. simpl in Hspec.
  destruct Hspec as (Hd & Hub & _ & Hsize & _ & _ & Herr). rewrite (parse_raw _ _ _ Hparse) in Hd.
  change (link_texts (up_sink sink) = link_texts up ++ (if is_ok r then [text] else [])) in Hd.
  destruct r as [u|e]; simpl in *.
  - set (s1 := set_state _ _).
    assert (relayed s1 = relayed s ++ [text]) as E.
    { eapply (relayed_send s s1 up (up_sink sink) [text]); try done. unfold s1. simpl.
      rewrite Hub, Hb. simpl. by rewrite app_nil_r. }
    destruct (is_empty _); [|by apply relays_calls; [done..|simpl; congruence]].
    unfold relays. simpl. rewrite E, Hub, Hb. simpl. split_and!; try done. lia.
  - rewrite Hparse. specialize (Herr eq_refl). subst fwd.
    assert (push_bounded (max_buffer_size (s_forwarder s)) (upstream_buffer (s_forwarder s)) frame = [frame]) as Hpush.
    { rewrite Hb. unfold push_bounded, push_evict. by case_decide. }
    unfold relays. simpl. rewrite Hpush. split_and!; try done.
    eapply (relayed_send s _ up (up_sink sink) [text]); try done. simpl. rewrite Hpush. simpl.
    by rewrite Hd, (parse_raw _ _ _ Hparse), app_nil_r.
Qed.

(** A text the session loses: it is no OCPP frame, and the connection refuses it. *)
Definition dropped (c : Clock) (up : U) (text : string) : bool :=
  match parse (utc_now c) text with
  | Ok _ => false
  | Err _ => negb (is_ok (link_send up (TuText text)).2)
  end.

(** A text that is no frame is sent as it is; refused, it is lost with the connection. *)
Lemma unparsed_relays c s up text e :
  s_phase s = PhForward up → upstream_buffer (s_forwarder s) = [] → parse (utc_now c) text = Err e →
  relays (if dropped c up text then [] else [text]) s (on_charger_text config c s up text) ∧
  ((on_charger_text config c s up text).2 = if dropped c up text then Some UpstreamLost else None).
Proof.
  intros Hp Hb Hparse. unfold on_charger_text, dropped. rewrite Hparse.
  cbn [send_raw upstream_sink]. unfold upstream_send_raw. cbn [up_sink].
  destruct (link_send up (TuText text)) as [up' r] eqn:E. apply link_texts_send in E. simpl in E.
  split; [|by destruct r]. unfold relays. simpl. rewrite Hb. split_and!; [|done..|simpl; lia].
  destruct r; simpl in *.
  - eapply (relayed_send s _ up up' [text]); try done. simpl. by rewrite Hb, app_nil_r.
  - unfold relayed. rewrite (sent_upstream_forward _ _ Hp). unfold sent_upstream. simpl.
    rewrite fmap_app, concat_app. simpl. by rewrite E, !app_nil_r, Hb.
Qed.

Lemma on_charger_text_relays c s up text :
  s_phase s = PhForward up → upstream_buffer (s_forwarder s) = [] →
  relays (if consumed c s text || dropped c up text then [] else [text]) s (on_charger_text config c s up text).
Proof.
  intros Hp Hb. destruct (parse (utc_now c) text) as [frame|e] eqn:Hparse.
  2: { unfold consumed. rewrite Hparse. by eapply unparsed_relays. }
  unfold on_charger_text, consumed, dropped. rewrite Hparse, orb_false_r.
  destruct (take_answer (s_local s) frame) as [[f|] local]; simpl.
  - apply relays_calls; simpl.
    + rewrite app_nil_r. apply transport_relayed. by rewrite complete_transport.
    + unfold forwarding. destruct (transport_relayed (complete_local_call (utc_now c) (set_local s local) f frame) s) as (_ & -> & _).
      { by rewrite complete_transport. } by rewrite Hp.
    + destruct (transport_relayed (complete_local_call (utc_now c) (set_local s local) f frame) s) as (_ & _ & ->); [|done].
      by rewrite complete_transport.
  - by apply forward_charger_frame_relays.
Qed.

(** The charger's text an event brings to the loop, less the session's own answers
    and less what is lost. *)
Definition heard (c : Clock) s (ev : Event U) : list string :=
  match s_phase s, ev with
  | PhForward up, EvCharger (Some (Ok (AxText text))) =>
      if consumed c s text || dropped c up text then [] else [text]
  | _, _ => []
  end.

(** What is lost at an event. *)
Definition lost (c : Clock) s (ev : Event U) : list string :=
  match s_phase s, ev with
  | PhForward up, EvCharger (Some (Ok (AxText text))) => if dropped c up text then [text] else []
  | _, _ => []
  end.

(** The upstream connections a run is given are new ones: nothing was sent on them. *)
Definition new_connection (ev : Clock * Event U) : Prop :=
  match ev.2 with EvConnect (Ok up) => link_texts up = [] | _ => True end.

Lemma on_upstream_text_relays c s up text :
  s_phase s = PhForward up → upstream_buffer (s_forwarder s) = [] →
  relays [] s (on_upstream_text c s text).
Proof.
  intros Hp Hb. assert (forwarding s = true) as Hf by (unfold forwarding; by rewrite Hp).
  unfold on_upstream_text. destruct (parse _ _) as [frame|e].
  - unfold forward_downstream.
    pose proof (forward_message_spec (utc_now c) (s_forwarder s) frame (mkChargerSink (s_charger s)) CentralToCharger) as Hspec.
    destruct (forward_message _ _ _ _ _) as [[fwd sink] r].
    destruct Hspec as (_ & Hub & Hdb & Hsize & _). destruct r; apply relays_same; try done;
      unfold transport; simpl; by rewrite Hub, Hdb, Hsize.
  - destruct (send_raw _ _) as [sink r]. by apply relays_same.
Qed.

Lemma on_upstream_relays c s up incoming :
  s_phase s = PhForward up → upstream_buffer (s_forwarder s) = [] →
  relays [] s (on_upstream c s up incoming).
Proof.
  intros Hp Hb. assert (forwarding s = true) as Hf by (unfold forwarding; by rewrite Hp).
  destruct incoming as [[[text| |data| | |]|e]|]; simpl; try (by apply relays_same).
  - by eapply on_upstream_text_relays.
  - destruct (link_send up (TuPong data)) as [up' r] eqn:E. apply link_texts_send in E. simpl in E.
    unfold relays, relayed, forwarding. simpl. rewrite Hb. simpl. rewrite !app_nil_r.
    split_and!; try done; [|lia]. rewrite (sent_upstream_forward _ _ Hp). unfold sent_upstream. simpl.
    rewrite fmap_app, concat_app. simpl. rewrite E, app_nil_r. destruct (is_ok r); by rewrite app_nil_r.
Qed.

Lemma on_command_relays c s up request :
  s_phase s = PhForward up → upstream_buffer (s_forwarder s) = [] →
  relays [] s (on_command config c s request).
Proof.
  intros Hp Hb. unfold on_command. destruct (push (s_local s) request) as [local displaced].
  set (s1 := emit_all _ _).
  destruct (transport_relayed s1 s) as (E1 & E2 & E3); [unfold s1; by rewrite emit_all_transport|].
  apply relays_calls; [by rewrite app_nil_r|unfold forwarding; by rewrite E2, Hp|by rewrite E3].
Qed.

Lemma on_command_tick_relays c s up :
  s_phase s = PhForward up → upstream_buffer (s_forwarder s) = [] →
  relays [] s (on_command_tick config c s).
Proof.
  intros Hp Hb. unfold on_command_tick. destruct (expire c (s_local s)) as [[local expired] f].
  set (s1 := emit_all (emit_all _ _) _).
  destruct (transport_relayed s1 s) as (E1 & E2 & E3); [unfold s1; by rewrite !emit_all_transport|].
  apply relays_calls; [by rewrite app_nil_r|unfold forwarding; by rewrite E2, Hp|by rewrite E3].
Qed.

Lemma on_housekeeping_relays c s up :
  s_phase s = PhForward up → upstream_buffer (s_forwarder s) = [] →
  relays [] s (on_housekeeping c s, None).
Proof.
  intros Hp Hb. unfold relays, relayed, sent_upstream, forwarding, on_housekeeping. simpl.
  rewrite Hp, Hb. simpl. rewrite !app_nil_r. split_and!; try done. lia.
Qed.

Lemma loop_event_relays c s up ev r :
  s_phase s = PhForward up → upstream_buffer (s_forwarder s) = [] →
  loop_event config c s up ev = Some r → relays (heard c s ev) s r.
Proof.
  intros Hp Hb Hr. assert (forwarding s = true) as Hf by (unfold forwarding; by rewrite Hp).
  unfold heard. rewrite Hp. destruct ev as [x|m|m| | | | | | |request|m]; simpl in Hr; simplify_eq/=.
  - destruct m as [[[text| | | |]|e]|]; simpl; try (by apply relays_same). by apply on_charger_text_relays.
  - by eapply on_upstream_relays.
  - destruct (s_commands_open s), (s_inbox s) as [|request inbox]; simplify_eq/=.
    by apply (on_command_relays c (set_inbox s inbox) up).
  - case_match; simplify_eq/=. by apply relays_same.
  - case_match; simplify_eq/=. by eapply on_command_tick_relays.
  - by eapply on_housekeeping_relays.
  - by apply relays_same.
Qed.

(** ** Connecting *)

Lemma connected_relayed c s up :
  forwarding s = false → link_texts up = [] → (length (upstream_buffer (s_forwarder s)) <= 1)%nat →
  relayed (connected c s up) = relayed s ∧ buffer_inv (connected c s up).
Proof.
  intros Hf Hup Hlen. unfold connected.
  set (s1 := set_upstream_state _ _ _).
  assert (transport s1 = transport (set_since (set_backoff s (backoff_reset (s_backoff s))) None)) as E
    by apply set_upstream_state_transport.
  assert (s_past s1 = s_past s ∧ upstream_buffer (s_forwarder s1) = upstream_buffer (s_forwarder s)) as [Epast Ebuf]
    by (unfold transport in E; by simplify_eq/=).
  unfold flush_upstream.
  pose proof (flush_buffer_spec (upstream_buffer (s_forwarder s1)) (mkUpstreamSink up)) as Hflush.
  destruct (flush_buffer _ _) as [[rest sink] r]. destruct Hflush as (sent & Eb & Hd & Hr). rewrite Ebuf in Eb.
  change (link_texts (up_sink sink) = link_texts up ++ (raw <$> sent)) in Hd. rewrite Hup in Hd. simpl in Hd.
  assert (relayed s = concat (link_texts <$> s_past s) ++ (raw <$> sent) ++ (raw <$> rest)) as Es.
  { unfold relayed, sent_upstream. rewrite Eb, (fmap_app raw).
    unfold forwarding in Hf. destruct (s_phase s); try done; simpl; by rewrite app_nil_r. }
  assert (length rest <= 1)%nat by (rewrite Eb, length_app in Hlen; lia).
  destruct r as [u|e]; simpl in *.
  - assert (rest = []) as -> by (by apply Hr). unfold buffer_inv. rewrite Es. unfold relayed, sent_upstream. simpl.
    rewrite Epast, fmap_app, concat_app. simpl. rewrite Hd, !app_nil_r. split_and!; try done.
  - destruct (begin_connect_relayed c (drop_link (set_phase (set_forwarder s1 (set_upstream_buffer (s_forwarder s1) rest))
      (PhForward (up_sink sink))))) as (-> & Hph & Hbuf).
    unfold buffer_inv, forwarding. rewrite Hph, Hbuf, Es. simpl. rewrite Epast, fmap_app, concat_app. simpl.
    rewrite Hd, app_nil_r, <- app_assoc. done.
Qed.

Lemma connect_failed_relayed c s s' :
  forwarding s = false → connect_failed config c s = Some s' →
  relayed s' = relayed s ∧ forwarding s' = false ∧
  upstream_buffer (s_forwarder s') = upstream_buffer (s_forwarder s).
Proof.
  intros Hf. assert (relayed s = concat (link_texts <$> s_past s) ++ (raw <$> upstream_buffer (s_forwarder s))) as Es.
  { unfold relayed, sent_upstream. unfold forwarding in Hf. destruct (s_phase s); try done; simpl; by rewrite app_nil_r. }
  unfold connect_failed. case_match; intros Hs.
  - simplify_eq/=. match goal with |- context [teardown c ?x] => destruct (teardown_relayed c x) as (-> & Hph & ->) end.
    unfold forwarding. by rewrite Hph.
  - set (s1 := set_upstream_state _ _ _) in *.
    assert (transport s1 = transport (set_since s (Some (default (instant_now c) (s_reconnecting_since s))))) as E
      by apply set_upstream_state_transport.
    destruct (next_delay _) as [[d b]|]; simplify_eq/=.
    unfold relayed, sent_upstream, forwarding. simpl. unfold transport in E. simplify_eq/=.
    repeat match goal with E : _ = _ |- _ => rewrite E end. by rewrite app_nil_r.
Qed.

Lemma begin_connect_step c s :
  forwarding s = false → (length (upstream_buffer (s_forwarder s)) <= 1)%nat →
  relayed (begin_connect c s) = relayed s ∧ buffer_inv (begin_connect c s).
Proof.
  intros Hf Hlen. destruct (begin_connect_relayed c s) as (-> & Hph & Hb). split.
  - unfold relayed, sent_upstream. unfold forwarding in Hf. destruct (s_phase s); try done; simpl; by rewrite app_nil_r.
  - unfold buffer_inv, forwarding. by rewrite Hph, Hb.
Qed.

Lemma teardown_step c s :
  forwarding s = false → (length (upstream_buffer (s_forwarder s)) <= 1)%nat →
  relayed (teardown c s) = relayed s ∧ buffer_inv (teardown c s).
Proof.
  intros Hf Hlen. destruct (teardown_relayed c s) as (-> & Hph & Hb). split.
  - unfold relayed, sent_upstream. unfold forwarding in Hf. destruct (s_phase s); try done; simpl; by rewrite app_nil_r.
  - unfold buffer_inv, forwarding. by rewrite Hph, Hb.
Qed.

Lemma close_down_step c s :
  forwarding s = false → (length (upstream_buffer (s_forwarder s)) <= 1)%nat →
  relayed (close_down c s) = relayed s ∧ buffer_inv (close_down c s).
Proof.
  intros Hf Hlen. unfold close_down.
  destruct (transport_relayed _ _ (set_upstream_state_transport (utc_now c) s Disconnected)) as (Er & Ep & Eb).
  unfold buffer_inv, forwarding. simpl. rewrite Eb. split; [|done]. rewrite <- Er.
  unfold relayed, sent_upstream. simpl. unfold forwarding in Hf. rewrite <- Ep in Hf.
  by destruct (s_phase (set_upstream_state _ _ _)).
Qed.

Lemma step_relayed c s ev s' :
  buffer_inv s → new_connection (c, ev) → step config c s ev = Some s' →
  relayed s' = relayed s ++ heard c s ev ∧ buffer_inv s'.
Proof.
  intros [Hempty Hlen] Hnew Hs.
  assert (forwarding s = false → heard c s ev = []) as Hh.
  { unfold forwarding, heard. by destruct (s_phase s). }
  destruct (forwarding s) eqn:Hf.
  - specialize (Hempty eq_refl). pose proof Hf as Hf0. unfold forwarding in Hf.
    destruct (s_phase s) as [| |up| | |] eqn:Hp; try done.
    assert (∀ r, loop_event config c s up ev = Some r → after_loop c r = Some s' →
              relayed s' = relayed s ++ heard c s ev ∧ buffer_inv s') as Hloop.
    { intros [s1 o] Hr Ha. eapply loop_event_relays in Hr; [|done..].
      destruct Hr as (E1 & Hf1 & Hb1 & Hl1). simpl in *.
      apply after_loop_relayed in Ha as (E2 & Hb & Hnone); [|done].
      unfold buffer_inv. rewrite E2, E1, Hb. split_and!; [done| |done].
      intros Hf'. apply Hb1. by rewrite (Hnone Hf'). }
    unfold step in Hs. rewrite Hp in Hs.
    destruct ev as [x|m|m| | | | | | |request|m]; simpl in Hs; try done;
      try (destruct x; done);
      try (apply bind_Some in Hs as (r & Hr & Ha); by eapply Hloop).
    + simplify_eq/=. by apply Hloop with (r := on_charger config c s up m).
    + simplify_eq/=. by apply Hloop with (r := on_upstream c s up m).
    + simplify_eq/=. by apply Hloop with (r := (on_housekeeping c s, None)).
    + by apply Hloop with (r := (s, Some Shutdown)).
    + simplify_eq/=. unfold heard, relayed, sent_upstream, buffer_inv, forwarding. simpl. rewrite Hp. simpl.
      by rewrite app_nil_r.
    + simplify_eq/=. unfold heard, relayed, sent_upstream, buffer_inv, forwarding. simpl. rewrite Hp. simpl.
      by rewrite app_nil_r.
  - rewrite (Hh eq_refl), app_nil_r. unfold step in Hs.
    destruct ev as [[up|e]|m|m| | | | | | |request|m], (s_phase s) eqn:Hp; simplify_eq/=;
      try (by apply begin_connect_step); try (by apply teardown_step); try (by apply close_down_step);
      try (by unfold forwarding in Hf; rewrite Hp in Hf);
      try (unfold buffer_inv, relayed, sent_upstream, forwarding; simpl; by rewrite Hp).
    + by apply connected_relayed.
    + apply connect_failed_relayed in Hs as (E & Hf' & Hb); [|done]. rewrite E. split; [done|].
      unfold buffer_inv. by rewrite Hf', Hb.
    + destruct (hung_up m); [by apply teardown_step|by apply begin_connect_step].
Qed.

Lemma transport_past s s' : transport s' = transport s → s_past s' = s_past s.
Proof. unfold transport. intros E. by simplify_eq/=. Qed.

Lemma teardown_past c s : s_past (teardown c s) = s_past s ∧ forwarding (teardown c s) = false.
Proof.
  unfold teardown. assert (transport (settle (utc_now c) (count_dropped s)) = transport s) as E%transport_past
    by (by rewrite settle_transport, count_dropped_transport).
  cbv zeta. revert E. generalize (settle (utc_now c) (count_dropped s)). intros s1 E. by destruct (send_wait _ _).
Qed.

(** The connections a run is given. *)
Definition connects (ev : Clock * Event U) : bool := match ev.2 with EvConnect (Ok _) => true | _ => false end.

(** Only a new connection starts the forwarding. *)
Lemma step_starts c s ev s' :
  forwarding s = false → connects (c, ev) = false → step config c s ev = Some s' → forwarding s' = false.
Proof.
  intros Hf Hcon Hs. unfold step in Hs.
  destruct ev as [[up|e]|m|m| | | | | | |request|m], (s_phase s) as [|delay|up'|delay| |] eqn:Hp; simplify_eq/=;
    try (by unfold forwarding in Hf; rewrite Hp in Hf); try apply teardown_past; try done;
    try (by unfold forwarding; simpl; rewrite Hp).
  - unfold connect_failed in Hs. destruct (_ <=? _); [injection Hs as <-; apply teardown_past|].
    destruct (next_delay _) as [[d b]|]; by simplify_eq/=.
  - destruct (hung_up m); [apply teardown_past|done].
Qed.

(** Losing a text ends the connection it was lost on. *)
Lemma step_lost c s ev s' :
  buffer_inv s → step config c s ev = Some s' →
  (length (lost c s ev) + (if forwarding s' then 1 else 0) <=
     (if forwarding s then 1 else 0) + (if connects (c, ev) then 1 else 0))%nat.
Proof.
  intros [Hempty _] Hs. destruct (forwarding s) eqn:Hf.
  - assert ((length (lost c s ev) <= 1)%nat ∧ (lost c s ev ≠ [] → forwarding s' = false)) as [Hl Hout].
    { unfold lost. pose proof Hf as Hf0. unfold forwarding in Hf. destruct (s_phase s) as [| |up| | |] eqn:Hp; try done.
      destruct ev as [|[[[text| | | |]|]|]| | | | | | | | |]; try (by split; [simpl; lia|]).
      destruct (dropped c up text) eqn:Hd; [|by split; [simpl; lia|]]. split; [simpl; lia|]. intros _.
      unfold step in Hs. rewrite Hp in Hs. cbn [loop_event on_charger mbind option_bind] in Hs.
      destruct (parse (utc_now c) text) as [frame|e] eqn:Hparse; [by unfold dropped in Hd; rewrite Hparse in Hd|].
      destruct (unparsed_relays c s up text e Hp (Hempty eq_refl) Hparse) as [(_ & Hf1 & _) Ho]. rewrite Hd in Ho.
      destruct (on_charger_text config c s up text) as [s1 o]. simpl in Hf1, Ho. subst o.
      apply after_loop_relayed in Hs as (_ & _ & Hn); [|done]. destruct (forwarding s'); [|done]. by specialize (Hn eq_refl). }
    destruct (lost c s ev) as [|t l]; [simpl; destruct (forwarding s'); lia|]. rewrite Hout by done. simpl in *. lia.
  - assert (lost c s ev = []) as -> by (unfold lost; unfold forwarding in Hf; by destruct (s_phase s)).
    destruct (connects (c, ev)) eqn:Hc; [simpl; destruct (forwarding s'); lia|]. by rewrite (step_starts c s ev s' Hf Hc Hs).
Qed.

Lemma lost_unparsed c s ev : Forall (λ t, parses t = false) (lost c s ev).
Proof.
  unfold lost. destruct (s_phase s); try constructor. destruct ev as [|[[[text| | | |]|]|]| | | | | | | | |]; try constructor.
  destruct (dropped _ _ _) eqn:Hd; constructor; [|constructor]. unfold dropped in Hd. rewrite <- (parses_at (utc_now c)).
  by destruct (parse _ _).
Qed.

(** What an observation of each step gives over a run: [run_collect heard] is what the
    run relays of what it hears, [run_collect lost] what it loses. *)
Fixpoint run_collect {A} (observe : Clock → Session T C U → Event U → list A) (events : list (Clock * Event U)) s : list A :=
  match events with
  | [] => []
  | (c, ev) :: events =>
      observe c s ev ++ match step config c s ev with Some s' => run_collect observe events s' | None => [] end
  end.

Lemma run_relayed events s s' :
  buffer_inv s → Forall new_connection events → run config events s = Some s' →
  relayed s' = relayed s ++ run_collect heard events s ∧ buffer_inv s'.
Proof.
  revert s. induction events as [|[c ev] events IH]; intros s Hinv Hnew Hrun; simpl in *.
  { simplify_eq. by rewrite app_nil_r. }
  apply bind_Some in Hrun as (s1 & Hs & Hrun). rewrite Hs. apply Forall_cons in Hnew as [Hev Hnew].
  destruct (step_relayed c s ev s1 Hinv Hev Hs) as [E1 Hinv1].
  destruct (IH s1 Hinv1 Hnew Hrun) as [-> ?]. by rewrite E1, app_assoc.
Qed.

Lemma run_lost events s s' :
  buffer_inv s → Forall new_connection events → run config events s = Some s' →
  (length (run_collect lost events s) + (if forwarding s' then 1 else 0) <=
     (if forwarding s then 1 else 0) + length (retain connects events))%nat ∧
  Forall (λ t, parses t = false) (run_collect lost events s).
Proof.
  revert s. induction events as [|[c ev] events IH]; intros s Hinv Hnew Hrun; cbn [run run_collect] in *.
  { simplify_eq. split; [simpl; lia|constructor]. }
  apply bind_Some in Hrun as (s1 & Hs & Hrun). rewrite Hs. apply Forall_cons in Hnew as [Hev Hnew].
  pose proof (step_lost c s ev s1 Hinv Hs) as Hl. destruct (step_relayed c s ev s1 Hinv Hev Hs) as [_ Hinv1].
  destruct (IH s1 Hinv1 Hnew Hrun) as [Hn Hu]. split; [|by apply Forall_app_2; [apply lost_unparsed|]].
  rewrite length_app. unfold retain in *. cbn [List.filter]. destruct (connects (c, ev)); simpl in *; lia.
Qed.

Lemma session_new_inv c id tx charger m :
  buffer_inv (session_new config c id tx charger m) ∧ relayed (session_new config c id tx charger m) = [].
Proof.
  unfold session_new. match goal with |- context [begin_connect c ?x] =>
    destruct (begin_connect_relayed c x) as (-> & Hp & Hb) end.
  unfold buffer_inv, forwarding. rewrite Hp, Hb. split_and!; try done. simpl. lia.
Qed.
End relay.

Section relay_theorems.
Context {T C U : Type} `{MpscSender T MqttEvent} `{AsyncSenderLaws C AxumMessage} `{UpstreamLinkLaws U}
  `{SerdeJson} `{Chrono}.
Context (config : SessionConfig).
Implicit Types (s : Session T C U).

(** C1. What passes between charger and Central System is relayed exactly, across any
    number of upstream connections, failures and timeouts, the connections being new
    when the session gets them: what a session has put on all its upstream connections,
    followed by what waits in its buffer, is byte for byte and in order, without
    repetition, what it read from the charger while forwarding, less the answers to the
    proxy's own Calls and less the texts it loses. A text is lost only when it is no OCPP
    frame and the connection refuses it, which ends that connection: at most one is lost
    for each connection, and no frame ever is. *)
Theorem relay_exact c id tx charger m events s :
  Forall new_connection events →
  run config events (session_new config c id tx charger m) = Some s →
  sent_upstream s ++ (raw <$> upstream_buffer (s_forwarder s)) =
    run_collect config heard events (session_new config c id tx charger m) ∧
  Forall (λ text, parses text = false) (run_collect config lost events (session_new config c id tx charger m)) ∧
  (length (run_collect config lost events (session_new config c id tx charger m)) + (if forwarding s then 1 else 0) <=
     length (retain connects events))%nat.
Proof.
  intros Hnew Hrun. destruct (session_new_inv config c id tx charger m) as [Hinv E].
  destruct (run_lost config events _ s Hinv Hnew Hrun) as [Hn Hu].
  apply run_relayed in Hrun as [Hr _]; [|done..]. unfold relayed in Hr. rewrite Hr.
  change (sent_upstream ?x ++ (raw <$> upstream_buffer (s_forwarder ?x))) with (relayed x). rewrite E.
  assert (forwarding (session_new (U := U) config c id tx charger m) = false) as Ef by (unfold session_new, begin_connect; done).
  rewrite Ef in Hn. by split_and!.
Qed.

(** The upstream buffer, sized for a hundred messages, never holds more than one
    in a session: frames are buffered only on the send failure that ends forwarding,
    and the buffer is empty whenever the session forwards. *)
Theorem session_buffers_at_most_one c id tx charger m events s :
  Forall new_connection events →
  run config events (session_new config c id tx charger m) = Some s →
  (length (upstream_buffer (s_forwarder s)) <= 1)%nat ∧
  (forwarding s = true → upstream_buffer (s_forwarder s) = []).
Proof.
  intros Hnew Hrun. destruct (session_new_inv config c id tx charger m) as [Hinv _].
  by apply run_relayed in Hrun as [_ [? ?]].
Qed.

(** A frame the charger sends in the wait after a failed connect is dropped: it
    is neither sent nor buffered, it is answered by no one, and it ends the wait, so
    the session connects again at once instead of when its backoff says. *)
Theorem retry_frame_dropped c s delay text :
  s_phase s = PhRetry delay →
  ∃ s', step config c s (EvCharger (Some (Ok (AxText text)))) = Some s' ∧
        s_phase s' = PhConnect ∧ sent_upstream s' = sent_upstream s ∧
        upstream_buffer (s_forwarder s') = upstream_buffer (s_forwarder s) ∧
        s_charger s' = s_charger s.
Proof.
  intros Hp. exists (begin_connect c s). unfold step. rewrite Hp.
  pose proof (begin_connect_relayed c s) as (_ & Hp' & Hb).
  destruct (set_upstream_state_rest (utc_now c) s Connecting) as (_ & _ & Hc & _).
  split_and!; try done. unfold sent_upstream. rewrite Hp, Hp'.
  pose proof (set_upstream_state_transport (utc_now c) s Connecting) as E. unfold transport in E.
  assert (s_past (set_upstream_state (utc_now c) s Connecting) = s_past s) as Ep by (by simplify_eq/=).
  simpl. by rewrite Ep.
Qed.

(** The charger's channel and the outcome of a Central System's text. *)
(** What the Central System says reaches the charger verbatim, whether or not it
    parses: the text is the next message of the charger's channel and the session
    goes on, or the channel is closed and the session tears down. *)
Theorem central_text_relayed c s up text s' :
  s_phase s = PhForward up →
  step config c s (EvUpstream (Some (Ok (TuText text)))) = Some s' →
  (accepted (s_charger s') = accepted (s_charger s) ++ [AxText text] ∧ s_phase s' = PhForward up) ∨
  (send_wait (s_charger s) (AxText text)).2 = false ∧ s_phase s' = PhClosing.
Proof.
  intros Hp. unfold step. rewrite Hp. simpl. unfold on_upstream_text.
  assert (∀ s1 : Session T C U, s_phase (teardown c s1) = PhClosing) as Htd.
  { intros s1. apply (teardown_relayed c s1). }
  destruct (parse (utc_now c) text) as [frame|e] eqn:Hparse.
  - unfold forward_downstream, forward_message. rewrite (parse_raw _ _ _ Hparse). simpl.
    unfold charger_send_raw. simpl.
    destruct (send_wait (s_charger s) (AxText text)) as [ch ok] eqn:Hsend.
    pose proof (send_wait_accepted _ _ _ _ Hsend) as Hacc. destruct ok; simpl.
    + destruct (resolve_action (utc_now c) (s_forwarder s) frame CentralToCharger) as [fwd act]. simpl.
      intros [= <-]. by left.
    + intros [= <-]. right. by rewrite Htd.
  - simpl. unfold charger_send_raw. simpl.
    destruct (send_wait (s_charger s) (AxText text)) as [ch ok] eqn:Hsend.
    pose proof (send_wait_accepted _ _ _ _ Hsend) as Hacc. destruct ok; simpl; intros [= <-].
    + by left.
    + right. by rewrite Htd.
Qed.
End relay_theorems.

(** ** Witnesses *)

#[local] Existing Instance reference_codec.
#[local] Existing Instance plain_chrono.

(** A frame met by a dead connection, and relayed on the next one. *)
Definition replay_events : list (Clock * Event ListLink) :=
  [(at_time 1, EvConnect (Ok dead_link)); (at_time 2, EvCharger (Some (Ok (AxText heartbeat_text))));
   (at_time 3, EvSlept); (at_time 4, EvConnect (Ok good_link))].

Lemma replay_events_new_connection : Forall new_connection replay_events.
Proof.
  unfold replay_events.
  repeat (apply Forall_cons_2; [vm_compute; (reflexivity || exact I)|]). apply Forall_nil_2.
Qed.

Definition replayed : ExampleSession := default example_session (example_run replay_events example_session).

Lemma replayed_run :
  run sample_session_config replay_events
    (session_new sample_session_config (at_time 0) "CP-1" [] (mkCounted [] 1000) manager_new) = Some replayed.
Proof. vm_compute. reflexivity. Qed.

(** The same, after a text that is no frame met a dead connection: that text is lost. *)
Definition lossy_events : list (Clock * Event ListLink) :=
  [(at_time 1, EvConnect (Ok dead_link)); (at_time 2, EvCharger (Some (Ok (AxText "hello"))));
   (at_time 3, EvSlept); (at_time 4, EvConnect (Ok good_link)); (at_time 5, EvCharger (Some (Ok (AxText heartbeat_text))))].

Lemma lossy_events_new_connection : Forall new_connection lossy_events.
Proof.
  unfold lossy_events.
  repeat (apply Forall_cons_2; [vm_compute; (reflexivity || exact I)|]). apply Forall_nil_2.
Qed.

Definition lossy : ExampleSession := default example_session (example_run lossy_events example_session).

Lemma lossy_run :
  run sample_session_config lossy_events
    (session_new sample_session_config (at_time 0) "CP-1" [] (mkCounted [] 1000) manager_new) = Some lossy.
Proof. vm_compute. reflexivity. Qed.

Lemma relay_exact_witness :
  sent_upstream lossy ++ (raw <$> upstream_buffer (s_forwarder lossy)) = [heartbeat_text] ∧
  parses "hello" = false.
Proof.
  destruct (relay_exact sample_session_config (at_time 0) "CP-1" [] (mkCounted [] 1000) manager_new
    lossy_events lossy lossy_events_new_connection lossy_run) as (E & Hu & _). split.
  - refine (eq_trans E _). vm_compute. reflexivity.
  - refine (Forall_inv (l := []) (eq_ind _ (Forall _) Hu _ _)). vm_compute. reflexivity.
Defined.

(** A text of the charger that is no OCPP frame and meets a connection that is gone is
    lost: it is neither sent nor buffered, although a frame in its place would wait for
    the next connection. *)
Theorem unparsed_text_lost :
  run_collect sample_session_config lost lossy_events example_session = ["hello"%string] ∧
  upstream_buffer (s_forwarder lossy) = [] ∧ sent_upstream lossy = [heartbeat_text] ∧
  sent_upstream replayed = [heartbeat_text].
Proof. vm_compute. split_and!; reflexivity. Qed.

Lemma session_buffers_at_most_one_witness :
  (length (upstream_buffer (s_forwarder replayed)) <= 1)%nat ∧
  (forwarding replayed = true → upstream_buffer (s_forwarder replayed) = []).
Proof.
  exact (session_buffers_at_most_one sample_session_config (at_time 0) "CP-1" [] (mkCounted [] 1000) manager_new
    replay_events replayed replay_events_new_connection replayed_run).
Defined.

(** A session whose first connect failed. *)
Definition retrying : ExampleSession :=
  default example_session (example_run [(at_time 1, EvConnect (Err (ConnectionUpstream "refused")))] example_session).

Lemma retrying_phase : s_phase retrying = PhRetry (from_secs 1).
Proof. vm_compute. reflexivity. Qed.

Lemma retry_frame_dropped_witness :
  ∃ s', step sample_session_config (at_time 2) retrying (EvCharger (Some (Ok (AxText heartbeat_text)))) = Some s' ∧
        sent_upstream s' = [].
Proof.
  destruct (retry_frame_dropped sample_session_config (at_time 2) retrying (from_secs 1) heartbeat_text
    retrying_phase) as (s' & Hs & _ & E & _).
  exists s'. split; [exact Hs|]. rewrite E. vm_compute. reflexivity.
Defined.

Definition forwarding_session : ExampleSession :=
  default example_session (example_run [(at_time 1, EvConnect (Ok good_link))] example_session).

Definition told_session : ExampleSession :=
  default example_session (example_run [(at_time 2, EvUpstream (Some (Ok (TuText "hello"))))] forwarding_session).

Lemma forwarding_phase : s_phase forwarding_session = PhForward good_link.
Proof. vm_compute. reflexivity. Qed.

Lemma told_step :
  step sample_session_config (at_time 2) forwarding_session (EvUpstream (Some (Ok (TuText "hello")))) = Some told_session.
Proof. vm_compute. reflexivity. Qed.

Lemma central_text_relayed_witness :
  accepted (s_charger told_session) = [AxText "hello"] ∨ s_phase told_session = PhClosing.
Proof.
  destruct (central_text_relayed sample_session_config (at_time 2) forwarding_session good_link "hello" told_session
    forwarding_phase told_step) as [[E _]|[_ E]]; [left|by right].
  rewrite E. vm_compute. reflexivity.
Defined.
