(* ===== verification/SessionMirror.v ===== *)
(** * The publisher's channel does not matter to a session (src/session.rs)

    A session offers events to the publisher with [try_send] and never looks at the
    outcome. So a session on any channel, in any state, full or closed ones included, runs
    as the session on a channel that records what it is offered; and the channel is what
    it becomes when the recorded events are offered to it in order. System.v, where
    sessions record and a bounded queue takes what fits, rests on this. *)

From S2P Require Import Prelude Float64 Json Models StateManager Config Command CallQueue Forwarder Session.
From S2P Require Import SessionRelay.

Local Open Scope Z_scope.

(** A session moved to another channel. *)
Definition forwarder_on {T T' : Type} (tx : T') (fwd : MessageForwarder T) : MessageForwarder T' :=
  mkForwarder (upstream_buffer fwd) (downstream_buffer fwd) (max_buffer_size fwd) (max_buffer_duration fwd)
    tx (call_tracker fwd) (fwd_charge_point_id fwd).

Definition on_channel {T T' C U : Type} (tx : T') (s : Session T C U) : Session T' C U :=
  mkSession (s_id s) (forwarder_on tx (s_forwarder s)) (s_backoff s) (s_reconnecting_since s) (s_close_code s)
    (s_local s) (s_commands_open s) (s_charger s) (s_state s) (s_inbox s) (s_past s) (s_phase s).

(** A channel after a list of events was offered to it. *)
Definition send_all {T} `{MpscSender T MqttEvent} (tx : T) (events : list MqttEvent) : T :=
  foldl (λ tx e, (try_send tx e).1) tx events.

Lemma send_all_snoc {T} `{MpscSender T MqttEvent} (tx : T) l e : (try_send (send_all tx l) e).1 = send_all tx (l ++ [e]).
Proof. unfold send_all. by rewrite foldl_app. Qed.

Section mirror.
Context {T C U : Type} `{MpscSender T MqttEvent} `{AsyncSender C AxumMessage} `{UpstreamLink U} `{SerdeJson} `{Chrono}.
Context (config : SessionConfig) (tx : T).
Abbreviation Recorder := (Session (list MqttEvent) C U).
Implicit Types (s : Session T C U) (q : Recorder) (x : Session unit C U).

(** A session and its recording: the same but for the channel, which has been offered
    what was recorded. *)
Inductive mirrors : Session T C U → Recorder → Prop :=
  | Mirrors x l : mirrors (on_channel (send_all tx l) x) (on_channel l x).

(** Handlers that return a session and something else, and partial ones. *)
Definition mirrors_with {A} (r : Session T C U * A) (r' : Recorder * A) : Prop := mirrors r.1 r'.1 ∧ r.2 = r'.2.

Lemma mirrors_intro x l tx' s q :
  s = on_channel tx' x → q = on_channel l x → tx' = send_all tx l → mirrors s q.
Proof. intros -> -> ->. constructor. Qed.

Ltac mirror :=
  match goal with |- mirrors ?s (mkSession ?i (mkForwarder ?ub ?db ?n ?d ?l ?t ?f) ?b ?r ?cc ?lo ?o ?ch ?st ?inb ?pa ?ph) =>
    apply (mirrors_intro (mkSession i (mkForwarder ub db n d () t f) b r cc lo o ch st inb pa ph) l (mqtt_tx (s_forwarder s)));
    [reflexivity|reflexivity|try reflexivity; simpl; rewrite ?send_all_snoc; reflexivity]
  end.

(** Take a mirrored pair apart, and put one together. *)
Ltac unmirror Hm :=
  destruct Hm as [[? [] ? ? ? ? ? ? ? ? ? ?] ?]; unfold on_channel, forwarder_on in *; simpl in *.

(** What is not the channel is the same on both sides. *)
Lemma mirrors_fields s q :
  mirrors s q →
  s_id s = s_id q ∧ s_backoff s = s_backoff q ∧ s_reconnecting_since s = s_reconnecting_since q ∧
  s_close_code s = s_close_code q ∧ s_local s = s_local q ∧ s_commands_open s = s_commands_open q ∧
  s_charger s = s_charger q ∧ s_state s = s_state q ∧ s_inbox s = s_inbox q ∧ s_past s = s_past q ∧
  s_phase s = s_phase q.
Proof. intros Hm. by unmirror Hm. Qed.

Lemma mirrors_forwarder s q :
  mirrors s q → s_forwarder s = forwarder_on (send_all tx (mqtt_tx (s_forwarder q))) (s_forwarder q).
Proof. intros Hm. by unmirror Hm. Qed.

Ltac fields Hm :=
  pose proof (mirrors_fields _ _ Hm) as (_ & ? & ? & ? & ? & ? & ? & ? & ? & ? & ?);
  repeat match goal with
  | H : s_backoff _ = _ |- _ => rewrite H; clear H
  | H : s_reconnecting_since _ = _ |- _ => rewrite H; clear H
  | H : s_close_code _ = _ |- _ => rewrite H; clear H
  | H : s_local _ = _ |- _ => rewrite H; clear H
  | H : s_commands_open _ = _ |- _ => rewrite H; clear H
  | H : s_charger _ = _ |- _ => rewrite H; clear H
  | H : s_state _ = _ |- _ => rewrite H; clear H
  | H : s_inbox _ = _ |- _ => rewrite H; clear H
  | H : s_past _ = _ |- _ => rewrite H; clear H
  | H : s_phase _ = _ |- _ => rewrite H; clear H
  end.

Lemma mirrors_set_backoff s q v : mirrors s q → mirrors (set_backoff s v) (set_backoff q v).
Proof. intros Hm. unmirror Hm. unfold set_backoff. simpl. mirror. Qed.
Lemma mirrors_set_since s q v : mirrors s q → mirrors (set_since s v) (set_since q v).
Proof. intros Hm. unmirror Hm. unfold set_since. simpl. mirror. Qed.
Lemma mirrors_set_close_code s q v : mirrors s q → mirrors (set_close_code s v) (set_close_code q v).
Proof. intros Hm. unmirror Hm. unfold set_close_code. simpl. mirror. Qed.
Lemma mirrors_set_local s q v : mirrors s q → mirrors (set_local s v) (set_local q v).
Proof. intros Hm. unmirror Hm. unfold set_local. simpl. mirror. Qed.
Lemma mirrors_set_commands_open s q v : mirrors s q → mirrors (set_commands_open s v) (set_commands_open q v).
Proof. intros Hm. unmirror Hm. unfold set_commands_open. simpl. mirror. Qed.
Lemma mirrors_set_charger s q v : mirrors s q → mirrors (set_charger s v) (set_charger q v).
Proof. intros Hm. unmirror Hm. unfold set_charger. simpl. mirror. Qed.
Lemma mirrors_set_state s q v : mirrors s q → mirrors (set_state s v) (set_state q v).
Proof. intros Hm. unmirror Hm. unfold set_state. simpl. mirror. Qed.
Lemma mirrors_set_inbox s q v : mirrors s q → mirrors (set_inbox s v) (set_inbox q v).
Proof. intros Hm. unmirror Hm. unfold set_inbox. simpl. mirror. Qed.
Lemma mirrors_set_phase s q v : mirrors s q → mirrors (set_phase s v) (set_phase q v).
Proof. intros Hm. unmirror Hm. unfold set_phase. simpl. mirror. Qed.
Lemma mirrors_drop_link s q : mirrors s q → mirrors (drop_link s) (drop_link q).
Proof. intros Hm. unmirror Hm. unfold drop_link. simpl. mirror. Qed.

(** The forwarder's own operations, the channel aside. *)
Lemma mirrors_set_forwarder s q fwd' :
  mirrors s q → mirrors (set_forwarder s (forwarder_on (send_all tx (mqtt_tx fwd')) fwd')) (set_forwarder q fwd').
Proof. intros Hm. unmirror Hm. destruct fwd'. unfold set_forwarder, forwarder_on. simpl. mirror. Qed.

Lemma mirrors_emit s q e : mirrors s q → mirrors (emit_command_result s e) (emit_command_result q e).
Proof. intros Hm. unmirror Hm. unfold emit_command_result, send_event, set_mqtt_tx, set_forwarder. simpl. mirror. Qed.

Lemma mirrors_emit_all l s q : mirrors s q → mirrors (emit_all s l) (emit_all q l).
Proof. revert s q. induction l as [|e l IH]; intros s q Hm; [done|]. simpl. by apply IH, mirrors_emit. Qed.

Lemma mirrors_set_upstream_state now s q st : mirrors s q → mirrors (set_upstream_state now s st) (set_upstream_state now q st).
Proof.
  intros Hm. unmirror Hm. unfold set_upstream_state. simpl. case_decide; [mirror|].
  unfold publish_status, send_event, set_mqtt_tx, set_forwarder, set_state. simpl. mirror.
Qed.

Lemma mirrors_pair {A} s q (a : A) : mirrors s q → mirrors_with (s, a) (q, a).
Proof. by split. Qed.

Create HintDb mirror.
Hint Resolve mirrors_pair mirrors_set_backoff mirrors_set_since mirrors_set_close_code mirrors_set_local mirrors_set_commands_open
  mirrors_set_charger mirrors_set_state mirrors_set_inbox mirrors_set_phase mirrors_drop_link mirrors_set_forwarder
  mirrors_emit mirrors_emit_all mirrors_set_upstream_state : mirror.

Lemma mirrors_complete now s q f frame :
  mirrors s q → mirrors (complete_local_call now s f frame) (complete_local_call now q f frame).
Proof. unfold complete_local_call. destruct (interpret_response _ _) as [[??]?]. auto with mirror. Qed.
Hint Resolve mirrors_complete : mirror.

(** ** Sending proxy Calls *)

Lemma mirrors_send_loop fuel c s q :
  mirrors s q → mirrors_with (send_loop config fuel c s) (send_loop config fuel c q).
Proof.
  revert s q. induction fuel as [|fuel IH]; intros s q Hm; [by split|]. cbn [send_loop]. fields Hm.
  destruct (pop_next (s_local q)) as [[request|] local]; [|by split].
  destruct (next_unique_id (utc_now c) local) as [uid local']. destruct (prepare_call _ _ _ _) as [p|reason].
  - cbn [s_charger set_local]. fields Hm. destruct (send_raw _ _) as [sink [u|e]]; split; try done; cbn [fst]; auto with mirror.
  - apply IH. auto with mirror.
Qed.

Lemma mirrors_send_local_calls c s q :
  mirrors s q → mirrors_with (send_local_calls config c s) (send_local_calls config c q).
Proof.
  intros Hm. unfold send_local_calls. fields Hm.
  destruct (_ || _); [by split|]. rewrite (mirrors_forwarder _ _ Hm).
  change (has_recent_pending_call (utc_now c) (forwarder_on ?l ?fwd)) with (has_recent_pending_call (utc_now c) fwd).
  destruct (has_recent_pending_call _ _ _ _); [by split|]. by apply mirrors_send_loop.
Qed.

Lemma mirrors_calls c s q :
  mirrors s q → mirrors_with (charger_gone_unless (send_local_calls config c s)) (charger_gone_unless (send_local_calls config c q)).
Proof.
  intros Hm%(mirrors_send_local_calls c). destruct Hm as [Hm E]. unfold charger_gone_unless, mirrors_with. simpl. by rewrite E.
Qed.
Hint Resolve mirrors_calls : mirror.

(** ** The arms of [forward_loop] *)

Lemma mirrors_forward_message {S} `{MessageSink S} now s q frame (sink : S) d :
  mirrors s q →
  mirrors (set_forwarder s (forward_message now (s_forwarder s) frame sink d).1.1)
          (set_forwarder q (forward_message now (s_forwarder q) frame sink d).1.1) ∧
  (forward_message now (s_forwarder s) frame sink d).1.2 = (forward_message now (s_forwarder q) frame sink d).1.2 ∧
  (forward_message now (s_forwarder s) frame sink d).2 = (forward_message now (s_forwarder q) frame sink d).2.
Proof.
  intros Hm. unmirror Hm. unfold forward_message. destruct (send_raw sink (raw frame)) as [sink' [u|e]].
  - unfold resolve_action. simpl. destruct (message_type frame); simpl;
      (split_and!; [unfold set_forwarder, send_event, set_mqtt_tx; simpl; mirror|done..]).
  - simpl. split_and!; [unfold set_forwarder; simpl; mirror|done..].
Qed.

Lemma mirrors_buffer_upstream s q frame :
  mirrors s q → mirrors (set_forwarder s (buffer_upstream (s_forwarder s) frame)) (set_forwarder q (buffer_upstream (s_forwarder q) frame)).
Proof. intros Hm. unmirror Hm. unfold set_forwarder, buffer_upstream, set_upstream_buffer. simpl. mirror. Qed.

Lemma mirrors_forward_charger_frame c s q up frame text :
  mirrors s q → mirrors_with (forward_charger_frame config c s up frame text) (forward_charger_frame config c q up frame text).
Proof.
  intros Hm. unfold forward_charger_frame, forward_upstream.
  pose proof (mirrors_forward_message (utc_now c) s q frame (mkUpstreamSink up) ChargerToCentral Hm) as Hf.
  destruct (forward_message _ (s_forwarder s) _ _ _) as [[fwd sink] r], (forward_message _ (s_forwarder q) _ _ _) as [[fwd' sink'] r'].
  cbn [fst snd] in Hf. destruct Hf as (Hf & <- & <-). apply (mirrors_set_phase _ _ (PhForward (up_sink sink))) in Hf.
  revert Hf. generalize (set_phase (set_forwarder s fwd) (PhForward (up_sink sink))).
  generalize (set_phase (set_forwarder q fwd') (PhForward (up_sink sink))). intros q1 s1 Hm1. destruct r.
  - cbn [s_state s_local set_state]. fields Hm1. destruct (is_empty (s_local q1)); auto with mirror.
  - destruct (parse _ _); auto using mirrors_buffer_upstream with mirror.
Qed.

Lemma mirrors_on_charger c s q up incoming :
  mirrors s q → mirrors_with (on_charger config c s up incoming) (on_charger config c q up incoming).
Proof.
  intros Hm. destruct incoming as [[[text| | | |]|e]|]; try (by split). cbn [on_charger]. unfold on_charger_text. fields Hm.
  destruct (parse _ _) as [frame|e].
  - destruct (take_answer (s_local q) frame) as [[f|] local]; [auto with mirror|by apply mirrors_forward_charger_frame].
  - destruct (send_raw _ _) as [sink r]. auto with mirror.
Qed.

Lemma mirrors_on_upstream c s q up incoming :
  mirrors s q → mirrors_with (on_upstream c s up incoming) (on_upstream c q up incoming).
Proof.
  intros Hm. destruct incoming as [[[text| |data| | |]|e]|]; try (by split); cbn [on_upstream].
  - unfold on_upstream_text. fields Hm. destruct (parse _ _) as [frame|e].
    + unfold forward_downstream.
      pose proof (mirrors_forward_message (utc_now c) s q frame (mkChargerSink (s_charger q)) CentralToCharger Hm) as Hf.
      destruct (forward_message _ (s_forwarder s) _ _ _) as [[fwd sink] r], (forward_message _ (s_forwarder q) _ _ _) as [[fwd' sink'] r'].
      cbn [fst snd] in Hf. destruct Hf as (Hf & <- & <-). apply (mirrors_set_charger _ _ (ch_tx sink)) in Hf.
      revert Hf. generalize (set_charger (set_forwarder s fwd) (ch_tx sink)) (set_charger (set_forwarder q fwd') (ch_tx sink)).
      intros s1 q1 Hm1. destruct r; [|by split]. fields Hm1. auto with mirror.
    + destruct (send_raw _ _) as [sink r]. auto with mirror.
  - destruct (link_send up _) as [up' r]. auto with mirror.
Qed.

Lemma mirrors_on_command c s q request :
  mirrors s q → mirrors_with (on_command config c s request) (on_command config c q request).
Proof. intros Hm. unfold on_command. fields Hm. destruct (push (s_local q) request). auto with mirror. Qed.

Lemma mirrors_on_command_tick c s q :
  mirrors s q → mirrors_with (on_command_tick config c s) (on_command_tick config c q).
Proof. intros Hm. unfold on_command_tick. fields Hm. destruct (expire c (s_local q)) as [[local expired] f]. auto with mirror. Qed.

Lemma mirrors_on_housekeeping c s q : mirrors s q → mirrors (on_housekeeping c s) (on_housekeeping c q).
Proof.
  intros Hm. unmirror Hm. unfold on_housekeeping, set_forwarder, evict_expired_messages, cleanup_expired_calls. simpl.
  unfold set_call_tracker, set_downstream_buffer, set_upstream_buffer. simpl. mirror.
Qed.
Hint Resolve mirrors_on_charger mirrors_on_upstream mirrors_on_command mirrors_on_command_tick mirrors_on_housekeeping : mirror.

(** ** Connecting and tearing down *)

Lemma mirrors_begin_connect c s q : mirrors s q → mirrors (begin_connect c s) (begin_connect c q).
Proof. unfold begin_connect. auto with mirror. Qed.

Lemma mirrors_count_dropped s q : mirrors s q → mirrors (count_dropped s) (count_dropped q).
Proof. intros Hm. unmirror Hm. unfold count_dropped, set_state. simpl. case_decide; mirror. Qed.

Lemma mirrors_settle now s q : mirrors s q → mirrors (settle now s) (settle now q).
Proof.
  intros Hm. unfold settle. fields Hm. destruct (drain_queue (s_local q)) as [[local requests] f].
  set (s1 := emit_all (emit_all (set_local s _) _) _). set (q1 := emit_all (emit_all (set_local q _) _) _).
  assert (mirrors s1 q1) as Hm1 by (unfold s1, q1; auto with mirror). clearbody s1 q1. fields Hm1. auto with mirror.
Qed.

Lemma mirrors_teardown c s q : mirrors s q → mirrors (teardown c s) (teardown c q).
Proof.
  intros Hm. apply mirrors_count_dropped, (mirrors_settle (utc_now c)) in Hm. unfold teardown, close_message.
  revert Hm. generalize (settle (utc_now c) (count_dropped s)) (settle (utc_now c) (count_dropped q)).
  intros s1 q1 Hm. fields Hm. destruct (send_wait _ _). auto with mirror.
Qed.

Lemma mirrors_close_down c s q : mirrors s q → mirrors (close_down c s) (close_down c q).
Proof. unfold close_down. auto with mirror. Qed.
Hint Resolve mirrors_begin_connect mirrors_teardown mirrors_close_down : mirror.

Lemma mirrors_connect_failed c s q : mirrors s q → option_Forall2 mirrors (connect_failed config c s) (connect_failed config c q).
Proof.
  intros Hm. unfold connect_failed. fields Hm. destruct (_ <=? _); [constructor; auto with mirror|].
  set (s1 := set_upstream_state _ (set_since s _) _). set (q1 := set_upstream_state _ (set_since q _) _).
  assert (mirrors s1 q1) as Hm1 by (unfold s1, q1; auto with mirror). clearbody s1 q1. fields Hm1.
  destruct (next_delay (s_backoff q1)) as [[delay b]|]; cbn; constructor. auto with mirror.
Qed.

Lemma mirrors_flush_upstream {S} `{MessageSink S} s q (sink : S) :
  mirrors s q →
  mirrors (set_forwarder s (flush_upstream (s_forwarder s) sink).1.1) (set_forwarder q (flush_upstream (s_forwarder q) sink).1.1) ∧
  (flush_upstream (s_forwarder s) sink).1.2 = (flush_upstream (s_forwarder q) sink).1.2 ∧
  (flush_upstream (s_forwarder s) sink).2 = (flush_upstream (s_forwarder q) sink).2.
Proof.
  intros Hm. unmirror Hm. unfold flush_upstream, set_upstream_buffer. simpl.
  destruct (flush_buffer _ sink) as [[rest sink'] r]. simpl. split_and!; [unfold set_forwarder; simpl; mirror|done..].
Qed.

Lemma mirrors_connected c s q up : mirrors s q → mirrors (connected c s up) (connected c q up).
Proof.
  intros Hm. unfold connected. fields Hm.
  set (s1 := set_upstream_state _ (set_since (set_backoff s _) _) _). set (q1 := set_upstream_state _ (set_since (set_backoff q _) _) _).
  assert (mirrors s1 q1) as Hm1 by (unfold s1, q1; auto with mirror). clearbody s1 q1.
  pose proof (mirrors_flush_upstream s1 q1 (mkUpstreamSink up) Hm1) as Hf.
  destruct (flush_upstream (s_forwarder s1) _) as [[fwd sink] r], (flush_upstream (s_forwarder q1) _) as [[fwd' sink'] r'].
  cbn [fst snd] in Hf. destruct Hf as (Hf & <- & <-). apply (mirrors_set_phase _ _ (PhForward (up_sink sink))) in Hf.
  revert Hf. generalize (set_phase (set_forwarder s1 fwd) (PhForward (up_sink sink))).
  generalize (set_phase (set_forwarder q1 fwd') (PhForward (up_sink sink))). intros q2 s2 Hm2. destruct r; [|auto with mirror].
  fields Hm2. auto with mirror.
Qed.

Lemma mirrors_upstream_lost c s q : mirrors s q → option_Forall2 mirrors (upstream_lost c s) (upstream_lost c q).
Proof.
  intros Hm. unfold upstream_lost. set (s0 := set_forwarder s _). set (q0 := set_forwarder q _).
  assert (mirrors s0 q0) as Hm0.
  { unfold s0, q0, discard_downstream_buffer, set_downstream_buffer. clear s0 q0. unmirror Hm. unfold set_forwarder. simpl. mirror. }
  clearbody s0 q0. apply (mirrors_set_upstream_state (utc_now c) _ _ Reconnecting) in Hm0. revert Hm0.
  generalize (set_upstream_state (utc_now c) s0 Reconnecting) (set_upstream_state (utc_now c) q0 Reconnecting).
  intros s1 q1 Hm1. cbn [s_backoff set_since]. fields Hm1.
  destruct (next_delay (s_backoff q1)) as [[delay b]|]; cbn; constructor. auto with mirror.
Qed.

Lemma mirrors_after_loop c r r' : mirrors_with r r' → option_Forall2 mirrors (after_loop c r) (after_loop c r').
Proof.
  destruct r as [s o], r' as [q o']. intros [Hm Ho]. cbn [fst snd] in *. subst o'. unfold after_loop.
  destruct o as [[| |]|]; try (constructor; auto with mirror; done). apply mirrors_upstream_lost. auto with mirror.
Qed.

(** ** Steps and runs *)

Lemma mirrors_loop_event c s q up ev :
  mirrors s q → option_Forall2 mirrors_with (loop_event config c s up ev) (loop_event config c q up ev).
Proof.
  intros Hm. unfold loop_event. destruct ev; try constructor; auto with mirror; fields Hm.
  - destruct (s_commands_open q); [|constructor]. destruct (s_inbox q); constructor. auto with mirror.
  - destruct (_ && _); constructor. auto with mirror.
  - destruct (is_empty _); constructor. auto with mirror.
Qed.

Lemma mirrors_step c s q ev : mirrors s q → option_Forall2 mirrors (step config c s ev) (step config c q ev).
Proof.
  intros Hm. assert (∀ up, option_Forall2 mirrors (loop_event config c s up ev ≫= after_loop c) (loop_event config c q up ev ≫= after_loop c)) as Hl.
  { intros up. destruct (mirrors_loop_event c s q up ev Hm) as [r r' Hr|]; cbn; [by apply mirrors_after_loop|constructor]. }
  pose proof (mirrors_fields _ _ Hm) as (_ & _ & _ & _ & _ & _ & _ & _ & Ei & _ & Ep).
  unfold step. rewrite Ep. destruct ev as [[up|e]|m|m| | | | | | |request|m], (s_phase q);
    try apply Hl; try (constructor; auto with mirror; fail); rewrite ?Ei; try (constructor; auto with mirror; fail).
  - constructor. by apply mirrors_connected.
  - by apply mirrors_connect_failed.
  - constructor. destruct (hung_up m); auto with mirror.
Qed.

Lemma mirrors_run events s q : mirrors s q → option_Forall2 mirrors (run config events s) (run config events q).
Proof.
  revert s q. induction events as [|[c ev] events IH]; intros s q Hm; cbn [run]; [by constructor|].
  destruct (mirrors_step c s q ev Hm) as [s1 q1 Hm1|]; cbn; [by apply IH|constructor].
Qed.
End mirror.

(** A channel that records has recorded what it was offered. *)
Lemma send_all_recorded (l events : list MqttEvent) : send_all l events = l ++ events.
Proof.
  revert l. induction events as [|e events IH]; intros l; simpl; [by rewrite app_nil_r|].
  by rewrite (IH (l ++ [e])), <- app_assoc.
Qed.

Lemma run_recorded {T C U : Type} `{MpscSender T MqttEvent} `{AsyncSender C AxumMessage} `{UpstreamLink U} `{SerdeJson}
    `{Chrono} config (tx : T) events (s : Session unit C U) :
  match run config events (on_channel tx s), run config events (on_channel [] s) with
  | Some s', Some q => s' = on_channel (send_all tx (mqtt_tx (s_forwarder q))) q
  | None, None => True
  | _, _ => False
  end.
Proof.
  destruct (mirrors_run config tx events (on_channel tx s) (on_channel [] s)) as [s' q Hq|]; [|by destruct Hq|done].
  by apply (mirrors_intro tx s [] tx).
Qed.

(** ** Theorems *)

(** C8. Whatever the publisher's channel is and does, full or closed included, a session runs the
    same. Of two sessions alike but for their channels, one handles an event exactly when
    the other does, and panics exactly when the other does; they offer their channels the
    same events in the same order, whatever became of the earlier ones; and they end
    alike: the charger, the upstream connections, buffers, queue, call tracker, backoff
    and shared state. *)
Theorem publisher_never_matters {T T' C U : Type} `{MpscSender T MqttEvent} `{MpscSender T' MqttEvent}
    `{AsyncSender C AxumMessage} `{UpstreamLink U} `{SerdeJson} `{Chrono} config events (s : Session unit C U)
    (tx : T) (tx' : T') :
  match run config events (on_channel tx s), run config events (on_channel tx' s) with
  | Some s1, Some s2 =>
      ∃ offered x, s1 = on_channel (send_all tx offered) x ∧ s2 = on_channel (send_all tx' offered) (x : Session unit C U)
  | None, None => True
  | _, _ => False
  end.
Proof.
  pose proof (run_recorded config tx events s) as Hs. pose proof (run_recorded config tx' events s) as Hs'.
  destruct (run config events (on_channel tx s)) as [s1|], (run config events (on_channel tx' s)) as [s2|],
    (run config events (on_channel [] s)) as [q|]; try done. subst s1 s2.
  by exists (mqtt_tx (s_forwarder q)), (on_channel () q).
Qed.

(** ** Example: on a channel that takes nothing a frame is relayed all the same *)

#[local] Existing Instance reference_codec.
#[local] Existing Instance plain_chrono.
#[local] Instance closed_sender : MpscSender unit MqttEvent := { try_send tx _ := (tx, Err Closed) }.

Example relayed_unheard :
  sent_upstream <$> run sample_session_config replay_events (on_channel () example_session) = Some [heartbeat_text].
Proof. vm_compute. reflexivity. Qed.
