(* ===== verification/SessionCalls.v ===== *)
(** * The proxy's own Calls in a session (src/session.rs, src/command.rs)

    Every command handed to a session ends in exactly one result; the proxy talks to
    the charger only when the line is clear; its answers are kept from the Central
    System. Results are read off a channel that records what it is offered. *)

From S2P Require Import Prelude Float64 Json Models StateManager Config Command CallQueue Forwarder Session.

Local Open Scope Z_scope.

(** ** The ledger: results out, and requests still owed one *)

(** What a result repeats of its request. *)
Definition request_key (r : CommandRequest) : string * Value * CommandSource :=
  (req_id r, ProxyCommand_to_value (req_command r), req_source r).
Definition result_key (x : CommandResult) : string * Value * CommandSource :=
  (res_id x, res_command x, res_source x).

Definition results_of (events : list MqttEvent) : list CommandResult :=
  omap (λ e, match e with EvCommandResult _ x => Some x | _ => None end) events.

Section ledger.
Context {C U : Type} `{AsyncSender C AxumMessage} `{UpstreamLink U} `{SerdeJson} `{Chrono}.
Context (config : SessionConfig).
Abbreviation Session := (Session (list MqttEvent) C U).
Implicit Types (s : Session).

Definition results s : list CommandResult := results_of (mqtt_tx (s_forwarder s)).

Definition owed s : list CommandRequest := pending (s_local s) ++ s_inbox s.

Definition ledger s : list (string * Value * CommandSource) :=
  (result_key <$> results s) ++ (request_key <$> owed s).

Lemma ledger_emit s x : ledger (emit_command_result s x) ≡ₚ result_key x :: ledger s.
Proof.
  unfold ledger, results, results_of, owed. simpl. rewrite omap_app, fmap_app. simpl.
  rewrite <- app_assoc. simpl. by rewrite <- Permutation_middle.
Qed.

Lemma ledger_emit_all s l : ledger (emit_all s l) ≡ₚ (result_key <$> l) ++ ledger s.
Proof.
  revert s. induction l as [|x l IH]; intros s; simpl; [done|].
  by rewrite IH, ledger_emit, Permutation_middle.
Qed.

(** The results for a list of requests settle those requests. *)
Lemma keys_of (k : CommandRequest → CommandResult) (l : list CommandRequest) :
  (∀ r, result_key (k r) = request_key r) → result_key <$> (k <$> l) = request_key <$> l.
Proof. intros Hk. rewrite <- list_fmap_compose. apply list_fmap_ext. intros i r _. apply Hk. Qed.

Lemma key_displaced now r : result_key (displaced_result now r) = request_key r.
Proof. unfold displaced_result. by destruct (is_limit_command (req_command r)). Qed.

Lemma keys_in_flight (k : InFlight → CommandResult) (f : option InFlight) :
  (∀ g, result_key (k g) = request_key (fl_request g)) →
  result_key <$> (k <$> option_list f) = request_key <$> option_list (fl_request <$> f).
Proof. intros Hk. destruct f; simpl; by rewrite ?Hk. Qed.

(** What only moves between sockets, buffers and states leaves the ledger alone. *)
Lemma ledger_eq s s' :
  results s = results s' → pending (s_local s) = pending (s_local s') → s_inbox s = s_inbox s' → ledger s = ledger s'.
Proof. unfold ledger, owed. by intros -> -> ->. Qed.

Lemma results_send_event s e :
  (∀ id x, e ≠ EvCommandResult id x) → results (set_forwarder s (send_event (s_forwarder s) e)) = results s.
Proof.
  intros He. unfold results, results_of. simpl. rewrite omap_app.
  destruct e; try (by rewrite app_nil_r). by destruct (He charge_point_id result).
Qed.

Lemma ledger_set_upstream_state now s st : ledger (set_upstream_state now s st) = ledger s.
Proof.
  unfold set_upstream_state. case_decide; [done|]. apply ledger_eq; [|done..].
  unfold publish_status. by rewrite results_send_event.
Qed.

Lemma ledger_complete now s f frame :
  ledger (complete_local_call now s f frame) ≡ₚ request_key (fl_request f) :: ledger s.
Proof. unfold complete_local_call. destruct (interpret_response _ _) as [[? ?] ?]. by rewrite ledger_emit. Qed.

Lemma ledger_set_local s local :
  ledger (set_local s local) = (result_key <$> results s) ++ (request_key <$> pending local ++ s_inbox s).
Proof. done. Qed.

Lemma ledger_forward now s frame {S} `{MessageSink S} (sink : S) d :
  results (set_forwarder s (forward_message now (s_forwarder s) frame sink d).1.1) = results s.
Proof.
  unfold forward_message. destruct (send_raw sink (raw frame)) as [sink' [u|e]]; [|done].
  pose proof (resolve_action_rest now (s_forwarder s) frame d) as (_ & _ & E & _).
  destruct (resolve_action _ _ _ _) as [fwd act]. simpl in *.
  unfold results, results_of. simpl. by rewrite E, omap_app, app_nil_r.
Qed.

Lemma send_loop_ledger fuel c s :
  in_flight (s_local s) = None → ledger (send_loop config fuel c s).1 ≡ₚ ledger s.
Proof.
  revert s. induction fuel as [|fuel IH]; intros s Hf; simpl; [done|].
  destruct (pop_next (s_local s)) as [[request|] local] eqn:Hpop; [|done].
  apply pop_next_pending in Hpop as (Ep & _ & Hf').
  set (s1 := set_local s _).
  assert (request_key request :: ledger s1 ≡ₚ ledger s) as Es.
  { unfold s1. rewrite ledger_set_local. unfold ledger, owed. rewrite Ep. simpl.
    rewrite Permutation_middle. done. }
  destruct (prepare_call _ _ _ _) as [p|reason].
  - destruct (charger_send_raw _ _) as [sink [u|e]]; simpl; rewrite <- Es.
    + unfold ledger, owed, results. simpl. rewrite !fmap_app.
      rewrite (fmap_Permutation request_key _ _ (set_in_flight_pending (instant_now c) local request p Hf')).
      simpl. solve_Permutation.
    + rewrite ledger_emit. done.
  - rewrite IH by done. rewrite ledger_emit. by rewrite <- Es.
Qed.

Lemma send_local_calls_ledger c s : ledger (send_local_calls config c s).1 ≡ₚ ledger s.
Proof.
  unfold send_local_calls, has_in_flight. destruct (in_flight (s_local s)) as [f|] eqn:Hf; simpl; [done|].
  destruct (is_empty _); [done|]. destruct (has_recent_pending_call _ _ _ _); [done|].
  by apply send_loop_ledger.
Qed.

Lemma count_dropped_ledger s : ledger (count_dropped s) = ledger s.
Proof. unfold count_dropped. by case_decide. Qed.

Lemma settle_ledger now s : ledger (settle now s) ≡ₚ ledger s.
Proof.
  unfold settle. simpl.
  set (s1 := emit_all (emit_all _ _) _).
  assert (s_inbox s1 = s_inbox s ∧ s_local s1 = (drain_queue (s_local s)).1.1) as [Ei El].
  { unfold s1. by rewrite !emit_all_inbox, !emit_all_local. }
  assert (ledger s1 ≡ₚ ledger s) as Es.
  { unfold s1. rewrite !ledger_emit_all, keys_in_flight, keys_of by done.
    rewrite ledger_set_local. unfold ledger, owed, pending. simpl. rewrite !fmap_app. solve_Permutation. }
  clearbody s1. rewrite ledger_emit_all, keys_of, <- Es by done. rewrite Ei.
  unfold ledger, owed. simpl. rewrite El, Ei. simpl. rewrite app_nil_r. apply Permutation_app_comm.
Qed.

Lemma teardown_ledger c s : ledger (teardown c s) ≡ₚ ledger s ∧ owed (teardown c s) = [].
Proof.
  unfold teardown. cbv zeta.
  pose proof (settle_ledger (utc_now c) (count_dropped s)) as E. rewrite count_dropped_ledger in E.
  destruct (settle_rest (utc_now c) (count_dropped s)) as (Ep & Ei & _).
  revert E Ep Ei. generalize (settle (utc_now c) (count_dropped s)). intros s1 E Ep Ei.
  destruct (send_wait _ _) as [ch ok]. split; [done|]. unfold owed. simpl. by rewrite Ep, Ei.
Qed.

Lemma ledger_calls c s s1 :
  ledger s1 ≡ₚ ledger s → ledger (charger_gone_unless (send_local_calls config c s1)).1 ≡ₚ ledger s.
Proof. intros <-. apply send_local_calls_ledger. Qed.

Lemma forward_charger_frame_ledger c s up frame text :
  ledger (forward_charger_frame config c s up frame text).1 ≡ₚ ledger s.
Proof.
  unfold forward_charger_frame, forward_upstream.
  pose proof (ledger_forward (utc_now c) s frame (mkUpstreamSink up) ChargerToCentral) as Hr.
  destruct (forward_message _ _ _ _ _) as [[fwd sink] r]. simpl in Hr.
  assert (∀ s1, mqtt_tx (s_forwarder s1) = mqtt_tx fwd → s_local s1 = s_local s → s_inbox s1 = s_inbox s →
            ledger s1 = ledger s) as Heq.
  { intros s1 E1 E2 E3. apply ledger_eq; [|by rewrite E2|done]. rewrite <- Hr. unfold results. by rewrite E1. }
  destruct r; simpl.
  - destruct (is_empty _); [by rewrite Heq|]. apply ledger_calls. by rewrite Heq.
  - destruct (parse _ _); by rewrite Heq.
Qed.

Lemma on_charger_ledger c s up m : ledger (on_charger config c s up m).1 ≡ₚ ledger s.
Proof.
  destruct m as [[[text| | | |]|e]|]; simpl; try done. unfold on_charger_text.
  destruct (parse _ _) as [frame|e]; [|by destruct (send_raw _ _)].
  destruct (take_answer (s_local s) frame) as [[f|] local] eqn:Ht; [|apply forward_charger_frame_ledger].
  apply ledger_calls. rewrite ledger_complete.
  unfold take_answer in Ht. destruct (is_call _); [done|]. apply take_response_Some in Ht as (Hf & _ & ->).
  rewrite ledger_set_local. unfold ledger, owed, pending. rewrite Hf. simpl. rewrite !fmap_app. simpl. solve_Permutation.
Qed.

Lemma on_upstream_ledger c s up m : ledger (on_upstream c s up m).1 ≡ₚ ledger s.
Proof.
  destruct m as [[[text| |data| | |]|e]|]; simpl; try done; [|by destruct (link_send _ _)].
  unfold on_upstream_text. destruct (parse _ _) as [frame|e]; [|by destruct (send_raw _ _)].
  unfold forward_downstream.
  pose proof (ledger_forward (utc_now c) s frame (mkChargerSink (s_charger s)) CentralToCharger) as Hr.
  destruct (forward_message _ _ _ _ _) as [[fwd sink] r]. simpl in Hr.
  destruct r; simpl; by rewrite (ledger_eq _ s).
Qed.

Lemma on_command_ledger c s request :
  ledger (on_command config c s request).1 ≡ₚ request_key request :: ledger s.
Proof.
  unfold on_command. pose proof (push_pending (s_local s) request) as Hp.
  destruct (push (s_local s) request) as [local displaced]. simpl in Hp. unfold charger_gone_unless. simpl.
  rewrite send_local_calls_ledger, ledger_emit_all, keys_of by apply key_displaced.
  rewrite ledger_set_local. unfold ledger, owed. rewrite Permutation_app_swap_app, Permutation_middle. f_equiv.
  rewrite <- fmap_app, app_assoc, Hp. done.
Qed.

Lemma on_command_tick_ledger c s : ledger (on_command_tick config c s).1 ≡ₚ ledger s.
Proof.
  unfold on_command_tick. pose proof (expire_pending c (s_local s)) as Hp.
  destruct (expire c (s_local s)) as [[local expired] f]. unfold charger_gone_unless. simpl.
  rewrite send_local_calls_ledger, !ledger_emit_all, keys_in_flight, keys_of by done.
  rewrite ledger_set_local. unfold ledger, owed. rewrite <- Hp, !fmap_app. solve_Permutation.
Qed.

Lemma after_loop_ledger c s o s' : after_loop c (s, o) = Some s' → ledger s' ≡ₚ ledger s.
Proof.
  unfold after_loop. destruct o as [[| |]|]; intros Hs; simplify_eq/=; try done.
  - by rewrite (proj1 (teardown_ledger c _)).
  - unfold upstream_lost in Hs. destruct (next_delay _) as [[d b]|]; simplify_eq/=.
    change (ledger (set_upstream_state (utc_now c) (set_forwarder (drop_link s)
      (discard_downstream_buffer (s_forwarder (drop_link s)))) Reconnecting) ≡ₚ ledger s).
    by rewrite ledger_set_upstream_state.
  - by rewrite (proj1 (teardown_ledger c _)).
Qed.

Lemma begin_connect_ledger c s : ledger (begin_connect c s) = ledger s.
Proof. unfold begin_connect. apply (ledger_set_upstream_state (utc_now c) s Connecting). Qed.

Lemma connected_ledger c s up : ledger (connected c s up) = ledger s.
Proof.
  unfold connected. set (s0 := set_since _ _).
  pose proof (ledger_set_upstream_state (utc_now c) s0 Connected) as E. change (ledger s0) with (ledger s) in E.
  revert E. generalize (set_upstream_state (utc_now c) s0 Connected). intros s1 <-.
  unfold flush_upstream. destruct (flush_buffer _ _) as [[rest sink] [u|e]]; [done|]. by rewrite begin_connect_ledger.
Qed.

Lemma connect_failed_ledger c s s' : connect_failed config c s = Some s' → ledger s' ≡ₚ ledger s.
Proof.
  unfold connect_failed. destruct (_ <=? _); intros Hs.
  - injection Hs as <-. by rewrite (proj1 (teardown_ledger c _)).
  - destruct (next_delay _) as [[d b]|]; simplify_eq/=.
    change (ledger (set_upstream_state (utc_now c) (set_since s (Some (default (instant_now c) (s_reconnecting_since s))))
      Reconnecting) ≡ₚ ledger s). by rewrite ledger_set_upstream_state.
Qed.

(** The requests an event hands to the session. *)
Definition dispatched (ev : Event U) : list CommandRequest :=
  match ev with EvDispatched r => [r] | _ => [] end.

Lemma loop_event_ledger c s up ev r :
  loop_event config c s up ev = Some r → ledger r.1 ≡ₚ ledger s.
Proof.
  destruct ev as [x|m|m| | | | | | |request|m]; simpl; intros Hr; simplify_eq/=.
  - apply on_charger_ledger.
  - apply on_upstream_ledger.
  - destruct (s_commands_open s), (s_inbox s) as [|request inbox] eqn:Ei; simplify_eq/=.
    rewrite on_command_ledger. unfold ledger, owed. simpl. rewrite Ei, !fmap_app. simpl.
    solve_Permutation.
  - case_match; by simplify_eq/=.
  - case_match; simplify_eq/=. apply on_command_tick_ledger.
  - done.
  - done.
Qed.

Lemma step_ledger c s ev s' :
  step config c s ev = Some s' → ledger s' ≡ₚ ledger s ++ (request_key <$> dispatched ev).
Proof.
  intros Hs. assert (∀ r, ledger (set_inbox s (s_inbox s ++ [r])) ≡ₚ ledger s ++ [request_key r]) as Hd.
  { intros r. unfold ledger, owed. simpl. rewrite !fmap_app. simpl. by rewrite <- !app_assoc. }
  assert (∀ up r, loop_event config c s up ev = Some r → after_loop c r = Some s' → ledger s' ≡ₚ ledger s ++ []) as Hl.
  { intros up [s1 o] Hr%loop_event_ledger Ha%after_loop_ledger. rewrite app_nil_r. simpl in Hr. by rewrite Ha. }
  unfold step in Hs.
  destruct ev as [[up|e]|m|m| | | | | | |request|m], (s_phase s) eqn:Hp; simplify_eq/=;
    try (apply bind_Some in Hs as (r & Hr & Ha); by eapply Hl);
    try (by apply (Hl up (on_charger config c s up m)));
    try (by apply (Hl up (on_upstream c s up m)));
    try (by apply (Hl up (s, Some Shutdown)));
    try (by rewrite app_nil_r, (proj1 (teardown_ledger c _)));
    rewrite ?app_nil_r, ?begin_connect_ledger, ?connected_ledger; try done; try apply Hd.
  - by apply connect_failed_ledger in Hs.
  - destruct (hung_up m); [by rewrite (proj1 (teardown_ledger c _))|by rewrite begin_connect_ledger].
  - change (ledger (set_upstream_state (utc_now c) s Disconnected) ≡ₚ ledger s). by rewrite ledger_set_upstream_state.
Qed.

Lemma run_ledger events s s' :
  run config events s = Some s' →
  ledger s' ≡ₚ ledger s ++ (request_key <$> (events ≫= λ ev, dispatched ev.2)).
Proof.
  revert s. induction events as [|[c ev] events IH]; intros s Hrun; simpl in *.
  { simplify_eq. by rewrite app_nil_r. }
  apply bind_Some in Hrun as (s1 & Hs & Hrun). rewrite (IH s1 Hrun), (step_ledger _ _ _ _ Hs).
  by rewrite fmap_app, <- app_assoc.
Qed.
End ledger.

Section calls_theorems.
Context {C U : Type} `{AsyncSenderLaws C AxumMessage} `{UpstreamLink U} `{SerdeJson} `{Chrono}.
Context (config : SessionConfig).
Abbreviation Session := (Session (list MqttEvent) C U).
Implicit Types (s : Session).

(** Every command a session is given is answered for exactly once: over any run,
    the commands reported on so far, with those still queued, in flight or in the
    inbox, are the commands dispatched to it, none lost and none reported twice. *)
Theorem command_conservation c id charger m events s :
  run config events (session_new config c id [] charger m) = Some s →
  (result_key <$> results s) ++ (request_key <$> owed s) ≡ₚ
  request_key <$> (events ≫= λ ev, dispatched ev.2).
Proof.
  intros Hrun%run_ledger. fold (ledger s). rewrite Hrun. unfold session_new.
  by rewrite begin_connect_ledger.
Qed.

(** The teardown leaves nobody waiting: when a session starts to close, every
    command it owed a result has one, of status not_connected when it was never sent
    and timeout when its Call was, and none is owed. *)
Theorem teardown_reports c s :
  owed (teardown c s) = [] ∧
  results (teardown c s) =
    results s ++ (unsent_result (utc_now c) <$> queued (s_local s))
              ++ (interrupted_result (utc_now c) <$> option_list (in_flight (s_local s)))
              ++ (unsent_result (utc_now c) <$> s_inbox s).
Proof.
  split; [apply teardown_ledger|].
  assert (∀ (s1 : Session) l, results (emit_all s1 l) = results s1 ++ l) as He.
  { intros s1 l. revert s1. induction l as [|x l IH]; intros s1; simpl; [by rewrite app_nil_r|].
    rewrite IH. unfold results, results_of. simpl. rewrite omap_app. simpl. by rewrite <- app_assoc. }
  assert (results (settle (utc_now c) (count_dropped s)) = results (teardown c s)) as <-.
  { unfold teardown. cbv zeta. by destruct (send_wait _ _). }
  unfold settle. simpl. rewrite He.
  set (s1 := emit_all (emit_all _ _) _). change (results (set_inbox s1 [])) with (results s1).
  assert (s_inbox s1 = s_inbox s) as ->.
  { unfold s1. rewrite !emit_all_inbox. unfold count_dropped. by case_decide. }
  unfold s1. rewrite !He, <- !app_assoc. unfold count_dropped. by case_decide.
Qed.

(** ** The line *)

Lemma send_loop_line fuel c s :
  in_flight (s_local s) = None →
  let '(s', ok) := send_loop config fuel c s in
  (in_flight (s_local s') = None ∧ accepted (s_charger s') = accepted (s_charger s)) ∨
  (ok = true ∧ ∃ f, in_flight (s_local s') = Some f ∧ fl_sent_at f = instant_now c ∧
     accepted (s_charger s') = accepted (s_charger s) ++ [AxText (pc_raw (fl_prepared f))]).
Proof.
  revert s. induction fuel as [|fuel IH]; intros s Hf; simpl; [by left|].
  destruct (pop_next (s_local s)) as [[request|] local] eqn:Hpop; [|by left].
  apply pop_next_pending in Hpop as (_ & _ & Hf').
  destruct (prepare_call _ _ _ _) as [p|reason].
  - unfold charger_send_raw. simpl.
    destruct (send_wait (s_charger s) (AxText (pc_raw p))) as [ch ok] eqn:Hsend.
    pose proof (send_wait_accepted _ _ _ _ Hsend) as Ha. destruct ok; simpl.
    + right. split; [done|]. by eexists.
    + left. split; [done|]. by rewrite Ha, app_nil_r.
  - match goal with |- context [send_loop config fuel c ?x] => specialize (IH x) end.
    destruct (send_loop config fuel c _) as [s' ok]. apply IH. done.
Qed.

(** C13. The proxy speaks to the charger only when the line is clear: either nothing
    goes out and the Call in flight is as it was, or there was no Call in flight and
    no recent Central System Call unanswered, and exactly one text goes out, that of
    the Call now in flight, with its clock started. *)
Theorem line_discipline c s :
  let '(s', ok) := send_local_calls config c s in
  (in_flight (s_local s') = in_flight (s_local s) ∧ accepted (s_charger s') = accepted (s_charger s)) ∨
  (in_flight (s_local s) = None ∧
   has_recent_pending_call (utc_now c) (s_forwarder s) CentralToCharger CENTRAL_CALL_GRACE = false ∧
   ok = true ∧ ∃ f, in_flight (s_local s') = Some f ∧ fl_sent_at f = instant_now c ∧
     accepted (s_charger s') = accepted (s_charger s) ++ [AxText (pc_raw (fl_prepared f))]).
Proof.
  unfold send_local_calls, has_in_flight.
  destruct (in_flight (s_local s)) as [f|] eqn:Hf; simpl; [by left|].
  destruct (is_empty _); [by left|]. destruct (has_recent_pending_call _ _ _ _); [by left|].
  pose proof (send_loop_line (queued_len (s_local s)) c s Hf) as Hl.
  destruct (send_loop _ _ _ _) as [s' ok]. naive_solver.
Qed.

Lemma results_calls c s : ∃ tail, results (send_local_calls config c s).1 = results s ++ tail.
Proof.
  unfold send_local_calls. destruct (_ || _); [exists []; by rewrite app_nil_r|].
  destruct (has_recent_pending_call _ _ _ _); [exists []; by rewrite app_nil_r|].
  generalize (queued_len (s_local s)). intros fuel. revert s.
  assert (∀ (s1 : Session) x, results (emit_command_result s1 x) = results s1 ++ [x]) as He.
  { intros. unfold results, results_of. simpl. by rewrite omap_app. }
  induction fuel as [|fuel IH]; intros s; simpl; [exists []; by rewrite app_nil_r|].
  destruct (pop_next (s_local s)) as [[request|] local]; [|exists []; by rewrite app_nil_r].
  destruct (prepare_call _ _ _ _) as [p|reason].
  - destruct (charger_send_raw _ _) as [sink [u|e]]; [exists []; by rewrite app_nil_r|].
    eexists. simpl. rewrite He. reflexivity.
  - match goal with |- context [send_loop config fuel c ?x] => destruct (IH x) as [tail ->] end.
    rewrite He, <- app_assoc. eexists. reflexivity.
Qed.

(** C14. The charger's answer to the proxy's Call stays in the proxy: it is reported,
    before anything else, as the result of the command that asked, with the verdict
    read from it, and the connection to the Central System sees nothing of it. *)
Theorem own_answer_kept c s up f frame text :
  s_phase s = PhForward up → in_flight (s_local s) = Some f →
  parse (utc_now c) text = Ok frame → is_call (message_type frame) = false →
  unique_id frame = pc_unique_id (fl_prepared f) →
  let '(s', outcome) := on_charger config c s up (Some (Ok (AxText text))) in
  s_phase s' = PhForward up ∧ outcome ≠ Some UpstreamLost ∧
  let '(status, response, detail) := interpret_response (pc_action (fl_prepared f)) frame in
  ∃ tail, results s' = results s ++ for_in_flight (utc_now c) f status response detail :: tail.
Proof.
  intros Hp Hf Hparse Hcall Huid. simpl. unfold on_charger_text. rewrite Hparse. unfold take_answer. rewrite Hcall.
  assert (take_response (s_local s) (unique_id frame) = (Some f, with_in_flight (s_local s) None)) as ->.
  { unfold take_response, is_ours. rewrite Hf, Huid. by rewrite bool_decide_true. }
  unfold charger_gone_unless.
  set (s1 := complete_local_call _ _ _ _).
  pose proof (send_local_calls_transport config c s1) as Et.
  destruct (results_calls c s1) as [tail Er].
  assert (s_phase s1 = s_phase s) as E1.
  { pose proof (complete_transport (utc_now c) (set_local s (with_in_flight (s_local s) None)) f frame) as E.
    fold s1 in E. unfold transport in E. by simplify_eq/=. }
  assert (s_phase (send_local_calls config c s1).1 = s_phase s1) as E2 by (unfold transport in Et; by simplify_eq/=).
  split_and!; [by rewrite E2, E1|by destruct (send_local_calls config c s1).2|].
  assert (results s1 = results s ++
    [let '(st, resp, d) := interpret_response (pc_action (fl_prepared f)) frame in for_in_flight (utc_now c) f st resp d]) as Es.
  { unfold s1, complete_local_call. destruct (interpret_response _ _) as [[st resp] d].
    unfold results, results_of. simpl. by rewrite omap_app. }
  rewrite Es in Er. simpl in Er. destruct (interpret_response _ _) as [[st resp] d].
  exists tail. rewrite Er, <- app_assoc. done.
Qed.
End calls_theorems.

(** ** Witnesses, and runs that show what the code does at its edges *)

#[local] Existing Instance reference_codec.
#[local] Existing Instance plain_chrono.

(** A command dispatched, read from the inbox, and sent to the charger. *)
Definition asking_events : list (Clock * Event ListLink) :=
  [(at_time 1, EvConnect (Ok good_link)); (at_time 2, EvDispatched sample_request); (at_time 3, EvCommand)].

Definition asking : ExampleSession := default example_session (example_run asking_events example_session).

Lemma asking_run :
  run sample_session_config asking_events
    (session_new sample_session_config (at_time 0) "CP-1" [] (mkCounted [] 1000) manager_new) = Some asking.
Proof. vm_compute. reflexivity. Qed.

Lemma command_conservation_witness :
  (result_key <$> results asking) ++ (request_key <$> owed asking) ≡ₚ [request_key sample_request].
Proof.
  exact (command_conservation sample_session_config (at_time 0) "CP-1" (mkCounted [] 1000) manager_new
    asking_events asking asking_run).
Defined.

Definition asked : option InFlight := in_flight (s_local asking).
Definition asked_call : InFlight :=
  default (mkInFlight sample_request (mkPrepared "" "" "" None None) 0) asked.

Definition answer_text : string := accepted_text "proxy-3000-1".
Definition answer_frame : OcppFrame := mkFrame answer_text CallResult "proxy-3000-1" (from_secs 4).

Lemma asking_phase : s_phase asking = PhForward good_link.
Proof. vm_compute. reflexivity. Qed.
Lemma asking_in_flight : in_flight (s_local asking) = Some asked_call.
Proof. vm_compute. reflexivity. Qed.
Lemma answer_parses : parse (utc_now (at_time 4)) answer_text = Ok answer_frame.
Proof. vm_compute. reflexivity. Qed.
Lemma asked_uid : unique_id answer_frame = pc_unique_id (fl_prepared asked_call).
Proof. vm_compute. reflexivity. Qed.

Lemma own_answer_kept_witness :
  s_phase (on_charger sample_session_config (at_time 4) asking good_link (Some (Ok (AxText answer_text)))).1 =
  PhForward good_link.
Proof.
  pose proof (own_answer_kept sample_session_config (at_time 4) asking good_link asked_call answer_frame answer_text
    asking_phase asking_in_flight answer_parses eq_refl asked_uid) as H.
  destruct (on_charger _ _ _ _ _) as [s' o]. exact (proj1 H).
Defined.

Definition status_list (s : ExampleSession) : list CommandStatus := res_status <$> results s.

(** An answer that comes late goes to the Central System: once the proxy has
    reported its Call as timed out, it no longer knows the Call's id, and the charger's
    answer is forwarded upstream, a reply to a question the Central System never
    asked. *)
Theorem late_answer_forwarded :
  match example_run [(at_time 90, EvCommandTick); (at_time 91, EvCharger (Some (Ok (AxText answer_text))))] asking with
  | Some s => status_list s = [Timeout] ∧ s_phase s = PhForward (mkListLink [TuText answer_text] 999)
  | None => False
  end.
Proof. vm_compute. split; reflexivity. Qed.

(** A command dispatched while a session closes is answered by nobody: the
    teardown empties the inbox, but the router still leads to it until the session
    has returned, and what arrives in between is dropped without a result. *)
Theorem closing_loses_command :
  match example_run [(at_time 1, EvConnect (Ok good_link)); (at_time 2, EvCancelled);
                     (at_time 2, EvDispatched sample_request); (at_time 3, EvSlept)] example_session with
  | Some s => s_phase s = PhEnded ∧ owed s = [sample_request] ∧ results s = []
  | None => False
  end.
Proof. vm_compute. split_and!; reflexivity. Qed.

(** A queue at its capacity whose oldest command sets a limit. *)
Definition other_request : CommandRequest := request_new 0 "cmd-2" (GetConfiguration []) SourceMqtt.
Definition full_queue : LocalCallQueue :=
  push_all (queue_new (from_secs 30) COMMAND_CHANNEL_CAPACITY) (sample_request :: repeat other_request 31).

(** A limit command pushed out of a full queue is reported as superseded by a
    newer limit command when there is none: the result is chosen by the kind of the
    displaced command, not by why it was displaced. *)
Theorem overflow_reported_as_superseded :
  is_limit_command (req_command other_request) = false ∧
  (push full_queue other_request).2 = [sample_request] ∧
  res_status (displaced_result 0 sample_request) = Superseded.
Proof. vm_compute. split_and!; reflexivity. Qed.
