(* ===== verification/SessionTimeouts.v ===== *)
(** * How long a command waits in a session (src/session.rs, src/command.rs)

    While a session forwards, its tick sweeps the queue: a stretch of a run in which the
    ticks come at least every [gap] answers every command within twice the timeout and
    the gaps. Outside such a stretch, while the Central System is away, nothing sweeps;
    two runs at the end show what that does. *)

From S2P Require Import Prelude Float64 Json Models StateManager Config Command CallQueue Forwarder Session.
From S2P Require Import SessionCalls.

Local Open Scope Z_scope.

(** ** Stretches of a run *)

Definition forwards {T C U} (s : Session T C U) : bool := match s_phase s with PhForward _ => true | _ => false end.

Definition is_tick {U} (ev : Event U) : bool := match ev with EvCommandTick => true | _ => false end.

(** A command read from the inbox is younger than the timeout. *)
Definition prompt {T C U} (timeout : Z) (c : Clock) (s : Session T C U) (ev : Event U) : bool :=
  match ev, s_inbox s with
  | EvCommand, request :: _ => utc_now c - issued_at request <? timeout
  | _, _ => true
  end.

Section watch.
Context {T C U : Type} `{MpscSender T MqttEvent} `{AsyncSender C AxumMessage} `{UpstreamLink U} `{SerdeJson} `{Chrono}.
Context (config : SessionConfig) (offset gap : Z).
Abbreviation timeout := (command_timeout (charging config)).

(** The time since which the tick is due: that of the last one, or of the last event that
    found the queue empty, when the arm of the tick is off. *)
Definition swept (c : Clock) (s : Session T C U) (ev : Event U) (last : Z) : Z :=
  if is_empty (s_local s) || is_tick ev then instant_now c else last.

(** The wall clock keeps its distance from the monotonic one, no tick is more than the gap
    late, and commands are read promptly. *)
Definition timely_event (c : Clock) (s : Session T C U) (ev : Event U) (last : Z) : bool :=
  (utc_now c =? instant_now c + offset) && (last <=? instant_now c) &&
  (instant_now c <=? swept c s ev last + gap) && prompt timeout c s ev.

(** A stretch of timely events, forwarding from first to last; with the time of its last
    sweep and where it leads. *)
Fixpoint watch (last : Z) (events : list (Clock * Event U)) (s : Session T C U) : option (Z * Session T C U) :=
  match events with
  | [] => Some (last, s)
  | (c, ev) :: events =>
      if timely_event c s ev last && forwards s then
        s' ← step config c s ev;
        if forwards s' then watch (swept c s ev last) events s' else None
      else None
  end.

Lemma watch_run last events s last' s' : watch last events s = Some (last', s') → run config events s = Some s'.
Proof.
  revert last s. induction events as [|[c ev] events IH]; intros last s Hw; simpl in *; [by simplify_eq|].
  destruct (timely_event _ _ _ _ && forwards s); [|done].
  destruct (step config c s ev) as [s1|]; [simpl in *|done]. destruct (forwards s1); [|done]. by eapply IH.
Qed.
End watch.

(** ** What the handlers do to the queue *)

Section queue.
Context {T C U : Type} `{MpscSender T MqttEvent} `{AsyncSender C AxumMessage} `{UpstreamLink U} `{SerdeJson} `{Chrono}.
Context (config : SessionConfig).
Implicit Types (s : Session T C U) (q : LocalCallQueue).
Context (P : LocalCallQueue → Prop).

(** A property of the queue that the sending of a request at a time keeps. *)
Definition sending_keeps (c : Clock) : Prop := ∀ q r local p,
  pop_next q = (Some r, local) → P q →
  let q1 := (next_unique_id (utc_now c) local).2 in P q1 ∧ P (set_in_flight (instant_now c) q1 r p).

Lemma send_loop_keeps fuel c s :
  sending_keeps c → P (s_local s) → P (s_local (send_loop config fuel c s).1).
Proof.
  intros Hc. revert s. induction fuel as [|fuel IH]; intros s Hs; [done|]. cbn [send_loop].
  destruct (pop_next (s_local s)) as [[request|] local] eqn:Hpop; [|done].
  pose proof (λ p, Hc _ _ _ p Hpop Hs) as Hq. destruct (next_unique_id (utc_now c) local) as [uid q1]. cbv zeta in *.
  destruct (prepare_call _ _ _ _) as [p|reason].
  - destruct (send_raw _ _) as [sink [u|e]]; apply (Hq p).
  - apply IH. apply (Hq (mkPrepared "" "" "" None None)).
Qed.

Lemma calls_keeps c s s1 :
  sending_keeps c → P (s_local s1) → P (s_local (charger_gone_unless (send_local_calls config c s1)).1).
Proof.
  intros Hc Hs. unfold send_local_calls. destruct (_ || _); [done|].
  destruct (has_recent_pending_call _ _ _ _); [done|]. by apply send_loop_keeps.
Qed.

Lemma on_charger_keeps c s up m :
  sending_keeps c → (∀ q, P q → P (with_in_flight q None)) →
  P (s_local s) → P (s_local (on_charger config c s up m).1).
Proof.
  intros Hc Ha Hs. destruct m as [[[text| | | |]|e]|]; simpl; try done. unfold on_charger_text.
  destruct (parse _ _) as [frame|e]; [|by destruct (send_raw _ _)].
  destruct (take_answer (s_local s) frame) as [[f|] local] eqn:Ht.
  - apply calls_keeps; [done..|]. unfold complete_local_call. destruct (interpret_response _ _) as [[? ?] ?]. simpl.
    unfold take_answer in Ht. destruct (is_call _); [done|]. apply take_response_Some in Ht as (_ & _ & ->). by apply Ha.
  - unfold forward_charger_frame. destruct (forward_upstream _ _ _ _) as [[fwd sink] [u|e]].
    + destruct (is_empty _); [done|]. by apply calls_keeps.
    + by destruct (parse _ _).
Qed.

Lemma on_upstream_local c s up m : s_local (on_upstream c s up m).1 = s_local s.
Proof.
  destruct m as [[[text| |data| | |]|e]|]; simpl; try done; [|by destruct (link_send _ _)].
  unfold on_upstream_text. destruct (parse _ _) as [frame|e]; [|by destruct (send_raw _ _)].
  by destruct (forward_downstream _ _ _ _) as [[fwd sink] [u|e]].
Qed.
End queue.

(** ** The queue in a timely stretch *)

Section deadlines.
Context `{ChronoLaws}.
Context (timeout offset gap : Z) (timeout_pos : 0 < timeout) (timeout_range : timeout <= chrono_max).
Implicit Types (q : LocalCallQueue).

(** At the last sweep every queued request was younger than the timeout, and the Call in
    flight had waited less; it went out before its command was older than that and a gap. *)
Record young (last : Z) q : Prop := {
  yg_timeout : q_timeout q = timeout;
  yg_queued : Forall (λ r, last + offset - issued_at r < timeout) (queued q);
  yg_flight : ∀ f, in_flight q = Some f →
    fl_sent_at f + offset - issued_at (fl_request f) < timeout + gap ∧ last - fl_sent_at f < timeout
}.

Lemma young_sending last c : last <= instant_now c <= last + gap → sending_keeps (young last) c.
Proof.
  intros Hc q r local p Hpop [Et Fq Hf]. unfold pop_next in Hpop.
  destruct (has_in_flight q) eqn:Ef; [done|]. destruct (queued q) as [|r' rest] eqn:Eq; [done|]. simplify_eq.
  apply Forall_cons in Fq as [Hr Frest].
  assert (in_flight q = None) as En.
  { unfold has_in_flight in Ef. apply bool_decide_eq_false in Ef. by apply eq_None_not_Some. }
  split; split; simpl; try done; rewrite ?En; try done. intros f [= <-]. simpl. lia.
Qed.

Lemma young_answered last q : young last q → young last (with_in_flight q None).
Proof. by intros [Et Fq Hf]. Qed.

Lemma young_empty last last' q : is_empty q = true → young last q → young last' q.
Proof.
  unfold is_empty, has_in_flight. intros [Eq%bool_decide_eq_true Ef%negb_true_iff%bool_decide_eq_false]%andb_true_iff [Et _ _].
  apply eq_None_not_Some in Ef. split; [done|by rewrite Eq|by rewrite Ef].
Qed.

Lemma young_push last c q r :
  last <= instant_now c → utc_now c = instant_now c + offset → utc_now c - issued_at r < timeout →
  young last q → young last (push q r).1.
Proof.
  intros Hl Hu Hr [Et Fq Hf]. destruct (push_rest q r) as (E1 & E2 & _). split; [congruence| |by rewrite E1].
  assert (Forall (λ r, last + offset - issued_at r < timeout) (queued q ++ [r])) as Fall.
  { apply Forall_app_2; [done|]. apply Forall_singleton. lia. }
  apply Forall_forall. intros x Hx. rewrite Forall_forall in Fall. apply Fall.
  by eapply elem_of_submseteq, push_submseteq.
Qed.

Lemma young_swept last c q :
  utc_now c = instant_now c + offset → young last q → young (instant_now c) (expire c q).1.1.
Proof.
  intros Hu [Et Fq Hf].
  assert (max_age q = timeout) as Ea by (unfold max_age; rewrite Et, from_std_in_range by lia; done).
  assert (Forall (λ r, instant_now c + offset - issued_at r < timeout)
            (retain (λ r, negb (request_expired q (utc_now c) r)) (queued q))) as Fk.
  { apply Forall_forall. intros r Hr%list_elem_of_In. apply filter_In in Hr as [_ Hr].
    unfold request_expired in Hr. rewrite Ea in Hr. lia. }
  unfold expire. simpl. destruct (in_flight q) as [f|] eqn:Ef; [|split; simpl; [done..|by rewrite Ef]].
  destruct (Hf f eq_refl) as [Hs Hw]. destruct (Z.leb_spec (q_timeout q) (elapsed (fl_sent_at f) (instant_now c))) as [|Hy]; simpl;
    split; simpl; try done. rewrite Ef. intros g [= <-]. unfold elapsed in Hy. lia.
Qed.
End deadlines.

Section stretch.
Context {C U : Type} `{AsyncSenderLaws C AxumMessage} `{UpstreamLink U} `{SerdeJson} `{ChronoLaws}.
Context (config : SessionConfig) (offset gap : Z).
Abbreviation Session := (Session (list MqttEvent) C U).
Implicit Types (s : Session).
Abbreviation timeout := (command_timeout (charging config)).

(** ** The timeout of the queue never changes *)

Abbreviation timed := (λ q, q_timeout q = timeout).

Lemma timed_sending c : sending_keeps timed c.
Proof.
  intros q r local p Hpop Hq. unfold pop_next in Hpop. destruct (has_in_flight q); [done|].
  destruct (queued q); [done|]. by simplify_eq.
Qed.

Lemma timed_push q r : q_timeout (push q r).1 = q_timeout q.
Proof. by destruct (push_rest q r) as (_ & -> & _). Qed.

Lemma timed_expire c q : q_timeout (expire c q).1.1 = q_timeout q.
Proof. unfold expire. by repeat case_match. Qed.

Lemma timed_on_command c s r :
  timed (s_local s) → timed (s_local (on_command config c s r).1).
Proof.
  intros Hs. unfold on_command. pose proof (timed_push (s_local s) r) as E. destruct (push _ _) as [local out].
  apply (calls_keeps config timed _ s); [apply timed_sending|]. rewrite emit_all_local. simpl in *. congruence.
Qed.

Lemma timed_on_tick c s : timed (s_local s) → timed (s_local (on_command_tick config c s).1).
Proof.
  intros Hs. unfold on_command_tick. pose proof (timed_expire c (s_local s)) as E. destruct (expire _ _) as [[local out] f].
  apply (calls_keeps config timed _ s); [apply timed_sending|]. rewrite !emit_all_local. simpl in *. congruence.
Qed.

Lemma timed_loop_event c s up ev r :
  timed (s_local s) → loop_event config c s up ev = Some r → timed (s_local r.1).
Proof.
  intros Hs Hr. destruct ev as [x|m|m| | | | | | |request|m]; simpl in Hr; simplify_eq/=; try done.
  - by apply on_charger_keeps; [apply timed_sending|..].
  - by rewrite on_upstream_local.
  - destruct (s_commands_open s), (s_inbox s); simplify_eq/=. by apply timed_on_command.
  - case_match; by simplify_eq/=.
  - case_match; simplify_eq/=. by apply timed_on_tick.
Qed.

(** Connecting and losing a connection leave the queue alone. *)
Lemma upstream_state_local now s st : s_local (set_upstream_state now s st) = s_local s.
Proof. apply set_upstream_state_rest. Qed.

Lemma connected_local c s up : s_local (connected c s up) = s_local s.
Proof.
  unfold connected. set (s0 := set_since _ _). pose proof (upstream_state_local (utc_now c) s0 Connected) as E.
  change (s_local s0) with (s_local s) in E. revert E. generalize (set_upstream_state (utc_now c) s0 Connected). intros s1 <-.
  destruct (flush_upstream _ _) as [[fwd sink] [n|e]]; [done|]. unfold begin_connect. simpl. by rewrite upstream_state_local.
Qed.

Lemma upstream_lost_local c s s' : upstream_lost c s = Some s' → s_local s' = s_local s.
Proof.
  unfold upstream_lost. destruct (next_delay _) as [[d b]|]; [|done]. intros [= <-].
  apply (upstream_state_local (utc_now c) (set_forwarder s (discard_downstream_buffer (s_forwarder s)))).
Qed.

Lemma teardown_timeout c s : q_timeout (s_local (teardown c s)) = q_timeout (s_local s).
Proof.
  unfold teardown. cbv zeta.
  assert (q_timeout (s_local (settle (utc_now c) (count_dropped s))) = q_timeout (s_local s)) as <-.
  { unfold settle. simpl. rewrite emit_all_local. simpl. rewrite !emit_all_local. simpl.
    unfold count_dropped. by case_decide. }
  generalize (settle (utc_now c) (count_dropped s)). intros s1. by destruct (send_wait _ _).
Qed.

Lemma connect_failed_timeout c s s' : connect_failed config c s = Some s' → q_timeout (s_local s') = q_timeout (s_local s).
Proof.
  unfold connect_failed. destruct (_ <=? _); [intros [= <-]; by rewrite teardown_timeout|].
  destruct (next_delay _) as [[d b]|]; [|done]. intros [= <-]. f_equal.
  exact (upstream_state_local (utc_now c) (set_since s (Some (default (instant_now c) (s_reconnecting_since s)))) Reconnecting).
Qed.

Lemma after_loop_timeout c s o s' : after_loop c (s, o) = Some s' → q_timeout (s_local s') = q_timeout (s_local s).
Proof.
  unfold after_loop. destruct o as [[| |]|]; [..|by intros [= <-]].
  - intros [= <-]. apply (teardown_timeout c (drop_link s)).
  - intros Hs%upstream_lost_local. by rewrite Hs.
  - intros [= <-]. apply (teardown_timeout c (drop_link s)).
Qed.

Lemma timed_step c s ev s' : timed (s_local s) → step config c s ev = Some s' → timed (s_local s').
Proof.
  intros Hs Hstep.
  assert (∀ up r, loop_event config c s up ev = Some r → after_loop c r = Some s' → timed (s_local s')) as Hl.
  { intros up [s1 o] Hr Ha. rewrite (after_loop_timeout _ _ _ _ Ha). exact (timed_loop_event c s up ev _ Hs Hr). }
  assert (timed (s_local (begin_connect c s))) as Hb by (unfold begin_connect; simpl; by rewrite upstream_state_local).
  assert (timed (s_local (teardown c s))) as Ht by (by rewrite teardown_timeout).
  unfold step in Hstep.
  destruct ev as [[up|e]|m|m| | | | | | |request|m], (s_phase s) eqn:Hp;
    simplify_eq/=; try done; try (apply bind_Some in Hstep as (r & Hr & Ha); by eapply Hl);
    try (by apply (Hl up (on_charger config c s up m))); try (by apply (Hl up (on_upstream c s up m)));
    try (by rewrite teardown_timeout).
  - by rewrite connected_local.
  - by rewrite (connect_failed_timeout _ _ _ Hstep).
  - by destruct (hung_up m).
  - by rewrite <- (upstream_state_local (utc_now c) s Disconnected) in Hs.
Qed.

Lemma timed_run events s s' : timed (s_local s) → run config events s = Some s' → timed (s_local s').
Proof.
  revert s. induction events as [|[c ev] events IH]; intros s Hs Hr; simpl in Hr; [by simplify_eq|].
  apply bind_Some in Hr as (s1 & Hs1 & Hr). eapply IH; [by eapply timed_step|done].
Qed.
(** ** A timely stretch keeps the queue young *)

Section young.
Context (timeout_pos : 0 < timeout) (timeout_range : timeout <= chrono_max).
Abbreviation young := (young timeout offset gap).

Lemma young_loop_event c s up ev last r :
  timely_event config offset gap c s ev last = true →
  young last (s_local s) → loop_event config c s up ev = Some r → young (swept c s ev last) (s_local r.1).
Proof.
  unfold timely_event. intros [[[Hu%Z.eqb_eq Hl%Z.leb_le]%andb_true_iff Hg%Z.leb_le]%andb_true_iff Hp]%andb_true_iff Hy Hr.
  assert (last <= swept c s ev last <= instant_now c) as Hw by (unfold swept; case_match; lia).
  assert (sending_keeps (young (swept c s ev last)) c) as Hc by (apply young_sending; lia).
  assert (is_tick ev = false → young (swept c s ev last) (s_local s)) as Hn.
  { unfold swept. intros ->. rewrite orb_false_r. destruct (is_empty (s_local s)) eqn:He; [by eapply young_empty|done]. }
  destruct ev as [x|m|m| | | | | | |request|m]; simpl in Hr; simplify_eq/=; try by apply Hn.
  - apply on_charger_keeps; [done|intros q; apply young_answered|by apply Hn].
  - rewrite on_upstream_local. by apply Hn.
  - destruct (s_commands_open s), (s_inbox s) as [|request inbox] eqn:Ei; simplify_eq/=.
    apply Z.ltb_lt in Hp. unfold on_command.
    pose proof (young_push timeout offset gap _ c (s_local s) request (proj2 Hw) Hu Hp (Hn eq_refl)) as Hq.
    destruct (push _ _) as [local out]. apply (calls_keeps config (young _) c s); [done|]. by rewrite emit_all_local.
  - case_match; simplify_eq/=. by apply Hn.
  - case_match; simplify_eq/=. unfold on_command_tick.
    pose proof (young_swept timeout offset gap timeout_pos timeout_range last c (s_local s) Hu Hy) as Hq.
    destruct (expire _ _) as [[local out] f]. apply (calls_keeps config (young _) c s); [done|].
    rewrite !emit_all_local. unfold swept. by rewrite orb_true_r.
Qed.

(** Only an arm that ends without an outcome goes on forwarding. *)
Lemma after_loop_forwards c s o s' : after_loop c (s, o) = Some s' → forwards s' = true → s' = s.
Proof.
  unfold after_loop, upstream_lost. intros Ha Hf. destruct o as [[| |]|]; simplify_eq/=; try done.
  - revert Hf. unfold teardown, forwards. cbv zeta. by destruct (send_wait _ _).
  - destruct (next_delay _) as [[d b]|]; by simplify_eq/=.
  - revert Hf. unfold teardown, forwards. cbv zeta. by destruct (send_wait _ _).
Qed.

Lemma young_step c s ev last s' :
  timely_event config offset gap c s ev last = true → forwards s = true → forwards s' = true →
  young last (s_local s) → step config c s ev = Some s' → young (swept c s ev last) (s_local s').
Proof.
  intros Ht Hf Hf' Hy Hs. unfold forwards in Hf. destruct (s_phase s) as [| |up| | |] eqn:Hp; try done.
  assert (is_tick ev = false → s_local s' = s_local s → young (swept c s ev last) (s_local s')) as Hn.
  { unfold swept. intros -> ->. rewrite orb_false_r. destruct (is_empty (s_local s)) eqn:He; [by eapply young_empty|done]. }
  assert (∀ r, loop_event config c s up ev = Some r → after_loop c r = Some s' → young (swept c s ev last) (s_local s')) as Hl.
  { intros [s1 o] Hr Ha. rewrite (after_loop_forwards _ _ _ _ Ha Hf'). by eapply (young_loop_event c s up ev last (s1, o)). }
  unfold step in Hs. rewrite Hp in Hs.
  destruct ev as [[up'|e]|m|m| | | | | | |request|m]; try (apply bind_Some in Hs as (r & Hr & Ha); by apply (Hl r));
    simplify_eq/=; by apply Hn.
Qed.

Lemma young_watch last events s last' s' :
  young last (s_local s) → watch config offset gap last events s = Some (last', s') → young last' (s_local s').
Proof.
  revert last s. induction events as [|[c ev] events IH]; intros last s Hy Hw; simpl in Hw; [by simplify_eq|].
  destruct (timely_event _ _ _ _ _ _ _) eqn:Ht; [|done]. destruct (forwards s) eqn:Hf; [|done]. cbn [andb] in Hw.
  apply bind_Some in Hw as (s1 & Hs & Hw). destruct (forwards s1) eqn:Hf1; [|done].
  eapply IH; [|exact Hw]. by eapply young_step.
Qed.
End young.
End stretch.

Section timeouts.
Context {C U : Type} `{AsyncSenderLaws C AxumMessage} `{UpstreamLink U} `{SerdeJson} `{ChronoLaws}.
Context (config : SessionConfig).
Abbreviation Session := (Session (list MqttEvent) C U).
Implicit Types (s : Session).
Abbreviation timeout := (command_timeout (charging config)).

Lemma timeout_in_range :
  1 <= command_timeout_seconds (charging config) <= 300 → 0 < timeout ∧ timeout <= chrono_max.
Proof. unfold command_timeout, chrono_max, from_secs, from_millis, NANOS. lia. Qed.

(** ** Theorems *)

(** C11. No command is forgotten, and none waits long in a session that is attended to. The
    configured timeout is a valid one. Take any session, at a moment when nothing is queued
    or in flight there, and any stretch of its run from there on in which it forwards
    throughout, no tick is more than [gap] late, the wall clock keeps its distance from the
    monotonic one, and every command it reads from its inbox is, when it reads it, younger
    than the timeout; an older one, as an outage leaves them, is outside this theorem and
    may be sent, see [stale_command_sent]. Then at every later moment of the stretch each
    command it was ever dispatched has been reported on exactly once, or is still in the
    inbox, or is queued and younger than the timeout and the gap, or is in flight, sent
    less than the timeout and the gap ago; so a command read from the inbox is reported
    before it is twice the timeout and twice the gap old. *)
Theorem commands_answered_in_time c id charger m before s0 offset gap last events last' s now :
  1 <= command_timeout_seconds (charging config) <= 300 →
  run config before (session_new config c id [] charger m) = Some s0 → is_empty (s_local s0) = true →
  watch config offset gap last events s0 = Some (last', s) → last' <= now <= last' + gap →
  (result_key <$> results s) ++ (request_key <$> pending (s_local s) ++ s_inbox s) ≡ₚ
    request_key <$> ((before ++ events) ≫= λ ev, dispatched ev.2) ∧
  Forall (λ r, now + offset - issued_at r < timeout + gap) (queued (s_local s)) ∧
  (∀ f, in_flight (s_local s) = Some f → now - fl_sent_at f < timeout + gap) ∧
  Forall (λ r, now + offset - issued_at r < 2 * (timeout + gap)) (pending (s_local s)).
Proof.
  intros [Hpos Hmax]%timeout_in_range Hb He Hw Hnow.
  assert (q_timeout (s_local s0) = timeout) as Et0.
  { apply (timed_run config before (session_new config c id [] charger m)); [|done]. unfold session_new, begin_connect. simpl.
    by rewrite upstream_state_local. }
  assert (young timeout offset gap last (s_local s0)) as Hy0.
  { revert He. unfold is_empty, has_in_flight.
    intros [Eq%bool_decide_eq_true Ef%negb_true_iff%bool_decide_eq_false]%andb_true_iff. apply eq_None_not_Some in Ef.
    split; [done|by rewrite Eq|by rewrite Ef]. }
  destruct (young_watch config offset gap Hpos Hmax last events s0 last' s Hy0 Hw) as [_ Fq Hf].
  assert (Forall (λ r, now + offset - issued_at r < timeout + gap) (queued (s_local s))) as Fn.
  { eapply Forall_impl; [exact Fq|]. simpl. intros r Hr. lia. }
  split_and!; [|done|intros f Ef; destruct (Hf f Ef); lia|].
  - assert (run config (before ++ events) (session_new config c id [] charger m) = Some s) as Hrun.
    { apply watch_run in Hw. eapply run_app; [exact Hb|exact Hw]. }
    exact (command_conservation config c id charger m _ s Hrun).
  - unfold pending. apply Forall_app_2.
    + eapply Forall_impl; [exact Fn|]. simpl. intros r Hr. lia.
    + destruct (in_flight (s_local s)) as [f|] eqn:Ef; [|by apply Forall_nil_2]. apply Forall_singleton. destruct (Hf f eq_refl). lia.
Qed.
End timeouts.

(** ** Theorem: the line is used *)

Section progress.
Context {C U : Type} `{AsyncSender C AxumMessage} `{UpstreamLink U} `{SerdeJson} `{Chrono}.
Context (config : SessionConfig).
Abbreviation Session := (Session (list MqttEvent) C U).
Implicit Types (s : Session).

Lemma send_loop_empties fuel c s :
  (length (queued (s_local s)) <= fuel)%nat → in_flight (s_local s) = None →
  (send_loop config fuel c s).2 = true →
  is_Some (in_flight (s_local (send_loop config fuel c s).1)) ∨ queued (s_local (send_loop config fuel c s).1) = [].
Proof.
  revert s. induction fuel as [|fuel IH]; intros s Hl Hf Hok.
  { right. simpl. destruct (queued (s_local s)); [done|simpl in Hl; lia]. }
  cbn [send_loop] in *. destruct (pop_next (s_local s)) as [[request|] local] eqn:Hpop; cycle 1.
  { apply pop_next_None in Hpop as [_ [Hs|Hq]]; auto. }
  pose proof (pop_next_pending _ _ _ Hpop) as (Hp & _ & Hn). unfold pending in Hp. rewrite Hf, Hn, !app_nil_r in Hp.
  destruct (next_unique_id (utc_now c) local) as [uid q1] eqn:Hid.
  assert (queued q1 = queued local ∧ in_flight q1 = None) as [Eq En] by (injection Hid as _ <-; by split).
  destruct (prepare_call _ _ _ _) as [p|reason].
  - destruct (send_raw _ _) as [sink [u|e]]; [|done]. left. by eexists.
  - apply IH; [|done..]. simpl. rewrite Eq. rewrite Hp in Hl. simpl in Hl. lia.
Qed.

(** No tick leaves the line idle: when a session has handled one and forwards on, a Call
    is in flight, or nothing is queued, or the Central System has a Call out to the charger
    which is younger than the grace. *)
Theorem tick_uses_line c s s' :
  step config c s EvCommandTick = Some s' → forwards s = true → forwards s' = true →
  is_Some (in_flight (s_local s')) ∨ queued (s_local s') = [] ∨
  has_recent_pending_call (utc_now c) (s_forwarder s') CentralToCharger CENTRAL_CALL_GRACE = true.
Proof.
  intros Hs Hf Hf'. unfold forwards in Hf. destruct (s_phase s) as [| |up| | |] eqn:Hp; try done.
  unfold step in Hs. rewrite Hp in Hs. cbn [loop_event] in Hs. destruct (is_empty (s_local s)); [done|].
  cbn [mbind option_bind] in Hs. unfold on_command_tick in Hs.
  destruct (expire c (s_local s)) as [[local out] f].
  set (s1 := emit_all (emit_all _ _) _) in Hs. unfold charger_gone_unless in Hs.
  pose proof (after_loop_forwards _ _ _ _ Hs Hf') as Es. rewrite Es in *. clear Es.
  assert ((send_local_calls config c s1).2 = true) as Hok.
  { destruct (send_local_calls config c s1).2; [done|]. injection Hs as Hs. revert Hf'. rewrite <- Hs.
    unfold teardown, forwards. cbv zeta. by destruct (send_wait _ _). }
  revert Hok. unfold send_local_calls, is_empty, has_in_flight.
  destruct (in_flight (s_local s1)) as [g|] eqn:Eg; simpl; [rewrite Eg; auto|].
  case_bool_decide as Eq; simpl; [auto|]. destruct (has_recent_pending_call _ _ _ _) eqn:Er; [auto|].
  intros Hok. destruct (send_loop_empties (queued_len (s_local s1)) c s1 (le_n _) Eg Hok); auto.
Qed.
End progress.

(** ** Witnesses, and what happens while the Central System is away *)

#[local] Existing Instance reference_codec.
#[local] Existing Instance plain_chrono.

Lemma command_timeout_witness : 1 <= command_timeout_seconds (charging sample_session_config) <= 300.
Proof. vm_compute. by split. Qed.

(** Connected, then a command that the charger answers after two ticks, and one more. *)
Definition linked : ExampleSession := default example_session (example_run [(at_time 1, EvConnect (Ok good_link))] example_session).

Definition attended_events : list (Clock * Event ListLink) :=
  [(at_time 2, EvDispatched sample_request); (at_time 3, EvCommand); (at_time 4, EvCommandTick);
   (at_time 5, EvCommandTick); (at_time 6, EvCharger (Some (Ok (AxText (accepted_text "proxy-3000-1")))));
   (at_time 7, EvDispatched other_request); (at_time 8, EvCommand); (at_time 9, EvCommandTick)].

Definition attended : ExampleSession :=
  default linked (snd <$> watch (T := list MqttEvent) sample_session_config 0 (from_secs 1) (from_secs 1) attended_events linked).

Lemma linked_run :
  run sample_session_config [(at_time 1, EvConnect (Ok good_link))]
    (session_new sample_session_config (at_time 0) "CP-1" [] (mkCounted [] 1000) manager_new) = Some linked.
Proof. vm_compute. reflexivity. Qed.

Lemma linked_empty : is_empty (s_local linked) = true.
Proof. vm_compute. reflexivity. Qed.

Lemma attended_watch :
  watch sample_session_config 0 (from_secs 1) (from_secs 1) attended_events linked = Some (from_secs 9, attended).
Proof. vm_compute. reflexivity. Qed.

#[local] Existing Instance plain_chrono_laws.

(** A second later the first command has its result and the second is in flight. *)
Lemma commands_answered_in_time_witness :
  (result_key <$> results attended) ++ (request_key <$> pending (s_local attended) ++ s_inbox attended) ≡ₚ
    request_key <$> [sample_request; other_request] ∧
  length (results attended) = 1%nat ∧ length (pending (s_local attended)) = 1%nat.
Proof.
  assert (from_secs 9 <= from_secs 10 <= from_secs 9 + from_secs 1) as Hnow by (by vm_compute).
  destruct (commands_answered_in_time sample_session_config (at_time 0) "CP-1" (mkCounted [] 1000) manager_new
    [(at_time 1, EvConnect (Ok good_link))] linked 0 (from_secs 1) (from_secs 1) attended_events (from_secs 9) attended
    (from_secs 10) command_timeout_witness linked_run linked_empty attended_watch Hnow) as (Hk & _ & _ & _).
  split; [exact Hk|]. vm_compute. by split.
Defined.

Lemma tick_uses_line_witness :
  ∃ s', step sample_session_config (at_time 9) attended EvCommandTick = Some s' ∧
    (is_Some (in_flight (s_local s')) ∨ queued (s_local s') = [] ∨
     has_recent_pending_call (utc_now (at_time 9)) (s_forwarder s') CentralToCharger CENTRAL_CALL_GRACE = true).
Proof.
  destruct (step sample_session_config (at_time 9) attended EvCommandTick) as [s'|] eqn:E; [|vm_compute in E; discriminate E].
  exists s'. split; [done|]. apply (tick_uses_line sample_session_config (at_time 9) attended s' E); [by vm_compute|].
  vm_compute in E. injection E as <-. reflexivity.
Defined.

(** An attempt to connect that fails. *)
Definition refused : Event ListLink := EvConnect (Err (ConnectionUpstream "unreachable")).

(** The time-outs stand still while the Central System is away. Here it closes its
    connection at 10 s, while a Call of the proxy, sent at 3 s with a timeout of 30 s, is in
    flight. The charger answers at 22 s; the answer is read and dropped. At 60 s the
    command still has no result; once connected again it is reported as timed out. *)
Theorem outage_stops_timeouts :
  match example_run [(at_time 10, EvUpstream None); (at_time 11, EvSlept); (at_time 21, refused);
                     (at_time 22, EvCharger (Some (Ok (AxText answer_text)))); (at_time 32, refused); (at_time 36, EvSlept);
                     (at_time 46, refused); (at_time 54, EvSlept); (at_time 60, EvConnect (Ok good_link))] asking with
  | Some s => results s = [] ∧ owed s = [sample_request] ∧
      match example_run [(at_time 61, EvCommandTick)] s with Some s' => status_list s' = [Timeout] | None => False end
  | None => False
  end.
Proof. vm_compute. split_and!; reflexivity. Qed.

(** A command that waited in the inbox while the Central System was away is sent to the
    charger when the connection is back, however old it is: its age is not looked at on
    arrival. Here it was issued 47 s before, with a timeout of 30 s. *)
Theorem stale_command_sent :
  issued_at sample_request = 0 ∧
  match example_run [(at_time 1, refused); (at_time 2, EvDispatched sample_request); (at_time 2, EvSlept); (at_time 12, refused);
                     (at_time 14, EvSlept); (at_time 24, refused); (at_time 28, EvSlept); (at_time 38, refused);
                     (at_time 46, EvSlept); (at_time 47, EvConnect (Ok good_link)); (at_time 47, EvCommand)] example_session with
  | Some s => results s = [] ∧ length (accepted (s_charger s)) = 1%nat ∧
              fl_request <$> in_flight (s_local s) = Some sample_request
  | None => False
  end.
Proof. vm_compute. split_and!; reflexivity. Qed.
