(* ===== verification/SessionSpeech.v ===== *)
(** * What the charger is told (src/session.rs)

    Every message a session puts on the charger's channel has one of three sources: a text
    of the Central System, a Call made of a command, and the close frame at the end. The
    items of the model name the source, so that a run's whole output can be accounted for.
    Reports to the publisher are read off a channel that records what it is offered, which
    SessionMirror.v shows to be no restriction. *)

From S2P Require Import Prelude Float64 Json Models StateManager Config Command CallQueue Forwarder Session.
From S2P Require Import SessionRelay SessionCalls.

Local Open Scope Z_scope.

(** ** Messages and their sources *)

Inductive ToCharger :=
  | TcRelayed (text : string)
  | TcCall (request : CommandRequest) (text : string)
  | TcClose (code : Z).

Definition to_axum (i : ToCharger) : AxumMessage :=
  match i with
  | TcRelayed text | TcCall _ text => AxText text
  | TcClose code => AxClose (Some (code, "Proxy session ending"%string))
  end.

Definition relayed_text (i : ToCharger) : option string := match i with TcRelayed text => Some text | _ => None end.
Definition called_for (i : ToCharger) : option CommandRequest := match i with TcCall request _ => Some request | _ => None end.

(** The frames the publisher is told of, by direction. *)
Definition told (d : Direction) (events : list MqttEvent) : list string :=
  omap (λ e, match e with
             | EvMessageForwarded _ frame d' _ => if decide (d' = d) then Some (raw frame) else None
             | _ => None
             end) events.

Lemma told_app d l1 l2 : told d (l1 ++ l2) = told d l1 ++ told d l2.
Proof. apply omap_app. Qed.

Section speech.
Context {C U : Type} `{AsyncSenderLaws C AxumMessage} `{UpstreamLink U} `{SerdeJson} `{Chrono}.
Context (config : SessionConfig).
Abbreviation Session := (Session (list MqttEvent) C U).
Implicit Types (s : Session).

Definition reports s : list MqttEvent := mqtt_tx (s_forwarder s).

(** The commands not yet sent, and not yet given up. *)
Definition waiting s : list CommandRequest := queued (s_local s) ++ s_inbox s.

(** An item of the loop: not the close frame, and a Call is the one its command makes. *)
Definition sound_item (i : ToCharger) : Prop :=
  match i with
  | TcRelayed _ => True
  | TcCall request text => ∃ uid now p, prepare_call (charging config) request uid now = Ok p ∧ text = pc_raw p
  | TcClose _ => False
  end.

(** From [s] to [s'] the texts [texts] were relayed, and nothing was said that has no
    source. *)
Definition says (texts : list string) s s' : Prop :=
  ∃ items, Forall sound_item items ∧ omap relayed_text items = texts ∧
    accepted (s_charger s') = accepted (s_charger s) ++ (to_axum <$> items) ∧
    told CentralToCharger (reports s') = told CentralToCharger (reports s) ++ retain parses texts ∧
    omap called_for items ++ waiting s' ⊆+ waiting s.

Lemma says_nothing s s' :
  s_charger s' = s_charger s → told CentralToCharger (reports s') = told CentralToCharger (reports s) →
  waiting s' ⊆+ waiting s → says [] s s'.
Proof. intros Ec Et Hw. exists []. simpl. rewrite Ec, Et, !app_nil_r. by split_and!. Qed.

Lemma says_trans l1 l2 s s1 s2 : says l1 s s1 → says l2 s1 s2 → says (l1 ++ l2) s s2.
Proof.
  intros (i1 & F1 & E1 & A1 & T1 & W1) (i2 & F2 & E2 & A2 & T2 & W2). exists (i1 ++ i2).
  rewrite !omap_app, fmap_app, A2, A1, T2, T1, E1, E2, <- !app_assoc. split_and!; try done.
  - by apply Forall_app_2.
  - by rewrite retain_app.
  - etrans; [by apply submseteq_skips_l|done].
Qed.

Lemma says_then s s1 s2 l : says [] s s1 → says l s1 s2 → says l s s2.
Proof. intros Hs1 Hs2. exact (says_trans [] l s s1 s2 Hs1 Hs2). Qed.

(** ** What says nothing *)

Lemma says_emit s x : says [] s (emit_command_result s x).
Proof. apply says_nothing; try done. unfold reports. simpl. by rewrite told_app, app_nil_r. Qed.

Lemma says_emit_all s l : says [] s (emit_all s l).
Proof.
  revert s. induction l as [|x l IH]; intros s; simpl; [by apply says_nothing|].
  eapply says_then; [apply says_emit|apply IH].
Qed.

Lemma says_complete now s f frame : says [] s (complete_local_call now s f frame).
Proof. unfold complete_local_call. destruct (interpret_response _ _) as [[??]?]. apply says_emit. Qed.

Lemma says_set_upstream_state now s st : says [] s (set_upstream_state now s st).
Proof.
  unfold set_upstream_state. case_decide; [by apply says_nothing|]. apply says_nothing; try done.
  unfold reports. simpl. by rewrite told_app, app_nil_r.
Qed.

Lemma says_set_local s local : queued local ⊆+ queued (s_local s) → says [] s (set_local s local).
Proof. intros Hq. apply says_nothing; try done. unfold waiting. simpl. by apply submseteq_skips_r. Qed.

(** ** Calls *)

Lemma says_send_loop fuel c s : says [] s (send_loop config fuel c s).1.
Proof.
  revert s. induction fuel as [|fuel IH]; intros s; [by apply says_nothing|]. cbn [send_loop].
  destruct (pop_next (s_local s)) as [[request|] local] eqn:Hpop; [|by apply says_nothing].
  assert (queued (s_local s) = request :: queued local) as Eq.
  { unfold pop_next in Hpop. destruct (has_in_flight _); [done|]. destruct (queued (s_local s)); [done|].
    injection Hpop as <- <-. done. }
  destruct (next_unique_id (utc_now c) local) as [uid local'] eqn:Hu.
  assert (queued local' = queued local) as Eq' by (unfold next_unique_id in Hu; by injection Hu as <- <-).
  set (s1 := set_local s local').
  assert (waiting s = request :: waiting s1) as Ew by (unfold waiting, s1; simpl; by rewrite Eq, Eq').
  assert (says [] s s1) as Hs1 by (apply says_nothing; [done..|rewrite Ew; by apply submseteq_cons]).
  destruct (prepare_call _ _ _ _) as [p|reason] eqn:Hp.
  - cbn [send_raw charger_sink]. unfold charger_send_raw. simpl.
    destruct (send_wait (s_charger s) (AxText (pc_raw p))) as [ch ok] eqn:Hsend.
    pose proof (send_wait_accepted _ _ _ _ Hsend) as Ha. destruct ok; simpl.
    + exists [TcCall request (pc_raw p)]. simpl. rewrite Ha. split_and!; try done.
      * constructor; [|done]. by exists uid, (utc_now c), p.
      * by rewrite app_nil_r.
      * change (request :: waiting s1 ⊆+ waiting s). by rewrite Ew.
    + eapply says_then; [exact Hs1|]. eapply says_then; [|apply says_emit].
      exists []. simpl. rewrite Ha, !app_nil_r. by split_and!.
  - eapply says_then; [exact Hs1|]. eapply says_then; [apply says_emit|]. apply IH.
Qed.

Lemma says_send_local_calls c s : says [] s (send_local_calls config c s).1.
Proof. unfold send_local_calls. destruct (_ || _); [by apply says_nothing|]. destruct (has_recent_pending_call _ _ _ _); [by apply says_nothing|]. apply says_send_loop. Qed.

Lemma says_calls c s s1 : says [] s s1 → says [] s (charger_gone_unless (send_local_calls config c s1)).1.
Proof. intros Hs. eapply says_then; [exact Hs|]. apply says_send_local_calls. Qed.

(** ** The arms of [forward_loop] *)

Lemma forward_reports now fwd frame {S} `{MessageSink S} (sink : S) d :
  let r := forward_message now fwd frame sink d in
  ∃ act, mqtt_tx r.1.1 = mqtt_tx fwd ++
    (if is_ok r.2 then [EvMessageForwarded (fwd_charge_point_id fwd) frame d act] else []).
Proof.
  unfold forward_message. destruct (send_raw sink (raw frame)) as [sink' [u|e]]; simpl.
  - pose proof (resolve_action_rest now fwd frame d) as (_ & _ & E & _ & _ & Eid).
    destruct (resolve_action now fwd frame d) as [fwd' act]. simpl in *. exists act. by rewrite E, Eid.
  - exists ""%string. by rewrite app_nil_r.
Qed.

Lemma says_forward_charger_frame c s up frame text : says [] s (forward_charger_frame config c s up frame text).1.
Proof.
  unfold forward_charger_frame, forward_upstream.
  destruct (forward_reports (utc_now c) (s_forwarder s) frame (mkUpstreamSink up) ChargerToCentral) as [act Hr].
  destruct (forward_message _ _ _ _ _) as [[fwd sink] r]. simpl in Hr.
  assert (∀ s1, s_charger s1 = s_charger s → s_local s1 = s_local s → s_inbox s1 = s_inbox s → reports s1 = mqtt_tx fwd → says [] s s1) as Hs.
  { intros s1 E1 E2 E3 E4. apply says_nothing; [done| |unfold waiting; by rewrite E2, E3].
    rewrite E4, Hr, told_app. destruct (is_ok r); simpl; by rewrite app_nil_r. }
  destruct r; simpl; [|destruct (parse _ _); by apply Hs].
  destruct (is_empty _); [by apply Hs|]. apply says_calls. by apply Hs.
Qed.

Lemma says_on_charger c s up incoming : says [] s (on_charger config c s up incoming).1.
Proof.
  destruct incoming as [[[text| | | |]|e]|]; try (by apply says_nothing). cbn [on_charger]. unfold on_charger_text.
  destruct (parse _ _) as [frame|e]; [|destruct (send_raw _ _) as [sink r]; by apply says_nothing].
  destruct (take_answer (s_local s) frame) as [[f|] local] eqn:Ht; [|apply says_forward_charger_frame].
  apply says_calls. eapply says_then; [|apply says_complete]. apply says_set_local.
  unfold take_answer in Ht. destruct (is_call _); [done|]. by apply take_response_Some in Ht as (_ & _ & ->).
Qed.

(** The Central System's text an event brings to the loop. *)
Definition central s (ev : Event U) : list string :=
  match s_phase s, ev with
  | PhForward _, EvUpstream (Some (Ok (TuText text))) => [text]
  | _, _ => []
  end.

(** Of what a handler was given to relay, all but at most one text is said; when one is
    not, the charger is gone. *)
Definition speaks (texts : list string) s (r : Session * option LoopOutcome) : Prop :=
  ∃ carried lost, says carried s r.1 ∧ carried ++ lost = texts ∧ (length lost <= 1)%nat ∧ (lost ≠ [] → r.2 = Some ChargerGone).

Lemma speaks_nothing s r : says [] s r.1 → speaks [] s r.
Proof. intros Hs. exists [], []. simpl. split_and!; [done..|lia|done]. Qed.

Lemma speaks_on_upstream_text c s text : speaks [text] s (on_upstream_text c s text).
Proof.
  unfold on_upstream_text. destruct (parse (utc_now c) text) as [frame|e] eqn:Hparse.
  - unfold forward_downstream.
    destruct (forward_reports (utc_now c) (s_forwarder s) frame (mkChargerSink (s_charger s)) CentralToCharger) as [act Hr].
    revert Hr. unfold forward_message. rewrite (parse_raw _ _ _ Hparse). cbn [send_raw charger_sink]. unfold charger_send_raw.
    cbn [ch_tx]. destruct (send_wait (s_charger s) (AxText text)) as [ch ok] eqn:Hsend.
    pose proof (send_wait_accepted _ _ _ _ Hsend) as Ha. destruct ok; simpl.
    + destruct (resolve_action _ _ _ _) as [fwd a]. simpl. intros Hr.
      exists [text], []. split_and!; [|done|simpl; lia|done]. exists [TcRelayed text]. simpl. rewrite Ha. split_and!; try done.
      * by repeat constructor.
      * unfold reports. simpl. rewrite Hr, told_app. simpl.
        by rewrite <- (parses_at (utc_now c) text), Hparse, (parse_raw _ _ _ Hparse).
    + intros _. exists [], [text]. split_and!; [|done|simpl; lia|done]. exists []. simpl. rewrite Ha, !app_nil_r. by split_and!.
  - cbn [send_raw charger_sink]. unfold charger_send_raw. cbn [ch_tx].
    destruct (send_wait (s_charger s) (AxText text)) as [ch ok] eqn:Hsend.
    pose proof (send_wait_accepted _ _ _ _ Hsend) as Ha. destruct ok; simpl.
    + exists [text], []. split_and!; [|done|simpl; lia|done]. exists [TcRelayed text]. simpl. rewrite Ha.
      rewrite <- (parses_at (utc_now c) text), Hparse. simpl. rewrite app_nil_r. split_and!; try done. by repeat constructor.
    + exists [], [text]. split_and!; [|done|simpl; lia|done]. exists []. simpl. rewrite Ha, !app_nil_r. by split_and!.
Qed.

Lemma expire_submseteq c q : queued (expire c q).1.1 ⊆+ queued q.
Proof.
  unfold expire. repeat case_match; simpl; apply sublist_submseteq, retain_sublist.
Qed.

Lemma says_on_command c s request inbox :
  s_inbox s = request :: inbox → says [] s (on_command config c (set_inbox s inbox) request).1.
Proof.
  intros Ei. unfold on_command. pose proof (push_submseteq (s_local s) request) as Hp. cbn [s_local set_inbox].
  destruct (push (s_local s) request) as [local displaced]. apply says_calls. eapply says_then; [|apply says_emit_all].
  apply says_nothing; try done. unfold waiting. simpl in *. rewrite Ei.
  etrans; [by apply submseteq_skips_r|]. by rewrite <- app_assoc.
Qed.

Lemma says_on_command_tick c s : says [] s (on_command_tick config c s).1.
Proof.
  unfold on_command_tick. pose proof (expire_submseteq c (s_local s)) as Hp.
  destruct (expire c (s_local s)) as [[local expired] f]. apply says_calls. eapply says_then; [|apply says_emit_all].
  eapply says_then; [|apply says_emit_all]. by apply says_set_local.
Qed.

Lemma loop_event_speaks c s up ev r :
  s_phase s = PhForward up → loop_event config c s up ev = Some r → speaks (central s ev) s r.
Proof.
  intros Hp. unfold central. rewrite Hp. destruct ev as [x|m|m| | | | | | |request|m]; simpl; intros Hr; simplify_eq/=.
  - apply speaks_nothing, says_on_charger.
  - destruct m as [[[text| |data| | |]|e]|]; simpl; try (by apply speaks_nothing, says_nothing); [apply speaks_on_upstream_text|].
    destruct (link_send up (TuPong data)) as [up' r]. by apply speaks_nothing, says_nothing.
  - destruct (s_commands_open s), (s_inbox s) as [|request inbox] eqn:Ei; simplify_eq/=.
    by apply speaks_nothing, says_on_command.
  - case_match; simplify_eq/=. by apply speaks_nothing, says_nothing.
  - case_match; simplify_eq/=. apply speaks_nothing, says_on_command_tick.
  - by apply speaks_nothing, says_nothing.
  - by apply speaks_nothing, says_nothing.
Qed.

(** ** Steps and runs *)

Definition winding_down s : bool := match s_phase s with PhClosing | PhEnded => true | _ => false end.

(** From [s] to [s'] the texts [texts] were relayed: what was said has a source, and a
    close frame is the last thing said. *)
Definition spoke (texts : list string) (commands : list CommandRequest) s s' : Prop :=
  ∃ body tail,
    Forall sound_item body ∧ omap relayed_text body = texts ∧
    accepted (s_charger s') = accepted (s_charger s) ++ (to_axum <$> body ++ tail) ∧
    (tail = [] ∨ tail = [TcClose (s_close_code s')] ∧ winding_down s' = true) ∧
    told CentralToCharger (reports s') = told CentralToCharger (reports s) ++ retain parses texts ∧
    omap called_for body ++ waiting s' ⊆+ waiting s ++ commands.

Lemma spoke_says texts s s' : says texts s s' → spoke texts [] s s'.
Proof.
  intros (items & F & E & A & Ht & W). exists items, []. rewrite !app_nil_r. split_and!; try done. by left.
Qed.

Lemma spoke_then l s s1 texts s' : says l s s1 → spoke texts [] s1 s' → spoke (l ++ texts) [] s s'.
Proof.
  intros (i1 & F1 & E1 & A1 & T1 & W1) (body & tail & F & E & A & Htail & Ht & W).
  rewrite app_nil_r in W. exists (i1 ++ body), tail.
  rewrite A, A1, Ht, T1, !omap_app, E1, E, retain_app, !fmap_app, <- !app_assoc, app_nil_r.
  split_and!; try done; [by apply Forall_app_2|]. etrans; [by apply submseteq_skips_l|done].
Qed.

Lemma told_emit_all s l : told CentralToCharger (reports (emit_all s l)) = told CentralToCharger (reports s).
Proof. destruct (says_emit_all s l) as (i & _ & E & _ & -> & _). by rewrite app_nil_r. Qed.

Lemma spoke_teardown c s : spoke [] [] s (teardown c s).
Proof.
  assert (told CentralToCharger (reports (settle (utc_now c) (count_dropped s))) = told CentralToCharger (reports s)) as Et.
  { unfold settle. simpl. rewrite told_emit_all. cbn [reports s_forwarder set_inbox].
    transitivity (told CentralToCharger (reports (emit_all (emit_all (set_local (count_dropped s)
      (with_in_flight (set_queued (s_local (count_dropped s)) []) None)) (unsent_result (utc_now c) <$> queued (s_local (count_dropped s))))
      (interrupted_result (utc_now c) <$> option_list (in_flight (s_local (count_dropped s))))))); [done|].
    rewrite !told_emit_all. unfold count_dropped. by case_decide. }
  destruct (settle_rest (utc_now c) (count_dropped s)) as (Ep & Ei & Ec & _).
  pose proof (settle_transport (utc_now c) (count_dropped s)) as Ex. rewrite count_dropped_transport in Ex.
  assert (s_charger (count_dropped s) = s_charger s) as Ec' by (unfold count_dropped; by case_decide).
  unfold teardown, close_message. revert Et Ep Ei Ec Ex. rewrite Ec'.
  generalize (settle (utc_now c) (count_dropped s)). intros s1 Et Ep Ei Ec Ex.
  assert (s_close_code s1 = s_close_code s) as Ecc by (unfold transport in Ex; by simplify_eq/=).
  rewrite Ec, Ecc. destruct (send_wait (s_charger s) _) as [ch ok] eqn:Hsend. apply send_wait_accepted in Hsend.
  unfold pending in Ep. apply app_eq_nil in Ep as [Eq _].
  exists [], (if ok then [TcClose (s_close_code s)] else []). unfold waiting, reports, winding_down. simpl.
  rewrite Ei, Eq, Hsend, Ecc, !app_nil_r. split_and!; try done; [by destruct ok|destruct ok; auto|apply submseteq_nil_l].
Qed.

Lemma says_begin_connect c s : says [] s (begin_connect c s).
Proof. exact (says_set_upstream_state (utc_now c) s Connecting). Qed.

Lemma says_upstream_lost c s s' : upstream_lost c s = Some s' → says [] s s'.
Proof.
  unfold upstream_lost. intros Hs. destruct (next_delay _) as [[d b]|]; simplify_eq/=.
  exact (says_set_upstream_state (utc_now c) (set_forwarder s (discard_downstream_buffer (s_forwarder s))) Reconnecting).
Qed.

Lemma over_teardown c s : winding_down (teardown c s) = true.
Proof. unfold winding_down, teardown. by destruct (send_wait _ _). Qed.

Lemma spoke_after_loop c texts s r s' :
  says texts s r.1 → after_loop c r = Some s' → spoke texts [] s s' ∧ (r.2 = Some ChargerGone → winding_down s' = true).
Proof.
  destruct r as [s1 o]. intros Hs Ha. simpl in *. assert (says texts s (drop_link s1)) as Hs' by done.
  assert (spoke texts [] s (teardown c (drop_link s1))) as Ht.
  { rewrite <- (app_nil_r texts). eapply spoke_then; [exact Hs'|apply spoke_teardown]. }
  unfold after_loop in Ha. destruct o as [[| |]|]; simplify_eq/=; (split; [|done || (intros _; apply over_teardown)]); try done.
  - rewrite <- (app_nil_r texts). eapply spoke_then; [exact Hs'|]. by apply spoke_says, (says_upstream_lost c).
  - by apply spoke_says.
Qed.

Lemma says_connected c s up : says [] s (connected c s up).
Proof.
  unfold connected. set (s0 := set_since _ _). pose proof (says_set_upstream_state (utc_now c) s0 Connected) as Hs.
  revert Hs. generalize (set_upstream_state (utc_now c) s0 Connected). intros s1 Hs.
  unfold flush_upstream. destruct (flush_buffer _ _) as [[rest sink] [u|e]]; [exact Hs|].
  eapply says_then; [exact Hs|].
  match goal with |- says _ _ (begin_connect c ?x) => exact (says_begin_connect c x) end.
Qed.

Lemma spoke_connect_failed c s s' : connect_failed config c s = Some s' → spoke [] [] s s'.
Proof.
  unfold connect_failed. destruct (_ <=? _); intros Hs.
  - injection Hs as <-. apply (spoke_teardown c (set_close_code (set_since s _) CLOSE_GOING_AWAY)).
  - destruct (next_delay _) as [[d b]|]; simplify_eq/=. apply spoke_says.
    exact (says_set_upstream_state (utc_now c) (set_since s (Some (default (instant_now c) (s_reconnecting_since s)))) Reconnecting).
Qed.

(** A step before the end: one text of the Central System at most, relayed or the last. *)
Lemma step_spoke c s ev s' :
  winding_down s = false → step config c s ev = Some s' →
  ∃ carried lost, spoke carried (dispatched ev) s s' ∧ central s ev = carried ++ lost ∧ (length lost <= 1)%nat ∧
                  (lost ≠ [] → winding_down s' = true).
Proof.
  intros Ho Hs.
  assert (spoke [] [] s s' → central s ev = [] → dispatched ev = [] → ∃ carried lost, spoke carried (dispatched ev) s s' ∧
            central s ev = carried ++ lost ∧ (length lost <= 1)%nat ∧ (lost ≠ [] → winding_down s' = true)) as Hquiet.
  { intros Hsp -> ->. exists [], []. split_and!; [done..|simpl; lia|done]. }
  assert (∀ up r, s_phase s = PhForward up → loop_event config c s up ev = Some r → after_loop c r = Some s' → dispatched ev = [] →
            ∃ carried lost, spoke carried (dispatched ev) s s' ∧ central s ev = carried ++ lost ∧ (length lost <= 1)%nat ∧
                  (lost ≠ [] → winding_down s' = true)) as Hloop.
  { intros up r Hp Hr Ha ->. apply loop_event_speaks in Hr as (carried & lost & Hsp & E & Hl & Hlo); [|done].
    apply (spoke_after_loop c carried s) in Ha as [Ha Hover]; [|done]. exists carried, lost. split_and!; auto. }
  unfold step in Hs. unfold winding_down in Ho.
  destruct ev as [[up|e]|m|m| | | | | | |request|m], (s_phase s) as [|delay|up'|delay| |] eqn:Hp; simplify_eq/=;
    try (apply bind_Some in Hs as (r & Hr & Ha); by eapply Hloop);
    try (by apply (Hloop up' (on_charger config c s up' m)));
    try (by apply (Hloop up' (on_upstream c s up' m)));
    try (by apply (Hloop up' (on_housekeeping c s, None)));
    try (by apply (Hloop up' (s, Some Shutdown)));
    try (apply Hquiet; [|by unfold central; rewrite Hp|done];
         first [apply spoke_teardown | by apply spoke_says, says_begin_connect | by apply spoke_says, says_nothing
               | by apply spoke_says, says_connected | by apply (spoke_connect_failed c)]);
    try (exists [], []; split_and!; [|by unfold central; rewrite Hp|simpl; lia|done]; exists [], [];
         unfold waiting; simpl; rewrite <- app_assoc, !app_nil_r; split_and!; [done..|by left|done|done]).
  - apply Hquiet; [|by unfold central; rewrite Hp|done]. destruct (hung_up m); [apply spoke_teardown|apply spoke_says, says_begin_connect].
Qed.

(** After the end nothing more is said. *)
Lemma over_step c s ev s' :
  winding_down s = true → step config c s ev = Some s' →
  winding_down s' = true ∧ s_charger s' = s_charger s ∧ s_close_code s' = s_close_code s ∧ central s ev = [] ∧
  told CentralToCharger (reports s') = told CentralToCharger (reports s) ∧ waiting s' ⊆+ waiting s ++ dispatched ev.
Proof.
  intros Ho Hs. unfold winding_down in Ho. unfold step in Hs.
  assert (waiting s ⊆+ waiting s ++ []) as Hw by (by rewrite app_nil_r).
  destruct ev as [[up|e]|m|m| | | | | | |request|m], (s_phase s) eqn:Hp; simplify_eq/=;
    try (unfold winding_down, central; simpl; rewrite Hp; split_and!; try done; unfold waiting; simpl; by rewrite <- app_assoc).
  - unfold close_down, winding_down, central. rewrite Hp. simpl.
    destruct (set_upstream_state_rest (utc_now c) s Disconnected) as (El & Ei & Ec & _).
    pose proof (set_upstream_state_transport (utc_now c) s Disconnected) as Et. unfold transport in Et.
    destruct (says_set_upstream_state (utc_now c) s Disconnected) as (i & _ & Er & _ & Etold & _).
    split_and!; try done; [by simplify_eq/=| |unfold waiting; simpl; by rewrite El, Ei, app_nil_r].
    rewrite app_nil_r in Etold. exact Etold.
Qed.

(** What a run hears from the Central System while it forwards. *)
Fixpoint run_central (events : list (Clock * Event U)) s : list string :=
  match events with
  | [] => []
  | (c, ev) :: events =>
      central s ev ++ match step config c s ev with Some s' => run_central events s' | None => [] end
  end.

Lemma over_run events s s' :
  winding_down s = true → run config events s = Some s' →
  winding_down s' = true ∧ s_charger s' = s_charger s ∧ s_close_code s' = s_close_code s ∧ run_central events s = [] ∧
  told CentralToCharger (reports s') = told CentralToCharger (reports s) ∧
  waiting s' ⊆+ waiting s ++ (events ≫= λ ev, dispatched ev.2).
Proof.
  revert s. induction events as [|[c ev] events IH]; intros s Ho Hr; cbn [run run_central] in *.
  { simplify_eq. simpl. by rewrite app_nil_r. }
  apply bind_Some in Hr as (s1 & Hs & Hr). rewrite Hs.
  destruct (over_step c s ev s1 Ho Hs) as (Ho1 & Ec1 & Ecc1 & -> & Et1 & W1).
  destruct (IH s1 Ho1 Hr) as (Ho2 & Ec2 & Ecc2 & -> & Et2 & W2).
  split_and!; try done; try congruence. rewrite bind_cons, app_assoc. etrans; [exact W2|]. by apply submseteq_skips_r.
Qed.

Lemma run_spoke events s s' :
  winding_down s = false → run config events s = Some s' →
  ∃ carried lost, spoke carried (events ≫= λ ev, dispatched ev.2) s s' ∧ run_central events s = carried ++ lost ∧
                  (length lost <= 1)%nat ∧ (lost ≠ [] → winding_down s' = true).
Proof.
  revert s. induction events as [|[c ev] events IH]; intros s Ho Hr; cbn [run run_central] in *.
  { simplify_eq. exists [], []. split_and!; [apply spoke_says, says_nothing|..]; try done. simpl. lia. }
  apply bind_Some in Hr as (s1 & Hs & Hr). rewrite Hs.
  destruct (step_spoke c s ev s1 Ho Hs) as (k1 & l1 & (b1 & t1 & F1 & E1 & A1 & Tl1 & T1 & W1) & -> & Hl1 & Hlo1).
  destruct (winding_down s1) eqn:Ho1.
  - destruct (over_run events s1 s' Ho1 Hr) as (Ho2 & Ec2 & Ecc2 & -> & Et2 & W2).
    exists k1, l1. rewrite app_nil_r. split_and!; [|done..]. exists b1, t1. rewrite Ec2, Et2, Ecc2. split_and!; try done.
    + destruct Tl1 as [->|[-> _]]; auto.
    + rewrite bind_cons. etrans; [by apply submseteq_skips_l|]. rewrite !app_assoc. by apply submseteq_skips_r.
  - assert (t1 = []) as -> by (destruct Tl1 as [|[_ ?]]; [done|congruence]).
    assert (l1 = []) as -> by (destruct l1; [done|]; specialize (Hlo1 ltac:(done)); congruence).
    destruct (IH s1 Ho1 Hr) as (k2 & l2 & (b2 & t2 & F2 & E2 & A2 & Tl2 & T2 & W2) & -> & Hl2 & Hlo2).
    exists (k1 ++ k2), l2. rewrite !app_nil_r, <- app_assoc. split_and!; [|done..]. exists (b1 ++ b2), t2.
    rewrite A2, A1, T2, T1, !omap_app, E1, E2, retain_app, !app_nil_r, !fmap_app, <- !app_assoc.
    split_and!; try done; [by apply Forall_app_2|]. rewrite bind_cons.
    etrans; [by apply submseteq_skips_l|]. rewrite !app_assoc. by apply submseteq_skips_r.
Qed.
End speech.

(** ** The writer task *)

(** A WebSocket has sent what it took, and closing it sends no message of this type. *)
Class WsSinkLaws (W M : Type) `{WsSink W M} := {
  ws_sent : W → list M;
  ws_send_sent w m w' ok : ws_send w m = (w', ok) → ws_sent w' = ws_sent w ++ (if ok : bool then [m] else []);
  ws_close_sent w : ws_sent (ws_close w) = ws_sent w
}.

Definition is_close (m : AxumMessage) : bool := match m with AxClose _ => true | _ => false end.

Section writer.
Context {W : Type} `{WsSinkLaws W AxumMessage}.

(** The writer sends a prefix of what is in its channel: all of it, or up to a close frame, or
    up to a message the socket refused. *)
Lemma charger_writer_spec (w : W) queue :
  ∃ sent rest, queue = sent ++ rest ∧ ws_sent (charger_writer w queue) = ws_sent w ++ sent ∧
    (rest = [] ∨ (∃ m, last sent = Some m ∧ is_close m = true) ∨
     ∃ m rest' w1, rest = m :: rest' ∧ ws_sent w1 = ws_sent w ++ sent ∧ (ws_send w1 m).2 = false).
Proof.
  unfold charger_writer. rewrite ws_close_sent. revert w. induction queue as [|m queue IH]; intros w.
  { exists [], []. simpl. rewrite app_nil_r. split_and!; auto. }
  cbn [write_all]. destruct (ws_send w m) as [w1 ok] eqn:Hs. pose proof (ws_send_sent _ _ _ _ Hs) as Hw.
  change (match m with AxClose _ => true | _ => false end) with (is_close m). destruct ok; simpl.
  - destruct (is_close m) eqn:Hm.
    + exists [m], queue. simpl. split_and!; auto. right. left. by exists m.
    + destruct (IH w1) as (sent & rest & -> & E & Hr). exists (m :: sent), rest. rewrite E, Hw, <- app_assoc.
      split_and!; [done..|].
      destruct Hr as [->|[(m' & Hl & Hm')|(m' & rest' & w2 & -> & E2 & Hf)]]; [by left|right; left|right; right].
      * exists m'. split; [|done]. by destruct sent.
      * exists m', rest', w2. split_and!; [done| |done]. by rewrite E2, Hw, <- app_assoc.
  - exists [], (m :: queue). simpl. rewrite app_nil_r in Hw. split_and!; [done|by rewrite Hw, app_nil_r|].
    right. right. exists m, queue, w. rewrite app_nil_r, Hs. done.
Qed.

(** With no close frame but the last message, a close frame stops nothing short. *)
Lemma close_is_last (body tail sent rest : list AxumMessage) m :
  Forall (λ y, is_close y = false) body → (length tail <= 1)%nat → body ++ tail = (sent ++ [m]) ++ rest →
  is_close m = true → rest = [].
Proof.
  intros Hb Ht E Hm. assert (m ∉ body) as Hnot by (intros Hin; rewrite Forall_forall in Hb; by rewrite (Hb m Hin) in Hm).
  apply app_eq_inv in E as [(k & -> & _)|(k & E & ->)]; [set_solver|].
  destruct k as [|y k]; [rewrite app_nil_r in E; set_solver|]. rewrite length_app in Ht. simpl in Ht. destruct rest; [done|simpl in Ht; lia].
Qed.
End writer.

Section speech_theorems.
Context {C U W : Type} `{AsyncSenderLaws C AxumMessage} `{UpstreamLink U} `{SerdeJson} `{Chrono} `{WsSinkLaws W AxumMessage}.
Context (config : SessionConfig).

(** C6. The charger hears the Central System, its own commands' Calls and the farewell, and
    nothing else. Over any run of a session the messages on the charger's channel are, in
    order: the texts the Central System sent while the session forwarded, byte for byte,
    none missing but possibly the last, with which the session then ended; Calls, each the one
    prepared for a command dispatched to this session, no command called for twice; and
    at the very end at most one close frame, with the session's code. The writer task
    puts these on the socket in order, all of them unless the socket refuses one. *)
Theorem charger_hears_exactly c id charger m events (s : Session (list MqttEvent) C U) (w : W) :
  accepted charger = [] → ws_sent w = [] →
  run config events (session_new config c id [] charger m) = Some s →
  ∃ body tail lost,
    accepted (s_charger s) = to_axum <$> body ++ tail ∧
    Forall (sound_item config) body ∧
    omap relayed_text body ++ lost = run_central config events (session_new config c id [] charger m) ∧
    (length lost <= 1)%nat ∧ (lost ≠ [] → winding_down s = true) ∧
    omap called_for body ⊆+ (events ≫= λ ev, dispatched ev.2) ∧
    (tail = [] ∨ tail = [TcClose (s_close_code s)] ∧ winding_down s = true) ∧
    ∃ sent rest, to_axum <$> body ++ tail = sent ++ rest ∧ ws_sent (charger_writer w (accepted (s_charger s))) = sent ∧
      (rest = [] ∨ ∃ m rest' w1, rest = m :: rest' ∧ ws_sent w1 = sent ∧ (ws_send w1 m).2 = false).
Proof.
  intros Hc Hw Hr. set (s0 := session_new config c id [] charger m) in *.
  assert (says config [] s0 s0 ∧ winding_down s0 = false ∧ accepted (s_charger s0) = [] ∧ waiting s0 = []) as (_ & Ho & Ha & Hwait).
  { split; [by apply says_nothing|]. unfold s0, session_new, begin_connect, winding_down, waiting. simpl.
    match goal with |- context [set_upstream_state ?n ?x ?st] => destruct (set_upstream_state_rest n x st) as (-> & -> & -> & _) end.
    done. }
  destruct (run_spoke config events s0 s Ho Hr) as (carried & lost & (body & tail & F & E & A & Htail & _ & Wt) & Er & Hl & Hlo).
  rewrite Ha in A. simpl in A. rewrite Hwait in Wt. simpl in Wt. exists body, tail, lost. rewrite E, Er.
  split_and!; try done; [etrans; [by apply submseteq_inserts_r|exact Wt]|].
  destruct (charger_writer_spec w (accepted (s_charger s))) as (sent & rest & Eq & Es & Hrest). rewrite Hw in Es. simpl in Es.
  exists sent, rest. rewrite <- A, Eq. split_and!; [done|by rewrite <- Eq|].
  destruct Hrest as [->|[(x & Hlast & Hx)|(x & rest' & w1 & -> & E1 & Hf)]]; [by left| |right; exists x, rest', w1; by rewrite E1, Hw].
  left. apply last_Some in Hlast as [sent' ->]. rewrite A, fmap_app in Eq. eapply close_is_last; [| |exact Eq|exact Hx].
  - apply Forall_fmap. eapply Forall_impl; [exact F|]. by intros [| |].
  - destruct Htail as [->|[-> _]]; simpl; lia.
Qed.
End speech_theorems.

(** ** Witness: a talk *)

(** A socket that takes a number of messages. *)
Record ListSocket := mkSocket { sk_sent : list AxumMessage; sk_room : nat }.

#[export] Instance list_socket : WsSink ListSocket AxumMessage := {
  ws_send w m := match sk_room w with O => (w, false) | S n => (mkSocket (sk_sent w ++ [m]) n, true) end;
  ws_close w := mkSocket (sk_sent w) 0
}.

#[export] Program Instance list_socket_laws : WsSinkLaws ListSocket AxumMessage := { ws_sent := sk_sent }.
Next Obligation. intros w m w' ok. simpl. destruct (sk_room w); intros [= <- <-]; simpl; [by rewrite app_nil_r|done]. Qed.
Next Obligation. done. Qed.

#[local] Existing Instance reference_codec.
#[local] Existing Instance plain_chrono.

(** The Central System speaks, a command becomes a Call, the Central System speaks again, and
    the shutdown comes. *)
Definition talk_events : list (Clock * Event ListLink) :=
  [(at_time 1, EvConnect (Ok good_link)); (at_time 2, EvUpstream (Some (Ok (TuText "hello"))));
   (at_time 3, EvDispatched sample_request); (at_time 4, EvCommand);
   (at_time 5, EvUpstream (Some (Ok (TuText heartbeat_text)))); (at_time 6, EvCancelled); (at_time 7, EvSlept)].

Definition talked : ExampleSession := default example_session (example_run talk_events example_session).

Lemma talked_run :
  run sample_session_config talk_events
    (session_new sample_session_config (at_time 0) "CP-1" [] (mkCounted [] 1000) manager_new) = Some talked.
Proof. vm_compute. reflexivity. Qed.

Lemma quiet_channel : accepted (mkCounted [] 1000 : CountedChannel AxumMessage) = [].
Proof. reflexivity. Qed.
Lemma fresh_socket : ws_sent (mkSocket [] 10) = [].
Proof. reflexivity. Qed.

Lemma charger_hears_exactly_witness :
  ∃ body tail lost, accepted (s_charger talked) = to_axum <$> body ++ tail ∧
    omap relayed_text body ++ lost = ["hello"%string; heartbeat_text] ∧ omap called_for body ⊆+ [sample_request] ∧
    length (accepted (s_charger talked)) = 4%nat.
Proof.
  destruct (charger_hears_exactly sample_session_config (at_time 0) "CP-1" (mkCounted [] 1000) manager_new talk_events talked
    (mkSocket [] 10) quiet_channel fresh_socket talked_run) as (body & tail & lost & E & _ & Er & _ & _ & Ec & _).
  exists body, tail, lost. split_and!; [exact E| |exact Ec|vm_compute; reflexivity].
  refine (eq_trans Er _). vm_compute. reflexivity.
Defined.
