(* ===== verification/SessionRecord.v ===== *)
(** * What the publisher is told of the traffic (src/session.rs, src/forwarder.rs)

    A session reports each frame it forwards to the publisher. This file compares the
    reports with what went over the wires: nothing is reported that was not sent, in
    either direction, and what is sent without a report is made out exactly. *)

From S2P Require Import Prelude Float64 Json Models StateManager Config Command CallQueue Forwarder Session.
From S2P Require Import SessionRelay SessionCalls SessionSpeech.

Local Open Scope Z_scope.

Section record.
Context {C U : Type} `{AsyncSenderLaws C AxumMessage} `{UpstreamLinkLaws U} `{SerdeJson} `{Chrono}.
Context (config : SessionConfig).
Abbreviation Session := (Session (list MqttEvent) C U).
Implicit Types (s : Session).

(** ** Reports that are not of frames *)

Definition quiet s s' : Prop := ∃ l, reports s' = reports s ++ l ∧ ∀ d, told d l = [].

Lemma quiet_same s s' : reports s' = reports s → quiet s s'.
Proof. intros E. exists []. by rewrite app_nil_r. Qed.

Lemma quiet_trans s s1 s2 : quiet s s1 → quiet s1 s2 → quiet s s2.
Proof.
  intros (l1 & E1 & T1) (l2 & E2 & T2). exists (l1 ++ l2). rewrite E2, E1, app_assoc. split; [done|].
  intros d. by rewrite told_app, T1, T2.
Qed.

Lemma quiet_told d s s' : quiet s s' → told d (reports s') = told d (reports s).
Proof. intros (l & -> & Hl). by rewrite told_app, Hl, app_nil_r. Qed.

Lemma quiet_emit s x : quiet s (emit_command_result s x).
Proof. by exists [EvCommandResult (s_id s) x]. Qed.

Lemma quiet_emit_all s l : quiet s (emit_all s l).
Proof. revert s. induction l as [|x l IH]; intros s; simpl; [by apply quiet_same|]. eapply quiet_trans; [apply quiet_emit|apply IH]. Qed.

Lemma quiet_upstream_state now s st : quiet s (set_upstream_state now s st).
Proof. unfold set_upstream_state. case_decide; [by apply quiet_same|]. by eexists [_]. Qed.

Lemma quiet_complete now s f frame : quiet s (complete_local_call now s f frame).
Proof. unfold complete_local_call. destruct (interpret_response _ _) as [[??]?]. apply quiet_emit. Qed.

Lemma quiet_send_loop fuel c s : quiet s (send_loop config fuel c s).1.
Proof.
  revert s. induction fuel as [|fuel IH]; intros s; simpl; [by apply quiet_same|].
  destruct (pop_next (s_local s)) as [[request|] local]; [|by apply quiet_same].
  destruct (prepare_call _ _ _ _) as [p|reason].
  - destruct (charger_send_raw _ _) as [sink [u|e]]; simpl; [by apply quiet_same|]. exact (quiet_emit _ _).
  - eapply quiet_trans; [|apply IH]. exact (quiet_emit _ _).
Qed.

Lemma quiet_calls c s s1 : quiet s s1 → quiet s (charger_gone_unless (send_local_calls config c s1)).1.
Proof.
  intros Hs. eapply quiet_trans; [exact Hs|]. unfold send_local_calls.
  destruct (_ || _); [by apply quiet_same|]. destruct (has_recent_pending_call _ _ _ _); [by apply quiet_same|]. apply quiet_send_loop.
Qed.

Lemma quiet_settle now s : quiet s (settle now s).
Proof.
  unfold settle. simpl. set (s1 := emit_all (emit_all _ _) _). assert (quiet s s1) as Hs1.
  { unfold s1. eapply quiet_trans; [|apply quiet_emit_all]. eapply quiet_trans; [|apply quiet_emit_all]. by apply quiet_same. }
  eapply (quiet_trans s s1); [exact Hs1|]. exact (quiet_emit_all (set_inbox s1 []) _).
Qed.

Lemma quiet_teardown c s : quiet s (teardown c s).
Proof.
  eapply (quiet_trans s (settle (utc_now c) (count_dropped s))).
  - eapply (quiet_trans s (count_dropped s)); [unfold count_dropped; case_decide; by apply quiet_same|apply quiet_settle].
  - unfold teardown. destruct (send_wait _ _). by apply quiet_same.
Qed.

(** ** Texts on the upstream connections, with whether they were reported *)

Definition reported (i : bool * string) : option string := if i.1 then Some i.2 else None.

Definition conveys (items : list (bool * string)) s s' : Prop :=
  sent_upstream s' = sent_upstream s ++ items.*2 ∧
  told ChargerToCentral (reports s') = told ChargerToCentral (reports s) ++ omap reported items.

Lemma conveys_trans i1 i2 s s1 s2 : conveys i1 s s1 → conveys i2 s1 s2 → conveys (i1 ++ i2) s s2.
Proof. intros [A1 B1] [A2 B2]. unfold conveys. by rewrite A2, A1, B2, B1, omap_app, fmap_app, <- !app_assoc. Qed.

Lemma conveys_then i s s1 s2 : conveys i s s1 → conveys [] s1 s2 → conveys i s s2.
Proof. intros Hc1 Hc2. rewrite <- (app_nil_r i). by eapply conveys_trans. Qed.

(** What keeps the connections and reports no frame. *)
Lemma conveys_nothing s s' : sent_upstream s' = sent_upstream s → quiet s s' → conveys [] s s'.
Proof. intros E Hq. unfold conveys. simpl. by rewrite E, (quiet_told _ _ _ Hq), !app_nil_r. Qed.

Lemma transport_sent s s' : transport s' = transport s → sent_upstream s' = sent_upstream s.
Proof. unfold transport, sent_upstream. intros E. by simplify_eq/=; repeat match goal with E : _ = _ |- _ => rewrite E end. Qed.

Lemma conveys_upstream_state now s st : conveys [] s (set_upstream_state now s st).
Proof. apply conveys_nothing; [apply transport_sent, set_upstream_state_transport|apply quiet_upstream_state]. Qed.

Lemma conveys_calls c s s1 : sent_upstream s1 = sent_upstream s → quiet s s1 → conveys [] s (charger_gone_unless (send_local_calls config c s1)).1.
Proof.
  intros E Hq. apply conveys_nothing; [|by apply quiet_calls]. rewrite <- E. apply transport_sent, send_local_calls_transport.
Qed.

(** ** What each step conveys *)

(** What a connection takes of a buffer: its frames in order, up to the first it refuses. *)
Fixpoint flushes (up : U) (buffer : list OcppFrame) : list string :=
  match buffer with
  | [] => []
  | frame :: buffer =>
      let '(up, r) := link_send up (TuText (raw frame)) in
      if is_ok r then raw frame :: flushes up buffer else []
  end.

(** The texts an event puts on the upstream connection, and whether the publisher is told:
    a text the charger sends while the session forwards goes out if it is not the
    session's own answer and the connection takes it, and is told if it is a frame; a new
    connection is given what the buffer holds, and nobody is told. *)
Definition conveyed (c : Clock) s (ev : Event U) : list (bool * string) :=
  match s_phase s, ev with
  | PhForward up, EvCharger (Some (Ok (AxText text))) =>
      if consumed c s text || negb (is_ok (link_send up (TuText text)).2) then [] else [(parses text, text)]
  | PhConnect, EvConnect (Ok up) => pair false <$> flushes up (upstream_buffer (s_forwarder s))
  | _, _ => []
  end.

(** What a connection had carried before the session got it. *)
Definition carried_before (ev : Event U) : list (bool * string) :=
  match ev with EvConnect (Ok up) => pair false <$> link_texts up | _ => [] end.

Lemma flushes_spec buffer up :
  link_texts (up_sink (flush_buffer buffer (mkUpstreamSink up)).1.2) = link_texts up ++ flushes up buffer.
Proof.
  revert up. induction buffer as [|frame buffer IH]; intros up; simpl; [by rewrite app_nil_r|].
  unfold upstream_send_raw. simpl. destruct (link_send up (TuText (raw frame))) as [up' [u|e]] eqn:E;
    apply link_texts_send in E; simpl in *; [rewrite IH, E, <- app_assoc; done|by rewrite E, app_nil_r].
Qed.

Lemma forward_taken now fwd frame up d :
  is_ok (forward_message (T := list MqttEvent) now fwd frame (mkUpstreamSink up) d).2 = is_ok (link_send up (TuText (raw frame))).2.
Proof.
  unfold forward_message. cbn [send_raw upstream_sink]. unfold upstream_send_raw. cbn [up_sink].
  destruct (link_send _ _) as [up' [u|e]]; [|done]. by destruct (resolve_action _ _ _ _).
Qed.

(** ** The arms of [forward_loop]: what parses is reported, what does not is not *)

Lemma sent_extra s s1 up up1 l :
  s_phase s = PhForward up → s_phase s1 = PhForward up1 → s_past s1 = s_past s → link_texts up1 = link_texts up ++ l →
  sent_upstream s1 = sent_upstream s ++ l.
Proof.
  intros Hp Hp1 Hpast E. rewrite (sent_upstream_forward _ _ Hp), (sent_upstream_forward _ _ Hp1), Hpast, E. by rewrite app_assoc.
Qed.

Lemma conveys_charger_frame c s up frame text :
  s_phase s = PhForward up → parse (utc_now c) text = Ok frame →
  conveys (if is_ok (link_send up (TuText text)).2 then [(true, text)] else []) s (forward_charger_frame config c s up frame text).1.
Proof.
  intros Hp Hparse. unfold forward_charger_frame, forward_upstream.
  destruct (forward_reports (utc_now c) (s_forwarder s) frame (mkUpstreamSink up) ChargerToCentral) as [act Hr].
  pose proof (forward_message_spec (utc_now c) (s_forwarder s) frame (mkUpstreamSink up) ChargerToCentral) as Hspec.
  pose proof (forward_taken (utc_now c) (s_forwarder s) frame up ChargerToCentral) as Htaken.
  destruct (forward_message _ _ _ _ _) as [[fwd sink] r]. simpl in Hr, Htaken. destruct Hspec as (Hd & _).
  change (link_texts (up_sink sink) = link_texts up ++ (if is_ok r then [raw frame] else [])) in Hd.
  rewrite (parse_raw _ _ _ Hparse) in Hd, Htaken. rewrite <- Htaken. set (s1 := set_phase _ _).
  assert (conveys (if is_ok r then [(true, text)] else []) s s1) as Hc.
  { split; [|unfold reports, s1; simpl; rewrite Hr, told_app; destruct r; simpl; by rewrite ?(parse_raw _ _ _ Hparse)].
    rewrite (sent_extra s s1 up (up_sink sink) _ Hp eq_refl eq_refl Hd). by destruct r. }
  eapply conveys_then; [exact Hc|]. destruct r.
  - destruct (is_empty _); [apply conveys_nothing; [done|by apply quiet_same]|].
    apply conveys_calls; [done|by apply quiet_same].
  - destruct (parse _ _); (apply conveys_nothing; [done|by apply quiet_same]).
Qed.

Lemma conveys_on_charger c s up m :
  s_phase s = PhForward up → conveys (conveyed c s (EvCharger m)) s (on_charger config c s up m).1.
Proof.
  intros Hp. assert (conveys [] s s) as Hsame by (apply conveys_nothing; [done|by apply quiet_same]).
  unfold conveyed. rewrite Hp. destruct m as [[[text| | | |]|e]|]; try exact Hsame. cbn [on_charger]. unfold on_charger_text, consumed.
  destruct (parse (utc_now c) text) as [frame|e] eqn:Hparse.
  - assert (parses text = true) as -> by (by rewrite <- (parses_at (utc_now c)), Hparse).
    pose proof (conveys_charger_frame c s up frame text Hp Hparse) as Hc.
    destruct (take_answer (s_local s) frame) as [[f|] local]; simpl; [|by destruct (is_ok _)].
    set (s1 := complete_local_call _ _ _ _). apply conveys_calls.
    + unfold s1. rewrite (transport_sent _ _ (complete_transport _ _ _ _)). done.
    + eapply (quiet_trans s (set_local s local)); [by apply quiet_same|apply quiet_complete].
  - assert (parses text = false) as -> by (by rewrite <- (parses_at (utc_now c)), Hparse).
    cbn [send_raw upstream_sink orb]. unfold upstream_send_raw. cbn [up_sink]. destruct (link_send up (TuText text)) as [up' r] eqn:E.
    apply link_texts_send in E. split; [|destruct r; simpl; by rewrite app_nil_r].
    match goal with |- sent_upstream ?x = _ => rewrite (sent_extra s x up up' (if is_ok r then [text] else []) Hp eq_refl eq_refl) end;
      [by destruct r|]. rewrite E. by destruct r.
Qed.

Lemma conveys_on_upstream c s up m : s_phase s = PhForward up → conveys [] s (on_upstream c s up m).1.
Proof.
  intros Hp. assert (conveys [] s s) as Hsame by (apply conveys_nothing; [done|by apply quiet_same]).
  destruct m as [[[text| |data| | |]|e]|]; try exact Hsame; cbn [on_upstream].
  - unfold on_upstream_text. destruct (parse (utc_now c) text) as [frame|e].
    + unfold forward_downstream.
      destruct (forward_reports (utc_now c) (s_forwarder s) frame (mkChargerSink (s_charger s)) CentralToCharger) as [act Hr].
      destruct (forward_message _ _ _ _ _) as [[fwd sink] r]. simpl in Hr.
      assert (∀ s1, s_phase s1 = s_phase s → s_past s1 = s_past s → reports s1 = mqtt_tx fwd → conveys [] s s1) as Hq.
      { intros s1 E1 E2 E3. unfold conveys, sent_upstream. rewrite E1, E2, E3, Hr, told_app, !app_nil_r.
        destruct r; simpl; by rewrite ?app_nil_r. }
      destruct r; by apply Hq.
    + destruct (send_raw _ _) as [sink r]. apply conveys_nothing; [done|by apply quiet_same].
  - destruct (link_send up (TuPong data)) as [up' r] eqn:E. apply link_texts_send in E.
    apply conveys_nothing; [|by apply quiet_same]. match goal with |- sent_upstream ?x = _ => rewrite (sent_extra s x up up' [] Hp eq_refl eq_refl) end;
      [by rewrite app_nil_r|]. rewrite E. by destruct r.
Qed.

Lemma loop_event_conveys c s up ev r :
  s_phase s = PhForward up → loop_event config c s up ev = Some r → conveys (conveyed c s ev) s r.1.
Proof.
  intros Hp. pose proof (λ m, conveys_on_charger c s up m Hp) as Hcharger. unfold conveyed in *. rewrite Hp in *.
  destruct ev as [x|m|m| | | | | | |request|m]; simpl; intros Hr; simplify_eq/=.
  - apply Hcharger.
  - by apply conveys_on_upstream.
  - destruct (s_commands_open s), (s_inbox s) as [|request inbox] eqn:Ei; simplify_eq/=.
    unfold on_command. destruct (push _ request) as [local displaced]. set (s1 := emit_all _ _).
    apply conveys_calls; [unfold s1; by rewrite (transport_sent _ _ (emit_all_transport _ _))|].
    unfold s1. eapply quiet_trans; [|apply quiet_emit_all]. by apply quiet_same.
  - case_match; simplify_eq/=. apply conveys_nothing; [done|by apply quiet_same].
  - case_match; simplify_eq/=. unfold on_command_tick. destruct (expire c (s_local s)) as [[local expired] f].
    set (s1 := emit_all (emit_all _ _) _). apply conveys_calls.
    + unfold s1. by rewrite !(transport_sent _ _ (emit_all_transport _ _)).
    + unfold s1. eapply quiet_trans; [|apply quiet_emit_all]. eapply quiet_trans; [|apply quiet_emit_all]. by apply quiet_same.
  - apply conveys_nothing; [done|by apply quiet_same].
  - apply conveys_nothing; [done|by apply quiet_same].
Qed.

(** ** Steps *)

(** Between connections what was sent is what the connections given up carried. *)
Definition given_up_texts s : list string := concat (link_texts <$> s_past s).

Lemma sent_idle s : forwarding s = false → sent_upstream s = given_up_texts s.
Proof. unfold forwarding, sent_upstream, given_up_texts. destruct (s_phase s); intros; try done; simpl; by rewrite app_nil_r. Qed.

Lemma sent_dropped s : given_up_texts (drop_link s) = sent_upstream s.
Proof. unfold given_up_texts, sent_upstream, drop_link. simpl. by destruct (s_phase s). Qed.

(** A session that leaves the loop, or is outside it, and stays outside. *)
Lemma conveys_idle s0 s s' :
  sent_upstream s0 = given_up_texts s → s_past s' = s_past s → forwarding s' = false → quiet s0 s' → conveys [] s0 s'.
Proof. intros Es Ep Hf Hq. apply conveys_nothing; [|done]. rewrite (sent_idle s' Hf), Es. unfold given_up_texts. by rewrite Ep. Qed.

Lemma conveys_teardown s0 c s : sent_upstream s0 = given_up_texts s → quiet s0 s → conveys [] s0 (teardown c s).
Proof.
  intros Es Hq. destruct (teardown_past c s) as [Ep Hf]. eapply conveys_idle; [exact Es|exact Ep|exact Hf|].
  eapply quiet_trans; [exact Hq|apply quiet_teardown].
Qed.

Lemma conveys_begin_connect s0 c s : sent_upstream s0 = given_up_texts s → quiet s0 s → conveys [] s0 (begin_connect c s).
Proof.
  intros Es Hq. eapply conveys_idle; [exact Es| |done|].
  - exact (transport_past _ _ (set_upstream_state_transport (utc_now c) s Connecting)).
  - eapply quiet_trans; [exact Hq|exact (quiet_upstream_state (utc_now c) s Connecting)].
Qed.

Lemma conveys_upstream_lost s0 c s s' :
  sent_upstream s0 = given_up_texts s → quiet s0 s → upstream_lost c s = Some s' → conveys [] s0 s'.
Proof.
  intros Es Hq. unfold upstream_lost. set (s1 := set_forwarder s _). intros Hs.
  destruct (next_delay _) as [[d b]|]; simplify_eq/=. eapply conveys_idle; [exact Es| |done|].
  - exact (transport_past _ _ (set_upstream_state_transport (utc_now c) s1 Reconnecting)).
  - eapply quiet_trans; [exact Hq|exact (quiet_upstream_state (utc_now c) s1 Reconnecting)].
Qed.

Lemma conveys_after_loop c i s r s' : conveys i s r.1 → after_loop c r = Some s' → conveys i s s'.
Proof.
  destruct r as [s1 o]. intros Hc Ha. simpl in Hc. eapply conveys_then; [exact Hc|].
  pose proof (sent_dropped s1) as Ed. unfold after_loop in Ha. destruct o as [[| |]|]; simplify_eq/=.
  - apply conveys_teardown; [done|by apply quiet_same].
  - eapply conveys_upstream_lost; [symmetry; exact Ed|by apply quiet_same|exact Ha].
  - apply conveys_teardown; [done|by apply quiet_same].
  - apply conveys_nothing; [done|by apply quiet_same].
Qed.

(** What goes out on a new connection before the loop is reported to nobody. *)
Lemma conveys_connected c s up :
  forwarding s = false →
  conveys (pair false <$> link_texts up ++ flushes up (upstream_buffer (s_forwarder s))) s (connected c s up).
Proof.
  intros Hf. unfold connected. set (s0 := set_since _ _).
  pose proof (transport_past _ _ (set_upstream_state_transport (utc_now c) s0 Connected)) as Ep.
  pose proof (transport_relayed _ _ (set_upstream_state_transport (utc_now c) s0 Connected)) as (_ & _ & Eb).
  pose proof (quiet_upstream_state (utc_now c) s0 Connected) as Hq.
  change (upstream_buffer (s_forwarder s)) with (upstream_buffer (s_forwarder s0)).
  revert Ep Eb Hq. generalize (set_upstream_state (utc_now c) s0 Connected). intros s1 Ep <- Hq.
  unfold flush_upstream. pose proof (flushes_spec (upstream_buffer (s_forwarder s1)) up) as Hfl. revert Hfl.
  generalize (flushes up (upstream_buffer (s_forwarder s1))). intros out Hfl.
  destruct (flush_buffer _ _) as [[rest sink] r]. simpl in Hfl. set (s2 := set_phase _ _).
  assert (conveys (pair false <$> link_texts up ++ out) s s2) as Hc.
  { split.
    - rewrite (sent_idle s Hf), (sent_upstream_forward s2 (up_sink sink) eq_refl). unfold given_up_texts.
      change (s_past s2) with (s_past s1). rewrite Ep, Hfl. f_equal. rewrite <- list_fmap_compose. symmetry. apply list_fmap_id.
    - assert (omap reported (pair false <$> link_texts up ++ out) = []) as ->.
      { clear Hfl. induction (link_texts up ++ out) as [|y l IH]; [done|exact IH]. }
      rewrite app_nil_r. exact (quiet_told _ _ _ Hq). }
  destruct r; (eapply conveys_then; [exact Hc|]).
  - apply conveys_nothing; [done|by apply quiet_same].
  - apply conveys_begin_connect; [symmetry; apply sent_dropped|by apply quiet_same].
Qed.

Lemma conveys_connect_failed c s s' : forwarding s = false → connect_failed config c s = Some s' → conveys [] s s'.
Proof.
  intros Hf. unfold connect_failed. destruct (_ <=? _); intros Hs.
  - injection Hs as <-. apply conveys_teardown; [by rewrite sent_idle|by apply quiet_same].
  - set (s1 := set_since s _) in *. destruct (next_delay _) as [[d b]|]; simplify_eq/=.
    eapply (conveys_idle s s); [by apply sent_idle| |done|].
    + exact (transport_past _ _ (set_upstream_state_transport (utc_now c) s1 Reconnecting)).
    + exact (quiet_upstream_state (utc_now c) s1 Reconnecting).
Qed.

Lemma step_conveys c s ev s' :
  step config c s ev = Some s' → conveys (carried_before ev ++ conveyed c s ev) s s'.
Proof.
  intros Hs.
  assert (∀ up r, s_phase s = PhForward up → loop_event config c s up ev = Some r → after_loop c r = Some s' →
            conveys (conveyed c s ev) s s') as Hloop.
  { intros up r Hp Hr Ha. apply (loop_event_conveys c s up) in Hr; [|done]. by eapply conveys_after_loop. }
  assert (forwarding s = false → sent_upstream s = given_up_texts s) as Hidle by apply sent_idle.
  unfold step in Hs. destruct ev as [[up|e]|m|m| | | | | | |request|m], (s_phase s) as [|delay|up'|delay| |] eqn:Hp; simplify_eq/=;
    try (apply bind_Some in Hs as (r & Hr & Ha); by eapply Hloop);
    try (by apply (Hloop up' (on_charger config c s up' m)));
    try (by apply (Hloop up' (on_upstream c s up' m)));
    try (by apply (Hloop up' (on_housekeeping c s, None)));
    try (by apply (Hloop up' (s, Some Shutdown)));
    unfold conveyed; rewrite ?Hp; simpl;
    try (unfold forwarding in Hidle; rewrite Hp in Hidle;
         first [ by apply conveys_teardown; [apply Hidle|apply quiet_same] | by apply conveys_begin_connect; [apply Hidle|apply quiet_same]
               | by apply conveys_nothing; [unfold sent_upstream; simpl; rewrite ?Hp|apply quiet_same] ]).
  - rewrite <- fmap_app. apply conveys_connected. unfold forwarding. by rewrite Hp.
  - apply (conveys_connect_failed c); [unfold forwarding; by rewrite Hp|done].
  - unfold forwarding in Hidle; rewrite Hp in Hidle.
    destruct (hung_up m); [apply conveys_teardown|apply conveys_begin_connect]; (by apply Hidle) || by apply quiet_same.
  - unfold close_down. set (s1 := set_upstream_state _ _ _). unfold forwarding in Hidle; rewrite Hp in Hidle.
    eapply (conveys_idle s s); [by apply Hidle| |done|].
    + exact (transport_past _ _ (set_upstream_state_transport (utc_now c) s Disconnected)).
    + exact (quiet_upstream_state (utc_now c) s Disconnected).
Qed.

(** ** Runs *)

Lemma run_conveys events s s' : run config events s = Some s' → ∃ items, conveys items s s'.
Proof.
  revert s. induction events as [|[c ev] events IH]; intros s Hr; cbn [run] in Hr.
  { simplify_eq. exists []. apply conveys_nothing; [done|by apply quiet_same]. }
  apply bind_Some in Hr as (s1 & Hc1%step_conveys & (items & Hc2)%IH). eexists. by eapply conveys_trans.
Qed.

(** Frames sent unreported, frames in the buffer, and the connection in use. *)
Definition untold (items : list (bool * string)) : nat := length (retain (λ i, negb i.1 && parses i.2) items).
Definition at_hand s : nat := length (upstream_buffer (s_forwarder s)) + (if forwarding s then 1 else 0).

Lemma untold_app l1 l2 : untold (l1 ++ l2) = (untold l1 + untold l2)%nat.
Proof. unfold untold. by rewrite retain_app, length_app. Qed.

Lemma untold_length l : (untold l <= length l)%nat.
Proof. apply retain_length. Qed.

Lemma conveyed_told c s ev : forwarding s = true → untold (conveyed c s ev) = 0%nat.
Proof.
  unfold forwarding, conveyed. destruct (s_phase s); try done. intros _.
  destruct ev as [|[[[text| | | |]|]|]| | | | | | | | |]; try done. destruct (_ || _); [done|]. unfold untold, retain. simpl. by destruct (parses text).
Qed.

Lemma step_untold c s ev s' :
  buffer_inv s → new_connection (c, ev) → step config c s ev = Some s' →
  buffer_inv s' ∧ conveys (conveyed c s ev) s s' ∧
  (untold (conveyed c s ev) + at_hand s' <= at_hand s + (if connects (c, ev) then 1 else 0))%nat.
Proof.
  intros Hinv Hnew Hs. destruct (step_relayed config c s ev s' Hinv Hnew Hs) as [Er Hinv']. split; [done|].
  assert (conveys (conveyed c s ev) s s') as Hc.
  { pose proof (step_conveys c s ev s' Hs) as Hc. unfold new_connection in Hnew. unfold carried_before in Hc.
    destruct ev as [[up|e]| | | | | | | | | |]; try exact Hc. simpl in Hnew. by rewrite Hnew in Hc. }
  split; [done|]. destruct Hc as [Hsent _]. unfold relayed in Er. rewrite Hsent, <- !app_assoc in Er. apply app_inv_head in Er.
  destruct Hinv as [Hempty Hlen], Hinv' as [Hempty' Hlen']. unfold at_hand. destruct (forwarding s) eqn:Hf.
  - rewrite (conveyed_told c s ev Hf). destruct (forwarding s') eqn:Hf'; [rewrite (Hempty' eq_refl); simpl; lia|simpl; lia].
  - assert (heard c s ev = []) as Eh by (unfold heard; unfold forwarding in Hf; by destruct (s_phase s)).
    rewrite Eh, app_nil_r in Er. apply (f_equal length) in Er. rewrite !length_app, !length_fmap in Er.
    pose proof (untold_length (conveyed c s ev)) as Hu. destruct (connects (c, ev)) eqn:Hcon.
    + destruct (forwarding s'); lia.
    + rewrite (step_starts config c s ev s' Hf Hcon Hs). lia.
Qed.

Lemma run_untold events s s' :
  buffer_inv s → Forall new_connection events → run config events s = Some s' →
  conveys (run_collect config conveyed events s) s s' ∧
  (untold (run_collect config conveyed events s) + at_hand s' <= at_hand s + length (retain connects events))%nat.
Proof.
  revert s. induction events as [|[c ev] events IH]; intros s Hinv Hnew Hr; cbn [run run_collect] in *.
  { simplify_eq. split; [apply conveys_nothing; [done|by apply quiet_same]|simpl; lia]. }
  apply bind_Some in Hr as (s1 & Hs & Hr). rewrite Hs. apply Forall_cons in Hnew as [Hev Hnew].
  destruct (step_untold c s ev s1 Hinv Hev Hs) as (Hinv1 & Hc1 & Hn1). destruct (IH s1 Hinv1 Hnew Hr) as (Hc2 & Hn2).
  split; [by eapply conveys_trans|]. rewrite untold_app. unfold retain in *. simpl. destruct (connects (c, ev)); simpl; lia.
Qed.

Lemma session_new_quiet c id (charger : C) m :
  let s : Session := session_new config c id [] charger m in
  sent_upstream s = [] ∧ (∀ d, told d (reports s) = []) ∧ forwarding s = false ∧ upstream_buffer (s_forwarder s) = [] ∧
  accepted (s_charger s) = accepted charger.
Proof.
  unfold session_new. match goal with |- context [begin_connect c ?x] => set (s0 := x) end. cbv zeta.
  destruct (conveys_begin_connect s0 c s0 eq_refl (quiet_same s0 s0 eq_refl)) as [-> _].
  destruct (begin_connect_relayed c s0) as (_ & Hp & Hb). rewrite Hb. split_and!; [done| |unfold forwarding; by rewrite Hp|done|].
  - intros d. rewrite (quiet_told d s0 (begin_connect c s0)); [done|]. exact (quiet_upstream_state (utc_now c) s0 Connecting).
  - unfold begin_connect. simpl. by destruct (set_upstream_state_rest (utc_now c) s0 Connecting) as (_ & _ & -> & _).
Qed.

End record.

(** ** Whose events they are *)

Definition event_id (e : MqttEvent) : string :=
  match e with EvMessageForwarded id _ _ _ | EvStateChange id _ _ | EvCommandResult id _ => id end.

Section signed.
Context {C U : Type} `{AsyncSender C AxumMessage} `{UpstreamLink U} `{SerdeJson} `{Chrono}.
Context (config : SessionConfig).
Abbreviation Session := (Session (list MqttEvent) C U).
Implicit Types (s : Session).

(** The session and its forwarder keep their charge point, and report under it. *)
Definition signed s s' : Prop :=
  s_id s' = s_id s ∧ fwd_charge_point_id (s_forwarder s') = fwd_charge_point_id (s_forwarder s) ∧
  ∃ l, reports s' = reports s ++ l ∧ Forall (λ e, event_id e = s_id s ∨ event_id e = fwd_charge_point_id (s_forwarder s)) l.

Lemma signed_same s s' :
  s_id s' = s_id s → fwd_charge_point_id (s_forwarder s') = fwd_charge_point_id (s_forwarder s) → reports s' = reports s → signed s s'.
Proof. intros E1 E2 E3. split_and!; [done..|]. exists []. by rewrite E3, app_nil_r. Qed.

Lemma signed_trans s s1 s2 : signed s s1 → signed s1 s2 → signed s s2.
Proof.
  intros (E1 & E2 & l1 & R1 & F1) (E3 & E4 & l2 & R2 & F2). rewrite E1, E2 in *. split_and!; [congruence..|].
  exists (l1 ++ l2). rewrite R2, R1, app_assoc. split; [done|]. by apply Forall_app_2.
Qed.

Lemma signed_send s e :
  event_id e = s_id s ∨ event_id e = fwd_charge_point_id (s_forwarder s) → signed s (set_forwarder s (send_event (s_forwarder s) e)).
Proof. intros He. split_and!; [done..|]. exists [e]. split; [done|]. by constructor. Qed.

Lemma signed_emit s x : signed s (emit_command_result s x).
Proof. apply signed_send. by left. Qed.

Lemma signed_emit_all s l : signed s (emit_all s l).
Proof. revert s. induction l as [|x l IH]; intros s; simpl; [by apply signed_same|]. eapply signed_trans; [apply signed_emit|apply IH]. Qed.

Lemma signed_upstream_state now s st : signed s (set_upstream_state now s st).
Proof.
  unfold set_upstream_state. case_decide; [by apply signed_same|].
  eapply (signed_trans s (set_state s (transition now (s_state s) Upstream st))); [by apply signed_same|]. apply signed_send. by left.
Qed.

Lemma signed_complete now s f frame : signed s (complete_local_call now s f frame).
Proof. unfold complete_local_call. destruct (interpret_response _ _) as [[??]?]. apply signed_emit. Qed.

Lemma signed_send_loop fuel c s : signed s (send_loop config fuel c s).1.
Proof.
  revert s. induction fuel as [|fuel IH]; intros s; simpl; [by apply signed_same|].
  destruct (pop_next (s_local s)) as [[request|] local]; [|by apply signed_same].
  destruct (prepare_call _ _ _ _) as [p|reason].
  - destruct (charger_send_raw _ _) as [sink [u|e]]; simpl; [by apply signed_same|]. exact (signed_emit _ _).
  - eapply signed_trans; [|apply IH]. exact (signed_emit _ _).
Qed.

Lemma signed_calls c s s1 : signed s s1 → signed s (charger_gone_unless (send_local_calls config c s1)).1.
Proof.
  intros Hs. eapply signed_trans; [exact Hs|]. unfold send_local_calls.
  destruct (_ || _); [by apply signed_same|]. destruct (has_recent_pending_call _ _ _ _); [by apply signed_same|]. apply signed_send_loop.
Qed.

Lemma signed_forward now s frame {S} `{MessageSink S} (sink : S) d s' :
  s_id s' = s_id s → s_forwarder s' = (forward_message now (s_forwarder s) frame sink d).1.1 → signed s s'.
Proof.
  intros Ei Ef. destruct (forward_reports now (s_forwarder s) frame sink d) as [act Hr]. cbv zeta in Hr.
  assert (fwd_charge_point_id (forward_message now (s_forwarder s) frame sink d).1.1 = fwd_charge_point_id (s_forwarder s)) as E.
  { unfold forward_message. destruct (send_raw sink (raw frame)) as [sink' [u|e]]; [|done].
    destruct (resolve_action_rest now (s_forwarder s) frame d) as (_ & _ & _ & _ & _ & E). by destruct (resolve_action _ _ _ _). }
  split_and!; [done|by rewrite Ef|]. unfold reports. rewrite Ef, Hr. eexists. split; [done|]. destruct (is_ok _); constructor; [by right|done].
Qed.

Lemma signed_on_charger c s up m : signed s (on_charger config c s up m).1.
Proof.
  destruct m as [[[text| | | |]|e]|]; try (by apply signed_same). cbn [on_charger]. unfold on_charger_text.
  destruct (parse _ _) as [frame|e]; [|destruct (send_raw _ _); by apply signed_same].
  destruct (take_answer (s_local s) frame) as [[f|] local].
  - apply signed_calls. eapply (signed_trans s (set_local s local)); [by apply signed_same|apply signed_complete].
  - unfold forward_charger_frame, forward_upstream.
    pose proof (signed_forward (utc_now c) s frame (mkUpstreamSink up) ChargerToCentral) as Hf.
    destruct (forward_message _ _ _ _ _) as [[fwd sink] r]. simpl in Hf. destruct r; simpl.
    + destruct (is_empty _); [by apply Hf|]. apply signed_calls. by apply Hf.
    + set (s1 := set_phase (set_forwarder s fwd) (PhForward (up_sink sink))). assert (signed s s1) as Hs1 by (by apply Hf).
      destruct (parse _ _); [|exact Hs1]. eapply signed_trans; [exact Hs1|]. by apply signed_same.
Qed.

Lemma signed_on_upstream c s up m : signed s (on_upstream c s up m).1.
Proof.
  destruct m as [[[text| |data| | |]|e]|]; try (by apply signed_same); cbn [on_upstream]; [|destruct (link_send _ _); by apply signed_same].
  unfold on_upstream_text. destruct (parse _ _) as [frame|e]; [|destruct (send_raw _ _); by apply signed_same]. unfold forward_downstream.
  pose proof (signed_forward (utc_now c) s frame (mkChargerSink (s_charger s)) CentralToCharger) as Hf.
  destruct (forward_message _ _ _ _ _) as [[fwd sink] r]. destruct r; by apply Hf.
Qed.

Lemma signed_loop_event c s up ev r : loop_event config c s up ev = Some r → signed s r.1.
Proof.
  destruct ev as [x|m|m| | | | | | |request|m]; simpl; intros Hr; simplify_eq/=; try (by apply signed_same).
  - apply signed_on_charger.
  - apply signed_on_upstream.
  - destruct (s_commands_open s), (s_inbox s) as [|request inbox]; simplify_eq/=. unfold on_command.
    destruct (push _ _) as [local displaced]. apply signed_calls.
    eapply (signed_trans s (set_local (set_inbox s inbox) local)); [by apply signed_same|apply signed_emit_all].
  - case_match; simplify_eq/=. by apply signed_same.
  - case_match; simplify_eq/=. unfold on_command_tick. destruct (expire c (s_local s)) as [[local expired] f]. apply signed_calls.
    eapply signed_trans; [|apply signed_emit_all]. eapply signed_trans; [|apply signed_emit_all]. by apply signed_same.
Qed.

Lemma signed_teardown c s : signed s (teardown c s).
Proof.
  eapply (signed_trans s (settle (utc_now c) (count_dropped s))); [|unfold teardown; destruct (send_wait _ _); by apply signed_same].
  eapply (signed_trans s (count_dropped s)); [unfold count_dropped; case_decide; by apply signed_same|].
  generalize (count_dropped s). intros s0. unfold settle. simpl. set (s1 := emit_all (emit_all _ _) _). assert (signed s0 s1) as Hs1.
  { unfold s1. eapply signed_trans; [|apply signed_emit_all]. eapply signed_trans; [|apply signed_emit_all]. by apply signed_same. }
  eapply (signed_trans s0 s1); [exact Hs1|]. exact (signed_emit_all (set_inbox s1 []) _).
Qed.

Lemma signed_begin_connect c s : signed s (begin_connect c s).
Proof. exact (signed_upstream_state (utc_now c) s Connecting). Qed.

Lemma signed_after_loop c s r s' : signed s r.1 → after_loop c r = Some s' → signed s s'.
Proof.
  destruct r as [s1 o]. intros Hs Ha. simpl in Hs. eapply signed_trans; [exact Hs|]. unfold after_loop in Ha.
  destruct o as [[| |]|]; simplify_eq/=; try apply (signed_teardown c (drop_link s1)); [|by apply signed_same].
  unfold upstream_lost in Ha. destruct (next_delay _) as [[d b]|]; simplify_eq/=.
  exact (signed_upstream_state (utc_now c) (set_forwarder (drop_link s1) (discard_downstream_buffer (s_forwarder (drop_link s1)))) Reconnecting).
Qed.

Lemma signed_connected c s up : signed s (connected c s up).
Proof.
  unfold connected. set (s0 := set_since _ _). pose proof (signed_upstream_state (utc_now c) s0 Connected) as Hs.
  revert Hs. generalize (set_upstream_state (utc_now c) s0 Connected). intros s1 Hs.
  unfold flush_upstream. destruct (flush_buffer _ _) as [[rest sink] [u|e]]; [exact Hs|]. eapply signed_trans; [exact Hs|].
  match goal with |- signed _ (begin_connect c ?x) => exact (signed_begin_connect c x) end.
Qed.

Lemma signed_connect_failed c s s' : connect_failed config c s = Some s' → signed s s'.
Proof.
  unfold connect_failed. destruct (_ <=? _); intros Hs.
  - injection Hs as <-. exact (signed_teardown c (set_close_code (set_since s _) CLOSE_GOING_AWAY)).
  - destruct (next_delay _) as [[d b]|]; simplify_eq/=.
    exact (signed_upstream_state (utc_now c) (set_since s (Some (default (instant_now c) (s_reconnecting_since s)))) Reconnecting).
Qed.

Lemma signed_step c s ev s' : step config c s ev = Some s' → signed s s'.
Proof.
  intros Hs.
  assert (∀ up r, loop_event config c s up ev = Some r → after_loop c r = Some s' → signed s s') as Hloop.
  { intros up r Hr%signed_loop_event Ha. by eapply signed_after_loop. }
  unfold step in Hs.
  destruct ev as [[up|e]|m|m| | | | | | |request|m], (s_phase s) as [|delay|up'|delay| |] eqn:Hp; simplify_eq/=;
    try (apply bind_Some in Hs as (r & Hr & Ha); by apply (Hloop up' r));
    try (by apply (Hloop up' (on_charger config c s up' m)));
    try (by apply (Hloop up' (on_upstream c s up' m)));
    try (by apply (Hloop up' (on_housekeeping c s, None)));
    try (by apply (Hloop up' (s, Some Shutdown)));
    try apply signed_teardown; try apply signed_begin_connect; try (by apply signed_same).
  - apply signed_connected.
  - by apply (signed_connect_failed c).
  - destruct (hung_up m); [apply signed_teardown|apply signed_begin_connect].
  - exact (signed_upstream_state (utc_now c) s Disconnected).
Qed.

Lemma signed_run events s s' : run config events s = Some s' → signed s s'.
Proof.
  revert s. induction events as [|[c ev] events IH]; intros s Hr; cbn [run] in Hr; [simplify_eq; by apply signed_same|].
  apply bind_Some in Hr as (s1 & Hs%signed_step & Hr). eapply signed_trans; [exact Hs|by apply IH].
Qed.

Lemma session_new_signed c id (charger : C) m :
  let s : Session := session_new config c id [] charger m in
  s_id s = id ∧ fwd_charge_point_id (s_forwarder s) = id ∧ Forall (λ e, event_id e = id) (reports s).
Proof.
  unfold session_new. match goal with |- context [begin_connect c ?x] => set (s0 := x) end. cbv zeta.
  destruct (signed_begin_connect c s0) as (-> & -> & l & -> & Hl). split_and!; [done..|]. eapply Forall_impl; [exact Hl|]. naive_solver.
Qed.
End signed.

Section record_theorems.
Context {C U : Type} `{AsyncSenderLaws C AxumMessage} `{UpstreamLinkLaws U} `{SerdeJson} `{Chrono}.
Context (config : SessionConfig).
Abbreviation Session := (Session (list MqttEvent) C U).
Implicit Types (s : Session).

(** ** Theorems *)

(** C7. The publisher's record of the traffic is true and, but for what a buffer held and
    what is no frame, complete, over any run whose upstream connections are new. Towards
    the Central System what went out, in order, is what each event conveys, and the
    publisher is told, byte for byte and in that order, exactly of the texts so marked:
    every frame the charger sends while the session forwards and the connection takes is
    told, once; a text that is no frame goes out and is not told; and what a new connection
    is given from the buffer is not told, at most one frame for each connection, the
    connection in use and a frame still in the buffer counted. Towards the charger it is
    told of exactly the frames among the texts of the Central System that reached the
    charger's channel. All it is told of the session is under the session's charge point. *)
Theorem publisher_record_exact c id (charger : C) m events (s : Session) :
  accepted charger = [] → Forall new_connection events →
  run config events (session_new config c id [] charger m) = Some s →
  (sent_upstream s = (run_collect config conveyed events (session_new config c id [] charger m)).*2 ∧
   told ChargerToCentral (reports s) =
     omap reported (run_collect config conveyed events (session_new config c id [] charger m)) ∧
   (untold (run_collect config conveyed events (session_new config c id [] charger m)) + at_hand s <=
      length (retain connects events))%nat) ∧
  (∃ body tail, accepted (s_charger s) = to_axum <$> body ++ tail ∧ Forall (sound_item config) body ∧
     (tail = [] ∨ tail = [TcClose (s_close_code s)]) ∧
     told CentralToCharger (reports s) = retain parses (omap relayed_text body)) ∧
  Forall (λ e, event_id e = id) (reports s).
Proof.
  intros Hc Hnew Hr. destruct (session_new_quiet config c id charger m) as (Es & Et & Ef & Eb & Ea).
  destruct (session_new_inv config c id [] charger m) as [Hinv _]. split_and!.
  - destruct (run_untold config events _ s Hinv Hnew Hr) as ([E1 _] & _). by rewrite E1, Es.
  - destruct (run_untold config events _ s Hinv Hnew Hr) as ([_ E2] & _). by rewrite E2, Et.
  - destruct (run_untold config events _ s Hinv Hnew Hr) as (_ & Hn). unfold at_hand in Hn at 2. by rewrite Ef, Eb in Hn.
  - assert (winding_down (session_new (U := U) config c id [] charger m) = false) as Ho by done.
    destruct (run_spoke config events _ s Ho Hr) as (carried & lost & (body & tail & F & E & A & Htail & T & _) & _).
    exists body, tail. rewrite A, Ea, Hc, T, Et, E. split_and!; [done|done| |done]. destruct Htail as [->|[-> _]]; auto.
  - destruct (session_new_signed (U := U) config c id charger m) as (Ei & Eid & Fid).
    destruct (signed_run config events _ s Hr) as (_ & _ & l & -> & Hl). apply Forall_app_2; [done|].
    eapply Forall_impl; [exact Hl|]. cbv beta. intros e [He|He]; congruence.
Qed.
End record_theorems.

(** ** Witness, and the frame nobody is told of *)

#[local] Existing Instance reference_codec.
#[local] Existing Instance plain_chrono.

(** A frame flushed to a new connection, then one forwarded, then a text that is no frame. *)
Definition mixed_events : list (Clock * Event ListLink) :=
  replay_events ++ [(at_time 5, EvCharger (Some (Ok (AxText (accepted_text "8"))))); (at_time 6, EvCharger (Some (Ok (AxText "hello"))))].

Lemma mixed_events_new_connection : Forall new_connection mixed_events.
Proof. apply Forall_app_2; [apply replay_events_new_connection|]. repeat (apply Forall_cons_2; [exact I|]). apply Forall_nil_2. Qed.

Definition mixed : ExampleSession := default example_session (example_run mixed_events example_session).

Lemma mixed_run :
  run sample_session_config mixed_events
    (session_new sample_session_config (at_time 0) "CP-1" [] (mkCounted [] 1000) manager_new) = Some mixed.
Proof. vm_compute. reflexivity. Qed.

Lemma publisher_record_exact_witness :
  sent_upstream mixed = [heartbeat_text; accepted_text "8"; "hello"%string] ∧
  told ChargerToCentral (reports mixed) = [accepted_text "8"] ∧
  (untold (run_collect sample_session_config conveyed mixed_events
             (session_new sample_session_config (at_time 0) "CP-1" [] (mkCounted [] 1000) manager_new)) <= 1)%nat.
Proof.
  destruct (publisher_record_exact sample_session_config (at_time 0) "CP-1" (mkCounted [] 1000) manager_new
    mixed_events mixed quiet_channel mixed_events_new_connection mixed_run) as ((E1 & E2 & Hn) & _). split_and!.
  - refine (eq_trans E1 _). vm_compute. reflexivity.
  - refine (eq_trans E2 _). vm_compute. reflexivity.
  - assert (at_hand mixed = 1%nat) as Ha by (vm_compute; reflexivity). rewrite Ha in Hn.
    assert (length (retain connects mixed_events) = 2%nat) as Hl by reflexivity. rewrite Hl in Hn. lia.
Defined.

(** The actions the publisher is told, in order. *)
Definition actions_told (events : list MqttEvent) : list string :=
  omap (λ e, match e with EvMessageForwarded _ _ _ act => Some act | _ => None end) events.

(** A frame that waited in the buffer is delivered on the next connection, but the publisher is
    never told of it, and the tracker has not seen it: the answer the Central System
    gives to it is published under the action Unknown. *)
Theorem flushed_frame_unreported :
  match example_run [(at_time 5, EvUpstream (Some (Ok (TuText (accepted_text "7")))))] replayed with
  | Some s => sent_upstream s = [heartbeat_text] ∧ told ChargerToCentral (reports s) = [] ∧
              actions_told (reports s) = ["Unknown"%string]
  | None => False
  end.
Proof. vm_compute. split_and!; reflexivity. Qed.
