(* ===== verification/SessionStates.v ===== *)
(** * The life of a session: reconnecting, closing, ending (src/session.rs)

    A session never stops on a panic, gives up on an unreachable Central System when
    the window is over and says so with close code 1001, and ends on request. *)

From S2P Require Import Prelude Float64 Json Models StateManager Config Command CallQueue Forwarder Session.

Local Open Scope Z_scope.

Section states.
Context {T C U : Type} `{MpscSender T MqttEvent} `{AsyncSender C AxumMessage} `{UpstreamLink U}
  `{SerdeJson} `{Chrono}.
Context (config : SessionConfig).
Implicit Types (s : Session T C U).

(** ** The backoff of a session *)

(** The initial delay and the maximum, in seconds, for which the schedule is exact. *)
Definition schedule_config (i m : Z) : Prop :=
  (i = 1 ∨ i = 2) ∧ i ≤ m ≤ 600 ∧
  initial_backoff config = from_secs i ∧ max_backoff config = from_secs m.

(** ** What every reachable session satisfies *)

Definition over (p : Phase U) : bool := match p with PhClosing | PhEnded => true | _ => false end.

Definition state_inv (i m : Z) s : Prop :=
  on_schedule i m (s_backoff s) ∧ (over (s_phase s) = false → s_close_code s = CLOSE_NORMAL).

Lemma state_inv_transport i m s s' : transport s' = transport s → state_inv i m s → state_inv i m s'.
Proof. unfold transport, state_inv. intros E [Hb Hc]. simplify_eq/=. by repeat match goal with E : _ = _ |- _ => rewrite E end. Qed.

Lemma teardown_fields c s :
  s_backoff (teardown c s) = s_backoff s ∧ s_phase (teardown c s) = PhClosing.
Proof.
  unfold teardown. cbv zeta.
  assert (transport (settle (utc_now c) (count_dropped s)) = transport s) as E
    by (by rewrite settle_transport, count_dropped_transport).
  revert E. generalize (settle (utc_now c) (count_dropped s)). intros s1 E. destruct (send_wait _ _) as [ch ok].
  simpl. unfold transport in E. by simplify_eq/=.
Qed.

Lemma begin_connect_fields c s :
  s_backoff (begin_connect c s) = s_backoff s ∧ s_close_code (begin_connect c s) = s_close_code s ∧
  s_phase (begin_connect c s) = PhConnect.
Proof.
  unfold begin_connect. pose proof (set_upstream_state_transport (utc_now c) s Connecting) as E.
  revert E. generalize (set_upstream_state (utc_now c) s Connecting). intros s1 E. simpl.
  unfold transport in E. by simplify_eq/=.
Qed.

Lemma teardown_inv i m c s : on_schedule i m (s_backoff s) → state_inv i m (teardown c s).
Proof. destruct (teardown_fields c s) as [Eb Ep]. unfold state_inv. by rewrite Eb, Ep. Qed.

Lemma begin_connect_inv i m c s :
  on_schedule i m (s_backoff s) → s_close_code s = CLOSE_NORMAL → state_inv i m (begin_connect c s).
Proof. destruct (begin_connect_fields c s) as (Eb & Ec & Ep). unfold state_inv. by rewrite Eb, Ec. Qed.

(** What a handler of the loop leaves alone. *)
Definition same_course s s' : Prop :=
  s_backoff s' = s_backoff s ∧ s_close_code s' = s_close_code s ∧ s_phase s' = s_phase s.

Lemma same_course_calls c s s1 :
  s_backoff s1 = s_backoff s → s_close_code s1 = s_close_code s →
  s_backoff (send_local_calls config c s1).1 = s_backoff s ∧
  s_close_code (send_local_calls config c s1).1 = s_close_code s.
Proof.
  intros <- <-. pose proof (send_local_calls_transport config c s1) as E. unfold transport in E. by simplify_eq/=.
Qed.

Lemma same_course_emit s l :
  s_backoff (emit_all s l) = s_backoff s ∧ s_close_code (emit_all s l) = s_close_code s.
Proof. pose proof (emit_all_transport s l) as E. unfold transport in E. by simplify_eq/=. Qed.

Lemma same_course_complete now s f frame :
  s_backoff (complete_local_call now s f frame) = s_backoff s ∧
  s_close_code (complete_local_call now s f frame) = s_close_code s.
Proof. pose proof (complete_transport now s f frame) as E. unfold transport in E. by simplify_eq/=. Qed.

Lemma on_charger_course c s up m :
  s_backoff (on_charger config c s up m).1 = s_backoff s ∧
  s_close_code (on_charger config c s up m).1 = s_close_code s.
Proof.
  destruct m as [[[text| | | |]|e]|]; simpl; try done. unfold on_charger_text.
  destruct (parse _ _) as [frame|e]; [|by destruct (send_raw _ _)].
  destruct (take_answer _ _) as [[f|] local]; simpl.
  - apply same_course_calls; apply (same_course_complete (utc_now c) (set_local s local)).
  - unfold forward_charger_frame. destruct (forward_upstream _ _ _ _) as [[fwd sink] [u|e]]; simpl.
    + destruct (is_empty _); simpl; [done|]. by apply same_course_calls.
    + by destruct (parse _ _).
Qed.

Lemma on_upstream_course c s up m :
  s_backoff (on_upstream c s up m).1 = s_backoff s ∧
  s_close_code (on_upstream c s up m).1 = s_close_code s.
Proof.
  destruct m as [[[text| |data| | |]|e]|]; simpl; try done; [|by destruct (link_send _ _)].
  unfold on_upstream_text. destruct (parse _ _) as [frame|e]; [|by destruct (send_raw _ _)].
  by destruct (forward_downstream _ _ _ _) as [[fwd sink] [u|e]].
Qed.

Lemma loop_event_course c s up ev r :
  loop_event config c s up ev = Some r →
  s_backoff r.1 = s_backoff s ∧ s_close_code r.1 = s_close_code s.
Proof.
  destruct ev as [x|m|m| | | | | | |request|m]; simpl; intros Hr; simplify_eq/=.
  - apply on_charger_course.
  - apply on_upstream_course.
  - destruct (s_commands_open s), (s_inbox s) as [|request inbox]; simplify_eq/=.
    unfold on_command. destruct (push _ _) as [local displaced].
    apply same_course_calls; apply (same_course_emit (set_local (set_inbox s inbox) local)).
  - case_match; by simplify_eq/=.
  - case_match; simplify_eq/=. unfold on_command_tick. destruct (expire _ _) as [[local expired] f].
    set (l1 := expired_result config (utc_now c) <$> expired). set (l2 := unanswered_result config (utc_now c) <$> option_list f).
    destruct (same_course_emit (set_local s local) l1) as [E1 E2].
    destruct (same_course_emit (emit_all (set_local s local) l1) l2) as [E3 E4].
    apply same_course_calls; by rewrite ?E3, ?E4, ?E1, ?E2.
  - done.
  - done.
Qed.

Lemma upstream_lost_total i m c s :
  (i = 1 ∨ i = 2) → i ≤ m ≤ 600 → on_schedule i m (s_backoff s) → s_close_code s = CLOSE_NORMAL →
  ∃ s', upstream_lost c s = Some s' ∧ state_inv i m s' ∧ over (s_phase s') = false.
Proof.
  intros Hi Hm Hb Hc. unfold upstream_lost. set (s0 := set_forwarder s _).
  pose proof (set_upstream_state_transport (utc_now c) s0 Reconnecting) as E.
  revert E. generalize (set_upstream_state (utc_now c) s0 Reconnecting). intros s1 E.
  assert (s_backoff s1 = s_backoff s ∧ s_close_code s1 = s_close_code s) as [Eb Ec]
    by (unfold transport in E; by simplify_eq/=).
  destruct (next_delay_on_schedule i m (s_backoff s) Hi Hm Hb) as (d & b' & Hd & Hb' & _).
  simpl. rewrite Eb, Hd. eexists. split; [done|]. unfold state_inv. simpl. by rewrite Ec.
Qed.

Lemma connect_failed_total i m c s :
  (i = 1 ∨ i = 2) → i ≤ m ≤ 600 → on_schedule i m (s_backoff s) → s_close_code s = CLOSE_NORMAL →
  ∃ s', connect_failed config c s = Some s' ∧ state_inv i m s'.
Proof.
  intros Hi Hm Hb Hc. unfold connect_failed. destruct (_ <=? _).
  { eexists. split; [done|]. by apply teardown_inv. }
  set (s0 := set_since s _).
  pose proof (set_upstream_state_transport (utc_now c) s0 Reconnecting) as E.
  revert E. generalize (set_upstream_state (utc_now c) s0 Reconnecting). intros s1 E.
  assert (s_backoff s1 = s_backoff s ∧ s_close_code s1 = s_close_code s) as [Eb Ec]
    by (unfold transport in E; by simplify_eq/=).
  destruct (next_delay_on_schedule i m (s_backoff s) Hi Hm Hb) as (d & b' & Hd & Hb' & _).
  rewrite Eb, Hd. simpl. eexists. split; [done|]. unfold state_inv. simpl. by rewrite Ec.
Qed.

Lemma connected_inv i m c s up :
  i ≤ m → on_schedule i m (s_backoff s) → s_close_code s = CLOSE_NORMAL → state_inv i m (connected c s up).
Proof.
  intros Him Hb Hc. unfold connected. set (s0 := set_since _ _).
  pose proof (set_upstream_state_transport (utc_now c) s0 Connected) as E.
  revert E. generalize (set_upstream_state (utc_now c) s0 Connected). intros s1 E.
  assert (s_backoff s1 = backoff_reset (s_backoff s) ∧ s_close_code s1 = s_close_code s) as [Eb Ec]
    by (unfold transport in E; by simplify_eq/=).
  destruct (flush_upstream _ _) as [[fwd sink] [n|e]].
  - unfold state_inv. simpl. rewrite Eb, Ec. split; [by apply on_schedule_reset|done].
  - apply begin_connect_inv; simpl; [rewrite Eb; by apply on_schedule_reset|by rewrite Ec].
Qed.

Lemma after_loop_total i m c s o :
  (i = 1 ∨ i = 2) → i ≤ m ≤ 600 → on_schedule i m (s_backoff s) → s_close_code s = CLOSE_NORMAL →
  ∃ s', after_loop c (s, o) = Some s' ∧ state_inv i m s'.
Proof.
  intros Hi Hm Hb Hc. unfold after_loop. destruct o as [[| |]|].
  - eexists. split; [done|]. by apply teardown_inv.
  - destruct (upstream_lost_total i m c (drop_link s)) as (s' & ? & ? & _); eauto.
  - eexists. split; [done|]. by apply teardown_inv.
  - by exists s.
Qed.

(** The events a session waits for, by phase. *)
Definition awaits s (ev : Event U) : bool :=
  match ev, s_phase s with
  | EvOthers _, _ => true
  | EvDispatched _, PhEnded => false
  | EvDispatched _, _ => true
  | EvConnect _, PhConnect => true
  | EvSlept, (PhRetry _ | PhLost _ | PhClosing) => true
  | EvCancelled, (PhRetry _ | PhForward _ | PhLost _) => true
  | EvCharger _, (PhRetry _ | PhForward _) => true
  | EvUpstream _, PhForward _ => true
  | EvHousekeeping, PhForward _ => true
  | EvCommandTick, PhForward _ => negb (is_empty (s_local s))
  | EvCommand, PhForward _ => s_commands_open s && negb (bool_decide (s_inbox s = []))
  | EvCommandsClosed, PhForward _ => s_commands_open s && bool_decide (s_inbox s = [])
  | _, _ => false
  end.

Lemma loop_event_awaits c s up ev :
  s_phase s = PhForward up →
  match ev with EvOthers _ | EvDispatched _ => True
  | _ => awaits s ev = true ↔ is_Some (loop_event config c s up ev) end.
Proof.
  intros Hp. unfold awaits. rewrite Hp. destruct ev as [x|m|m| | | | | | |request|m]; simpl; try done;
    try (by split; [intros; eexists|]); try (split; [done|by intros [? ?]]).
  - destruct (s_commands_open s), (s_inbox s); simpl; split; intros Hx; try done; try (by destruct Hx); by eexists.
  - destruct (s_commands_open s && _); split; intros Hx; try done; try (by destruct Hx); by eexists.
  - destruct (is_empty (s_local s)); simpl; split; intros Hx; try done; try (by destruct Hx); by eexists.
Qed.

Lemma loop_step c s up ev :
  s_phase s = PhForward up →
  match ev with EvOthers _ | EvDispatched _ => True
  | _ => step config c s ev = (r ← loop_event config c s up ev; after_loop c r) end.
Proof. intros Hp. unfold step. rewrite Hp. by destruct ev as [[]|m|m| | | | | | |request|m]. Qed.

Lemma step_total i m c s ev :
  (i = 1 ∨ i = 2) → i ≤ m ≤ 600 → state_inv i m s →
  if awaits s ev then ∃ s', step config c s ev = Some s' ∧ state_inv i m s' else step config c s ev = None.
Proof.
  intros Hi Hm [Hb Hc].
  assert (over (s_phase s) = false → state_inv i m (begin_connect c s)) as Hbc.
  { intros Ho. apply begin_connect_inv; auto. }
  assert (∀ s1, s_backoff s1 = s_backoff s → state_inv i m (teardown c s1)) as Htd.
  { intros s1 E. apply teardown_inv. by rewrite E. }
  destruct (s_phase s) as [|d|up|d| |] eqn:Hp.
  3: { assert (match ev with EvOthers _ | EvDispatched _ => True | _ => False end ∨
               match ev with EvOthers _ | EvDispatched _ => False | _ => True end) as [Hev|Hev] by (destruct ev; auto).
    { destruct ev; try done; unfold awaits, step; rewrite ?Hp; (eexists; split; [done|split; [done|simpl; by rewrite Hp]]). }
    pose proof (loop_event_awaits c s up ev Hp) as Ha. pose proof (loop_step c s up ev Hp) as Hs.
    assert (awaits s ev = true ↔ is_Some (loop_event config c s up ev)) as Ha' by (by destruct ev).
    assert (step config c s ev = (r ← loop_event config c s up ev; after_loop c r)) as -> by (by destruct ev).
    clear Ha Hs. destruct (loop_event config c s up ev) as [[s1 o]|] eqn:Hr.
    - rewrite (proj2 Ha') by eauto. simpl. apply loop_event_course in Hr as [Eb Ec]. simpl in *.
      apply after_loop_total; rewrite ?Eb, ?Ec; auto.
    - destruct (awaits s ev); [|done]. destruct (proj1 Ha' eq_refl) as [? ?]. done. }
  all: unfold awaits, step; rewrite Hp; destruct ev as [[up|e]|msg|msg| | | | | | |request|msg]; simpl; try done;
    try (eexists; split; [done|]; try (split; [done|simpl; by rewrite ?Hp]); auto; fail).
  - eexists; split; [done|]. apply connected_inv; auto; lia.
  - apply connect_failed_total; auto.
  - eexists; split; [done|]. destruct (hung_up msg); auto.
  - eexists; split; [done|]. unfold close_down.
    pose proof (set_upstream_state_transport (utc_now c) s Disconnected) as E.
    revert E. generalize (set_upstream_state (utc_now c) s Disconnected). intros s1 E.
    unfold transport in E. simplify_eq/=. split; simpl; [|done]. by repeat match goal with E : _ = _ |- _ => rewrite E end.
Qed.

Lemma run_inv i m events s s' :
  (i = 1 ∨ i = 2) → i ≤ m ≤ 600 → state_inv i m s → run config events s = Some s' → state_inv i m s'.
Proof.
  intros Hi Hm. revert s. induction events as [|[c ev] events IH]; intros s Hinv Hrun; simpl in *; [by simplify_eq|].
  apply bind_Some in Hrun as (s1 & Hs & Hrun). pose proof (step_total i m c s ev Hi Hm Hinv) as Ht.
  destruct (awaits s ev); [|congruence]. destruct Ht as (s2 & Hs2 & Hinv2). simplify_eq. by eapply IH.
Qed.

Lemma session_new_state_inv i m c id tx charger mgr :
  schedule_config i m → state_inv i m (session_new config c id tx charger mgr).
Proof.
  intros (Hi & Hm & Ei & Em). apply begin_connect_inv; simpl; [|done]. rewrite Ei, Em.
  apply on_schedule_new. lia.
Qed.

(** C19. A session never dies of its own arithmetic: under the proxy's backoff
    settings, in every state a run can reach, each event the session waits for in that
    state is handled (the backoff never panics, whatever the outage), and no other. *)
Theorem session_never_stuck i m c id tx charger mgr events s now ev :
  schedule_config i m →
  run config events (session_new config c id tx charger mgr) = Some s →
  awaits s ev = true ↔ is_Some (step config now s ev).
Proof.
  intros Hc Hrun. pose proof Hc as (Hi & Hm & _).
  pose proof (run_inv i m events _ s Hi Hm (session_new_state_inv i m c id tx charger mgr Hc) Hrun) as Hinv.
  pose proof (step_total i m now s ev Hi Hm Hinv) as Ht.
  destruct (awaits s ev); split; try done; [by destruct Ht as (? & -> & _)|].
  rewrite Ht. by intros [? ?].
Qed.

(** ** Closing *)

Lemma teardown_charger `{!AsyncSenderLaws C AxumMessage} c s :
  accepted (s_charger (teardown c s)) =
    accepted (s_charger s) ++
    (if (send_wait (s_charger s) (close_message s)).2 then [close_message s] else []).
Proof.
  unfold teardown. cbv zeta.
  assert (transport (settle (utc_now c) (count_dropped s)) = transport s) as E
    by (by rewrite settle_transport, count_dropped_transport).
  destruct (settle_rest (utc_now c) (count_dropped s)) as (_ & _ & Ec & _).
  revert E Ec. generalize (settle (utc_now c) (count_dropped s)). intros s1 E Ec.
  assert (s_close_code s1 = s_close_code s) as Ecc by (unfold transport in E; by simplify_eq/=).
  assert (s_charger s1 = s_charger s) as Ech by (rewrite Ec; unfold count_dropped; by case_decide).
  unfold close_message. rewrite Ecc, Ech.
  destruct (send_wait (s_charger s) _) as [ch ok] eqn:Hs. apply send_wait_accepted in Hs. done.
Qed.

(** C18. An unreachable Central System is given up on when the window is over, and not
    before: after a failed connect, either the outage has lasted the whole window, and the
    session tears down, a close frame of code 1001 being the one message it hands the
    charger's channel, which gets it unless the channel refuses it; or the session waits
    to retry for the backoff's next delay, cut to what is left of the window (a
    millisecond at least), with the start of the outage kept and nothing sent to the
    charger. *)
Theorem reconnect_window `{!AsyncSenderLaws C AxumMessage} c s e s' :
  s_phase s = PhConnect → step config c s (EvConnect (Err e)) = Some s' →
  let started := default (instant_now c) (s_reconnecting_since s) in
  let waited := elapsed started (instant_now c) in
  let farewell := AxClose (Some (CLOSE_GOING_AWAY, "Proxy session ending"%string)) in
  if max_reconnect_window config <=? waited then
    s_phase s' = PhClosing ∧
    accepted (s_charger s') =
      accepted (s_charger s) ++ (if (send_wait (s_charger s) farewell).2 then [farewell] else [])
  else
    ∃ delay backoff, next_delay (s_backoff s) = Some (delay, backoff) ∧
      s_phase s' = PhRetry (Z.min delay (Z.max (max_reconnect_window config - waited) (from_millis 1))) ∧
      s_backoff s' = backoff ∧ s_reconnecting_since s' = Some started ∧ s_charger s' = s_charger s.
Proof.
  intros Hp. unfold step. rewrite Hp. unfold connect_failed. cbv zeta.
  set (started := default (instant_now c) (s_reconnecting_since s)).
  destruct (_ <=? _) eqn:Hw.
  - intros [= <-]. split; [by apply teardown_fields|]. by rewrite teardown_charger.
  - apply Z.leb_gt in Hw. set (s0 := set_since s _).
    pose proof (set_upstream_state_transport (utc_now c) s0 Reconnecting) as E.
    destruct (set_upstream_state_rest (utc_now c) s0 Reconnecting) as (_ & _ & Ech & _).
    revert E Ech. generalize (set_upstream_state (utc_now c) s0 Reconnecting). intros s1 E Ech Hs.
    assert (s_reconnecting_since s1 = Some started ∧ s_backoff s1 = s_backoff s) as [Es Eb] by (unfold transport in E; by simplify_eq/=).
    rewrite <- Eb. destruct (next_delay (s_backoff s1)) as [[d b]|] eqn:Hd; simplify_eq/=.
    exists d, b. split_and!; [done| |done..]. do 2 f_equal. unfold from_millis. lia.
Qed.

(** Shutdown ends a session from wherever it waits or forwards: the cancellation
    is taken at once, the charger's channel gets a close frame of code 1000 and nothing
    after it, and the next step is the last; its upstream state is then disconnected. *)
Theorem shutdown_ends_session `{!AsyncSenderLaws C AxumMessage} c c' s :
  s_close_code s = CLOSE_NORMAL → awaits s EvCancelled = true →
  ∃ s1 s2, step config c s EvCancelled = Some s1 ∧ step config c' s1 EvSlept = Some s2 ∧
    s_phase s2 = PhEnded ∧ upstream_state (s_state s2) = Disconnected ∧
    accepted (s_charger s2) = accepted (s_charger s) ++
      (if (send_wait (s_charger s) (AxClose (Some (CLOSE_NORMAL, "Proxy session ending"%string)))).2
       then [AxClose (Some (CLOSE_NORMAL, "Proxy session ending"%string))] else []).
Proof.
  intros Hcode Ha.
  assert (∃ s0, step config c s EvCancelled = Some (teardown c s0) ∧ s_charger s0 = s_charger s ∧
                s_close_code s0 = CLOSE_NORMAL) as (s0 & Hs & Ech & Ecc).
  { unfold awaits in Ha. unfold step. destruct (s_phase s) as [|d|up|d| |] eqn:Hp; try done.
    - by exists s.
    - simpl. by exists (drop_link s).
    - by exists s. }
  exists (teardown c s0), (close_down c' (teardown c s0)). rewrite Hs.
  destruct (teardown_fields c s0) as [_ Hph]. unfold step. rewrite Hph.
  destruct (set_upstream_state_rest c'.(utc_now) (teardown c s0) Disconnected) as (_ & _ & Ec & Eu).
  split_and!; try done. unfold close_down. simpl. rewrite Ec, teardown_charger, Ech.
  unfold close_message. by rewrite Ecc.
Qed.

(** Two sessions share the states: whatever the others have set ([m]), the end of
    this one sets the upstream state. *)
Lemma ended_disconnects c c' s m :
  s_phase s = PhClosing → listener_bound m = true → downstream_state m = Connected →
  ∃ s1 s2, step config c s (EvOthers m) = Some s1 ∧ step config c' s1 EvSlept = Some s2 ∧
    upstream_state (s_state s2) = Disconnected ∧ health_status (s_state s2) = Unhealthy.
Proof.
  intros Hp Hl Hd. exists (set_state s m), (close_down c' (set_state s m)). unfold step. simpl. rewrite Hp.
  split_and!; try done; [by apply (set_upstream_state_rest (utc_now c') (set_state s m) Disconnected)|].
  unfold close_down. simpl. unfold set_upstream_state. simpl. case_decide as Hu; simpl.
  - unfold health_status. by rewrite Hl, Hd, Hu.
  - unfold health_status. rewrite listener_bound_transition, Hl.
    pose proof (state_of_transition (utc_now c') m Upstream Upstream Disconnected) as E1.
    pose proof (state_of_transition (utc_now c') m Upstream Downstream Disconnected) as E2. simpl in E1, E2.
    rewrite E1, E2, Hd. done.
Qed.

(** A session displaced by a newer connection of its charger spoils the states on
    its way out: its teardown sets the one shared upstream state to disconnected, so
    with the successor connected and forwarding the proxy reports itself unhealthy. *)
Theorem displaced_session_reports_outage c c' s m :
  s_phase s = PhClosing → health_status m = Healthy →
  ∃ s1 s2, step config c s (EvOthers m) = Some s1 ∧ step config c' s1 EvSlept = Some s2 ∧
    health_status (s_state s2) = Unhealthy.
Proof.
  intros Hp Hm. unfold health_status in Hm.
  destruct (listener_bound m) eqn:Hl; [|done]. destruct (downstream_state m) eqn:Hd; try done.
  destruct (ended_disconnects c c' s m Hp Hl Hd) as (s1 & s2 & ? & ? & _ & ?). by exists s1, s2.
Qed.
End states.

(** ** Witnesses *)

#[local] Existing Instance reference_codec.
#[local] Existing Instance plain_chrono.

Lemma sample_schedule : schedule_config sample_session_config 1 60.
Proof. split_and!; try done. by left. Qed.

(** Waiting after a failed connect. *)
Definition failed_once : ExampleSession :=
  default example_session (example_run [(at_time 1, EvConnect (Err (ConnectionUpstream "refused")))] example_session).

Lemma failed_once_run :
  run sample_session_config [(at_time 1, EvConnect (Err (ConnectionUpstream "refused")))]
    (session_new sample_session_config (at_time 0) "CP-1" [] (mkCounted [] 1000) manager_new) = Some failed_once.
Proof. vm_compute. reflexivity. Qed.

Lemma session_never_stuck_witness :
  awaits failed_once EvSlept = true ↔ is_Some (step sample_session_config (at_time 2) failed_once EvSlept).
Proof.
  exact (session_never_stuck sample_session_config 1 60 (at_time 0) "CP-1" [] (mkCounted [] 1000) manager_new
    [(at_time 1, EvConnect (Err (ConnectionUpstream "refused")))] failed_once (at_time 2) EvSlept
    sample_schedule failed_once_run).
Defined.

(** Five minutes later, the connect fails again. *)
Definition waited_out : ExampleSession :=
  default example_session (example_run [(at_time 2, EvSlept)] failed_once).
Definition given_up : ExampleSession :=
  default example_session (example_run [(at_time 301, EvConnect (Err (ConnectionUpstream "refused")))] waited_out).

Lemma waited_out_phase : s_phase waited_out = PhConnect.
Proof. vm_compute. reflexivity. Qed.
Lemma given_up_step :
  step sample_session_config (at_time 301) waited_out (EvConnect (Err (ConnectionUpstream "refused"))) = Some given_up.
Proof. vm_compute. reflexivity. Qed.

Lemma reconnect_window_witness :
  s_phase given_up = PhClosing ∧
  accepted (s_charger given_up) = [AxClose (Some (CLOSE_GOING_AWAY, "Proxy session ending"%string))] ∧
  s_phase failed_once = PhRetry (from_secs 1).
Proof.
  pose proof (reconnect_window sample_session_config (at_time 301) waited_out (ConnectionUpstream "refused") given_up
    waited_out_phase given_up_step) as H.
  assert ((max_reconnect_window sample_session_config <=?
    elapsed (default (instant_now (at_time 301)) (s_reconnecting_since waited_out)) (instant_now (at_time 301))) = true) as E
    by (vm_compute; reflexivity).
  cbv zeta in H. rewrite E in H. split_and!; [exact (proj1 H)| |].
  - refine (eq_trans (proj2 H) _). vm_compute. reflexivity.
  - vm_compute. reflexivity.
Defined.

Lemma shutdown_ends_session_witness :
  ∃ s1 s2, step sample_session_config (at_time 2) failed_once EvCancelled = Some s1 ∧
    step sample_session_config (at_time 3) s1 EvSlept = Some s2 ∧ s_phase s2 = PhEnded.
Proof.
  destruct (shutdown_ends_session sample_session_config (at_time 2) (at_time 3) failed_once) as (s1 & s2 & H1 & H2 & H3 & _);
    [vm_compute; reflexivity|vm_compute; reflexivity|]. exists s1, s2. exact (conj H1 (conj H2 H3)).
Defined.

Definition healthy_manager : ConnectionStateManager :=
  mkManager Connected Connected Connected true [] metrics_default.

Lemma displaced_session_reports_outage_witness :
  ∃ s1 s2, step sample_session_config (at_time 302) given_up (EvOthers healthy_manager) = Some s1 ∧
    step sample_session_config (at_time 303) s1 EvSlept = Some s2 ∧ health_status (s_state s2) = Unhealthy.
Proof.
  apply (displaced_session_reports_outage sample_session_config (at_time 302) (at_time 303) given_up healthy_manager);
    vm_compute; reflexivity.
Defined.
