(* ===== verification/ChargePoint.v ===== *)
(** * The retained charge point snapshot (src/mqtt.rs)

    [ChargePointState]: what the publisher keeps of each charge point, how a forwarded
    message and a command result fold into it, and its JSON form. *)

From S2P Require Import Prelude Float64 Json Models Command.

Local Open Scope Z_scope.

Record ChargePointState := mkCp {
  connector_status : option string;
  error_code : option string;
  transaction_id : option Z;
  id_tag : option string;
  meter_start_wh : option Z;
  last_meter_stop_wh : option Z;
  last_session_energy_wh : option Z;
  last_transaction_id : option Z;
  last_stop_reason : option string;
  last_stop_time : option string;
  current_limit_a : option f64;
  current_limit_status : option string;
  current_limit_updated : option string;
  last_updated : option string
}.

(** [ChargePointState::default]. *)
Definition cp_default : ChargePointState :=
  mkCp None None None None None None None None None None None None None None.

(** ** Updates of the fields the code assigns together *)

Definition set_status (st : ChargePointState) (status code : option string) : ChargePointState :=
  mkCp status code (transaction_id st) (id_tag st) (meter_start_wh st) (last_meter_stop_wh st)
    (last_session_energy_wh st) (last_transaction_id st) (last_stop_reason st) (last_stop_time st)
    (current_limit_a st) (current_limit_status st) (current_limit_updated st) (last_updated st).

Definition set_open (st : ChargePointState) (tx : option Z) (tag : option string) (start : option Z) :
    ChargePointState :=
  mkCp (connector_status st) (error_code st) tx tag start (last_meter_stop_wh st)
    (last_session_energy_wh st) (last_transaction_id st) (last_stop_reason st) (last_stop_time st)
    (current_limit_a st) (current_limit_status st) (current_limit_updated st) (last_updated st).

Definition set_last (st : ChargePointState) (stop energy tx : option Z) (reason time : option string) :
    ChargePointState :=
  mkCp (connector_status st) (error_code st) (transaction_id st) (id_tag st) (meter_start_wh st)
    stop energy tx reason time
    (current_limit_a st) (current_limit_status st) (current_limit_updated st) (last_updated st).

Definition set_limit (st : ChargePointState) (a : option f64) (status updated : option string) :
    ChargePointState :=
  mkCp (connector_status st) (error_code st) (transaction_id st) (id_tag st) (meter_start_wh st)
    (last_meter_stop_wh st) (last_session_energy_wh st) (last_transaction_id st) (last_stop_reason st)
    (last_stop_time st) a status updated (last_updated st).

Definition set_updated (st : ChargePointState) (updated : option string) : ChargePointState :=
  mkCp (connector_status st) (error_code st) (transaction_id st) (id_tag st) (meter_start_wh st)
    (last_meter_stop_wh st) (last_session_energy_wh st) (last_transaction_id st) (last_stop_reason st)
    (last_stop_time st) (current_limit_a st) (current_limit_status st) (current_limit_updated st) updated.

(** The derived [PartialEq]: doubles are compared as doubles. *)
Definition same_limit (a b : option f64) : bool :=
  match a, b with Some x, Some y => feq x y | None, None => true | _, _ => false end.

Definition cp_eqb (a b : ChargePointState) : bool :=
  bool_decide (connector_status a = connector_status b) && bool_decide (error_code a = error_code b) &&
  bool_decide (transaction_id a = transaction_id b) && bool_decide (id_tag a = id_tag b) &&
  bool_decide (meter_start_wh a = meter_start_wh b) &&
  bool_decide (last_meter_stop_wh a = last_meter_stop_wh b) &&
  bool_decide (last_session_energy_wh a = last_session_energy_wh b) &&
  bool_decide (last_transaction_id a = last_transaction_id b) &&
  bool_decide (last_stop_reason a = last_stop_reason b) && bool_decide (last_stop_time a = last_stop_time b) &&
  same_limit (current_limit_a a) (current_limit_a b) &&
  bool_decide (current_limit_status a = current_limit_status b) &&
  bool_decide (current_limit_updated a = current_limit_updated b) &&
  bool_decide (last_updated a = last_updated b).

(** ** Folding a message *)

Section fold.
Context `{SerdeJson} `{Chrono}.

(** [ocpp_args]: the argument object of a frame. *)
Definition ocpp_args (raw : string) (mt : OcppMessageType) : option Map :=
  v ← result_ok (from_str raw);
  arr ← as_array v;
  let index := match mt with Call _ => 3%nat | CallResult | CallError => 2%nat end in
  arr !! index ≫= as_object.

Definition arg_i64 (k : string) (args : Map) : option Z := map_get k args ≫= as_i64.
Definition arg_str (k : string) (args : Map) : option string := map_get k args ≫= as_str.

(** The arm for StopTransaction. The difference of two 64-bit readings wraps. *)
Definition stop_transaction (st : ChargePointState) (args : Map) : ChargePointState :=
  let meter_stop := arg_i64 "meterStop" args in
  let energy :=
    match meter_stop, meter_start_wh st with
    | Some stop, Some start => Some (wrap_i64 (stop - start))
    | _, _ => None
    end in
  let st := set_last st meter_stop energy (option_or (arg_i64 "transactionId" args) (transaction_id st))
              (arg_str "reason" args) (arg_str "timestamp" args) in
  set_open st None None None.

(** The match of [apply]: [None] is its early return. *)
Definition apply_args (st : ChargePointState) (act : string) (mt : OcppMessageType) (args : Map) :
    option ChargePointState :=
  match mt with
  | Call _ =>
      if decide (act = "StatusNotification"%string) then
        Some (set_status st (option_or (arg_str "status" args) (connector_status st))
                            (option_or (arg_str "errorCode" args) (error_code st)))
      else if decide (act = "StartTransaction"%string) then
        Some (set_open st (transaction_id st) (arg_str "idTag" args) (arg_i64 "meterStart" args))
      else if decide (act = "StopTransaction"%string) then Some (stop_transaction st args)
      else None
  | CallResult =>
      if decide (act = "StartTransaction"%string) then
        Some (set_open st (arg_i64 "transactionId" args) (id_tag st) (meter_start_wh st))
      else None
  | CallError => None
  end.

(** [ChargePointState::apply]. *)
Definition cp_apply (now : Z) (st : ChargePointState) (act : string) (mt : OcppMessageType) (raw : string) :
    ChargePointState * bool :=
  match ocpp_args raw mt with
  | None => (st, false)
  | Some args =>
      match apply_args st act mt args with
      | None => (st, false)
      | Some st' =>
          if cp_eqb st' st then (st', false) else (set_updated st' (Some (to_rfc3339 now)), true)
      end
  end.

(** [ChargePointState::apply_command_result]. *)
Definition apply_command_result (now : Z) (st : ChargePointState) (result : CommandResult) :
    ChargePointState * bool :=
  if negb (is_limit_result result) then (st, false)
  else
    let limit :=
      if decide (res_status result = Accepted) then
        (if decide (res_action result = Some "SetChargingProfile"%string) then res_applied_limit_a result else None)
      else current_limit_a st in
    let st' := set_limit st limit (Some (status_as_str (res_status result))) (current_limit_updated st) in
    if cp_eqb st' st then (st', false)
    else
      let now := to_rfc3339 now in
      (set_updated (set_limit st' limit (current_limit_status st') (Some now)) (Some now), true).

(** The standing limit [maybe_reapply_limit] reads from a snapshot. *)
Definition standing_limit (st : ChargePointState) : option f64 :=
  if decide (current_limit_status st = Some "accepted"%string) then current_limit_a st else None.
End fold.

(** ** JSON *)

(** The derived [Serialize]. *)
Definition cp_to_value (st : ChargePointState) : Value :=
  VObject [("connector_status", json_opt json_str (connector_status st));
           ("error_code", json_opt json_str (error_code st));
           ("transaction_id", json_opt json_u (transaction_id st));
           ("id_tag", json_opt json_str (id_tag st));
           ("meter_start_wh", json_opt json_u (meter_start_wh st));
           ("last_meter_stop_wh", json_opt json_u (last_meter_stop_wh st));
           ("last_session_energy_wh", json_opt json_u (last_session_energy_wh st));
           ("last_transaction_id", json_opt json_u (last_transaction_id st));
           ("last_stop_reason", json_opt json_str (last_stop_reason st));
           ("last_stop_time", json_opt json_str (last_stop_time st));
           ("current_limit_a", json_opt json_f64 (current_limit_a st));
           ("current_limit_status", json_opt json_str (current_limit_status st));
           ("current_limit_updated", json_opt json_str (current_limit_updated st));
           ("last_updated", json_opt json_str (last_updated st))]%string.

(** An optional field: absent or [null] is [None], a value of another type is an error. *)
Definition opt_field {A} (f : Value → option A) (k : string) (m : Map) : option (option A) :=
  match map_get k m with
  | None | Some VNull => Some None
  | Some v => Some <$> f v
  end.

(** The derived [Deserialize], on a value without repeated keys. *)
Definition cp_of_value (v : Value) : option ChargePointState :=
  m ← as_object v;
  cs ← opt_field as_str "connector_status" m;
  ec ← opt_field as_str "error_code" m;
  tx ← opt_field as_i64 "transaction_id" m;
  tag ← opt_field as_str "id_tag" m;
  start ← opt_field as_i64 "meter_start_wh" m;
  stop ← opt_field as_i64 "last_meter_stop_wh" m;
  energy ← opt_field as_i64 "last_session_energy_wh" m;
  ltx ← opt_field as_i64 "last_transaction_id" m;
  reason ← opt_field as_str "last_stop_reason" m;
  time ← opt_field as_str "last_stop_time" m;
  limit ← opt_field as_f64 "current_limit_a" m;
  lst ← opt_field as_str "current_limit_status" m;
  lup ← opt_field as_str "current_limit_updated" m;
  up ← opt_field as_str "last_updated" m;
  Some (mkCp cs ec tx tag start stop energy ltx reason time limit lst lup up).

(** ** Lemmas *)

Section fold_lemmas.
Context `{SerdeJson} `{Chrono}.

(** A snapshot but for its time stamp. *)
Definition content (st : ChargePointState) : ChargePointState := set_updated st None.

Lemma cp_apply_content now st act mt raw :
  content (cp_apply now st act mt raw).1 =
  content (default st (args ← ocpp_args raw mt; apply_args st act mt args)).
Proof.
  unfold cp_apply. destruct (ocpp_args raw mt) as [args|]; simpl; [|done].
  destruct (apply_args st act mt args) as [st'|]; simpl; [|done]. by destruct (cp_eqb st' st).
Qed.

(** Messages that neither open nor close a transaction. *)
Definition opens_or_closes (act : string) (mt : OcppMessageType) : bool :=
  is_call mt && bool_decide (act = "StartTransaction" ∨ act = "StopTransaction")%string.

Lemma cp_apply_meter_start now st act mt raw :
  opens_or_closes act mt = false → meter_start_wh (cp_apply now st act mt raw).1 = meter_start_wh st.
Proof.
  intros Ho. pose proof (f_equal meter_start_wh (cp_apply_content now st act mt raw)) as E.
  simpl in E. rewrite E. destruct (ocpp_args raw mt) as [args|]; simpl; [|done].
  unfold opens_or_closes in Ho. unfold apply_args. destruct mt; simpl in *; [|by case_decide|done].
  apply bool_decide_eq_false in Ho. repeat case_decide; simpl; tauto.
Qed.

(** Messages folded one after the other. *)
Definition fold_messages (st : ChargePointState) (l : list (Z * string * OcppMessageType * string)) :
    ChargePointState :=
  foldl (λ st '(now, act, mt, raw), (cp_apply now st act mt raw).1) st l.

Lemma fold_messages_meter_start st l :
  Forall (λ '(_, act, mt, _), opens_or_closes act mt = false) l →
  meter_start_wh (fold_messages st l) = meter_start_wh st.
Proof.
  revert st. induction l as [|[[[now act] mt] raw] l IH]; intros st Hl; simpl; [done|].
  apply Forall_cons in Hl as [Ha Hl]. rewrite IH by done. by apply cp_apply_meter_start.
Qed.

Lemma cp_apply_start now st a raw args :
  ocpp_args raw (Call a) = Some args →
  meter_start_wh (cp_apply now st "StartTransaction" (Call a) raw).1 = arg_i64 "meterStart" args.
Proof.
  intros Ha. pose proof (f_equal meter_start_wh (cp_apply_content now st "StartTransaction" (Call a) raw)) as E.
  rewrite Ha in E. exact E.
Qed.

Lemma cp_apply_stop now st a raw args :
  ocpp_args raw (Call a) = Some args →
  content (cp_apply now st "StopTransaction" (Call a) raw).1 = content (stop_transaction st args).
Proof. intros Ha. rewrite cp_apply_content, Ha. done. Qed.

(** C39. The energy of a session is what the charger metered: after a StartTransaction whose
    [meterStart] is an integer of 64 bits, any messages that neither open nor close a
    transaction, and a StopTransaction whose [meterStop] is one, the snapshot holds the
    difference of the two readings (wrapping at 64 bits), the stop reading, and no open
    transaction, whatever it held before. *)
Theorem session_energy st t1 a1 start args1 m1 msgs t2 a2 stop args2 m2 :
  ocpp_args start (Call a1) = Some args1 → arg_i64 "meterStart" args1 = Some m1 →
  Forall (λ '(_, act, mt, _), opens_or_closes act mt = false) msgs →
  ocpp_args stop (Call a2) = Some args2 → arg_i64 "meterStop" args2 = Some m2 →
  let st' := (cp_apply t2 (fold_messages (cp_apply t1 st "StartTransaction" (Call a1) start).1 msgs)
                "StopTransaction" (Call a2) stop).1 in
  last_session_energy_wh st' = Some (wrap_i64 (m2 - m1)) ∧ last_meter_stop_wh st' = Some m2 ∧
  transaction_id st' = None ∧ id_tag st' = None ∧ meter_start_wh st' = None.
Proof.
  intros H1 Hm1 Hmsgs H2 Hm2 st'. set (st1 := fold_messages _ msgs) in *.
  assert (meter_start_wh st1 = Some m1) as Es.
  { unfold st1. rewrite fold_messages_meter_start by done. by rewrite (cp_apply_start _ _ _ _ _ H1). }
  pose proof (cp_apply_stop t2 st1 a2 stop args2 H2) as E. fold st' in E.
  split_and!; [apply (f_equal last_session_energy_wh) in E|apply (f_equal last_meter_stop_wh) in E
    |apply (f_equal transaction_id) in E|apply (f_equal id_tag) in E|apply (f_equal meter_start_wh) in E];
    simpl in E; rewrite E; simpl; rewrite ?Hm2, ?Es; done.
Qed.

(** A StopTransaction seen twice, as a charger that got no answer sends it, erases
    the session's energy: the second time the start reading is gone, and the figure
    becomes unknown although the proxy had seen the whole session. *)
Theorem repeated_stop_forgets_energy st t1 t2 a stop args :
  ocpp_args stop (Call a) = Some args →
  let st1 := (cp_apply t1 st "StopTransaction" (Call a) stop).1 in
  let st2 := (cp_apply t2 st1 "StopTransaction" (Call a) stop).1 in
  last_session_energy_wh st2 = None ∧ last_meter_stop_wh st2 = last_meter_stop_wh st1.
Proof.
  intros Ha st1 st2.
  pose proof (cp_apply_stop t1 st a stop args Ha) as E1. fold st1 in E1.
  pose proof (cp_apply_stop t2 st1 a stop args Ha) as E2. fold st2 in E2.
  assert (meter_start_wh st1 = None) as Es by (apply (f_equal meter_start_wh) in E1; exact E1).
  apply (f_equal last_meter_stop_wh) in E1. simpl in E1.
  split; [apply (f_equal last_session_energy_wh) in E2|apply (f_equal last_meter_stop_wh) in E2]; simpl in E2; rewrite E2.
  - simpl. rewrite Es. by destruct (arg_i64 "meterStop" args).
  - by rewrite E1.
Qed.

(** ** The standing limit *)

Lemma apply_command_result_fields now st result :
  let st' := (apply_command_result now st result).1 in
  if is_limit_result result then
    current_limit_status st' = Some (status_as_str (res_status result)) ∧
    current_limit_a st' =
      (if decide (res_status result = Accepted) then
         (if decide (res_action result = Some "SetChargingProfile"%string) then res_applied_limit_a result else None)
       else current_limit_a st)
  else st' = st.
Proof.
  unfold apply_command_result. destruct (is_limit_result result); simpl; [|done]. by destruct (cp_eqb _ _).
Qed.

Lemma status_accepted s : status_as_str s = "accepted"%string ↔ s = Accepted.
Proof. by destruct s. Qed.

(** What a command result does to the standing limit, the one sent again when the
    charger reconnects: nothing when the command sets no limit; an accepted limit
    becomes the standing one and an accepted clear removes it; and any other outcome
    leaves the figure in the snapshot but no limit stands any more. *)
Theorem standing_limit_after now st result :
  let st' := (apply_command_result now st result).1 in
  if is_limit_result result then
    match res_status result with
    | Accepted =>
        standing_limit st' =
          (if decide (res_action result = Some "SetChargingProfile"%string) then res_applied_limit_a result else None)
    | _ => standing_limit st' = None ∧ current_limit_a st' = current_limit_a st
    end
  else st' = st.
Proof.
  intros st'. pose proof (apply_command_result_fields now st result) as Hf. cbv zeta in Hf. fold st' in Hf.
  destruct (is_limit_result result); [|done]. destruct Hf as [Hs Ha]. unfold standing_limit. rewrite Hs.
  destruct (res_status result) eqn:E; simpl in *; done.
Qed.

(** ** JSON *)

(** The integers and doubles of a snapshot have JSON forms. *)
Definition opt_all {A} (f : A → bool) (o : option A) : bool := match o with Some a => f a | None => true end.

Definition cp_typed (st : ChargePointState) : bool :=
  opt_all in_i64 (transaction_id st) && opt_all in_i64 (meter_start_wh st) &&
  opt_all in_i64 (last_meter_stop_wh st) && opt_all in_i64 (last_session_energy_wh st) &&
  opt_all in_i64 (last_transaction_id st) && opt_all is_finite (current_limit_a st).

(** Equal, but for the last digits of the limit ([float_close]). *)
Definition cp_agree (a b : ChargePointState) : Prop :=
  set_limit a None (current_limit_status a) (current_limit_updated a) =
  set_limit b None (current_limit_status b) (current_limit_updated b) ∧
  option_Forall2 float_close (current_limit_a a) (current_limit_a b).

Lemma opt_field_str k m o :
  option_Forall2 same_json (Some (json_opt json_str o)) (map_get k m) → opt_field as_str k m = Some o.
Proof.
  unfold opt_field. intros Hs. inversion Hs as [? v E|]; subst.
  destruct o; inversion E; subst; done.
Qed.

Lemma opt_field_i64 k m o :
  opt_all in_i64 o = true →
  option_Forall2 same_json (Some (json_opt json_u o)) (map_get k m) → opt_field as_i64 k m = Some o.
Proof.
  unfold opt_field. intros Ho Hs. inversion Hs as [? v E|]; subst.
  destruct o; inversion E; subst; simpl in *; [|done]. by rewrite Ho.
Qed.

Lemma opt_field_f64 k m o :
  opt_all is_finite o = true →
  option_Forall2 same_json (Some (json_opt json_f64 o)) (map_get k m) →
  ∃ o', opt_field as_f64 k m = Some o' ∧ option_Forall2 float_close o o'.
Proof.
  unfold opt_field. intros Ho Hs. inversion Hs as [? v E|]; subst.
  destruct o as [a|]; simpl in *.
  - unfold json_f64 in E. rewrite Ho in E. inversion E; subst. eexists. split; [done|]. by constructor.
  - inversion E; subst. exists None. split; [done|constructor].
Qed.

Lemma cp_agree_refl st : cp_agree st st.
Proof. split; [done|]. destruct (current_limit_a st); constructor. apply float_close_refl. Qed.

(** What [cp_eqb] takes for unchanged agrees with whatever the old state agreed with. *)
Lemma cp_eqb_agree a b c : cp_eqb a b = true → cp_agree b c → cp_agree a c.
Proof.
  unfold cp_eqb. intros Hab [Hbc Hl].
  repeat (apply andb_prop in Hab as [Hab ?E]). repeat match goal with H : bool_decide _ = true |- _ => apply bool_decide_eq_true_1 in H end.
  destruct a, b, c. simpl in *. unfold cp_agree, set_limit in *. simpl in *. simplify_eq. split; [done|].
  match goal with H : same_limit ?x ?y = true |- _ => destruct x as [x'|], y as [y'|]; try done end.
  inversion Hl; subst. constructor. by eapply float_close_feq.
Qed.

(** Nothing but the blank state is unchanged from it. *)
Lemma cp_eqb_default st : cp_eqb st cp_default = true → st = cp_default.
Proof.
  unfold cp_eqb. intros Hab.
  repeat (apply andb_prop in Hab as [Hab ?E]). repeat match goal with H : bool_decide _ = true |- _ => apply bool_decide_eq_true_1 in H end.
  destruct st. simpl in *. simplify_eq. unfold cp_default. f_equal.
  match goal with H : same_limit ?x None = true |- _ => by destruct x end.
Qed.

Lemma cp_value_roundtrip st w :
  cp_typed st = true → same_json (cp_to_value st) w → ∃ st', cp_of_value w = Some st' ∧ cp_agree st st'.
Proof.
  unfold cp_typed. intros [[[[[Htx Hms]%andb_prop Hmp]%andb_prop He]%andb_prop Hlt]%andb_prop Hl]%andb_prop Hs.
  inversion Hs as [| | | | | |m m' Hm]; subst.
  pose proof (Hm "current_limit_a"%string) as Hlim. apply opt_field_f64 in Hlim as (lim & Elim & Hlim); [|done].
  unfold cp_of_value. simpl.
  rewrite (opt_field_str _ _ _ (Hm "connector_status"%string)). simpl.
  rewrite (opt_field_str _ _ _ (Hm "error_code"%string)). simpl.
  rewrite (opt_field_i64 _ _ _ Htx (Hm "transaction_id"%string)). simpl.
  rewrite (opt_field_str _ _ _ (Hm "id_tag"%string)). simpl.
  rewrite (opt_field_i64 _ _ _ Hms (Hm "meter_start_wh"%string)). simpl.
  rewrite (opt_field_i64 _ _ _ Hmp (Hm "last_meter_stop_wh"%string)). simpl.
  rewrite (opt_field_i64 _ _ _ He (Hm "last_session_energy_wh"%string)). simpl.
  rewrite (opt_field_i64 _ _ _ Hlt (Hm "last_transaction_id"%string)). simpl.
  rewrite (opt_field_str _ _ _ (Hm "last_stop_reason"%string)). simpl.
  rewrite (opt_field_str _ _ _ (Hm "last_stop_time"%string)). simpl.
  rewrite Elim. simpl.
  rewrite (opt_field_str _ _ _ (Hm "current_limit_status"%string)). simpl.
  rewrite (opt_field_str _ _ _ (Hm "current_limit_updated"%string)). simpl.
  rewrite (opt_field_str _ _ _ (Hm "last_updated"%string)). simpl.
  eexists. split; [done|]. by split.
Qed.

Lemma cp_to_value_representable st : cp_typed st = true → representable (cp_to_value st) = true.
Proof.
  unfold cp_typed. intros [[[[[Htx Hms]%andb_prop Hmp]%andb_prop He]%andb_prop Hlt]%andb_prop Hl]%andb_prop.
  assert (∀ o, opt_all in_i64 o = true → representable (json_opt json_u o) = true) as Hi.
  { intros [z|]; simpl; [|done]. by intros ->. }
  assert (∀ o : option string, representable (json_opt json_str o) = true) as Hstr by (by intros [?|]).
  assert (representable (json_opt json_f64 (current_limit_a st)) = true) as Hf.
  { destruct (current_limit_a st); simpl; [apply representable_f64|done]. }
  cbn [cp_to_value representable]. apply andb_true_intro. split; [by vm_compute|].
  cbn [forallb snd]. by rewrite !Hstr, !Hi, Hf.
Qed.
End fold_lemmas.

(** ** Witnesses *)

#[local] Existing Instance reference_codec.
#[local] Existing Instance plain_chrono.

Definition start_args : Map := [("meterStart", json_u 1000); ("idTag", json_str "TAG")]%string.
Definition stop_args : Map := [("meterStop", json_u 8200); ("transactionId", json_u 42)]%string.
Definition start_text : string := text_of (VArray [json_u 2; json_str "1"; json_str "StartTransaction"; VObject start_args]).
Definition stop_text : string := text_of (VArray [json_u 2; json_str "2"; json_str "StopTransaction"; VObject stop_args]).

Lemma start_text_args : ocpp_args start_text (Call "StartTransaction") = Some start_args.
Proof. vm_compute. reflexivity. Qed.
Lemma stop_text_args : ocpp_args stop_text (Call "StopTransaction") = Some stop_args.
Proof. vm_compute. reflexivity. Qed.

Definition charged : ChargePointState :=
  (cp_apply 2 (cp_apply 1 cp_default "StartTransaction" (Call "StartTransaction") start_text).1
     "StopTransaction" (Call "StopTransaction") stop_text).1.

(** With a StatusNotification of the charger in between. *)
Definition between : list (Z * string * OcppMessageType * string) :=
  [(2, "StatusNotification", Call "StatusNotification",
    text_of (VArray [json_u 2; json_str "3"; json_str "StatusNotification"; VObject [("status", json_str "Charging")]]))]%string.

Lemma between_neutral : Forall (λ '(_, act, mt, _), opens_or_closes act mt = false) between.
Proof. unfold between. apply Forall_cons_2; [vm_compute; reflexivity|apply Forall_nil_2]. Qed.

Lemma session_energy_witness :
  last_session_energy_wh
    (cp_apply 3 (fold_messages (cp_apply 1 cp_default "StartTransaction" (Call "StartTransaction") start_text).1 between)
       "StopTransaction" (Call "StopTransaction") stop_text).1 = Some 7200.
Proof.
  exact (proj1 (session_energy cp_default 1 "StartTransaction" start_text start_args 1000 between 3 "StopTransaction"
    stop_text stop_args 8200 start_text_args eq_refl between_neutral stop_text_args eq_refl)).
Defined.

Lemma repeated_stop_forgets_energy_witness :
  last_session_energy_wh (cp_apply 3 charged "StopTransaction" (Call "StopTransaction") stop_text).1 = None.
Proof.
  exact (proj1 (repeated_stop_forgets_energy
    (cp_apply 1 cp_default "StartTransaction" (Call "StartTransaction") start_text).1 2 3 "StopTransaction"
    stop_text stop_args stop_text_args)).
Defined.
