(* ===== verification/SnapshotStore.v ===== *)
(** * Durable storage of the snapshots (src/snapshot_store.rs)

    The store writes the map of snapshots to a temporary file, syncs it and renames it
    over the old one. The file system is modelled with what those calls promise and
    what a crash can take: directory entries name inodes, an inode's contents survive
    a power cut only once synced, and any call can fail, a write after some bytes. *)

From Stdlib Require Import Ascii.
From S2P Require Import Prelude Float64 Json Text Models Command ChargePoint.

Local Open Scope nat_scope.

(** ** A file system *)

Record Inode := mkInode { in_bytes : string; in_synced : bool }.

Inductive IoError := NotFound | OtherError (message : string).

(** How the calls still to come will go: [None] for success; for a failure, the error
    and how many bytes a failed write had written. *)
Definition Fault : Type := option (IoError * nat).

Record Disk := mkDisk {
  d_names : gmap string nat;
  d_inodes : gmap nat Inode;
  d_dirs : gset string;
  d_faults : list Fault
}.

(** A call on the disk: its result, and the disk after it. *)
Definition io (A : Type) : Type := Disk → Disk * result A IoError.

Definition take_fault (d : Disk) : Disk * Fault :=
  match d_faults d with
  | [] => (d, None)
  | f :: faults => (mkDisk (d_names d) (d_inodes d) (d_dirs d) faults, f)
  end.

Definition set_inode (d : Disk) (i : nat) (n : Inode) : Disk :=
  mkDisk (d_names d) (<[i := n]> (d_inodes d)) (d_dirs d) (d_faults d).
Definition set_names (d : Disk) (names : gmap string nat) : Disk :=
  mkDisk names (d_inodes d) (d_dirs d) (d_faults d).

(** The bytes behind a name. *)
Definition contents (d : Disk) (p : string) : option string :=
  i ← d_names d !! p; in_bytes <$> d_inodes d !! i.

(** [std::fs::read]. *)
Definition fs_read (p : string) : io string := λ d,
  let '(d, f) := take_fault d in
  match f with
  | Some (e, _) => (d, Err e)
  | None => (d, ok_or (contents d p) NotFound)
  end.

(** [std::fs::create_dir_all]. *)
Definition create_dir_all (p : string) : io unit := λ d,
  let '(d, f) := take_fault d in
  match f with
  | Some (e, _) => (d, Err e)
  | None => (mkDisk (d_names d) (d_inodes d) ({[p]} ∪ d_dirs d) (d_faults d), Ok ())
  end.

(** [File::create]: an existing file is emptied in place, a new one gets a new inode. *)
Definition file_create (p : string) : io nat := λ d,
  let '(d, f) := take_fault d in
  match f with
  | Some (e, _) => (d, Err e)
  | None =>
      match d_names d !! p with
      | Some i => (set_inode d i (mkInode "" false), Ok i)
      | None =>
          let i := fresh (dom (d_inodes d) ∪ map_img (d_names d) : gset nat) in
          (set_inode (set_names d (<[p := i]> (d_names d))) i (mkInode "" false), Ok i)
      end
  end.

(** [write_all] on the open file; a failure leaves a prefix of the bytes. *)
Definition write_all_bytes (i : nat) (bytes : string) : io unit := λ d,
  let '(d, f) := take_fault d in
  match d_inodes d !! i with
  | None => (d, Err (OtherError "closed"))
  | Some n =>
      match f with
      | Some (e, k) => (set_inode d i (mkInode (in_bytes n +:+ of_chars (take k (chars bytes))) false), Err e)
      | None => (set_inode d i (mkInode (in_bytes n +:+ bytes) false), Ok ())
      end
  end.

(** [sync_all]. *)
Definition sync_all (i : nat) : io unit := λ d,
  let '(d, f) := take_fault d in
  match f, d_inodes d !! i with
  | Some (e, _), _ => (d, Err e)
  | None, Some n => (set_inode d i (mkInode (in_bytes n) true), Ok ())
  | None, None => (d, Err (OtherError "closed"))
  end.

(** [std::fs::rename], which replaces the target in one step. *)
Definition fs_rename (a b : string) : io unit := λ d,
  let '(d, f) := take_fault d in
  match f, d_names d !! a with
  | Some (e, _), _ => (d, Err e)
  | None, Some i => (set_names d (<[b := i]> (delete a (d_names d))), Ok ())
  | None, None => (d, Err NotFound)
  end.

Definition io_bind {A B} (m : io A) (k : A → io B) : io B := λ d,
  let '(d, r) := m d in match r with Ok a => k a d | Err e => (d, Err e) end.

Notation "'do!' x ':=' m 'in' k" := (io_bind m (λ x, k))
  (at level 10, x pattern, m at level 100, k at level 200) : ocpp_scope.

(** ** Paths *)

(** A path as its directory part, up to and with the last slash, and its file name. *)
Fixpoint rsplit (c : ascii) (s : list ascii) : option (list ascii * list ascii) :=
  match s with
  | [] => None
  | x :: s =>
      match rsplit c s with
      | Some (a, b) => Some (x :: a, b)
      | None => if decide (x = c) then Some ([], s) else None
      end
  end.

(** [Path::parent] of a path with a file name. *)
Definition path_parent (p : string) : string :=
  match rsplit "/" (chars p) with
  | Some ([], _) => "/"
  | Some (dir, _) => of_chars dir
  | None => ""
  end.

(** [Path::with_extension] on a path that ends in a file name: what follows the last
    dot of the name goes, unless that dot starts it. *)
Definition with_extension (p ext : string) : string :=
  let '(dir, name) :=
    match rsplit "/" (chars p) with
    | Some (dir, name) => (dir ++ ["/"%char], name)
    | None => ([], chars p)
    end in
  let stem := match rsplit "." name with Some (x :: stem, _) => x :: stem | _ => name end in
  of_chars (dir ++ stem ++ "."%char :: chars ext).

(** ** The store *)

Abbreviation SnapshotMap := (gmap string ChargePointState).

(** [HashMap::iter]: the order of a map's entries is its own business. *)
Class HashOrder := {
  hash_iter : SnapshotMap → list (string * ChargePointState);
  hash_iter_perm m : hash_iter m ≡ₚ map_to_list m
}.

Record SnapshotStore := mkStore { store_path : option string }.

Definition store_new (path : option string) : SnapshotStore := mkStore path.
Definition store_disabled : SnapshotStore := mkStore None.
Definition is_enabled (store : SnapshotStore) : bool := bool_decide (is_Some (store_path store)).

Section store.
Context `{SerdeJson} `{HashOrder}.

(** The map's derived JSON forms. *)
Definition snapshots_to_value (m : SnapshotMap) : Value :=
  VObject ((λ '(id, st), (id, cp_to_value st)) <$> hash_iter m).

Fixpoint snapshots_of_entries (l : list (string * Value)) : option SnapshotMap :=
  match l with
  | [] => Some ∅
  | (id, v) :: l => st ← cp_of_value v; m ← snapshots_of_entries l; Some (<[id := st]> m)
  end.

Definition snapshots_of_value (v : Value) : option SnapshotMap :=
  m ← as_object v; snapshots_of_entries m.

(** [serde_json::from_slice]. *)
Definition from_slice (bytes : string) : option SnapshotMap :=
  text ← from_utf8 bytes; v ← result_ok (from_str text); snapshots_of_value v.

(** [SnapshotStore::load]: every failure is an empty map. *)
Definition store_load (store : SnapshotStore) (d : Disk) : Disk * SnapshotMap :=
  match store_path store with
  | None => (d, ∅)
  | Some path =>
      let '(d, r) := fs_read path d in
      match r with
      | Err NotFound => (d, ∅)
      | Err _ => (d, ∅)
      | Ok raw => (d, default ∅ (from_slice raw))
      end
  end.

Definition save_inner (path : string) (m : SnapshotMap) : io unit :=
  do! _ := (if decide (path_parent path ≠ "") then create_dir_all (path_parent path) else λ d, (d, Ok ())) in
  match to_json (snapshots_to_value m) with
  | Err e => λ d, (d, Err (OtherError e))
  | Ok bytes =>
      let tmp := with_extension path "json.tmp" in
      do! f := file_create tmp in
      do! _ := write_all_bytes f bytes in
      do! _ := sync_all f in
      fs_rename tmp path
  end.

(** [SnapshotStore::save]: an error costs the write and nothing else. *)
Definition store_save (store : SnapshotStore) (m : SnapshotMap) (d : Disk) : Disk :=
  match store_path store with
  | None => d
  | Some path => (save_inner path m d).1
  end.
End store.

(** ** Lemmas: paths *)

Lemma rsplit_Some c s a b : rsplit c s = Some (a, b) → s = a ++ c :: b ∧ c ∉ b.
Proof.
  revert a b. induction s as [|x s IH]; intros a b; simpl; [done|].
  destruct (rsplit c s) as [[a' b']|] eqn:E.
  - intros [= <- <-]. destruct (IH a' b' eq_refl) as [-> ?]. done.
  - case_decide as Hx; [|done]. intros [= <- <-]. subst x. split; [done|].
    clear IH. induction s as [|y s IHs]; [apply not_elem_of_nil|]. simpl in E.
    destruct (rsplit c s) as [[? ?]|]; [done|]. case_decide; [done|].
    rewrite not_elem_of_cons. split; [done|]. by apply IHs.
Qed.

(** The temporary file is another file. *)
Lemma with_extension_ne p : with_extension p "json.tmp" ≠ p.
Proof.
  intros E%(f_equal chars). unfold with_extension in E.
  assert (∃ dir name, chars p = dir ++ name ∧
    (let '(d, n) := match rsplit "/" (chars p) with
                    | Some (dir, name) => (dir ++ ["/"%char], name) | None => ([], chars p) end in
     d = dir ∧ n = name)) as (dir & name & Hp & Hsplit).
  { destruct (rsplit "/" (chars p)) as [[a b]|] eqn:Hr.
    - apply rsplit_Some in Hr as [Hr _]. exists (a ++ ["/"%char]), b. by rewrite <- app_assoc.
    - by exists [], (chars p). }
  destruct (match rsplit "/" (chars p) with Some _ => _ | None => _ end) as [d n]. destruct Hsplit as [-> ->].
  rewrite chars_of_chars, Hp in E. apply app_inv_head in E.
  destruct (rsplit "." name) as [[[|x stem] ext]|] eqn:Hr.
  - apply (f_equal length) in E. rewrite length_app in E. simpl in E. lia.
  - apply rsplit_Some in Hr as [-> Hext]. simpl in E. injection E as E. apply app_inv_head in E.
    injection E as <-. apply Hext. set_solver.
  - apply (f_equal length) in E. rewrite length_app in E. simpl in E. lia.
Qed.

(** ** Lemmas: the calls of a save *)

Section atomic.
Variables path tmp : string.
Hypothesis tmp_ne : tmp ≠ path.

(** The stored file is not the temporary one under another name, and is on the disk. *)
Definition disk_ok (d : Disk) : Prop :=
  (∀ i, d_names d !! path = Some i → d_names d !! tmp ≠ Some i) ∧
  (∀ i, d_names d !! path = Some i → ∃ n, d_inodes d !! i = Some n ∧ in_synced n = true).

(** From [d] to [d1] only the temporary file has changed: it is inode [i], holding [n]. *)
Definition only_tmp (d d1 : Disk) (i : nat) (n : Inode) : Prop :=
  d_names d1 !! tmp = Some i ∧ d_names d1 !! path = d_names d !! path ∧ d_inodes d1 !! i = Some n ∧
  (∀ j, j ≠ i → d_inodes d1 !! j = d_inodes d !! j) ∧ (∀ j, d_names d !! path = Some j → j ≠ i).

(** What a power cut can leave behind the path, once the calls made so far have taken the
    disk from [d] to [d1]: the directory may be either one's, unsynced bytes may be
    anything. A save cut short at a call has the disk of one whose call fails there. *)
Definition survives (d d1 : Disk) (o : option string) : Prop :=
  ∃ names, (names = d_names d ∨ names = d_names d1) ∧
    match names !! path with
    | None => o = None
    | Some i => match d_inodes d1 !! i with
                | Some n => in_synced n = true → o = Some (in_bytes n)
                | None => True
                end
    end.

(** The path as it was: its name, its bytes, and whatever survives. *)
Definition untouched (d d1 : Disk) : Prop :=
  disk_ok d1 ∧ contents d1 path = contents d path ∧ (∀ o, survives d d1 o → o = contents d path).

Lemma untouched_same d d1 :
  disk_ok d → d_names d1 = d_names d → d_inodes d1 = d_inodes d → untouched d d1.
Proof.
  intros [H1 H2] En Ei. unfold untouched, disk_ok, contents, survives. rewrite En, Ei. split_and!; try done.
  intros o (names & Hn & Ho). assert (names = d_names d) as -> by tauto. 
  destruct (d_names d !! path) as [i|] eqn:Hp; simpl; [|done].
  destruct (H2 i eq_refl) as (n & Hi & Hs). rewrite Hi in *. simpl. by apply Ho.
Qed.

Lemma only_tmp_untouched d d1 i n : disk_ok d → only_tmp d d1 i n → untouched d d1.
Proof.
  intros [H1 H2] (Ht & Hp & Hi & Hj & Hne). unfold untouched, disk_ok, contents, survives.
  rewrite Hp, Ht. split_and!.
  - intros j Hpj [= ->]. by apply (Hne j).
  - intros j Hpj. rewrite Hj by (by apply Hne). by apply H2.
  - destruct (d_names d !! path) as [j|] eqn:E; simpl; [|done]. by rewrite Hj by (by apply Hne).
  - intros o (names & Hn & Ho). assert (names !! path = d_names d !! path) as En by (destruct Hn; subst; done).
    rewrite En in Ho. destruct (d_names d !! path) as [j|] eqn:E; simpl; [|done].
    rewrite Hj in Ho by (by apply Hne). destruct (H2 j eq_refl) as (m & Hm & Hs). rewrite Hm in *. by apply Ho.
Qed.

Lemma take_fault_same d : d_names (take_fault d).1 = d_names d ∧ d_inodes (take_fault d).1 = d_inodes d.
Proof. unfold take_fault. by destruct (d_faults d). Qed.

Lemma file_create_spec d :
  disk_ok d →
  match file_create tmp d with
  | (d1, Ok i) => only_tmp d d1 i (mkInode "" false)
  | (d1, Err _) => untouched d d1
  end.
Proof.
  intros Hok. pose proof Hok as [H1 H2]. unfold file_create. destruct (take_fault_same d) as [En Ei].
  destruct (take_fault d) as [d0 [[e k]|]]; simpl in *; [by apply untouched_same|].
  rewrite En. destruct (d_names d !! tmp) as [i|] eqn:Ht; unfold only_tmp; simpl; rewrite ?En, ?Ei.
  - rewrite lookup_insert_eq. split_and!; try done.
    + intros j Hj. by rewrite lookup_insert_ne.
    + intros j Hj ->. by apply (H1 i).
  - set (i := fresh _). assert (i ∉ (dom (d_inodes d) ∪ map_img (d_names d) : gset nat)) as Hi.
    { unfold i. rewrite ?Ei, ?En. apply is_fresh. }
    rewrite not_elem_of_union in Hi. destruct Hi as [_ Hi].
    rewrite !lookup_insert_eq, lookup_insert_ne by done. split_and!; try done.
    + intros j Hj. by rewrite lookup_insert_ne.
    + intros j Hj ->. apply Hi. rewrite elem_of_map_img. by exists path.
Qed.

Lemma only_tmp_write d d0 d1 i n n' :
  only_tmp d d0 i n → d_names d1 = d_names d0 → d_inodes d1 = <[i := n']> (d_inodes d0) → only_tmp d d1 i n'.
Proof.
  intros (Ht & Hp & Hi & Hj & Hne) En Ei. unfold only_tmp. rewrite En, Ei, lookup_insert_eq.
  split_and!; try done. intros j Hji. rewrite lookup_insert_ne by done. by apply Hj.
Qed.

Lemma write_spec d d0 i n bytes :
  only_tmp d d0 i n →
  match write_all_bytes i bytes d0 with
  | (d1, Ok _) => only_tmp d d1 i (mkInode (in_bytes n +:+ bytes) false)
  | (d1, Err _) => ∃ n', only_tmp d d1 i n'
  end.
Proof.
  intros Ho. unfold write_all_bytes. destruct (take_fault_same d0) as [En Ei].
  destruct (take_fault d0) as [d1 f]. simpl in *. rewrite Ei. destruct Ho as (? & ? & Hi & ?).
  assert (only_tmp d d0 i n) as Ho by done. rewrite Hi. destruct f as [[e k]|].
  - eexists. eapply only_tmp_write; [exact Ho|done|]. simpl. by rewrite Ei.
  - eapply only_tmp_write; [exact Ho|done|]. simpl. by rewrite Ei.
Qed.

Lemma sync_spec d d0 i n :
  only_tmp d d0 i n →
  match sync_all i d0 with
  | (d1, Ok _) => only_tmp d d1 i (mkInode (in_bytes n) true)
  | (d1, Err _) => only_tmp d d1 i n
  end.
Proof.
  intros Ho. unfold sync_all. destruct (take_fault_same d0) as [En Ei].
  destruct (take_fault d0) as [d1 f]. simpl in *. rewrite Ei. pose proof Ho as (Ht & Hp & Hi & Hj & Hne). rewrite Hi.
  destruct f as [[e k]|].
  - unfold only_tmp. by rewrite En, Ei.
  - eapply only_tmp_write; [exact Ho|done|]. simpl. by rewrite Ei.
Qed.

Lemma rename_spec d d0 i n :
  disk_ok d → only_tmp d d0 i n → in_synced n = true →
  match fs_rename tmp path d0 with
  | (d1, Ok _) => disk_ok d1 ∧ contents d1 path = Some (in_bytes n) ∧
                  (∀ o, survives d d1 o → o = contents d path ∨ o = Some (in_bytes n))
  | (d1, Err _) => untouched d d1
  end.
Proof.
  intros Hok Ho Hs. unfold fs_rename. destruct (take_fault_same d0) as [En Ei].
  destruct (take_fault d0) as [d1 f]. simpl in *. pose proof Ho as (Ht & Hp & Hi & Hj & Hne).
  assert (untouched d d1) as Hun by (apply (only_tmp_untouched d d1 i n); [done|unfold only_tmp; by rewrite En, Ei]).
  destruct f as [[e k]|]; [done|]. rewrite En, Ht. split_and!.
  - split; simpl; rewrite lookup_insert_eq.
    + intros j [= <-]. rewrite lookup_insert_ne by done. rewrite lookup_delete_eq. done.
    + intros j [= <-]. exists n. by rewrite Ei.
  - unfold contents. simpl. rewrite lookup_insert_eq. simpl. by rewrite Ei, Hi.
  - intros o (names & Hn & Hsv). simpl in Hsv. rewrite Ei in Hsv. destruct Hn as [->| ->].
    + left. destruct Hun as (_ & _ & Hun). apply Hun. exists (d_names d). rewrite Ei. by split; [left|].
    + right. simpl in Hsv. rewrite lookup_insert_eq, Hi in Hsv. by apply Hsv.
Qed.
End atomic.

(** ** Theorems *)

Section store_theorems.
Context `{SerdeJson} `{HashOrder}.

Definition tmp_of (path : string) : string := with_extension path "json.tmp".

(** The bytes a save writes. *)
Definition saved_bytes (m : SnapshotMap) : option string := result_ok (to_json (snapshots_to_value m)).

(** What a save may do to the file, from [d] to [d']: [r] is its result. *)
Definition saved (path : string) (new : option string) (d d' : Disk) (r : result unit IoError) : Prop :=
  disk_ok path (tmp_of path) d' ∧
  contents d' path = (if is_ok r then new else contents d path) ∧
  (∀ o, survives path d d' o → o = contents d path ∨ (is_Some new ∧ o = new)).

Lemma saved_untouched path new d d' e :
  untouched path (tmp_of path) d d' → saved path new d d' (Err e).
Proof. intros (H1 & H2 & H3). split_and!; auto. Qed.

(** The calls after the directory is there. *)
Lemma save_file path bytes d :
  disk_ok path (tmp_of path) d →
  let '(d', r) := (do! f := file_create (tmp_of path) in
                   do! _ := write_all_bytes f bytes in
                   do! _ := sync_all f in
                   fs_rename (tmp_of path) path) d in
  saved path (Some bytes) d d' r.
Proof.
  intros Hok. assert (tmp_of path ≠ path) as Hne by apply with_extension_ne.
  unfold io_bind. pose proof (file_create_spec path (tmp_of path) Hne d Hok) as H1.
  destruct (file_create (tmp_of path) d) as [d1 [i|e]]; [|by apply saved_untouched].
  pose proof (write_spec path (tmp_of path) d d1 i _ bytes H1) as H2. simpl in H2.
  destruct (write_all_bytes i bytes d1) as [d2 [u|e]];
    [|destruct H2 as [n' H2]; by eapply saved_untouched, only_tmp_untouched].
  pose proof (sync_spec path (tmp_of path) d d2 i _ H2) as H3.
  destruct (sync_all i d2) as [d3 [u'|e]]; [|by eapply saved_untouched, only_tmp_untouched].
  pose proof (rename_spec path (tmp_of path) Hne d d3 i _ Hok H3 eq_refl) as H4.
  destruct (fs_rename (tmp_of path) path d3) as [d4 [u''|e]]; [|by apply saved_untouched].
  destruct H4 as (Hok4 & Hc & Hs). change ("" +:+ bytes)%string with bytes in *.
  split_and!; [done|done|]. intros o Ho. destruct (Hs o Ho) as [->| ->]; [by left|right]. split; [by eexists|done].
Qed.

Lemma save_inner_saved path m d :
  disk_ok path (tmp_of path) d →
  let '(d', r) := save_inner path m d in saved path (saved_bytes m) d d' r.
Proof.
  intros Hok. unfold save_inner, io_bind at 1. set (mk := if decide _ then _ else _).
  assert (∃ d0 r0, mk d = (d0, r0) ∧ d_names d0 = d_names d ∧ d_inodes d0 = d_inodes d) as (d0 & r0 & -> & En & Ei).
  { unfold mk. case_decide; [|by exists d, (Ok ())]. unfold create_dir_all.
    destruct (take_fault_same d) as [En Ei]. destruct (take_fault d) as [d1 [[e k]|]]; by do 2 eexists. }
  clear mk. destruct r0 as [u|e]; [|by apply saved_untouched, untouched_same].
  unfold saved_bytes. destruct (to_json (snapshots_to_value m)) as [bytes|e];
    [|by apply saved_untouched, untouched_same].
  assert (disk_ok path (tmp_of path) d0) as Hok0 by (unfold disk_ok; by rewrite En, Ei).
  pose proof (save_file path bytes d0 Hok0) as Hs. unfold tmp_of in Hs.
  destruct (io_bind _ _ d0) as [d' r]. unfold saved, survives, contents in *. by rewrite En, Ei in Hs.
Qed.

(** C37. A save is atomic, whatever fails and whenever the power goes: afterwards the
    file holds the new bytes when the save succeeded, and exactly what it held before
    when it did not; and what a crash at any point of it leaves is one of the two,
    whole, never a truncated or mixed file. *)
Theorem save_atomic path m d :
  disk_ok path (tmp_of path) d →
  let '(d', r) := save_inner path m d in
  disk_ok path (tmp_of path) d' ∧
  contents d' path = (if is_ok r then saved_bytes m else contents d path) ∧
  (∀ o, survives path d d' o → o = contents d path ∨ (is_Some (saved_bytes m) ∧ o = saved_bytes m)).
Proof. intros Hok. pose proof (save_inner_saved path m d Hok) as H1. by destruct (save_inner path m d). Qed.

(** ** Reading back *)

Lemma hash_iter_elem m id st : (id, st) ∈ hash_iter m ↔ m !! id = Some st.
Proof. rewrite <- elem_of_map_to_list. by rewrite (hash_iter_perm m). Qed.

Lemma snapshots_representable m :
  map_Forall (λ _ st, cp_typed st = true) m → representable (snapshots_to_value m) = true.
Proof.
  intros Hm. unfold snapshots_to_value. cbn [representable]. apply andb_true_intro. split.
  - apply bool_decide_eq_true_2.
    assert (((λ '(id, st), (id, cp_to_value st)) <$> hash_iter m).*1 = (hash_iter m).*1) as ->.
    { rewrite <- list_fmap_compose. apply list_fmap_ext. by intros ? [] _. }
    rewrite (fmap_Permutation fst _ _ (hash_iter_perm m)). apply NoDup_fst_map_to_list.
  - apply forallb_forall. intros [id v] Hin%list_elem_of_In. apply list_elem_of_fmap in Hin as ([id' st] & [= -> ->] & Hin).
    apply hash_iter_elem in Hin. by apply cp_to_value_representable, (Hm id').
Qed.

Lemma map_get_snapshots m id :
  map_get id ((λ '(id, st), (id, cp_to_value st)) <$> hash_iter m) = cp_to_value <$> m !! id.
Proof.
  assert (NoDup (hash_iter m).*1) as Hnd
    by (rewrite (fmap_Permutation fst _ _ (hash_iter_perm m)); apply NoDup_fst_map_to_list).
  assert (∀ st, m !! id = Some st ↔ (id, st) ∈ hash_iter m) as Hin.
  { intros st. by rewrite hash_iter_elem. }
  destruct (m !! id) as [st|] eqn:E; simpl.
  - assert ((id, st) ∈ hash_iter m) as Hi by (by apply Hin). clear Hin.
    induction (hash_iter m) as [|[k x] l IH]; [by apply not_elem_of_nil in Hi|]. simpl in *.
    apply NoDup_cons in Hnd as [Hk Hnd]. apply elem_of_cons in Hi as [Hi|Hi]; [simplify_eq; by rewrite decide_True|].
    rewrite decide_False; [by apply IH|]. intros ->. apply Hk, list_elem_of_fmap. by exists (k, st).
  - assert (id ∉ (hash_iter m).*1) as Hk.
    { intros ([k x] & -> & Hi)%list_elem_of_fmap. simpl in *. by apply Hin in Hi. }
    clear Hin Hnd. induction (hash_iter m) as [|[k x] l IH]; simpl in *; [done|].
    apply not_elem_of_cons in Hk as [Hne Hk]. rewrite decide_False by done. by apply IH.
Qed.

Lemma map_get_elem (l : list (string * Value)) k v : NoDup l.*1 → (k, v) ∈ l → map_get k l = Some v.
Proof.
  induction l as [|[k' v'] l IH]; simpl; intros Hnd Hin; [by apply not_elem_of_nil in Hin|].
  apply NoDup_cons in Hnd as [Hk Hnd]. apply elem_of_cons in Hin as [Hin|Hin]; [simplify_eq; by rewrite decide_True|].
  rewrite decide_False; [by apply IH|]. intros ->. apply Hk, list_elem_of_fmap. by exists (k', v).
Qed.

Lemma snapshots_of_entries_lookup l :
  NoDup l.*1 → (∀ id v, (id, v) ∈ l → is_Some (cp_of_value v)) →
  ∃ m, snapshots_of_entries l = Some m ∧ ∀ id, m !! id = map_get id l ≫= cp_of_value.
Proof.
  induction l as [|[k v] l IH]; simpl; intros Hnd Hall; [by exists ∅|].
  apply NoDup_cons in Hnd as [Hk Hnd].
  destruct IH as (m & -> & Hm); [done|intros id w Hw; apply (Hall id w); by right|].
  destruct (Hall k v) as [st Hst]; [by left|]. rewrite Hst. simpl. eexists. split; [done|].
  intros id. case_decide as Hid; [subst; by rewrite lookup_insert_eq|].
  by rewrite lookup_insert_ne, Hm.
Qed.

(** The codec writes UTF-8. *)
Definition writes_utf8 : Prop := ∀ v text, to_json v = Ok text → from_utf8 text = Some text.

(** What a save that succeeded wrote is what a load reads. *)
Lemma load_snapshot `{!SerdeJsonLaws} path m d d' id :
  writes_utf8 → disk_ok path (tmp_of path) d → map_Forall (λ _ st, cp_typed st = true) m →
  save_inner path m d = (d', Ok ()) → (take_fault d').2 = None →
  option_Forall2 cp_agree (m !! id) ((store_load (store_new (Some path)) d').2 !! id).
Proof.
  intros Hutf Hok Hm Hsave Hnf.
  pose proof (save_inner_saved path m d Hok) as Hs. rewrite Hsave in Hs. destruct Hs as (_ & Hc & _). simpl in Hc.
  destruct (to_json_from_str (snapshots_to_value m) (snapshots_representable m Hm)) as (raw & w & Hraw & Hw & Hsame).
  unfold saved_bytes in Hc. rewrite Hraw in Hc. simpl in Hc.
  unfold store_load, fs_read. simpl. destruct (take_fault_same d') as [En Ei].
  destruct (take_fault d') as [d1 f]. simpl in *. subst f.
  assert (contents d1 path = Some raw) as -> by (rewrite <- Hc; unfold contents; by rewrite En, Ei).
  simpl. unfold from_slice. rewrite (Hutf _ _ Hraw). simpl. rewrite Hw. simpl.
  pose proof (from_str_representable raw w Hw) as Hrep.
  inversion Hsame as [| | | | | |l l' Hl]; subst. unfold snapshots_of_value. simpl.
  cbn [representable] in Hrep. apply andb_prop in Hrep as [Hnd _]. apply bool_decide_eq_true_1 in Hnd.
  assert (∀ k v, map_get k l' = Some v → ∃ st, m !! k = Some st ∧ same_json (cp_to_value st) v) as Hback.
  { intros k v Hv. specialize (Hl k). rewrite map_get_snapshots, Hv in Hl.
    destruct (m !! k) as [st|]; inversion Hl; subst. by exists st. }
  destruct (snapshots_of_entries_lookup l' Hnd) as (m' & -> & Hm').
  { intros k v Hkv. destruct (Hback k v) as (st & Hst & Hsj); [by apply map_get_elem|].
    destruct (cp_value_roundtrip st v (Hm k st Hst) Hsj) as (st' & -> & _). by eexists. }
  simpl. rewrite Hm'. specialize (Hl id). rewrite map_get_snapshots in Hl.
  destruct (m !! id) as [st|] eqn:Est; inversion Hl as [? v Hv|]; subst; simpl; [|constructor].
  destruct (cp_value_roundtrip st v (Hm id st Est) Hv) as (st' & -> & Hag). by constructor.
Qed.

(** What was saved is restored: after a save that succeeded, loading the file gives
    a snapshot for exactly the charge points saved, each equal to the one saved in
    every field (the limit in amps up to the digits of the JSON codec). *)
Theorem load_after_save `{!SerdeJsonLaws} path m d d' :
  writes_utf8 → disk_ok path (tmp_of path) d → map_Forall (λ _ st, cp_typed st = true) m →
  save_inner path m d = (d', Ok ()) → (take_fault d').2 = None →
  ∀ id, option_Forall2 cp_agree (m !! id) ((store_load (store_new (Some path)) d').2 !! id).
Proof. intros Hutf Hok Hm Hsave Hnf id. by apply (load_snapshot path m d d'). Qed.
End store_theorems.

(** ** Witnesses *)

#[local] Existing Instance reference_codec.
#[local] Existing Instance reference_codec_laws.
#[local] Instance key_order : HashOrder := {| hash_iter := map_to_list; hash_iter_perm _ := Permutation_refl _ |}.

Lemma reference_writes_utf8 : writes_utf8.
Proof.
  intros v text [= <-]. unfold from_utf8.
  assert (∀ p, utf8_valid 0 0 0 (chars (bits_to_string p)) = true) as -> by (by intros p; induction p). done.
Qed.

Definition state_file : string := "/var/lib/ocpp-proxy/state.json".

(** A disk holding a snapshot file, whose calls go as [faults] says. *)
Definition example_disk (faults : list Fault) : Disk :=
  mkDisk {[state_file := 0]} {[0 := mkInode "{}" true]} ∅ faults.

Definition example_map : SnapshotMap := {["CP1" := set_limit cp_default (Some (of_Z 16)) (Some "Accepted") None]}.

Lemma example_disk_ok faults : disk_ok state_file (tmp_of state_file) (example_disk faults).
Proof.
  unfold disk_ok, example_disk. simpl. split.
  - intros i _. vm_compute. done.
  - intros i Hi. rewrite lookup_singleton_eq in Hi. injection Hi as <-. by exists (mkInode "{}" true).
Qed.

(** The disk fills up half way through the write. *)
Lemma save_atomic_witness :
  contents (save_inner state_file example_map (example_disk [None; None; Some (OtherError "no space", 5)])).1
    state_file = Some "{}"%string.
Proof.
  pose proof (save_atomic state_file example_map _
    (example_disk_ok [None; None; Some (OtherError "no space", 5)])) as H1.
  assert (is_ok (save_inner state_file example_map
    (example_disk [None; None; Some (OtherError "no space", 5)])).2 = false) as Hr by (vm_compute; reflexivity).
  destruct (save_inner _ _ _) as [d' r]. simpl in Hr. destruct H1 as (_ & Hc & _). rewrite Hr in Hc. exact Hc.
Defined.

Lemma load_after_save_witness :
  ∃ st, (store_load (store_new (Some state_file)) (save_inner state_file example_map (example_disk [])).1).2
          !! "CP1"%string = Some st ∧ current_limit_status st = Some "Accepted"%string.
Proof.
  assert (save_inner state_file example_map (example_disk []) =
    ((save_inner state_file example_map (example_disk [])).1, Ok ())) as E by (vm_compute; reflexivity).
  pose proof (load_after_save state_file example_map _ _ reference_writes_utf8 (example_disk_ok [])
    ltac:(apply map_Forall_singleton; vm_compute; reflexivity) E
    ltac:(vm_compute; reflexivity) "CP1"%string) as H1.
  clear E. destruct (save_inner _ _ _) as [d' r]. simpl fst.
  unfold example_map in H1. rewrite lookup_singleton_eq in H1. inversion H1 as [? st [Hag _]|]; subst.
  exists st. split; [done|]. apply (f_equal current_limit_status) in Hag. symmetry. exact Hag.
Defined.
