(* ===== verification/Publisher.v ===== *)
(** * The MQTT publisher (src/mqtt.rs)

    The publisher's task owns the client and the event loop of the MQTT library and
    never awaits a publish: every message joins a FIFO buffer, and as much of its
    front as the client accepts is handed over, at each message and each tick of the
    event loop. The client is a parameter met through an interface whose laws say what
    it has accepted. One awaited event is one step; a run is a list of timed events.
    The router and the state manager, which the publisher shares with the sessions,
    are fields of its record, and what others do to them between two steps an event. *)

From Stdlib Require Import Ascii.
From S2P Require Import Prelude Float64 Json Text Models StateManager Config Command CallQueue.
From S2P Require Import Forwarder ChargePoint SnapshotStore.

Local Open Scope nat_scope.

(** ** The library's types *)

Inductive QoS := AtMostOnce | AtLeastOnce | ExactlyOnce.

Record LastWill := mkLastWill {
  will_topic : string;
  will_message : string;
  will_qos : QoS;
  will_retain : bool
}.

Record TlsConfiguration := mkTls {
  tls_ca : string;
  tls_client_auth : option (string * string)
}.

(** What [MqttOptions] is told; [mo_tls] is the transport. *)
Record MqttOptions := mkOptions {
  mo_client_id : string;
  mo_host : string;
  mo_port : Z;
  mo_credentials : string * string;
  mo_keep_alive : Z;
  mo_last_will : option LastWill;
  mo_tls : option TlsConfiguration
}.

Definition REQUEST_CHANNEL_CAPACITY : nat := 10.

Record MqttMessage := mkMessage {
  msg_topic : string;
  msg_payload : string;
  msg_qos : QoS;
  msg_retain : bool
}.

(** What the request channel carries. *)
Inductive Request :=
  | RPublish (m : MqttMessage)
  | RSubscribe (filters : list (string * QoS)).

(** What [EventLoop::poll] returns, as far as the code looks at it. *)
Inductive PollEvent :=
  | PollConnAck
  | PollPublish (topic payload : string)
  | PollOther
  | PollError.

(** [AsyncClient] with its [EventLoop]: [false] is a refusal. [polled] is what [poll]
    does to the request channel on the way to its result. *)
Class MqttClient (T : Type) := {
  client_new : MqttOptions → nat → T;
  try_publish : T → MqttMessage → T * bool;
  try_subscribe_many : T → list (string * QoS) → T * bool;
  polled : PollEvent → T → T
}.

(** The channel takes what it accepts in order, and keeps nothing of what it refuses.
    It is bounded: a message whose topic is a topic name is refused only when there is
    no place left, and [poll] never gives places back to the messages before. *)
Class MqttClientLaws (T : Type) `{MqttClient T} := {
  requests : T → list Request;
  places : T → nat;
  try_publish_requests c m c' ok :
    try_publish c m = (c', ok) → requests c' = requests c ++ (if ok then [RPublish m] else []);
  try_publish_places c m c' ok :
    try_publish c m = (c', ok) → places c = places c' + (if ok then 1 else 0);
  try_publish_room c m :
    no_char "+"%char (msg_topic m) → no_char "#"%char (msg_topic m) → 0 < places c → (try_publish c m).2 = true;
  try_subscribe_requests c l c' ok :
    try_subscribe_many c l = (c', ok) → requests c' = requests c ++ (if ok then [RSubscribe l] else []);
  try_subscribe_room c l : 0 < places c → (try_subscribe_many c l).2 = true;
  try_subscribe_places c l c' ok :
    try_subscribe_many c l = (c', ok) → places c = places c' + (if ok then 1 else 0);
  polled_requests e c : requests (polled e c) = requests c;
  polled_places e c : places c ≤ places (polled e c)
}.

(** The library refuses a topic that holds a wildcard, whatever the room. *)
Definition refuses_wildcards {T} `{MqttClient T} : Prop :=
  ∀ c m, ¬ (no_char "+"%char (msg_topic m) ∧ no_char "#"%char (msg_topic m)) → (try_publish c m).2 = false.

(** ** Payloads and topics *)

Record MqttPayload := mkPayload {
  pl_timestamp : string;
  pl_message_type : string;
  pl_payload : Value
}.

(** The derived [Serialize]. *)
Definition MqttPayload_to_value (p : MqttPayload) : Value :=
  VObject [("timestamp", json_str (pl_timestamp p)); ("message_type", json_str (pl_message_type p));
           ("payload", pl_payload p)]%string.

Record StatusPayload := mkStatus { st_upstream : string; st_downstream : string }.

Definition StatusPayload_to_value (p : StatusPayload) : Value :=
  VObject [("upstream", json_str (st_upstream p)); ("downstream", json_str (st_downstream p))]%string.

Definition message_type_str (t : OcppMessageType) : string :=
  match t with Call _ => "Call" | CallResult => "CallResult" | CallError => "CallError" end.

Definition direction_str (d : Direction) : string :=
  match d with ChargerToCentral => "charger" | CentralToCharger => "central_system" end.

Definition connection_state_str (s : ConnectionState) : string :=
  match s with
  | Connected => "connected"
  | Disconnected => "disconnected"
  | Reconnecting => "reconnecting"
  | Connecting => "connecting"
  end.

Definition availability_topic (id : string) : string := "ocpp/" +:+ id +:+ "/availability".
Definition message_topic (id direction act : string) : string :=
  "ocpp/" +:+ id +:+ "/" +:+ direction +:+ "/" +:+ act.
Definition charge_point_state_topic (id : string) : string := "ocpp/" +:+ id +:+ "/state".
Definition status_topic (id : string) : string := "ocpp/" +:+ id +:+ "/status".

(** ** The publisher *)

Record MqttPublisher (T R : Type) := mkPublisher {
  p_client : T;
  p_lwt : option string;
  p_buffer : list MqttMessage;
  p_max_buffer_size : nat;
  p_state : ConnectionState;
  p_backoff : ExponentialBackoff;
  p_snapshots : SnapshotMap;
  p_store : SnapshotStore;
  p_disk : Disk;
  p_manager : option ConnectionStateManager;
  p_flush : option nat;
  p_router : option (CommandRouter R);
  p_charging : option ChargingConfig;
  p_subscribe_pending : bool;
  p_links : gmap string (ConnectionState * ConnectionState)
}.
Arguments mkPublisher {T R} _ _ _ _ _ _ _ _ _ _ _ _ _ _ _.
Arguments p_client {T R} _.
Arguments p_lwt {T R} _.
Arguments p_buffer {T R} _.
Arguments p_max_buffer_size {T R} _.
Arguments p_state {T R} _.
Arguments p_backoff {T R} _.
Arguments p_snapshots {T R} _.
Arguments p_store {T R} _.
Arguments p_disk {T R} _.
Arguments p_manager {T R} _.
Arguments p_flush {T R} _.
Arguments p_router {T R} _.
Arguments p_charging {T R} _.
Arguments p_subscribe_pending {T R} _.
Arguments p_links {T R} _.

(** ** Field updates *)

Section setters.
Context {T R : Type}.
Implicit Types (p : MqttPublisher T R).

Definition set_queue p client buffer : MqttPublisher T R :=
  mkPublisher client (p_lwt p) buffer (p_max_buffer_size p) (p_state p) (p_backoff p) (p_snapshots p)
    (p_store p) (p_disk p) (p_manager p) (p_flush p) (p_router p) (p_charging p) (p_subscribe_pending p)
    (p_links p).
Definition set_mqtt_state p state manager : MqttPublisher T R :=
  mkPublisher (p_client p) (p_lwt p) (p_buffer p) (p_max_buffer_size p) state (p_backoff p) (p_snapshots p)
    (p_store p) (p_disk p) manager (p_flush p) (p_router p) (p_charging p) (p_subscribe_pending p)
    (p_links p).
Definition set_p_backoff p backoff : MqttPublisher T R :=
  mkPublisher (p_client p) (p_lwt p) (p_buffer p) (p_max_buffer_size p) (p_state p) backoff (p_snapshots p)
    (p_store p) (p_disk p) (p_manager p) (p_flush p) (p_router p) (p_charging p) (p_subscribe_pending p)
    (p_links p).
Definition set_snapshots p snapshots : MqttPublisher T R :=
  mkPublisher (p_client p) (p_lwt p) (p_buffer p) (p_max_buffer_size p) (p_state p) (p_backoff p) snapshots
    (p_store p) (p_disk p) (p_manager p) (p_flush p) (p_router p) (p_charging p) (p_subscribe_pending p)
    (p_links p).
Definition set_disk p disk : MqttPublisher T R :=
  mkPublisher (p_client p) (p_lwt p) (p_buffer p) (p_max_buffer_size p) (p_state p) (p_backoff p)
    (p_snapshots p) (p_store p) disk (p_manager p) (p_flush p) (p_router p) (p_charging p)
    (p_subscribe_pending p) (p_links p).
Definition set_flush p flush : MqttPublisher T R :=
  mkPublisher (p_client p) (p_lwt p) (p_buffer p) (p_max_buffer_size p) (p_state p) (p_backoff p)
    (p_snapshots p) (p_store p) (p_disk p) (p_manager p) flush (p_router p) (p_charging p)
    (p_subscribe_pending p) (p_links p).
Definition set_router p router : MqttPublisher T R :=
  mkPublisher (p_client p) (p_lwt p) (p_buffer p) (p_max_buffer_size p) (p_state p) (p_backoff p)
    (p_snapshots p) (p_store p) (p_disk p) (p_manager p) (p_flush p) router (p_charging p)
    (p_subscribe_pending p) (p_links p).
Definition set_charging p router charging : MqttPublisher T R :=
  mkPublisher (p_client p) (p_lwt p) (p_buffer p) (p_max_buffer_size p) (p_state p) (p_backoff p)
    (p_snapshots p) (p_store p) (p_disk p) (p_manager p) (p_flush p) router charging
    (p_subscribe_pending p) (p_links p).
Definition set_subscribe p client pending : MqttPublisher T R :=
  mkPublisher client (p_lwt p) (p_buffer p) (p_max_buffer_size p) (p_state p) (p_backoff p) (p_snapshots p)
    (p_store p) (p_disk p) (p_manager p) (p_flush p) (p_router p) (p_charging p) pending (p_links p).
Definition set_links p links : MqttPublisher T R :=
  mkPublisher (p_client p) (p_lwt p) (p_buffer p) (p_max_buffer_size p) (p_state p) (p_backoff p)
    (p_snapshots p) (p_store p) (p_disk p) (p_manager p) (p_flush p) (p_router p) (p_charging p)
    (p_subscribe_pending p) links.
End setters.

(** ** Operations *)

Section publisher.
Context {T R : Type} `{MqttClient T} `{MpscSender R CommandRequest}.
Context `{SerdeJson} `{Chrono} `{HashOrder} (serde_error : Value → string) (io_error_fmt : IoError → string).
Implicit Types (p : MqttPublisher T R).

(** [build_tls_config]: the files are read in order, the first that cannot be is the error. *)
Definition read_pem (what path : string) : Disk → Disk * result string ProxyError := λ d,
  let '(d, r) := fs_read path d in
  (d, match r with
      | Ok bytes => Ok bytes
      | Err e => Err (Tls ("Failed to read " +:+ what +:+ " at '" +:+ path +:+ "': " +:+ io_error_fmt e))
      end).

Definition build_tls_config (config : MqttConfig) (d : Disk) : Disk * result (option TlsConfiguration) ProxyError :=
  match ca_cert_path config with
  | None => (d, Ok None)
  | Some ca_path =>
      let '(d, r) := read_pem "CA certificate" ca_path d in
      match r with
      | Err e => (d, Err e)
      | Ok ca =>
          match client_cert_path config, client_key_path config with
          | Some cert_path, Some key_path =>
              let '(d, r) := read_pem "client certificate" cert_path d in
              match r with
              | Err e => (d, Err e)
              | Ok cert =>
                  let '(d, r) := read_pem "client key" key_path d in
                  match r with
                  | Err e => (d, Err e)
                  | Ok key => (d, Ok (Some (mkTls ca (Some (cert, key)))))
                  end
              end
          | _, _ => (d, Ok (Some (mkTls ca None)))
          end
      end
  end.

Definition mqtt_options (config : MqttConfig) (lwt : option string) (tls : option TlsConfiguration) : MqttOptions :=
  mkOptions (match lwt with Some id => "ocpp-proxy-" +:+ id | None => "ocpp-proxy" end)
    (host config) (mqtt_port config) (username config, password config) (from_secs 60)
    ((λ id, mkLastWill (availability_topic id) "offline" AtLeastOnce true) <$> lwt) tls.

(** [MqttPublisher::new], on the disk [d]. *)
Definition publisher_new (config : MqttConfig) (lwt : option string) (max_buffer : nat)
    (store : SnapshotStore) (d : Disk) : Disk * result (MqttPublisher T R) ProxyError :=
  let '(d, tls) := build_tls_config config d in
  match tls with
  | Err e => (d, Err e)
  | Ok tls =>
      let client := client_new (mqtt_options config lwt tls) REQUEST_CHANNEL_CAPACITY in
      let '(d, snapshots) := store_load store d in
      (d, Ok (mkPublisher client lwt [] max_buffer Disconnected
                (backoff_with_defaults (from_secs 1) (from_secs 30)) snapshots store d
                None None None None false ∅))
  end.

Definition with_command_router p (router : CommandRouter R) (charging : ChargingConfig) : MqttPublisher T R :=
  set_charging p (Some router) (Some charging).
Definition commands_enabled p : bool := bool_decide (is_Some (p_router p)).
Definition with_state_manager p (manager : ConnectionStateManager) : MqttPublisher T R :=
  set_mqtt_state p (p_state p) (Some manager).

(** [set_state]. *)
Definition mqtt_set_state (c : Clock) p (s : ConnectionState) : MqttPublisher T R :=
  set_mqtt_state p s ((λ m, transition (utc_now c) m Mqtt s) <$> p_manager p).

(** The [while let] of [drain_buffer]: what is left, and how many were accepted. *)
Fixpoint drain_loop (client : T) (buffer : list MqttMessage) : T * list MqttMessage * nat :=
  match buffer with
  | [] => (client, [], 0)
  | msg :: rest =>
      let '(client, ok) := try_publish client msg in
      if ok : bool then let '(client, waiting, accepted) := drain_loop client rest in (client, waiting, S accepted)
      else (client, buffer, 0)
  end.

(** The accounting of [drain_buffer]. *)
Definition flush_progress (flush : option nat) (accepted : nat) (buffer : list MqttMessage) : option nat :=
  published ← flush; if decide (buffer = []) then None else Some (published + accepted).

Definition drain_buffer p : MqttPublisher T R :=
  let '(client, buffer, accepted) := drain_loop (p_client p) (p_buffer p) in
  set_flush (set_queue p client buffer) (flush_progress (p_flush p) accepted buffer).

Definition drain_if_connected p : MqttPublisher T R :=
  if decide (p_state p = Connected) then drain_buffer p else p.

Definition buffer_message p (m : MqttMessage) : MqttPublisher T R :=
  set_queue p (p_client p) (push_bounded (p_max_buffer_size p) (p_buffer p) m).

Definition enqueue p (m : MqttMessage) : MqttPublisher T R := drain_if_connected (buffer_message p m).

Definition mqtt_flush_buffer p : MqttPublisher T R :=
  if decide (p_buffer p = []) then p else drain_buffer (set_flush p (Some 0)).

Definition online_message (id : string) : MqttMessage :=
  mkMessage (availability_topic id) "online" AtLeastOnce true.

Definition publish_online p : MqttPublisher T R :=
  match p_lwt p with
  | None => p
  | Some id => drain_buffer (set_queue p (p_client p) (online_message id :: p_buffer p))
  end.

Definition state_message (id : string) (st : ChargePointState) : option MqttMessage :=
  payload ← result_ok (to_json (cp_to_value st));
  Some (mkMessage (charge_point_state_topic id) payload AtLeastOnce true).

Definition enqueue_opt p (m : option MqttMessage) : MqttPublisher T R :=
  match m with Some m => enqueue p m | None => p end.

Definition publish_charge_point_state p (id : string) (st : ChargePointState) : MqttPublisher T R :=
  enqueue_opt p (state_message id st).

Definition republish_snapshots p : MqttPublisher T R :=
  foldl (λ p '(id, st), publish_charge_point_state p id st) p (hash_iter (p_snapshots p)).

Definition try_subscribe p : MqttPublisher T R :=
  if p_subscribe_pending p then
    let '(client, ok) := try_subscribe_many (p_client p) ((λ f, (f, AtLeastOnce)) <$> COMMAND_SUBSCRIPTIONS) in
    set_subscribe p client (negb ok)
  else p.

Definition on_connack (c : Clock) p : MqttPublisher T R :=
  let p := mqtt_set_state c p Connected in
  let p := set_p_backoff p (backoff_reset (p_backoff p)) in
  let p := publish_online p in
  let p := mqtt_flush_buffer p in
  let p := republish_snapshots p in
  let p := set_subscribe p (p_client p) (bool_decide (is_Some (p_router p))) in
  try_subscribe p.

(** The end that [publish_command_result] and [handle_event] share: fold into the
    snapshot of the charge point, and save and publish it when that changed it. *)
Definition fold_snapshot p (id : string) (f : ChargePointState → ChargePointState * bool) : MqttPublisher T R :=
  let '(st, changed) := f (default cp_default (p_snapshots p !! id)) in
  let p := set_snapshots p (<[id := st]> (p_snapshots p)) in
  if changed : bool then
    let p := set_disk p (store_save (p_store p) (p_snapshots p) (p_disk p)) in
    publish_charge_point_state p id st
  else p.

Definition result_message (id : string) (result : CommandResult) : option MqttMessage :=
  payload ← result_ok (to_json (CommandResult_to_value result));
  Some (mkMessage (command_result_topic id) payload AtLeastOnce false).

Definition publish_command_result (c : Clock) p (id : string) (result : CommandResult) : MqttPublisher T R :=
  let p := enqueue_opt p (result_message id result) in
  fold_snapshot p id (λ st, apply_command_result (utc_now c) st result).

(** The result [dispatch_command] publishes for a request it could not hand over. *)
Definition undispatched (c : Clock) (request : CommandRequest) (e : option DispatchError) : CommandResult :=
  match e with
  | None => for_request (utc_now c) request Rejected (Some "charger commands are disabled on this proxy"%string)
  | Some NotConnected =>
      for_request (utc_now c) request CsNotConnected (Some "no charger with this id is connected to the proxy"%string)
  | Some QueueFull => for_request (utc_now c) request Rejected (Some "the session's command queue is full"%string)
  end.

Definition dispatch_command (c : Clock) p (id : string) (request : CommandRequest) : MqttPublisher T R :=
  match p_router p with
  | None => publish_command_result c p id (undispatched c request None)
  | Some router =>
      let '(router, r) := dispatch router id request in
      let p := set_router p (Some router) in
      match r with
      | Ok () => p
      | Err e => publish_command_result c p id (undispatched c request (Some e))
      end
  end.

Definition handle_incoming_publish (c : Clock) p (topic payload : string) : MqttPublisher T R :=
  match parse_command_topic topic with
  | None => p
  | Some (id, kind) =>
      match parse_command_payload serde_error (utc_now c) kind payload with
      | Err reason => publish_command_result c p id (invalid_payload (utc_now c) reason)
      | Ok request => dispatch_command c p id request
      end
  end.

Definition reapply_request (c : Clock) (limit_a : f64) : CommandRequest :=
  request_new (utc_now c) ("reapply-" +:+ pretty (timestamp_millis (utc_now c))) (SetCurrentLimit limit_a)
    SourceReapply.

Definition maybe_reapply_limit (c : Clock) p (id : string) : MqttPublisher T R :=
  match p_charging p with
  | None => p
  | Some charging =>
      if reapply_on_connect charging then
        match p_snapshots p !! id ≫= standing_limit with
        | None => p
        | Some limit_a => dispatch_command c p id (reapply_request c limit_a)
        end
      else p
  end.

(** The message of a forwarded frame. *)
Definition event_message (id : string) (frame : OcppFrame) (d : Direction) (act : string) : option MqttMessage :=
  let payload_value := match from_str (raw frame) with Ok v => v | Err _ => VString (raw frame) end in
  payload ← result_ok (to_json (MqttPayload_to_value
              (mkPayload (to_rfc3339 (received_at frame)) (message_type_str (message_type frame)) payload_value)));
  Some (mkMessage (message_topic id (direction_str d) act) payload AtLeastOnce false).

Definition status_message (id : string) (upstream downstream : ConnectionState) : option MqttMessage :=
  payload ← result_ok (to_json (StatusPayload_to_value
              (mkStatus (connection_state_str upstream) (connection_state_str downstream))));
  Some (mkMessage (status_topic id) payload AtLeastOnce true).

Definition both_up (l : ConnectionState * ConnectionState) : bool := bool_decide (l = (Connected, Connected)).

Definition handle_event (c : Clock) p (e : MqttEvent) : MqttPublisher T R :=
  match e with
  | EvMessageForwarded id frame d act =>
      match event_message id frame d act with
      | None => p
      | Some m =>
          let p := enqueue p m in
          fold_snapshot p id (λ st, cp_apply (utc_now c) st act (message_type frame) (raw frame))
      end
  | EvStateChange id upstream downstream =>
      match status_message id upstream downstream with
      | None => p
      | Some m =>
          let p := enqueue p m in
          let was_up := match p_links p !! id with Some l => both_up l | None => false end in
          let p := set_links p (<[id := (upstream, downstream)]> (p_links p)) in
          if both_up (upstream, downstream) && negb was_up then maybe_reapply_limit c p id else p
      end
  | EvCommandResult id result => publish_command_result c p id result
  end.

(** ** The event loop *)

(** [None] is a panic of the backoff; the delay is what the error arm sleeps. *)
Definition on_poll_error (c : Clock) p : option (MqttPublisher T R * Z) :=
  let p := if decide (p_state p = Connected) then mqtt_set_state c p Reconnecting else p in
  '(delay, backoff) ← next_delay (p_backoff p);
  Some (set_p_backoff p backoff, delay).

(** [poll] itself, before its result is looked at. *)
Definition after_poll p (e : PollEvent) : MqttPublisher T R :=
  set_queue p (polled e (p_client p)) (p_buffer p).

Definition on_poll (c : Clock) p (e : PollEvent) : option (MqttPublisher T R) :=
  let p := after_poll p e in
  match e with
  | PollConnAck => Some (on_connack c p)
  | PollPublish topic payload => Some (drain_if_connected (handle_incoming_publish c p topic payload))
  | PollOther => Some (if decide (p_state p = Connected) then drain_buffer (try_subscribe p) else p)
  | PollError => fst <$> on_poll_error c p
  end.

(** What [run] waits for; [PubShared] is what others do to the router and the manager. *)
Inductive PubEvent :=
  | PubPoll (e : PollEvent)
  | PubRecv (e : MqttEvent)
  | PubShared (router : CommandRouter R → CommandRouter R)
      (manager : ConnectionStateManager → ConnectionStateManager).

Definition pub_step p (ce : Clock * PubEvent) : option (MqttPublisher T R) :=
  match ce.2 with
  | PubPoll e => on_poll ce.1 p e
  | PubRecv e => Some (handle_event ce.1 p e)
  | PubShared router manager =>
      Some (set_mqtt_state (set_router p (router <$> p_router p)) (p_state p) (manager <$> p_manager p))
  end.

(** [run] up to the closing of the event channel. *)
Fixpoint pub_run p (l : list (Clock * PubEvent)) : option (MqttPublisher T R) :=
  match l with
  | [] => Some p
  | ce :: l => p ← pub_step p ce; pub_run p l
  end.

(** [try_connect]: the polls of its loop, each with the clock at the top of the loop and
    the poll's result, [None] for a timeout. The outer [None] is a loop still running
    (or a panic). *)
Fixpoint connect_loop (deadline : Z) p (l : list (Clock * option PollEvent)) : option (MqttPublisher T R * bool) :=
  match l with
  | [] => None
  | (c, r) :: l =>
      if decide (deadline - instant_now c ≤ 0)%Z then Some (mqtt_set_state c p Reconnecting, false)
      else
        match r with
        | None => Some (mqtt_set_state c p Reconnecting, false)
        | Some e =>
            let p := after_poll p e in
            match e with
            | PollConnAck => Some (on_connack c p, true)
            | PollError => '(_, backoff) ← next_delay (p_backoff p); connect_loop deadline (set_p_backoff p backoff) l
            | _ => connect_loop deadline p l
            end
        end
  end.

Definition try_connect (c : Clock) p (timeout : Z) (l : list (Clock * option PollEvent)) :
    option (MqttPublisher T R * bool) :=
  connect_loop (instant_now c + timeout)%Z (mqtt_set_state c p Connecting) l.
End publisher.

(** ** A client for examples: a bounded channel that every poll makes a place in *)

Record Channel := mkChannel { ch_requests : list Request; ch_free : nat }.

Definition wildcard (topic : string) : bool :=
  negb (bool_decide (no_char "+"%char topic) && bool_decide (no_char "#"%char topic)).

Definition channel_take (c : Channel) (r : Request) : Channel * bool :=
  match ch_free c with
  | O => (c, false)
  | S n => (mkChannel (ch_requests c ++ [r]) n, true)
  end.

#[export] Instance channel_client : MqttClient Channel := {
  client_new _ capacity := mkChannel [] capacity;
  try_publish c m := if wildcard (msg_topic m) then (c, false) else channel_take c (RPublish m);
  try_subscribe_many c l := channel_take c (RSubscribe l);
  polled _ c := mkChannel (ch_requests c) (ch_free c `max` (REQUEST_CHANNEL_CAPACITY `min` S (ch_free c)))
}.

Lemma channel_take_spec c r c' ok :
  channel_take c r = (c', ok) →
  ch_requests c' = ch_requests c ++ (if ok then [r] else []) ∧ ch_free c = ch_free c' + (if ok then 1 else 0).
Proof.
  unfold channel_take. destruct (ch_free c) eqn:E; intros [= <- <-]; simpl; [by rewrite app_nil_r, E|].
  split; [done|lia].
Qed.

#[export] Program Instance channel_laws : MqttClientLaws Channel :=
  { requests := ch_requests; places := ch_free }.
Next Obligation.
  intros c m c' ok. simpl. destruct (wildcard _); [intros [= <- <-]; by rewrite app_nil_r|]. by intros [? _]%channel_take_spec.
Qed.
Next Obligation.
  intros c m c' ok. simpl. destruct (wildcard _); [intros [= <- <-]; lia|]. by intros [_ ?]%channel_take_spec.
Qed.
Next Obligation.
  intros c m H1 H2 Hr. simpl. unfold wildcard. rewrite !bool_decide_eq_true_2 by done. simpl.
  unfold channel_take. by destruct (ch_free c); [lia|].
Qed.
Next Obligation. intros c l c' ok. simpl. by intros [? _]%channel_take_spec. Qed.
Next Obligation. intros c l Hr. simpl. unfold channel_take. by destruct (ch_free c); [lia|]. Qed.
Next Obligation. intros c l c' ok. simpl. by intros [_ ?]%channel_take_spec. Qed.
Next Obligation. done. Qed.
Next Obligation. intros e c. simpl. lia. Qed.

Lemma channel_refuses : refuses_wildcards (T := Channel).
Proof.
  intros c m Hn. simpl. unfold wildcard. destruct (bool_decide (no_char "+"%char (msg_topic m))) eqn:E1; [|done].
  destruct (bool_decide (no_char "#"%char (msg_topic m))) eqn:E2; [|done].
  apply bool_decide_eq_true_1 in E1, E2. by destruct Hn.
Qed.

Lemma channel_drains (c : Channel) : 0 < places (polled PollOther c).
Proof. simpl. unfold REQUEST_CHANNEL_CAPACITY. lia. Qed.
