(* ===== verification/PublisherQueue.v ===== *)
(** * What the publisher publishes, and in which order

    The effect of every event on the queue is that of enqueuing the messages the
    event gives rise to. From that: order and completeness of a run, what a ConnAck
    does, the backlog draining tick by tick, the command subscription, and what a
    topic the client refuses does to the queue. *)

From Stdlib Require Import Ascii.
From S2P Require Import Prelude Float64 Json Text Models StateManager Config Command CallQueue.
From S2P Require Import Forwarder ChargePoint SnapshotStore Publisher.

Local Open Scope nat_scope.

(** The messages among the requests the client has accepted. *)
Definition published {T} `{MqttClientLaws T} (client : T) : list MqttMessage :=
  omap (λ r, match r with RPublish m => Some m | RSubscribe _ => None end) (requests client).

Definition is_subscribe (r : Request) : bool := match r with RSubscribe _ => true | RPublish _ => false end.

(** How many times the client has been asked to subscribe. *)
Definition subscriptions {T} `{MqttClientLaws T} (client : T) : nat :=
  length (retain is_subscribe (requests client)).

Section queue.
Context {T R : Type} `{MqttClientLaws T} `{MpscSender R CommandRequest}.
Context `{SerdeJson} `{Chrono} `{HashOrder} (serde_error : Value → string).
Implicit Types (p : MqttPublisher T R).

(** What the broker has been given and will be given, in order. *)
Definition stream p : list MqttMessage := published (p_client p) ++ p_buffer p.

(** ** Draining *)

Definition topic_ok (m : MqttMessage) : Prop := no_char "+"%char (msg_topic m) ∧ no_char "#"%char (msg_topic m).

Lemma drain_loop_spec client l :
  let '(client', waiting, n) := drain_loop client l in
  ∃ sent, l = sent ++ waiting ∧ length sent = n ∧ requests client' = requests client ++ (RPublish <$> sent) ∧
          places client = places client' + n ∧
          (Forall topic_ok l → waiting = [] ∨ places client' = 0).
Proof.
  revert client. induction l as [|m l IH]; intros client; simpl.
  { exists []. simpl. rewrite app_nil_r. split_and!; auto with lia. }
  destruct (try_publish client m) as [c ok] eqn:E.
  pose proof (try_publish_requests _ _ _ _ E) as Hr. pose proof (try_publish_places _ _ _ _ E) as Hp.
  destruct ok.
  - specialize (IH c). destruct (drain_loop c l) as [[c' waiting] n].
    destruct IH as (sent & -> & <- & Hr' & Hp' & Hw). exists (m :: sent). split_and!; try done.
    + rewrite Hr', Hr, <- app_assoc. done.
    + simpl. lia.
    + intros Hall. apply Forall_cons in Hall as [_ Hall]. by apply Hw.
  - exists []. simpl in *. split_and!; try done.
    intros Hall. apply Forall_cons in Hall as [[Hplus Hhash] _]. right.
    assert (¬ 0 < places client) as Hn.
    { intros Hroom. pose proof (try_publish_room client m Hplus Hhash Hroom) as Ht. by rewrite E in Ht. }
    lia.
Qed.

Lemma published_app client client' sent :
  requests client' = requests client ++ (RPublish <$> sent) →
  published client' = published client ++ sent ∧ subscriptions client' = subscriptions client.
Proof.
  intros E. unfold published, subscriptions. rewrite E, omap_app. clear E. split.
  - f_equal. induction sent as [|m sent IH]; [done|]. simpl. by f_equal.
  - unfold retain. rewrite List.filter_app, length_app.
    assert (List.filter is_subscribe (RPublish <$> sent) = []) as -> by (by induction sent). simpl. apply Nat.add_0_r.
Qed.

Lemma drain_buffer_spec p :
  let p' := drain_buffer p in
  ∃ sent, p_buffer p = sent ++ p_buffer p' ∧
          requests (p_client p') = requests (p_client p) ++ (RPublish <$> sent) ∧
          places (p_client p) = places (p_client p') + length sent ∧
          (Forall topic_ok (p_buffer p) → p_buffer p' = [] ∨ places (p_client p') = 0).
Proof.
  unfold drain_buffer. pose proof (drain_loop_spec (p_client p) (p_buffer p)) as Hd.
  destruct (drain_loop _ _) as [[c w] n]. destruct Hd as (sent & E & <- & Hr & Hp & Hw). by exists sent.
Qed.

(** From [p] to [p'] the client has accepted publishes only, and they with what waits are
    what waited before and [l], in order. *)
Definition grow p p' (l : list MqttMessage) : Prop :=
  ∃ sent, requests (p_client p') = requests (p_client p) ++ (RPublish <$> sent) ∧
          sent ++ p_buffer p' = p_buffer p ++ l.

Lemma grow_refl p : grow p p [].
Proof. exists []. by rewrite !app_nil_r. Qed.

Lemma grow_trans p q r l1 l2 : grow p q l1 → grow q r l2 → grow p r (l1 ++ l2).
Proof.
  intros (s1 & Hr1 & Hb1) (s2 & Hr2 & Hb2). exists (s1 ++ s2).
  rewrite Hr2, Hr1, fmap_app, <- !app_assoc, Hb2, (app_assoc s1), Hb1, <- app_assoc. done.
Qed.

Lemma grow_published p p' l :
  grow p p' l → stream p' = stream p ++ l ∧ subscriptions (p_client p') = subscriptions (p_client p).
Proof.
  intros (sent & [Hp Hs]%published_app & Hb). split; [|done].
  unfold stream. by rewrite Hp, <- !app_assoc, Hb.
Qed.

Lemma drain_grow p : grow p (drain_buffer p) [].
Proof. destruct (drain_buffer_spec p) as (sent & E & Hr & _). exists sent. by rewrite app_nil_r. Qed.

Lemma drain_stream p :
  stream (drain_buffer p) = stream p ∧ length (p_buffer (drain_buffer p)) ≤ length (p_buffer p).
Proof.
  rewrite (proj1 (grow_published _ _ _ (drain_grow p))), app_nil_r. split; [done|].
  destruct (drain_buffer_spec p) as (sent & E & _). apply (f_equal length) in E. rewrite length_app in E. lia.
Qed.

Lemma drain_if_connected_grow p : grow p (drain_if_connected p) [].
Proof. unfold drain_if_connected. case_decide; [apply drain_grow|apply grow_refl]. Qed.

Lemma drain_if_connected_stream p :
  stream (drain_if_connected p) = stream p ∧ length (p_buffer (drain_if_connected p)) ≤ length (p_buffer p).
Proof. unfold drain_if_connected. case_decide; [apply drain_stream|done]. Qed.

(** ** What leaves a full buffer *)

(** What left the buffer, oldest first: handed to the client, or evicted. *)
Definition taken (out : list (bool * MqttMessage)) : list MqttMessage := omap (λ o : bool * MqttMessage, if o.1 then Some o.2 else None) out.
Definition evicted (out : list (bool * MqttMessage)) : list MqttMessage := omap (λ o : bool * MqttMessage, if o.1 then None else Some o.2) out.

Lemma evicted_length out : length (evicted out) ≤ length out.
Proof. unfold evicted. induction out as [|[[] m] out IH]; csimpl; lia. Qed.

(** From [p] to [p'] the messages [l] joined the end of the buffer and [out] left from its
    front; the client ([record] tells what it has accepted) was given those it took, in
    order, and none was evicted beyond what there was no room for. *)
Definition shifts {A} (record : T → list A) (entry : MqttMessage → A) p p' (l : list MqttMessage) : Prop :=
  ∃ out, out.*2 ++ p_buffer p' = p_buffer p ++ l ∧
         record (p_client p') = record (p_client p) ++ (entry <$> taken out) ∧
         length (evicted out) ≤ length (p_buffer p) + length l - p_max_buffer_size p `max` 1 ∧
         p_max_buffer_size p' = p_max_buffer_size p.

Lemma shifts_same {A} (record : T → list A) entry p p' :
  p_buffer p' = p_buffer p → record (p_client p') = record (p_client p) → p_max_buffer_size p' = p_max_buffer_size p →
  shifts record entry p p' [].
Proof. intros Eb Er Em. exists []. simpl. rewrite Eb, Er, !app_nil_r. split_and!; [done..|lia|done]. Qed.

Lemma shifts_trans {A} (record : T → list A) entry p q r l1 l2 :
  shifts record entry p q l1 → shifts record entry q r l2 → shifts record entry p r (l1 ++ l2).
Proof.
  intros (o1 & Eb1 & Er1 & He1 & Em1) (o2 & Eb2 & Er2 & He2 & Em2). exists (o1 ++ o2).
  unfold taken, evicted in *. rewrite Er2, Er1, Em2, !omap_app, !fmap_app, <- !app_assoc, Eb2, (app_assoc _ (p_buffer q)), Eb1, <- app_assoc.
  split_and!; [done..| |done]. rewrite Em1 in *. apply (f_equal length) in Eb1. rewrite !length_app, length_fmap in *.
  pose proof (evicted_length o1) as Hle. unfold evicted in Hle. lia.
Qed.

Lemma shifts_from {A} (record : T → list A) entry p p0 p' l :
  p_buffer p0 = p_buffer p → record (p_client p0) = record (p_client p) → p_max_buffer_size p0 = p_max_buffer_size p →
  shifts record entry p0 p' l → shifts record entry p p' l.
Proof. intros Eb Er Em Hs. by eapply (shifts_trans record entry p p0 p' []); [apply shifts_same|]. Qed.

Lemma shifts_then {A} (record : T → list A) entry p q p' l :
  shifts record entry p q l → shifts record entry q p' [] → shifts record entry p p' l.
Proof. intros Hpq Hqr. rewrite <- (app_nil_r l). by eapply shifts_trans. Qed.

(** With room for everything nothing is evicted. *)
Lemma taken_all out : length (evicted out) = 0 → taken out = out.*2.
Proof.
  unfold taken, evicted. induction out as [|[[] m] out IH]; csimpl; [done|intros E; by rewrite IH|done].
Qed.

Lemma shifts_published p p' l :
  shifts (λ c, requests c) RPublish p p' l → shifts published id p p' l.
Proof.
  intros (out & Eb & [Er _]%published_app & He). exists out. by rewrite list_fmap_id.
Qed.

Lemma taken_sent (sent : list MqttMessage) : taken (pair true <$> sent) = sent ∧ evicted (pair true <$> sent) = [] ∧ (pair true <$> sent).*2 = sent.
Proof.
  unfold taken, evicted. induction sent as [|m sent (IH1 & IH2 & IH3)]; [done|]. csimpl. split_and!; [by rewrite IH1|done|by rewrite IH3].
Qed.

Lemma drain_shifts p : shifts (λ c, requests c) RPublish p (drain_buffer p) [].
Proof.
  destruct (drain_buffer_spec p) as (sent & E & Hr & _). exists (pair true <$> sent).
  destruct (taken_sent sent) as (-> & -> & ->). rewrite app_nil_r. split_and!; [done|done|simpl; lia|].
  unfold drain_buffer. by destruct (drain_loop _ _) as [[c w] n].
Qed.

Lemma drain_if_connected_shifts p : shifts (λ c, requests c) RPublish p (drain_if_connected p) [].
Proof. unfold drain_if_connected. case_decide; [apply drain_shifts|by apply shifts_same]. Qed.

Lemma buffer_message_shifts p m : shifts (λ c, requests c) RPublish p (buffer_message p m) [m].
Proof.
  unfold buffer_message. unfold push_bounded, push_evict. simpl. case_decide as Hfull.
  - destruct (p_buffer p) as [|x b] eqn:Eb.
    + exists []. simpl. rewrite Eb, app_nil_r. split_and!; [done|done|simpl; lia|done].
    + exists [(false, x)]. simpl. rewrite Eb, app_nil_r. split_and!; [done|done| |done]. simpl in *. lia.
  - exists []. simpl. rewrite app_nil_r. split_and!; [done|done|simpl; lia|done].
Qed.

Lemma enqueue_shifts p m : shifts (λ c, requests c) RPublish p (enqueue p m) [m].
Proof. eapply shifts_then; [apply buffer_message_shifts|apply drain_if_connected_shifts]. Qed.

(** ** The queue of a publisher, and the rest of it *)

Definition queue_of p := (p_client p, p_buffer p, p_flush p, p_state p, p_max_buffer_size p,
                          p_subscribe_pending p).
Definition data_of p := (p_snapshots p, p_store p, p_disk p, p_router p, p_charging p, p_links p,
                         p_manager p, p_backoff p, p_lwt p).

Lemma drain_buffer_data p :
  data_of (drain_buffer p) = data_of p ∧ p_state (drain_buffer p) = p_state p ∧
  p_max_buffer_size (drain_buffer p) = p_max_buffer_size p ∧
  p_subscribe_pending (drain_buffer p) = p_subscribe_pending p.
Proof. unfold drain_buffer. by destruct (drain_loop _ _) as [[c w] n]. Qed.

Lemma enqueue_data p m :
  data_of (enqueue p m) = data_of p ∧ p_state (enqueue p m) = p_state p ∧
  p_max_buffer_size (enqueue p m) = p_max_buffer_size p ∧
  p_subscribe_pending (enqueue p m) = p_subscribe_pending p.
Proof. unfold enqueue, drain_if_connected. case_decide; [exact (drain_buffer_data (buffer_message p m))|done]. Qed.

Lemma enqueue_queue_congr p q m : queue_of p = queue_of q → queue_of (enqueue p m) = queue_of (enqueue q m).
Proof.
  unfold queue_of. intros [= Ec Eb Ef Es Em Ep]. unfold enqueue, drain_if_connected. simpl. rewrite Es.
  case_decide; unfold drain_buffer; simpl; rewrite Ec, Eb, Em; [|by rewrite Ef, Es, Ep].
  destruct (drain_loop _ _) as [[c w] n]. simpl. by rewrite Ef, Es, Em, Ep.
Qed.

(** Enqueuing a list of messages. *)
Definition enqueue_all p (l : list MqttMessage) : MqttPublisher T R := foldl enqueue p l.

Lemma enqueue_all_congr p q l : queue_of p = queue_of q → queue_of (enqueue_all p l) = queue_of (enqueue_all q l).
Proof. revert p q. induction l as [|m l IH]; intros p q E; simpl; [done|]. by apply IH, enqueue_queue_congr. Qed.

Lemma enqueue_all_app p l1 l2 : enqueue_all p (l1 ++ l2) = enqueue_all (enqueue_all p l1) l2.
Proof. apply foldl_app. Qed.

Lemma enqueue_opt_all p o : enqueue_opt p o = enqueue_all p (option_list o).
Proof. by destruct o. Qed.

Lemma enqueue_all_data p l :
  data_of (enqueue_all p l) = data_of p ∧ p_state (enqueue_all p l) = p_state p ∧
  p_max_buffer_size (enqueue_all p l) = p_max_buffer_size p ∧
  p_subscribe_pending (enqueue_all p l) = p_subscribe_pending p.
Proof.
  revert p. induction l as [|m l IH]; intros p; simpl; [done|].
  destruct (enqueue_data p m) as (E1 & E2 & E3 & E4). destruct (IH (enqueue p m)) as (F1 & F2 & F3 & F4).
  by rewrite F1, F2, F3, F4.
Qed.

Lemma enqueue_all_shifts p l : shifts (λ c, requests c) RPublish p (enqueue_all p l) l.
Proof.
  revert p. induction l as [|m l IH]; intros p; [by apply shifts_same|].
  eapply (shifts_trans _ _ p (enqueue p m) _ [m] l); [apply enqueue_shifts|apply IH].
Qed.

Lemma enqueue_grow p m :
  length (p_buffer p) < p_max_buffer_size p →
  grow p (enqueue p m) [m] ∧ length (p_buffer (enqueue p m)) ≤ S (length (p_buffer p)).
Proof.
  intros Hroom. unfold enqueue. destruct (drain_if_connected_stream (buffer_message p m)) as [_ Hl].
  destruct (drain_if_connected_grow (buffer_message p m)) as (sent & Hr & Hb).
  unfold buffer_message in *. simpl in *. rewrite push_short in * by done.
  rewrite length_app in Hl. simpl in Hl. rewrite app_nil_r in Hb. split; [by exists sent|lia].
Qed.

Lemma enqueue_all_grow p l :
  length (p_buffer p) + length l ≤ p_max_buffer_size p →
  grow p (enqueue_all p l) l ∧ length (p_buffer (enqueue_all p l)) ≤ length (p_buffer p) + length l.
Proof.
  revert p. induction l as [|m l IH]; intros p Hroom; simpl in *; [split; [apply grow_refl|lia]|].
  destruct (enqueue_grow p m) as [Es Hl]; [lia|]. destruct (enqueue_data p m) as (_ & _ & Em & _).
  destruct (IH (enqueue p m)) as [Hg Hl']; [rewrite Em; lia|].
  split; [exact (grow_trans _ _ _ _ _ Es Hg)|lia].
Qed.

Lemma enqueue_all_stream p l :
  length (p_buffer p) + length l ≤ p_max_buffer_size p →
  stream (enqueue_all p l) = stream p ++ l ∧ length (p_buffer (enqueue_all p l)) ≤ length (p_buffer p) + length l.
Proof. intros [Hg Hl]%enqueue_all_grow. by apply grow_published in Hg as [Hg _]. Qed.

Lemma enqueue_all_offline p l :
  p_state p ≠ Connected → length (p_buffer p) ≤ p_max_buffer_size p `max` 1 →
  p_client (enqueue_all p l) = p_client p ∧
  p_buffer (enqueue_all p l) =
    drop (length (p_buffer p ++ l) - p_max_buffer_size p `max` 1) (p_buffer p ++ l).
Proof.
  intros Hs Hl. rewrite <- push_all_drop by done. clear Hl. revert p Hs.
  induction l as [|m l IH]; intros p Hs; simpl; [done|].
  assert (enqueue p m = buffer_message p m) as E by (unfold enqueue, drain_if_connected; by rewrite decide_False).
  rewrite E. exact (IH (buffer_message p m) Hs).
Qed.

Lemma enqueue_all_max p l : p_max_buffer_size (enqueue_all p l) = p_max_buffer_size p.
Proof. apply enqueue_all_data. Qed.

Lemma drain_buffer_max p : p_max_buffer_size (drain_buffer p) = p_max_buffer_size p.
Proof. apply drain_buffer_data. Qed.

Lemma drain_if_connected_max p : p_max_buffer_size (drain_if_connected p) = p_max_buffer_size p.
Proof. unfold drain_if_connected. case_decide; [apply drain_buffer_max|done]. Qed.

(** ** What each event publishes *)

Definition snapshot_emits p (id : string) (f : ChargePointState → ChargePointState * bool) : list MqttMessage :=
  let '(st, changed) := f (default cp_default (p_snapshots p !! id)) in
  if changed : bool then option_list (state_message id st) else [].

Definition result_emits (c : Clock) p (id : string) (result : CommandResult) : list MqttMessage :=
  option_list (result_message id result) ++
  snapshot_emits p id (λ st, apply_command_result (utc_now c) st result).

Definition dispatch_emits (c : Clock) p (id : string) (request : CommandRequest) : list MqttMessage :=
  match p_router p with
  | None => result_emits c p id (undispatched c request None)
  | Some router =>
      match (dispatch router id request).2 with
      | Ok _ => []
      | Err e => result_emits c p id (undispatched c request (Some e))
      end
  end.

Definition incoming_emits (c : Clock) p (topic payload : string) : list MqttMessage :=
  match parse_command_topic topic with
  | None => []
  | Some (id, kind) =>
      match parse_command_payload serde_error (utc_now c) kind payload with
      | Err reason => result_emits c p id (invalid_payload (utc_now c) reason)
      | Ok request => dispatch_emits c p id request
      end
  end.

(** The limit a link coming up sends again. *)
Definition to_reapply p (id : string) (links : ConnectionState * ConnectionState) : option f64 :=
  charging ← p_charging p;
  if both_up links && negb (match p_links p !! id with Some l => both_up l | None => false end)
     && reapply_on_connect charging
  then p_snapshots p !! id ≫= standing_limit else None.

Definition event_emits (c : Clock) p (e : MqttEvent) : list MqttMessage :=
  match e with
  | EvMessageForwarded id frame d act =>
      match event_message id frame d act with
      | None => []
      | Some m => m :: snapshot_emits p id (λ st, cp_apply (utc_now c) st act (message_type frame) (raw frame))
      end
  | EvStateChange id upstream downstream =>
      match status_message id upstream downstream with
      | None => []
      | Some m =>
          m :: match to_reapply p id (upstream, downstream) with
               | None => []
               | Some limit_a => dispatch_emits c p id (reapply_request c limit_a)
               end
      end
  | EvCommandResult id result => result_emits c p id result
  end.

Lemma fold_snapshot_queue p id f :
  queue_of (fold_snapshot p id f) = queue_of (enqueue_all p (snapshot_emits p id f)).
Proof.
  unfold fold_snapshot, snapshot_emits. destruct (f _) as [st []]; [|done].
  unfold publish_charge_point_state. rewrite enqueue_opt_all. by apply enqueue_all_congr.
Qed.

Lemma snapshot_emits_data p q id f : data_of p = data_of q → snapshot_emits p id f = snapshot_emits q id f.
Proof. unfold data_of, snapshot_emits. by intros [= ->]. Qed.

Lemma publish_result_queue c p id result :
  queue_of (publish_command_result c p id result) = queue_of (enqueue_all p (result_emits c p id result)).
Proof.
  unfold publish_command_result, result_emits. rewrite fold_snapshot_queue, enqueue_all_app, enqueue_opt_all.
  erewrite (snapshot_emits_data (enqueue_all p _)); [done|apply enqueue_all_data].
Qed.

Lemma result_emits_data c p q id result : data_of p = data_of q → result_emits c p id result = result_emits c q id result.
Proof. intros E. unfold result_emits. by rewrite (snapshot_emits_data p q). Qed.

Lemma dispatch_queue c p id request :
  queue_of (dispatch_command c p id request) = queue_of (enqueue_all p (dispatch_emits c p id request)).
Proof.
  unfold dispatch_command, dispatch_emits. destruct (p_router p) as [router|]; [|apply publish_result_queue].
  destruct (dispatch router id request) as [router' [[]|e]]; simpl; [done|].
  rewrite publish_result_queue. by apply enqueue_all_congr.
Qed.

Lemma dispatch_emits_data c p q id request :
  data_of p = data_of q → dispatch_emits c p id request = dispatch_emits c q id request.
Proof.
  intros E. unfold dispatch_emits. assert (p_router p = p_router q) as -> by (unfold data_of in E; congruence).
  destruct (p_router q) as [router|]; [destruct (dispatch router id request) as [? []]; [done|]|];
    simpl; by rewrite (result_emits_data c p q).
Qed.

Lemma handle_event_queue c p e :
  queue_of (handle_event c p e) = queue_of (enqueue_all p (event_emits c p e)).
Proof.
  destruct e as [id frame d act|id up down|id result]; simpl; [| |apply publish_result_queue].
  - destruct (event_message id frame d act) as [m|]; [|done].
    rewrite fold_snapshot_queue. simpl. by erewrite snapshot_emits_data by apply enqueue_data.
  - destruct (status_message id up down) as [m|]; [|done]. simpl.
    destruct (enqueue_data p m) as (Ed & _). pose proof Ed as Ed'. unfold data_of in Ed'. injection Ed' as Es _ _ _ Ec El _ _ _.
    rewrite El. unfold to_reapply.
    set (q := set_links (enqueue p m) _).
    assert (queue_of q = queue_of (enqueue p m)) as Eq by done.
    unfold maybe_reapply_limit. change (p_charging q) with (p_charging (enqueue p m)).
    change (p_snapshots q) with (p_snapshots (enqueue p m)). rewrite Ec, Es.
    destruct (both_up (up, down)), (match p_links p !! id with Some l => both_up l | None => false end);
      destruct (p_charging p) as [ch|]; simpl; try done.
    destruct (reapply_on_connect ch); [|done]. destruct (p_snapshots p !! id ≫= standing_limit) as [a|]; [|done].
    rewrite dispatch_queue. erewrite (enqueue_all_congr q (enqueue p m)) by done. f_equal. f_equal.
    unfold dispatch_emits, result_emits, snapshot_emits.
    change (p_router q) with (p_router (enqueue p m)). change (p_snapshots q) with (p_snapshots (enqueue p m)).
    injection Ed as -> _ _ -> _ _ _ _ _. done.
Qed.

Lemma incoming_queue c p topic payload :
  queue_of (handle_incoming_publish serde_error c p topic payload) =
  queue_of (enqueue_all p (incoming_emits c p topic payload)).
Proof.
  unfold handle_incoming_publish, incoming_emits. destruct (parse_command_topic topic) as [[id kind]|]; [|done].
  destruct (parse_command_payload _ _ _ _); [apply dispatch_queue|apply publish_result_queue].
Qed.

(** ** Runs *)

(** What an event other than a ConnAck gives rise to. *)
Definition step_emits p (ce : Clock * PubEvent (R := R)) : list MqttMessage :=
  match ce.2 with
  | PubPoll (PollPublish topic payload) => incoming_emits ce.1 p topic payload
  | PubRecv e => event_emits ce.1 p e
  | _ => []
  end.

Fixpoint run_emits p (l : list (Clock * PubEvent (R := R))) : list MqttMessage :=
  match l with
  | [] => []
  | ce :: l => step_emits p ce ++ match pub_step serde_error p ce with Some p' => run_emits p' l | None => [] end
  end.

Definition not_connack (ce : Clock * PubEvent (R := R)) : Prop := ce.2 ≠ PubPoll PollConnAck.

Lemma queue_of_inv p q :
  queue_of p = queue_of q →
  stream p = stream q ∧ p_client p = p_client q ∧ p_buffer p = p_buffer q ∧ p_state p = p_state q ∧
  p_max_buffer_size p = p_max_buffer_size q ∧ p_subscribe_pending p = p_subscribe_pending q.
Proof. unfold queue_of, stream. by intros [= -> -> _ -> -> ->]. Qed.

Lemma after_poll_published p e : published (p_client (after_poll p e)) = published (p_client p).
Proof. unfold published. simpl. by rewrite polled_requests. Qed.

Lemma after_poll_stream p e : stream (after_poll p e) = stream p.
Proof. unfold stream. by rewrite after_poll_published. Qed.

Lemma after_poll_emits c p e topic payload :
  incoming_emits c (after_poll p e) topic payload = incoming_emits c p topic payload.
Proof. done. Qed.

Lemma try_subscribe_spec p :
  let p' := try_subscribe p in
  data_of p' = data_of p ∧ p_buffer p' = p_buffer p ∧ p_flush p' = p_flush p ∧ p_state p' = p_state p ∧
  p_max_buffer_size p' = p_max_buffer_size p ∧ published (p_client p') = published (p_client p) ∧
  requests (p_client p') = requests (p_client p) ++
    (if p_subscribe_pending p && negb (p_subscribe_pending p')
     then [RSubscribe ((λ f, (f, AtLeastOnce)) <$> COMMAND_SUBSCRIPTIONS)] else []) ∧
  places (p_client p) = places (p_client p') + (if p_subscribe_pending p && negb (p_subscribe_pending p') then 1 else 0) ∧
  (p_subscribe_pending p' = true → p_subscribe_pending p = true ∧ places (p_client p') = 0).
Proof.
  unfold try_subscribe. destruct (p_subscribe_pending p) eqn:Ep.
  2:{ simpl. rewrite app_nil_r, Nat.add_0_r, Ep. by split_and!. }
  set (l := _ <$> _). destruct (try_subscribe_many (p_client p) l) as [client ok] eqn:E.
  pose proof (try_subscribe_requests _ _ _ _ E) as Hr. pose proof (try_subscribe_places _ _ _ _ E) as Hp.
  simpl. split_and!; try done.
  - unfold published. rewrite Hr, omap_app. destruct ok; simpl; by rewrite app_nil_r.
  - by destruct ok.
  - by destruct ok.
  - intros Hok. split; [done|]. destruct ok; [done|]. assert (¬ 0 < places (p_client p)) as Hn.
    { intros Hroom. pose proof (try_subscribe_room (p_client p) l Hroom) as Ht. by rewrite E in Ht. }
    simpl in *. lia.
Qed.

(** One event: its messages join the end of the stream, if there is room for them. *)
Lemma step_stream p ce p' :
  not_connack ce → pub_step serde_error p ce = Some p' →
  length (p_buffer p) + length (step_emits p ce) ≤ p_max_buffer_size p →
  stream p' = stream p ++ step_emits p ce ∧
  length (p_buffer p') ≤ length (p_buffer p) + length (step_emits p ce) ∧
  p_max_buffer_size p' = p_max_buffer_size p.
Proof.
  intros Hna Hs Hroom. destruct ce as [c e]. unfold pub_step, step_emits in *. simpl in *.
  destruct e as [[|topic payload| |]|e|router manager]; simpl in *.
  - by destruct Hna.
  - injection Hs as <-. set (q := after_poll p _) in *.
    destruct (drain_if_connected_stream (handle_incoming_publish serde_error c q topic payload)) as [-> Hl].
    destruct (queue_of_inv _ _ (incoming_queue c q topic payload)) as (Es & _ & Eb & _ & Em & _).
    destruct (enqueue_all_stream q (incoming_emits c q topic payload) Hroom) as [Hst Hlen].
    rewrite Es, Hst. unfold q at 1. rewrite after_poll_stream. split; [done|]. split.
    + rewrite Eb in Hl. exact (Nat.le_trans _ _ _ Hl Hlen).
    + by rewrite drain_if_connected_max, Em, enqueue_all_max.
  - injection Hs as <-. rewrite app_nil_r. simpl. rewrite Nat.add_0_r.
    case_decide as Hc; [|by rewrite after_poll_stream].
    destruct (try_subscribe_spec (after_poll p PollOther)) as (_ & Eb & _ & _ & Em & Ep & _).
    destruct (drain_stream (try_subscribe (after_poll p PollOther))) as [-> Hl].
    rewrite drain_buffer_max. unfold stream. rewrite Ep, Eb in *.
    rewrite after_poll_published. done.
  - rewrite app_nil_r, Nat.add_0_r in *. unfold on_poll_error in Hs.
    destruct (next_delay _) as [[d b]|]; simplify_eq/=. unfold stream. simpl.
    case_decide; simpl; unfold published; by rewrite polled_requests.
  - injection Hs as <-. destruct (queue_of_inv _ _ (handle_event_queue c p e)) as (Es & _ & Eb & _ & Em & _).
    destruct (enqueue_all_stream p (event_emits c p e) Hroom) as [Hst Hlen].
    by rewrite Es, Eb, Em, enqueue_all_max.
  - injection Hs as <-. rewrite app_nil_r, Nat.add_0_r. done.
Qed.

Lemma queue_shifts p q l :
  queue_of p = queue_of (enqueue_all q l) → shifts published id q p l.
Proof.
  intros (_ & Ec & Eb & _ & Em & _)%queue_of_inv. destruct (shifts_published _ _ _ (enqueue_all_shifts q l)) as (out & B1 & B2 & B3 & B4).
  exists out. by rewrite Eb, Ec, Em.
Qed.

Lemma step_shifts p ce p' :
  not_connack ce → pub_step serde_error p ce = Some p' → shifts published id p p' (step_emits p ce).
Proof.
  intros Hna Hs. destruct ce as [c e]. unfold pub_step, step_emits in *. simpl in *.
  destruct e as [[|topic payload| |]|e|router manager]; simpl in *.
  - by destruct Hna.
  - injection Hs as <-. apply (shifts_from _ _ p (after_poll p (PollPublish topic payload))); [done|apply after_poll_published|done|].
    eapply shifts_then; [exact (queue_shifts _ _ _ (incoming_queue c (after_poll p (PollPublish topic payload)) topic payload))|]. apply shifts_published, drain_if_connected_shifts.
  - injection Hs as <-. case_decide as Hc; [|apply shifts_same; [done|apply after_poll_published|done]].
    destruct (try_subscribe_spec (after_poll p PollOther)) as (_ & Eb & _ & _ & Em & Ep & _).
    apply (shifts_from _ _ p (try_subscribe (after_poll p PollOther)));
      [done|by rewrite Ep, after_poll_published|done|]. apply shifts_published, drain_shifts.
  - unfold on_poll_error in Hs. destruct (next_delay _) as [[d b]|]; simplify_eq/=.
    apply shifts_same; case_decide; simpl; try done; unfold published; by rewrite polled_requests.
  - injection Hs as <-. apply queue_shifts, handle_event_queue.
  - injection Hs as <-. by apply shifts_same.
Qed.

(** C22. Between two connections of the broker nothing is duplicated or reordered, and
    nothing is lost but by eviction, whatever the client accepts when. The messages that
    waited, followed by those the run gives rise to, are in that order what left the
    buffer, followed by what still waits; what left was accepted by the client, in order,
    or evicted, the oldest first and only for want of room: no more are evicted than the
    messages exceed the buffer's size, so none is when there is room for them all. *)
Theorem queued_in_order p l p' :
  Forall not_connack l → pub_run serde_error p l = Some p' →
  ∃ out, p_buffer p ++ run_emits p l = out.*2 ++ p_buffer p' ∧
    published (p_client p') = published (p_client p) ++ taken out ∧
    length (evicted out) ≤ length (p_buffer p) + length (run_emits p l) - p_max_buffer_size p `max` 1 ∧
    (length (p_buffer p) + length (run_emits p l) ≤ p_max_buffer_size p →
     published (p_client p') ++ p_buffer p' = published (p_client p) ++ p_buffer p ++ run_emits p l).
Proof.
  intros Hl Hr. assert (shifts published id p p' (run_emits p l)) as (out & Eb & Er & He & _).
  { revert p Hr. induction Hl as [|ce l Hce _ IH]; intros p Hr; simpl in *; [injection Hr as <-; by apply shifts_same|].
    destruct (pub_step serde_error p ce) as [q|] eqn:Hs; [|done].
    eapply shifts_trans; [by apply step_shifts|by apply IH]. }
  rewrite list_fmap_id in Er. exists out. split_and!; [done..|]. intros Hroom.
  rewrite Er, taken_all by lia. by rewrite <- app_assoc, Eb.
Qed.

(** ** A ConnAck *)

(** The retained snapshots a ConnAck publishes again. *)
Definition snapshot_messages p : list MqttMessage :=
  omap (λ '(id, st), state_message id st) (hash_iter (p_snapshots p)).

Lemma republish_all p : republish_snapshots p = enqueue_all p (snapshot_messages p).
Proof.
  unfold republish_snapshots, snapshot_messages. generalize (hash_iter (p_snapshots p)). intros l. revert p.
  induction l as [|[id st] l IH]; intros p; simpl; [done|]. rewrite IH. unfold publish_charge_point_state.
  destruct (state_message id st) as [m|]; done.
Qed.

Lemma snapshot_messages_length p : length (snapshot_messages p) ≤ size (p_snapshots p).
Proof.
  unfold snapshot_messages. rewrite <- length_map_to_list, <- (Permutation_length (hash_iter_perm (p_snapshots p))).
  generalize (hash_iter (p_snapshots p)). intros l.
  induction l as [|[id st] l IH]; csimpl; [lia|]. destruct (state_message id st); csimpl; lia.
Qed.

Lemma flush_grow p : grow p (mqtt_flush_buffer p) [].
Proof.
  unfold mqtt_flush_buffer. case_decide; [apply grow_refl|].
  destruct (drain_grow (set_flush p (Some 0))) as (sent & Hr & Hb). by exists sent.
Qed.

Lemma flush_shifts p : shifts (λ c, requests c) RPublish p (mqtt_flush_buffer p) [].
Proof.
  unfold mqtt_flush_buffer. case_decide; [by apply shifts_same|].
  apply (shifts_from _ _ p (set_flush p (Some 0))); [done..|]. apply drain_shifts.
Qed.

Lemma flush_rest p :
  let p' := mqtt_flush_buffer p in
  data_of p' = data_of p ∧ p_state p' = p_state p ∧ p_max_buffer_size p' = p_max_buffer_size p ∧
  length (p_buffer p') ≤ length (p_buffer p).
Proof.
  unfold mqtt_flush_buffer. case_decide; [done|].
  destruct (drain_buffer_data (set_flush p (Some 0))) as (-> & -> & -> & _). split_and!; try done.
  apply (drain_stream (set_flush p (Some 0))).
Qed.

Definition subscription : Request := RSubscribe ((λ f, (f, AtLeastOnce)) <$> COMMAND_SUBSCRIPTIONS).

(** A ConnAck before its subscription. *)
Definition greeted (c : Clock) p : MqttPublisher T R :=
  let p := mqtt_set_state c p Connected in
  let p := set_p_backoff p (backoff_reset (p_backoff p)) in
  republish_snapshots (mqtt_flush_buffer (publish_online p)).

Lemma on_connack_greeted c p :
  on_connack c p =
  try_subscribe (set_subscribe (greeted c p) (p_client (greeted c p)) (bool_decide (is_Some (p_router (greeted c p))))).
Proof. done. Qed.

Lemma publish_online_spec p id :
  p_lwt p = Some id →
  let q := set_queue p (p_client p) (online_message id :: p_buffer p) in
  shifts (λ c, requests c) RPublish q (publish_online p) [] ∧
  data_of (publish_online p) = data_of p ∧ p_state (publish_online p) = p_state p ∧
  p_max_buffer_size (publish_online p) = p_max_buffer_size p.
Proof.
  intros Hid q. unfold publish_online. rewrite Hid. fold q.
  destruct (drain_buffer_data q) as (-> & -> & -> & _). split_and!; try done.
  apply drain_shifts.
Qed.

Lemma greeted_spec c p id :
  p_lwt p = Some id →
  shifts (λ c, requests c) RPublish (set_queue p (p_client p) (online_message id :: p_buffer p)) (greeted c p) (snapshot_messages p) ∧
  p_state (greeted c p) = Connected ∧ p_backoff (greeted c p) = backoff_reset (p_backoff p) ∧
  p_router (greeted c p) = p_router p ∧
  p_manager (greeted c p) = (λ m, transition (utc_now c) m Mqtt Connected) <$> p_manager p.
Proof.
  intros Hid. unfold greeted. set (p1 := set_p_backoff _ _).
  destruct (publish_online_spec p1 id Hid) as (Hg1 & Hd1 & Hs1 & Hm1). fold p1 in Hg1.
  set (p2 := publish_online p1) in *. destruct (flush_rest p2) as (Hd2 & Hs2 & Hm2 & _).
  pose proof (flush_shifts p2) as Hg2. set (p3 := mqtt_flush_buffer p2) in *. rewrite republish_all.
  assert (snapshot_messages p3 = snapshot_messages p) as Esn.
  { unfold snapshot_messages. assert (p_snapshots p3 = p_snapshots p) as -> by (unfold data_of in *; simpl in *; congruence). done. }
  rewrite Esn. pose proof (enqueue_all_shifts p3 (snapshot_messages p)) as Hg3.
  destruct (enqueue_all_data p3 (snapshot_messages p)) as (Hd4 & -> & _).
  rewrite Hd2, Hd1 in Hd4. unfold data_of in Hd4. simpl in Hd4. injection Hd4 as _ _ _ -> _ _ -> -> _.
  split_and!; [|by rewrite Hs2, Hs1|done..].
  exact (shifts_trans _ _ _ _ _ _ _ (shifts_trans _ _ _ _ _ _ _ Hg1 Hg2) Hg3).
Qed.

(** C24. What a broker sees first. On a ConnAck the charger's retained [online] goes
    ahead of the whole backlog, the backlog follows in order, then the retained
    snapshots; the command subscription comes after what was accepted of them, and is
    left for a later tick only when the client has no place; the state is Connected
    and the backoff starts over. What leaves the buffer leaves it from the front, and is
    accepted unless it is evicted for want of room, [online] too: no more messages are
    evicted than [online], backlog and snapshots together exceed the buffer's size. *)
Theorem connack_order c p id :
  p_lwt p = Some id →
  let p' := on_connack c p in
  (∃ out,
    out.*2 ++ p_buffer p' = online_message id :: p_buffer p ++ snapshot_messages p ∧
    requests (p_client p') = requests (p_client p) ++ (RPublish <$> taken out) ++
      (if bool_decide (is_Some (p_router p)) && negb (p_subscribe_pending p') then [subscription] else []) ∧
    length (evicted out) ≤ S (length (p_buffer p)) + length (snapshot_messages p) - p_max_buffer_size p `max` 1 ∧
    (S (length (p_buffer p)) + size (p_snapshots p) ≤ p_max_buffer_size p → taken out = out.*2)) ∧
  (p_subscribe_pending p' = true → is_Some (p_router p) ∧ places (p_client p') = 0) ∧
  p_state p' = Connected ∧ p_backoff p' = backoff_reset (p_backoff p) ∧
  p_manager p' = (λ m, transition (utc_now c) m Mqtt Connected) <$> p_manager p.
Proof.
  intros Hid p'. destruct (greeted_spec c p id Hid) as ((out & Hb & Hr & He & _) & Hs & Hbo & Hro & Hma).
  unfold p'. rewrite on_connack_greeted, Hro. set (g := greeted c p) in *. clearbody g. clear p'.
  set (b := bool_decide _). destruct (try_subscribe_spec (set_subscribe g (p_client g) b)) as (Hd & Eb & _ & Es & _ & _ & Er & _ & Hpend).
  set (p' := try_subscribe _) in *. clearbody p'. unfold data_of in Hd. simpl in *.
  assert (p_backoff p' = p_backoff g ∧ p_manager p' = p_manager g) as [-> ->] by (split; congruence).
  split_and!; [|intros Ht|by rewrite Es|done..].
  - exists out. rewrite Er, Hr, <- app_assoc, Eb. split_and!; [done..|].
    intros Hroom. apply taken_all. pose proof (snapshot_messages_length p). lia.
  - destruct (Hpend Ht) as [Hbt Hpl]. split; [by apply bool_decide_eq_true_1 in Hbt|done].
Qed.

(** ** The backlog drains *)

(** A tick of the event loop while connected. *)
Definition tick p : MqttPublisher T R := drain_buffer (try_subscribe (after_poll p PollOther)).

Lemma on_poll_tick c p : p_state p = Connected → on_poll serde_error c p PollOther = Some (tick p).
Proof. intros Hs. unfold on_poll, tick. simpl. by rewrite decide_True. Qed.

Lemma Forall_topic_app (l1 l2 : list MqttMessage) : Forall topic_ok (l1 ++ l2) → Forall topic_ok l2.
Proof. by intros [_ ?]%Forall_app. Qed.

(** What a tick gets done: the subscription, or at least one message. *)
Lemma tick_progress p :
  (∀ client : T, 0 < places (polled PollOther client)) → Forall topic_ok (p_buffer p) →
  let todo p := length (p_buffer p) + (if p_subscribe_pending p then 1 else 0) in
  p_state (tick p) = p_state p ∧ stream (tick p) = stream p ∧ Forall topic_ok (p_buffer (tick p)) ∧
  (todo (tick p) = 0 ∨ todo (tick p) < todo p).
Proof.
  intros Hroom Hok todo. unfold tick. set (q := after_poll p PollOther).
  destruct (try_subscribe_spec q) as (_ & Eb & _ & Es & _ & Ep & _ & Epl & Hpend).
  set (r := try_subscribe q) in *. destruct (drain_buffer_spec r) as (sent & Hb & _ & Hpl & Hdr).
  destruct (drain_buffer_data r) as (_ & Hs & _ & Hsub). destruct (drain_stream r) as [Hst _].
  change (p_buffer q) with (p_buffer p) in Eb. rewrite Eb in *.
  split_and!.
  - by rewrite Hs, Es.
  - rewrite Hst. unfold stream. rewrite Ep, Eb. unfold q. by rewrite after_poll_published.
  - rewrite Hb in Hok. by apply Forall_topic_app in Hok.
  - unfold todo. rewrite Hsub. change (p_subscribe_pending q) with (p_subscribe_pending p) in *.
    specialize (Hroom (p_client p)). change (p_client q) with (polled PollOther (p_client p)) in *.
    apply (f_equal length) in Hb. rewrite length_app in Hb.
    destruct (p_subscribe_pending r) eqn:Er.
    + destruct (Hpend eq_refl) as [Hp0 Hz]. rewrite Hp0 in *. simpl in *. lia.
    + destruct (Hdr Hok) as [Hnil|Hz]; [rewrite Hnil; left; done|].
      destruct (p_subscribe_pending p); simpl in *; lia.
Qed.

(** C23. The backlog gets out. While the broker stays connected, every poll leaves the
    client at least one place and no waiting message has a topic with a wildcard (those
    the client refuses for good: [wildcard_topic_blocks]), the waiting subscription and the
    whole buffer have been accepted, in order, after as many ticks as there are of them;
    the loop never stalls. *)
Theorem backlog_drains p cs :
  (∀ client : T, 0 < places (polled PollOther client)) → Forall topic_ok (p_buffer p) →
  p_state p = Connected →
  length (p_buffer p) + (if p_subscribe_pending p then 1 else 0) ≤ length cs →
  ∃ p', pub_run serde_error p ((λ c, (c, PubPoll PollOther)) <$> cs) = Some p' ∧
        p_buffer p' = [] ∧ p_subscribe_pending p' = false ∧
        published (p_client p') = published (p_client p) ++ p_buffer p.
Proof.
  intros Hroom Hok Hs Hlen.
  assert (∃ p', pub_run serde_error p ((λ c, (c, PubPoll PollOther)) <$> cs) = Some p' ∧
                p_buffer p' = [] ∧ p_subscribe_pending p' = false ∧ stream p' = stream p) as (p' & Hr & Hb & Hsub & Hst).
  { revert p Hok Hs Hlen. induction cs as [|c cs IH]; intros p Hok Hs Hlen.
    { exists p. simpl in *. destruct (p_buffer p), (p_subscribe_pending p); simpl in *; done || lia. }
    change (fmap (M := list) ?f (c :: cs)) with (f c :: fmap (M := list) f cs).
    destruct (tick_progress p Hroom Hok) as (Hs' & Hst & Hok' & Htodo).
    destruct (IH (tick p) Hok') as (p' & Hr & Hb & Hsub & Hst'); [by rewrite Hs'|simpl in *; lia|].
    exists p'. split_and!; try done; [|by rewrite Hst', Hst].
    cbn [pub_run]. unfold pub_step. cbn [fst snd]. rewrite on_poll_tick by done. exact Hr. }
  exists p'. split_and!; try done. unfold stream in Hst. rewrite Hb, app_nil_r in Hst. exact Hst.
Qed.

(** ** The subscription *)

Definition waiting_subscription p : nat := if p_subscribe_pending p then 1 else 0.

Lemma drain_subscriptions p : subscriptions (p_client (drain_buffer p)) = subscriptions (p_client p).
Proof. apply (grow_published _ _ _ (drain_grow p)). Qed.

Lemma enqueue_all_subscriptions p l : subscriptions (p_client (enqueue_all p l)) = subscriptions (p_client p).
Proof.
  revert p. induction l as [|m l IH]; intros p; simpl; [done|]. rewrite IH.
  unfold enqueue, drain_if_connected. case_decide; [by rewrite drain_subscriptions|done].
Qed.

Lemma try_subscribe_subscriptions p :
  subscriptions (p_client (try_subscribe p)) + waiting_subscription (try_subscribe p) =
  subscriptions (p_client p) + waiting_subscription p.
Proof.
  destruct (try_subscribe_spec p) as (_ & _ & _ & _ & _ & _ & Er & _ & Hpend).
  unfold subscriptions, waiting_subscription. rewrite Er. unfold retain. rewrite List.filter_app, length_app.
  destruct (p_subscribe_pending p), (p_subscribe_pending (try_subscribe p)); simpl; lia.
Qed.

Lemma after_poll_subscriptions p e : subscriptions (p_client (after_poll p e)) = subscriptions (p_client p).
Proof. unfold subscriptions. simpl. by rewrite polled_requests. Qed.

Lemma waiting_congr p q :
  p_subscribe_pending p = p_subscribe_pending q → waiting_subscription p = waiting_subscription q.
Proof. unfold waiting_subscription. by intros ->. Qed.

Lemma queue_subscriptions p q l :
  queue_of p = queue_of (enqueue_all q l) →
  subscriptions (p_client p) = subscriptions (p_client q) ∧ waiting_subscription p = waiting_subscription q.
Proof.
  intros (_ & -> & _ & _ & _ & Ep)%queue_of_inv. rewrite enqueue_all_subscriptions. split; [done|].
  apply waiting_congr. rewrite Ep. apply enqueue_all_data.
Qed.

Lemma step_subscriptions p ce p' :
  not_connack ce → pub_step serde_error p ce = Some p' →
  subscriptions (p_client p') + waiting_subscription p' = subscriptions (p_client p) + waiting_subscription p.
Proof.
  intros Hna Hs. destruct ce as [c [[|topic payload| |]|e|router manager]]; cbn [pub_step fst snd on_poll] in Hs.
  - by destruct Hna.
  - injection Hs as <-. destruct (queue_subscriptions _ _ _ (incoming_queue c (after_poll p (PollPublish topic payload)) topic payload)) as [E1 E2].
    rewrite after_poll_subscriptions in E1. unfold drain_if_connected. case_decide; [|by rewrite E1, E2].
    rewrite drain_subscriptions, E1. erewrite waiting_congr by apply drain_buffer_data. by rewrite E2.
  - injection Hs as <-. case_decide; [|by rewrite after_poll_subscriptions].
    rewrite drain_subscriptions. erewrite waiting_congr by apply drain_buffer_data.
    rewrite try_subscribe_subscriptions. by rewrite after_poll_subscriptions.
  - unfold on_poll_error in Hs. destruct (next_delay _) as [[d b]|]; simplify_eq/=.
    unfold subscriptions, waiting_subscription. case_decide; simpl; by rewrite polled_requests.
  - injection Hs as <-. by destruct (queue_subscriptions _ _ _ (handle_event_queue c p e)) as [-> ->].
  - by injection Hs as <-.
Qed.

(** One subscription per connection: from a ConnAck on, until the next one, the
    command filters have been asked for exactly once or are still waiting to be, when
    commands are enabled, and not at all when they are not. *)
Theorem subscribed_once c p l p' :
  Forall not_connack l → pub_run serde_error (on_connack c p) l = Some p' →
  subscriptions (p_client p') + waiting_subscription p' =
  subscriptions (p_client p) + (if decide (is_Some (p_router p)) then 1 else 0).
Proof.
  intros Hl Hr. trans (subscriptions (p_client (on_connack c p)) + waiting_subscription (on_connack c p)).
  - revert Hr. generalize (on_connack c p). clear p. induction Hl as [|ce l Hce _ IH]; intros p Hr; simpl in *; [by injection Hr as <-|].
    destruct (pub_step serde_error p ce) as [q|] eqn:Hs; [|done]. by rewrite (IH q Hr), (step_subscriptions p ce).
  - rewrite on_connack_greeted, try_subscribe_subscriptions. cbn [p_client set_subscribe waiting_subscription p_subscribe_pending].
    assert (subscriptions (p_client (greeted c p)) = subscriptions (p_client p) ∧ p_router (greeted c p) = p_router p) as [-> ->].
    { unfold greeted. rewrite republish_all. set (p1 := set_p_backoff _ _).
      rewrite enqueue_all_subscriptions, (proj2 (grow_published _ _ _ (flush_grow _))).
      assert (p_router (enqueue_all (mqtt_flush_buffer (publish_online p1)) (snapshot_messages (mqtt_flush_buffer (publish_online p1)))) =
              p_router (publish_online p1)) as ->.
      { destruct (enqueue_all_data (mqtt_flush_buffer (publish_online p1)) (snapshot_messages (mqtt_flush_buffer (publish_online p1)))) as [Hd _].
        destruct (flush_rest (publish_online p1)) as [Hd' _]. unfold data_of in *. congruence. }
      unfold publish_online. destruct (p_lwt p1) as [id|]; [|done]. set (q := set_queue _ _ _).
      rewrite drain_subscriptions. destruct (drain_buffer_data q) as [Hd _]. unfold data_of in Hd.
      split; [done|]. assert (p_router (drain_buffer q) = p_router q) as -> by congruence. done. }
    f_equal. unfold waiting_subscription. simpl. case_bool_decide; by repeat case_decide.
Qed.

(** ** A topic the client refuses *)

Lemma blocked_drain p m rest :
  refuses_wildcards (T := T) → ¬ topic_ok m → p_buffer p = m :: rest →
  published (p_client (drain_buffer p)) = published (p_client p).
Proof.
  intros Href Hbad Hb. unfold drain_buffer. rewrite Hb. simpl.
  pose proof (Href (p_client p) m Hbad) as Hf. destruct (try_publish (p_client p) m) as [client ok] eqn:E.
  simpl in Hf. subst ok. simpl. apply try_publish_requests in E. rewrite app_nil_r in E.
  unfold published. by rewrite E.
Qed.

Lemma blocked_enqueue_all p m rest l :
  refuses_wildcards (T := T) → ¬ topic_ok m → p_buffer p = m :: rest →
  length (p_buffer p) + length l ≤ p_max_buffer_size p →
  published (p_client (enqueue_all p l)) = published (p_client p).
Proof.
  intros Href Hbad. revert p rest. induction l as [|x l IH]; intros p rest Hb Hroom; simpl in *; [done|].
  assert (published (p_client (enqueue p x)) = published (p_client p)) as E.
  { unfold enqueue, drain_if_connected. case_decide; [|done].
    apply (blocked_drain (buffer_message p x) m (rest ++ [x])); [done..|]. simpl. rewrite push_short by lia. by rewrite Hb. }
  destruct (enqueue_grow p x) as [[Hst _]%grow_published Hlen]; [lia|].
  unfold stream in Hst. rewrite E, <- app_assoc in Hst. apply app_inv_head in Hst. rewrite Hb in Hst.
  rewrite <- E. apply (IH _ (rest ++ [x]) Hst).
  assert (p_max_buffer_size (enqueue p x) = p_max_buffer_size p) as -> by apply enqueue_data. lia.
Qed.

Lemma blocked_queue p q m rest l :
  refuses_wildcards (T := T) → ¬ topic_ok m → p_buffer q = m :: rest →
  queue_of p = queue_of (enqueue_all q l) → length (p_buffer q) + length l ≤ p_max_buffer_size q →
  published (p_client p) = published (p_client q) ∧ p_buffer p = m :: rest ++ l.
Proof.
  intros Href Hbad Hb (_ & -> & -> & _)%queue_of_inv Hroom.
  assert (published (p_client (enqueue_all q l)) = published (p_client q)) as E by (by eapply blocked_enqueue_all).
  split; [done|]. destruct (enqueue_all_stream q l Hroom) as [Hst _]. unfold stream in Hst.
  rewrite E, Hb, <- app_assoc in Hst. by apply app_inv_head in Hst.
Qed.

Lemma blocked_step p ce p' m rest :
  refuses_wildcards (T := T) → ¬ topic_ok m → p_buffer p = m :: rest → not_connack ce →
  pub_step serde_error p ce = Some p' → length (p_buffer p) + length (step_emits p ce) ≤ p_max_buffer_size p →
  published (p_client p') = published (p_client p).
Proof.
  intros Href Hbad Hb Hna Hs Hroom.
  destruct ce as [c [[|topic payload| |]|e|router manager]]; cbn [pub_step fst snd on_poll step_emits] in *.
  - by destruct Hna.
  - injection Hs as <-. set (q := after_poll p (PollPublish topic payload)).
    destruct (blocked_queue _ q m rest _ Href Hbad Hb (incoming_queue c q topic payload) Hroom) as [E Eb].
    rewrite <- (after_poll_published p (PollPublish topic payload)). fold q. rewrite <- E.
    unfold drain_if_connected. case_decide; [|done]. by eapply blocked_drain.
  - injection Hs as <-. case_decide; [|apply after_poll_published].
    destruct (try_subscribe_spec (after_poll p PollOther)) as (_ & Eb & _ & _ & _ & Ep & _).
    rewrite (blocked_drain _ m rest) by (done || by rewrite Eb). by rewrite Ep, after_poll_published.
  - unfold on_poll_error in Hs. destruct (next_delay _) as [[d b]|]; simplify_eq/=.
    case_decide; simpl; unfold published; by rewrite polled_requests.
  - injection Hs as <-. by destruct (blocked_queue _ p m rest _ Href Hbad Hb (handle_event_queue c p e) Hroom).
  - by injection Hs as <-.
Qed.

(** Finding: a message whose topic the client refuses stops everything behind it.
    The drain keeps it at the front, taking every refusal for a full channel, so until
    newer messages push it out of a full buffer, nothing more is published on this
    connection. An action with [+] or [#] in a Call of either side makes such a topic. *)
Theorem wildcard_topic_blocks p l p' m rest :
  refuses_wildcards (T := T) → ¬ topic_ok m → p_buffer p = m :: rest →
  Forall not_connack l → pub_run serde_error p l = Some p' →
  length (p_buffer p) + length (run_emits p l) ≤ p_max_buffer_size p →
  published (p_client p') = published (p_client p) ∧ p_buffer p' = m :: rest ++ run_emits p l.
Proof.
  intros Href Hbad Hb Hl Hr Hroom.
  assert (published (p_client p') = published (p_client p) ∧ stream p' = stream p ++ run_emits p l) as [E Hst].
  { revert p rest Hb Hr Hroom. induction Hl as [|ce l Hce _ IH]; intros p rest Hb Hr Hroom; simpl in *.
    { injection Hr as <-. by rewrite app_nil_r. }
    destruct (pub_step serde_error p ce) as [q|] eqn:Hs; [|done]. simpl in Hr. rewrite length_app in Hroom.
    destruct (step_stream p ce q Hce Hs) as (Est & Hlen & Em); [lia|].
    assert (published (p_client q) = published (p_client p)) as Eq by (eapply blocked_step; eauto; lia).
    pose proof Est as Eb. unfold stream in Eb. rewrite Eq, Hb, <- app_assoc in Eb. apply app_inv_head in Eb.
    destruct (IH q _ Eb Hr) as [E1 E2]; [rewrite Em; lia|]. split; [by rewrite E1|]. by rewrite E2, Est, <- app_assoc. }
  split; [done|]. unfold stream in Hst. rewrite E, Hb, <- app_assoc in Hst. by apply app_inv_head in Hst.
Qed.
End queue.

(** ** Witnesses *)

#[local] Existing Instance reference_codec.
#[local] Existing Instance reference_codec_laws.
#[local] Existing Instance plain_chrono.
#[local] Existing Instance key_order.

Definition no_error (v : Value) : string := "unknown variant".
Definition noon : Clock := {| utc_now := from_secs 43200; instant_now := from_secs 100 |}.

(** A publisher as [main] builds it, connected, with the link of one charger just lost and
    a limit of 10 A standing. *)
Definition example_publisher : MqttPublisher Channel (list CommandRequest) :=
  mkPublisher (mkChannel [] REQUEST_CHANNEL_CAPACITY) (Some "CP1"%string) [] 500 Connected
    (backoff_with_defaults (from_secs 1) (from_secs 30))
    {["CP1"%string := set_limit cp_default (Some (of_Z 10)) (Some "accepted"%string) None]} store_disabled
    (example_disk []) (Some (transition 0 manager_new Mqtt Connected)) None
    (Some {["CP1"%string := mkRegistration 1 []]}) (Some ChargingConfig_default) false
    {["CP1"%string := (Reconnecting, Connected)]}.

Definition link_up : list (Clock * PubEvent (R := list CommandRequest)) :=
  [(noon, PubRecv (EvStateChange "CP1" Connected Connected)); (noon, PubPoll PollOther)].

Lemma link_up_quiet : Forall not_connack link_up.
Proof. unfold link_up. apply Forall_cons_2; [discriminate|]. apply Forall_cons_2; [discriminate|]. apply Forall_nil_2. Qed.

(** The same before the broker is connected and with room for one message: the older of
    the two goes when the newer comes. *)
Definition narrow_publisher : MqttPublisher Channel (list CommandRequest) :=
  mkPublisher (mkChannel [] REQUEST_CHANNEL_CAPACITY) (Some "CP1"%string) [] 1 Reconnecting
    (p_backoff example_publisher) (p_snapshots example_publisher) store_disabled
    (example_disk []) (p_manager example_publisher) None
    (p_router example_publisher) (p_charging example_publisher) false (p_links example_publisher).

Lemma queued_in_order_witness :
  (∃ p', pub_run no_error example_publisher link_up = Some p' ∧
         published (p_client p') ++ p_buffer p' = run_emits no_error example_publisher link_up) ∧
  (∃ p' (out : list (bool * MqttMessage)), pub_run no_error narrow_publisher (link_up ++ link_up) = Some p' ∧
         out.*2 ++ p_buffer p' = run_emits no_error narrow_publisher (link_up ++ link_up) ∧ taken out = []).
Proof.
  split.
  - pose proof (queued_in_order no_error example_publisher link_up) as Hq.
    destruct (pub_run no_error example_publisher link_up) as [p'|] eqn:E; [|vm_compute in E; discriminate E].
    exists p'. split; [reflexivity|]. destruct (Hq p' link_up_quiet eq_refl) as (out & _ & _ & _ & Hroom).
    apply Hroom. apply Nat.leb_le. vm_compute. reflexivity.
  - pose proof (queued_in_order no_error narrow_publisher (link_up ++ link_up)) as Hq.
    destruct (pub_run no_error narrow_publisher (link_up ++ link_up)) as [p'|] eqn:E; [|vm_compute in E; discriminate E].
    destruct (Hq p' (Forall_app_2 _ _ _ link_up_quiet link_up_quiet) eq_refl) as (out & Eb & Er & _).
    exists p', out. split; [reflexivity|]. split; [exact (eq_sym Eb)|].
    assert (published (p_client p') = []) as Ep by (vm_compute in E; injection E as <-; vm_compute; reflexivity).
    rewrite Ep in Er. exact (eq_sym Er).
Defined.

(** The same publisher with no place left in the channel and two messages waiting. *)
Definition full_publisher : MqttPublisher Channel (list CommandRequest) :=
  set_queue example_publisher (mkChannel [] 0)
    [mkMessage "ocpp/CP1/status" "{}" AtLeastOnce true; mkMessage "ocpp/CP1/state" "{}" AtLeastOnce true].

Lemma connack_order_witness :
  ∃ out : list (bool * MqttMessage), requests (p_client (on_connack noon full_publisher)) = RPublish <$> out.*2 ∧
         head (out.*2 ++ p_buffer (on_connack noon full_publisher)) = Some (online_message "CP1").
Proof.
  destruct (connack_order noon full_publisher "CP1" eq_refl) as ((out & Hb & Hr & _ & Hroom) & _).
  exists out. split; [|rewrite Hb; reflexivity]. rewrite Hr, Hroom by (apply Nat.leb_le; vm_compute; reflexivity).
  assert (p_subscribe_pending (on_connack noon full_publisher) = true) as -> by (vm_compute; reflexivity).
  rewrite andb_false_r, app_nil_r. reflexivity.
Defined.

(** A publisher whose channel is full and whose buffer, of three places, has two messages
    waiting, with two snapshots to publish again. *)
Definition crowded_publisher : MqttPublisher Channel (list CommandRequest) :=
  mkPublisher (mkChannel [] 0) (Some "CP1"%string)
    [mkMessage "ocpp/CP1/status" "{}" AtLeastOnce true; mkMessage "ocpp/CP1/state" "{}" AtLeastOnce true] 3 Reconnecting
    (p_backoff example_publisher) {["CP1"%string := cp_default; "CP2"%string := cp_default]} store_disabled
    (example_disk []) None None None None false ∅.

(** Finding: [online] can be the message a ConnAck loses. It is pushed to the front of the
    buffer, over its size, and the republished snapshots evict from the front; with a
    full channel the broker is never told that the charger is back, the retained
    availability stays what it was, and the backlog behind [online] is still there. *)
Theorem online_evicted :
  let p' := on_connack noon crowded_publisher in
  p_state p' = Connected ∧ published (p_client p') = [] ∧
  (availability_topic "CP1" ∉ (msg_topic <$> p_buffer p')) ∧
  p_buffer p' = drop 1 (p_buffer crowded_publisher) ++ snapshot_messages crowded_publisher.
Proof.
  split_and!; [vm_compute; reflexivity..| |vm_compute; reflexivity].
  apply (bool_decide_eq_true_1 (availability_topic "CP1" ∉ _)). vm_compute. reflexivity.
Qed.

Lemma backlog_drains_witness :
  ∃ p', pub_run no_error full_publisher [(noon, PubPoll PollOther); (noon, PubPoll PollOther)] = Some p' ∧
        p_buffer p' = [] ∧ published (p_client p') = p_buffer full_publisher.
Proof.
  destruct (backlog_drains no_error full_publisher [noon; noon] channel_drains) as (p' & Hr & Hb & _ & Hp).
  - apply Forall_cons_2; [split; apply no_char_of; vm_compute; reflexivity|].
    apply Forall_cons_2; [split; apply no_char_of; vm_compute; reflexivity|apply Forall_nil_2].
  - reflexivity.
  - apply Nat.leb_le. vm_compute. reflexivity.
  - exists p'. split; [exact Hr|]. split; [exact Hb|exact Hp].
Defined.

Lemma subscribed_once_witness :
  ∃ p', pub_run no_error (on_connack noon full_publisher) [(noon, PubPoll PollOther)] = Some p' ∧
        subscriptions (p_client p') + waiting_subscription p' = 1.
Proof.
  pose proof (subscribed_once no_error noon full_publisher [(noon, PubPoll PollOther)]) as Hq.
  destruct (pub_run no_error (on_connack noon full_publisher) [(noon, PubPoll PollOther)]) as [p'|] eqn:E;
    [|vm_compute in E; discriminate E].
  exists p'. split; [reflexivity|]. apply (Hq p'); [|reflexivity].
  apply Forall_cons_2; [discriminate|apply Forall_nil_2].
Defined.

(** A Call of the charger with the action [A#B], already in the queue. *)
Definition blocked_publisher : MqttPublisher Channel (list CommandRequest) :=
  set_queue example_publisher (mkChannel [] REQUEST_CHANNEL_CAPACITY)
    [mkMessage (message_topic "CP1" "charger" "A#B") "{}" AtLeastOnce false].

Lemma wildcard_topic_blocks_witness :
  ∃ p', pub_run no_error blocked_publisher link_up = Some p' ∧ published (p_client p') = [].
Proof.
  pose proof (wildcard_topic_blocks no_error blocked_publisher link_up) as Hq.
  destruct (pub_run no_error blocked_publisher link_up) as [p'|] eqn:E; [|vm_compute in E; discriminate E].
  exists p'. split; [reflexivity|].
  refine (proj1 (Hq p' (mkMessage (message_topic "CP1" "charger" "A#B") "{}" AtLeastOnce false) [] channel_refuses _ eq_refl _ eq_refl _)).
  - intros [_ Hh]. revert Hh. change (¬ no_char "#"%char (message_topic "CP1" "charger" "A#B")).
    apply (bool_decide_eq_false_1 (no_char "#"%char _)). vm_compute. reflexivity.
  - apply Forall_cons_2; [discriminate|]. apply Forall_cons_2; [discriminate|]. apply Forall_nil_2.
  - apply Nat.leb_le. vm_compute. reflexivity.
Defined.
