(* ===== verification/PublisherCommands.v ===== *)
(** * The publisher's commands and connection state

    Every command of the broker is handed to its session or answered; the standing
    limit is sent again exactly when a link comes up, and what makes it fall; the
    publisher never stops, and the state it reports is the broker's. *)

From Stdlib Require Import Ascii.
From S2P Require Import Prelude Float64 Json Text Models StateManager Config Command CallQueue.
From S2P Require Import Forwarder ChargePoint SnapshotStore Publisher PublisherQueue.

Local Open Scope nat_scope.

(** ** Results have a JSON text *)

Lemma as_u64_range v z : as_u64 v = Some z → in_u64 z = true.
Proof. unfold as_u64. intros ?. by simplify_option_eq; repeat case_match; simplify_eq/=. Qed.

Lemma as_u32_range v z : as_u32 v = Some z → in_u64 z = true.
Proof. unfold as_u32. intros Hv. destruct (as_u64 v) as [x|] eqn:E; simpl in Hv; [|done]. case_match; simplify_eq/=. by eapply as_u64_range. Qed.

Lemma as_opt_u32_range v o : as_opt_u32 v = Some o → match o with Some z => in_u64 z | None => true end = true.
Proof.
  unfold as_opt_u32. intros Hv. destruct v; try (destruct (as_u32 _) eqn:E; simplify_eq/=; by eapply as_u32_range).
  by simplify_eq/=.
Qed.

Lemma ProxyCommand_typed v cmd : ProxyCommand_of_value v = Some cmd → command_typed cmd = true.
Proof.
  unfold ProxyCommand_of_value. intros Hc. destruct (as_object v) as [m|]; simpl in Hc; [|done].
  destruct (map_get "command" m ≫= as_str) as [tag|]; simpl in Hc; [|done].
  assert (∀ k o, field_or k m None as_opt_u32 = Some o → match o with Some z => in_u64 z | None => true end = true) as Hf.
  { unfold field_or. intros k o. destruct (map_get k m); [apply as_opt_u32_range|by intros [= <-]]. }
  repeat case_decide; try (by simplify_option_eq).
  - destruct (map_get "requested_message" m ≫= as_str); simpl in Hc; [|done].
    destruct (field_or "connector_id" m None as_opt_u32) as [o|] eqn:Eo; simplify_eq/=.
    apply Hf in Eo. by destruct o.
  - destruct (field_or "connector_id" m None as_opt_u32) as [o|] eqn:Eo; simpl in Hc; [|done].
    destruct (field_or "duration_s" m default_schedule_duration as_u32) as [d|] eqn:Ed; simplify_eq/=.
    apply Hf in Eo. rewrite Eo, andb_true_r. unfold field_or in Ed.
    destruct (map_get "duration_s" m); [by eapply as_u32_range|]. by injection Ed as <-.
Qed.

Lemma parse_command_typed `{SerdeJson} serde_error now kind payload request :
  parse_command_payload serde_error now kind payload = Ok request → command_typed (req_command request) = true.
Proof.
  unfold parse_command_payload. intros Hp. destruct (from_utf8 payload) as [text|]; simpl in Hp; [|done].
  case_decide; [done|]. destruct (_ && _).
  - destruct (parse_limit_text (trim text)) as [cmd|] eqn:E; simplify_eq/=. unfold parse_limit_text in E.
    case_bool_decide; simplify_eq/=; [done|]. destruct (parse_f64 (trim text)); by simplify_eq/=.
  - destruct (match from_str (trim text) with Ok v => _ | Err e => _ end); [|done].
    destruct (as_object a); simpl in Hp; [|done]. destruct (request_id _ _); [|done].
    destruct (ProxyCommand_of_value _) as [cmd|] eqn:E; simpl in Hp; simplify_eq/=. by apply ProxyCommand_typed in E.
Qed.

Lemma command_representable cmd : command_typed cmd = true → representable (ProxyCommand_to_value cmd) = true.
Proof.
  destruct cmd as [a| |keys|k v|msg [conn|]|[conn|] d]; simpl; intros Ht; rewrite ?representable_f64, ?representable_strings;
    try reflexivity; try (apply andb_prop in Ht as [Hd Hc]); rewrite ?Ht, ?Hd, ?Hc, ?orb_true_r; reflexivity.
Qed.

Section commands.
Context {T R : Type} `{MqttClientLaws T} `{MpscSender R CommandRequest}.
Context `{SerdeJsonLaws} `{Chrono} `{HashOrder} (serde_error : Value → string).
Implicit Types (p : MqttPublisher T R).

Lemma for_request_message c id request status detail :
  command_typed (req_command request) = true →
  ∃ payload, result_message id (for_request (utc_now c) request status detail) =
             Some (mkMessage (command_result_topic id) payload AtLeastOnce false).
Proof.
  intros Ht%command_representable. unfold result_message.
  destruct (to_json_from_str (CommandResult_to_value (for_request (utc_now c) request status detail))) as (raw & _ & -> & _);
    [|by exists raw].
  unfold CommandResult_to_value, for_request. cbn [res_id res_command res_source res_status res_action res_requested_limit_a
    res_applied_limit_a res_ocpp_request res_charger_response res_detail res_timestamp].
  destruct (req_command request) as [a| |keys|k v|msg conn|conn d]; destruct detail; cbn [app];
    cbn [representable forallb snd]; rewrite Ht, ?representable_f64; reflexivity.
Qed.

Lemma invalid_message c id reason :
  ∃ payload, result_message id (invalid_payload (utc_now c) reason) =
             Some (mkMessage (command_result_topic id) payload AtLeastOnce false).
Proof.
  unfold result_message.
  destruct (to_json_from_str (CommandResult_to_value (invalid_payload (utc_now c) reason))) as (raw & _ & -> & _);
    [reflexivity|by exists raw].
Qed.

(** ** Every command is handed over or answered *)

(** The request is in the inbox of the session registered for [id], and nothing else has
    happened. *)
Definition handed p p' (id : string) (request : CommandRequest) : Prop :=
  ∃ router reg, p_router p = Some router ∧ router !! id = Some reg ∧ (try_send (reg_tx reg) request).2 = Ok () ∧
    p_router p' = Some (<[id := mkRegistration (reg_generation reg) (try_send (reg_tx reg) request).1]> router) ∧
    stream p' = stream p ∧ p_snapshots p' = p_snapshots p.

(** The result of a command is the next message, on the result topic of the charger and
    not retained; behind it at most the snapshot it changed. *)
Definition answered p p' (id : string) (result : CommandResult) : Prop :=
  ∃ payload snapshot, to_json (CommandResult_to_value result) = Ok payload ∧
    stream p' = stream p ++ mkMessage (command_result_topic id) payload AtLeastOnce false :: option_list snapshot ∧
    (∀ m, snapshot = Some m → msg_topic m = charge_point_state_topic id ∧ msg_retain m = true).

(** Why a request could not be handed over, and the status that says so. *)
Definition refusal p (id : string) (request : CommandRequest) (status : CommandStatus) : Prop :=
  match p_router p with
  | None => status = Rejected
  | Some router =>
      match router !! id with
      | None => status = CsNotConnected
      | Some reg =>
          match (try_send (reg_tx reg) request).2 with
          | Ok _ => False
          | Err Full => status = Rejected
          | Err Closed => status = CsNotConnected
          end
      end
  end.

Lemma snapshot_emits_option p id f :
  ∃ snapshot, snapshot_emits p id f = option_list snapshot ∧
    (∀ m, snapshot = Some m → msg_topic m = charge_point_state_topic id ∧ msg_retain m = true).
Proof.
  unfold snapshot_emits. destruct (f _) as [st []]; [|by exists None].
  exists (state_message id st). split; [done|]. unfold state_message.
  intros m. destruct (to_json _); simpl; by intros [= <-].
Qed.

Lemma result_answered c p q id result :
  (∃ payload, result_message id result = Some (mkMessage (command_result_topic id) payload AtLeastOnce false)) →
  stream q = stream p → length (p_buffer q) + 2 ≤ p_max_buffer_size q →
  answered p (publish_command_result c q id result) id result.
Proof.
  intros [payload Hm] Hq Hroom. destruct (snapshot_emits_option q id (λ st, apply_command_result (utc_now c) st result)) as (snap & Es & Hs).
  exists payload, snap.
  assert (to_json (CommandResult_to_value result) = Ok payload) as Hj.
  { unfold result_message in Hm. destruct (to_json (CommandResult_to_value result)); simpl in Hm; congruence. }
  split_and!; [done| |done].
  destruct (queue_of_inv _ _ (publish_result_queue c q id result)) as [-> _].
  destruct (enqueue_all_stream q (result_emits c q id result)) as [-> _].
  { unfold result_emits. rewrite Hm, Es. destruct snap; simpl; lia. }
  unfold result_emits. by rewrite Hm, Es, Hq.
Qed.

Lemma dispatched_or_answered c p id request :
  command_typed (req_command request) = true → length (p_buffer p) + 2 ≤ p_max_buffer_size p →
  handed p (dispatch_command c p id request) id request ∨
  ∃ status detail, answered p (dispatch_command c p id request) id (for_request (utc_now c) request status detail) ∧
                   refusal p id request status.
Proof.
  intros Ht Hroom. unfold dispatch_command, handed, refusal. destruct (p_router p) as [router|] eqn:Er.
  2:{ right. eexists _, _. split; [|done]. by apply result_answered; [apply for_request_message|..]. }
  unfold dispatch. destruct (router !! id) as [reg|] eqn:Ereg.
  2:{ right. eexists _, _. split; [|done]. by apply result_answered; [apply for_request_message|..]. }
  destruct (try_send (reg_tx reg) request) as [tx [[]|e]] eqn:Es.
  - left. exists router, reg. by rewrite Es.
  - right. destruct e; eexists _, _; (split; [|done]); by apply result_answered; [apply for_request_message|..].
Qed.

(** C25. No command from the broker is left without an outcome. One that cannot be read is
    answered as invalid with the reason; one that can is in the inbox of the charger's
    session, untouched, or is answered under its own id with the status that says why
    not: rejected when commands are disabled or the inbox is full, not connected when
    there is no session. A message that is not a command changes nothing. The buffer is to
    have room for two messages, the answer and a snapshot, so that neither evicts. *)
Theorem command_handed_or_answered c p topic payload :
  length (p_buffer p) + 2 ≤ p_max_buffer_size p →
  let p' := handle_incoming_publish serde_error c p topic payload in
  match parse_command_topic topic with
  | None => p' = p
  | Some (id, kind) =>
      match parse_command_payload serde_error (utc_now c) kind payload with
      | Err reason =>
          ∃ result, answered p p' id result ∧ res_status result = Invalid ∧ res_detail result = Some reason
      | Ok request =>
          handed p p' id request ∨
          ∃ result, answered p p' id result ∧ res_id result = req_id request ∧ refusal p id request (res_status result)
      end
  end.
Proof.
  intros Hroom. unfold handle_incoming_publish. destruct (parse_command_topic topic) as [[id kind]|]; [|done].
  destruct (parse_command_payload serde_error (utc_now c) kind payload) as [request|reason] eqn:Ep.
  - destruct (dispatched_or_answered c p id request) as [Hh|(status & detail & Ha & Hr)];
      [by eapply parse_command_typed|done|by left|].
    right. by exists (for_request (utc_now c) request status detail).
  - exists (invalid_payload (utc_now c) reason). split; [|done]. apply result_answered; [apply invalid_message|done..].
Qed.

(** ** The standing limit *)

Lemma to_reapply_Some p id up down a :
  to_reapply p id (up, down) = Some a ↔
  up = Connected ∧ down = Connected ∧ p_links p !! id ≠ Some (Connected, Connected) ∧
  (∃ charging, p_charging p = Some charging ∧ reapply_on_connect charging = true) ∧
  (∃ st, p_snapshots p !! id = Some st ∧ current_limit_status st = Some "accepted"%string ∧ current_limit_a st = Some a).
Proof.
  unfold to_reapply, both_up, standing_limit. split.
  - destruct (p_charging p) as [ch|]; simpl; [|done]. case_bool_decide as Hup; [|done]. simplify_eq.
    intros Hr. destruct (match p_links p !! id with Some l => _ | None => _ end) eqn:El; [done|]. simpl in Hr.
    destruct (reapply_on_connect ch) eqn:Ech; [|done]. destruct (p_snapshots p !! id) as [st|] eqn:Est; simpl in Hr; [|done].
    case_decide; [|done]. split_and!; [done|done| |by eexists|by exists st].
    intros E. rewrite E in El. by rewrite bool_decide_eq_true_2 in El.
  - intros (-> & -> & Hl & (ch & -> & Hch) & st & -> & Hst & Ha). simpl.
    assert (match p_links p !! id with Some l => bool_decide (l = (Connected, Connected)) | None => false end = false) as ->.
    { destruct (p_links p !! id) as [l|]; [|done]. apply bool_decide_eq_false_2. congruence. }
    rewrite Hch. simpl. by rewrite decide_True.
Qed.

Lemma publish_result_router c p id result :
  p_router (publish_command_result c p id result) = p_router p ∧
  p_links (publish_command_result c p id result) = p_links p.
Proof.
  unfold publish_command_result, fold_snapshot, publish_charge_point_state. rewrite !enqueue_opt_all.
  destruct (apply_command_result _ _ _) as [st []]; rewrite ?enqueue_opt_all.
  - set (q := set_disk _ _). destruct (enqueue_all_data q (option_list (state_message id st))) as [Hd _].
    destruct (enqueue_all_data p (option_list (result_message id result))) as [Hd' _].
    unfold data_of in *. simpl in *. split; congruence.
  - destruct (enqueue_all_data p (option_list (result_message id result))) as [Hd' _].
    unfold data_of in *. simpl in *. split; congruence.
Qed.

Lemma dispatch_command_router c p id request :
  p_router (dispatch_command c p id request) = (λ r, (dispatch r id request).1) <$> p_router p ∧
  p_links (dispatch_command c p id request) = p_links p.
Proof.
  unfold dispatch_command. destruct (p_router p) as [router|] eqn:Er; [|rewrite !(proj1 (publish_result_router _ _ _ _)), (proj2 (publish_result_router _ _ _ _)); done].
  simpl. destruct (dispatch router id request) as [router' [[]|e]]; [done|].
  rewrite (proj1 (publish_result_router _ _ _ _)), (proj2 (publish_result_router _ _ _ _)). done.
Qed.

(** C26. The standing limit is sent again exactly when a link comes up: on a status with
    both sides connected that does not follow another such one, when the configuration
    asks for it and the snapshot holds an accepted limit, the charger's session is
    handed the one command that sets that limit; on any other status no command is. *)
Theorem reapply_on_link_up c p id up down m :
  status_message id up down = Some m →
  let p' := handle_event c p (EvStateChange id up down) in
  p_links p' = <[id := (up, down)]> (p_links p) ∧
  p_router p' =
    match to_reapply p id (up, down) with
    | Some a => (λ r, (dispatch r id (reapply_request c a)).1) <$> p_router p
    | None => p_router p
    end ∧
  (∀ a, to_reapply p id (up, down) = Some a ↔
    up = Connected ∧ down = Connected ∧ p_links p !! id ≠ Some (Connected, Connected) ∧
    (∃ charging, p_charging p = Some charging ∧ reapply_on_connect charging = true) ∧
    (∃ st, p_snapshots p !! id = Some st ∧ current_limit_status st = Some "accepted"%string ∧ current_limit_a st = Some a)).
Proof.
  intros Hm p'. split_and!; [..|intros a; apply to_reapply_Some];
    unfold p'; simpl; rewrite Hm; destruct (enqueue_data p m) as [Hd _]; unfold data_of in Hd;
    injection Hd as Es _ _ Er Ec El _ _ _.
  - rewrite El. set (q := set_links _ _). assert (p_links q = <[id := (up, down)]> (p_links p)) as Eq by done.
    destruct (_ && _); [|done]. unfold maybe_reapply_limit.
    destruct (p_charging q) as [ch|]; [|done]. destruct (reapply_on_connect ch); [|done].
    destruct (p_snapshots q !! id ≫= standing_limit) as [a|]; [|done]. by rewrite (proj2 (dispatch_command_router c q id _)).
  - rewrite El. set (q := set_links _ _). unfold to_reapply, maybe_reapply_limit.
    change (p_charging q) with (p_charging (enqueue p m)). change (p_snapshots q) with (p_snapshots (enqueue p m)).
    rewrite Ec, Es. destruct (both_up (up, down)); simpl; [|by destruct (p_charging p)].
    destruct (match p_links p !! id with Some l => _ | None => _ end); simpl; [by destruct (p_charging p)|].
    destruct (p_charging p) as [ch|]; simpl; [|done]. destruct (reapply_on_connect ch); [|done].
    destruct (p_snapshots p !! id ≫= standing_limit) as [a|]; [|done].
    rewrite (proj1 (dispatch_command_router c q id _)). change (p_router q) with (p_router (enqueue p m)). by rewrite Er.
Qed.

Lemma publish_result_snapshots c p id result :
  p_snapshots (publish_command_result c p id result) =
  <[id := (apply_command_result (utc_now c) (default cp_default (p_snapshots p !! id)) result).1]> (p_snapshots p).
Proof.
  unfold publish_command_result, fold_snapshot, publish_charge_point_state. rewrite !enqueue_opt_all.
  set (p1 := enqueue_all p _).
  assert (p_snapshots p1 = p_snapshots p) as ->.
  { destruct (enqueue_all_data p (option_list (result_message id result))) as [Hd _]. fold p1 in Hd. unfold data_of in Hd. congruence. }
  destruct (apply_command_result _ _ _) as [st []]; [|done]. rewrite enqueue_opt_all.
  set (q := set_disk _ _). destruct (enqueue_all_data q (option_list (state_message id st))) as [Hd _].
  unfold data_of in Hd. assert (p_snapshots (enqueue_all q (option_list (state_message id st))) = p_snapshots q) as -> by congruence.
  done.
Qed.

(** Finding: a command that fails takes the standing limit down. When a limit is
    standing and the charger is away, a new limit command is answered not connected,
    the old limit stays the figure shown and the one the charger had accepted, and yet
    no later status sends it again when the charger comes back. *)
Theorem failed_command_drops_limit c p topic payload id kind request router st :
  parse_command_topic topic = Some (id, kind) →
  parse_command_payload serde_error (utc_now c) kind payload = Ok request →
  is_limit_command (req_command request) = true →
  p_router p = Some router → router !! id = None → p_snapshots p !! id = Some st →
  let p' := handle_incoming_publish serde_error c p topic payload in
  (∃ st', p_snapshots p' !! id = Some st' ∧ current_limit_a st' = current_limit_a st ∧
          current_limit_status st' = Some "not_connected"%string) ∧
  (∀ links, to_reapply p' id links = None).
Proof.
  intros Ht Hp Hl Hro Hid Hst p'.
  set (result := undispatched c request (Some NotConnected)).
  assert (p' = publish_command_result c (set_router p (Some router)) id result) as E.
  { unfold p', handle_incoming_publish, dispatch_command. rewrite Ht, Hp, Hro. unfold dispatch. by rewrite Hid. }
  assert (∃ st', p_snapshots p' !! id = Some st' ∧ current_limit_a st' = current_limit_a st ∧
          current_limit_status st' = Some "not_connected"%string) as (st' & Es & Ea & Estat).
  { rewrite E, publish_result_snapshots, lookup_insert_eq. eexists. split; [done|].
    change (p_snapshots (set_router p (Some router))) with (p_snapshots p). rewrite Hst. simpl.
    pose proof (apply_command_result_fields (utc_now c) st result) as Hf.
    assert (is_limit_result result = true) as Hlim by (unfold result; by destruct (req_command request) eqn:Ec; try done; unfold is_limit_result; simpl; rewrite Ec).
    rewrite Hlim in Hf. destruct Hf as [-> ->]. split; [|done]. by rewrite decide_False. }
  split; [by exists st'|]. intros links. unfold to_reapply. destruct (p_charging p') as [ch|]; [|done]. simpl.
  destruct (_ && _); [|done]. rewrite Es. simpl. unfold standing_limit. rewrite Estat. by rewrite decide_False.
Qed.

(** ** The state of the broker's connection *)

Lemma handle_event_state c p e : p_state (handle_event c p e) = p_state p.
Proof.
  destruct (queue_of_inv _ _ (handle_event_queue c p e)) as (_ & _ & _ & -> & _). apply enqueue_all_data.
Qed.

Lemma incoming_state c p topic payload : p_state (handle_incoming_publish serde_error c p topic payload) = p_state p.
Proof.
  destruct (queue_of_inv _ _ (incoming_queue serde_error c p topic payload)) as (_ & _ & _ & -> & _). apply enqueue_all_data.
Qed.

(** The parts of a publisher that only its own event loop changes. *)
Definition loop_part p := (p_manager p, p_backoff p, p_lwt p, p_store p, p_charging p).

Lemma loop_part_data p q : data_of p = data_of q → loop_part p = loop_part q.
Proof. unfold data_of, loop_part. congruence. Qed.

Lemma enqueue_opt_loop p o : loop_part (enqueue_opt p o) = loop_part p.
Proof. rewrite enqueue_opt_all. apply loop_part_data, enqueue_all_data. Qed.

Lemma fold_snapshot_loop p id f : loop_part (fold_snapshot p id f) = loop_part p.
Proof.
  unfold fold_snapshot, publish_charge_point_state. destruct (f _) as [st []]; [|done]. by rewrite enqueue_opt_loop.
Qed.

Lemma publish_result_loop c p id result : loop_part (publish_command_result c p id result) = loop_part p.
Proof. unfold publish_command_result. by rewrite fold_snapshot_loop, enqueue_opt_loop. Qed.

Lemma dispatch_command_loop c p id request : loop_part (dispatch_command c p id request) = loop_part p.
Proof.
  unfold dispatch_command. destruct (p_router p) as [router|]; [|apply publish_result_loop].
  destruct (dispatch router id request) as [router' [[]|e]]; [done|]. by rewrite publish_result_loop.
Qed.

Lemma incoming_loop c p topic payload : loop_part (handle_incoming_publish serde_error c p topic payload) = loop_part p.
Proof.
  unfold handle_incoming_publish. destruct (parse_command_topic topic) as [[id kind]|]; [|done].
  destruct (parse_command_payload _ _ _ _); [apply dispatch_command_loop|apply publish_result_loop].
Qed.

Lemma handle_event_loop c p e : loop_part (handle_event c p e) = loop_part p.
Proof.
  destruct e as [id frame d act|id up down|id result]; simpl; [| |apply publish_result_loop].
  - destruct (event_message id frame d act) as [m|]; [|done]. rewrite fold_snapshot_loop.
    exact (enqueue_opt_loop p (Some m)).
  - destruct (status_message id up down) as [m|]; [|done].
    assert (loop_part (enqueue p m) = loop_part p) as E by exact (enqueue_opt_loop p (Some m)).
    destruct (_ && _); [|done]. unfold maybe_reapply_limit.
    destruct (p_charging _) as [ch|]; [|done]. destruct (reapply_on_connect ch); [|done].
    destruct (_ ≫= standing_limit) as [a|]; [|done]. by rewrite dispatch_command_loop.
Qed.

(** The backoff is on its schedule of one to thirty seconds, and the shared manager shows
    the publisher's state. *)
Definition pub_inv p : Prop :=
  on_schedule 1 30 (p_backoff p) ∧ ∀ m, p_manager p = Some m → mqtt_state m = p_state p.

Lemma pub_inv_loop p q : loop_part p = loop_part q → p_state p = p_state q → pub_inv q → pub_inv p.
Proof. unfold loop_part, pub_inv. intros [= -> -> _ _ _] ->. done. Qed.

Lemma pub_inv_set_state c p s : pub_inv p → pub_inv (mqtt_set_state c p s).
Proof.
  intros [Hb _]. split; [done|]. simpl. intros m. destruct (p_manager p) as [m0|]; [|done].
  intros [= <-]. change (state_of (transition (utc_now c) m0 Mqtt s) Mqtt = s).
  by rewrite state_of_transition, decide_True.
Qed.

Lemma drain_loop_part p : loop_part (drain_buffer p) = loop_part p ∧ p_state (drain_buffer p) = p_state p.
Proof. split; [apply loop_part_data|]; apply drain_buffer_data. Qed.

Lemma on_connack_loop c p :
  let q := set_p_backoff (mqtt_set_state c p Connected) (backoff_reset (p_backoff p)) in
  loop_part (on_connack c p) = loop_part q ∧ p_state (on_connack c p) = Connected.
Proof.
  intros q. rewrite on_connack_greeted.
  destruct (try_subscribe_spec (set_subscribe (greeted c p) (p_client (greeted c p)) (bool_decide (is_Some (p_router (greeted c p))))))
    as (Hd & _ & _ & -> & _).
  rewrite (loop_part_data _ _ Hd). change (loop_part (greeted c p) = loop_part q ∧ p_state (greeted c p) = Connected).
  unfold greeted. change (set_p_backoff _ _) with q. rewrite republish_all.
  destruct (enqueue_all_data (mqtt_flush_buffer (publish_online q)) (snapshot_messages (mqtt_flush_buffer (publish_online q)))) as (Hd1 & -> & _).
  destruct (flush_rest (publish_online q)) as (Hd2 & -> & _). rewrite (loop_part_data _ _ Hd1), (loop_part_data _ _ Hd2).
  unfold publish_online. destruct (p_lwt q); [|done]. set (r := set_queue _ _ _). by destruct (drain_loop_part r) as [-> ->].
Qed.

(** ** What the publisher does to what it shares *)

Lemma data_router p (q : MqttPublisher T R) : data_of p = data_of q → p_router p = p_router q.
Proof. unfold data_of. congruence. Qed.

Lemma on_connack_router c p : p_router (on_connack c p) = p_router p.
Proof.
  rewrite on_connack_greeted. rewrite (data_router _ _ (proj1 (try_subscribe_spec _))). simpl.
  unfold greeted. set (q := set_p_backoff _ _). change (p_router p) with (p_router q). rewrite republish_all.
  rewrite (data_router _ _ (proj1 (enqueue_all_data _ _))), (data_router _ _ (proj1 (flush_rest _))).
  unfold publish_online. destruct (p_lwt q); [|done]. by rewrite (data_router _ _ (proj1 (drain_buffer_data _))).
Qed.

Lemma drain_router p : p_router (drain_if_connected p) = p_router p.
Proof.
  unfold drain_if_connected. case_decide; [|done]. by rewrite (data_router _ _ (proj1 (drain_buffer_data _))).
Qed.

(** At most one command of the router's, and nothing else. *)
Definition one_dispatch (before after : option (CommandRouter R)) : Prop :=
  after = before ∨ ∃ id request, after = (λ r, (dispatch r id request).1) <$> before.

Lemma incoming_router c p topic payload :
  one_dispatch (p_router p) (p_router (handle_incoming_publish serde_error c p topic payload)).
Proof.
  unfold handle_incoming_publish. destruct (parse_command_topic topic) as [[id kind]|]; [|by left].
  destruct (parse_command_payload _ _ _ _) as [request|]; [right; exists id, request; apply dispatch_command_router|].
  left. apply publish_result_router.
Qed.

Lemma handle_event_router c p e : one_dispatch (p_router p) (p_router (handle_event c p e)).
Proof.
  destruct e as [id frame d act|id up down|id result]; simpl; [| |left; apply publish_result_router].
  - destruct (event_message id frame d act) as [m|]; [|by left]. left. unfold fold_snapshot, publish_charge_point_state.
    assert (p_router (enqueue p m) = p_router p) as E by apply data_router, enqueue_data.
    destruct (cp_apply _ _ _ _) as [st []]; rewrite ?enqueue_opt_all; [|exact E].
    by rewrite (data_router _ _ (proj1 (enqueue_all_data _ _))).
  - destruct (status_message id up down) as [m|]; [|by left].
    set (q := set_links _ _). assert (p_router q = p_router p) as E by exact (data_router (enqueue p m) p (proj1 (enqueue_data p m))).
    destruct (_ && _); [|left; exact E]. unfold maybe_reapply_limit.
    destruct (p_charging q) as [ch|]; [|by left]. destruct (reapply_on_connect ch); [|by left].
    destruct (_ ≫= standing_limit) as [a|]; [|by left].
    right. exists id, (reapply_request c a). rewrite <- E. apply dispatch_command_router.
Qed.

(** The publisher's own events. *)
Definition own_pub_event (e : PubEvent (R := R)) : bool := match e with PubShared _ _ => false | _ => true end.

Lemma pub_step_router p c e p' :
  own_pub_event e = true → pub_step serde_error p (c, e) = Some p' → one_dispatch (p_router p) (p_router p').
Proof.
  destruct e as [[|topic payload| |]|e|fr fm]; intros Hown Hs; try done; unfold pub_step in Hs; cbn [fst snd on_poll] in Hs.
  - injection Hs as <-. left. apply (on_connack_router c (after_poll p PollConnAck)).
  - injection Hs as <-. rewrite drain_router. apply (incoming_router c (after_poll p (PollPublish topic payload))).
  - injection Hs as <-. left. case_decide; [|done].
    rewrite (data_router _ _ (proj1 (drain_buffer_data _))). by rewrite (data_router _ _ (proj1 (try_subscribe_spec _))).
  - unfold on_poll_error in Hs. left. destruct (next_delay _) as [[d b]|]; [|done]. injection Hs as <-. simpl. by case_decide.
  - injection Hs as <-. apply handle_event_router.
Qed.

(** On the manager it only moves the MQTT state. *)
Definition mqtt_op (op : ManagerOp) : Prop := match op with OpTransition _ Mqtt _ => True | _ => False end.

Lemma pub_step_manager p c e p' :
  own_pub_event e = true → pub_step serde_error p (c, e) = Some p' →
  ∃ ops, Forall mqtt_op ops ∧ p_manager p' = (λ m, foldl apply_op m ops) <$> p_manager p.
Proof.
  assert (∀ q : MqttPublisher T R, p_manager q = p_manager p → ∃ ops, Forall mqtt_op ops ∧ p_manager q = (λ m, foldl apply_op m ops) <$> p_manager p)
    as Hsame by (intros q ->; exists []; split; [done|]; by destruct (p_manager p)).
  assert (∀ q : MqttPublisher T R, loop_part q = loop_part p → p_manager q = p_manager p) as Hl by (unfold loop_part; congruence).
  destruct e as [[|topic payload| |]|e|fr fm]; intros Hown Hs; try done; unfold pub_step in Hs; cbn [fst snd on_poll] in Hs.
  - injection Hs as <-. destruct (on_connack_loop c (after_poll p PollConnAck)) as [E _].
    exists [OpTransition (utc_now c) Mqtt Connected]. split; [by repeat constructor|]. unfold loop_part in E. by injection E.
  - injection Hs as <-. apply Hsame, Hl. unfold drain_if_connected. case_decide;
      [rewrite (proj1 (drain_loop_part _))|]; apply (incoming_loop c (after_poll p (PollPublish topic payload))).
  - injection Hs as <-. apply Hsame, Hl. case_decide; [|done]. rewrite (proj1 (drain_loop_part _)).
    by rewrite (loop_part_data _ _ (proj1 (try_subscribe_spec _))).
  - unfold on_poll_error in Hs. destruct (next_delay _) as [[d b]|]; [|done]. injection Hs as <-. simpl.
    case_decide; [|by apply Hsame]. exists [OpTransition (utc_now c) Mqtt Reconnecting]. split; [by repeat constructor|done].
  - injection Hs as <-. apply Hsame, Hl, handle_event_loop.
Qed.

(** A new publisher, and one given a manager that has not seen the broker yet. *)
Lemma publisher_new_inv fmt config lwt max_buffer store d d' p :
  publisher_new fmt config lwt max_buffer store d = (d', Ok p) →
  pub_inv p ∧ ∀ m, mqtt_state m = Disconnected → pub_inv (with_state_manager p m).
Proof.
  unfold publisher_new. destruct (build_tls_config fmt config d) as [d1 [tls|e]]; [|done].
  destruct (store_load store d1) as [d2 snaps]. intros [= _ <-].
  assert (on_schedule 1 30 (backoff_with_defaults (from_secs 1) (from_secs 30))) as Hb by (apply on_schedule_new; lia).
  split; [by split|]. intros m Hm. split; [done|]. by intros m' [= <-].
Qed.

(** What a poll makes of the state. *)
Definition link_after (s : ConnectionState) (e : PubEvent (R := R)) : ConnectionState :=
  match e with
  | PubPoll PollConnAck => Connected
  | PubPoll PollError => if decide (s = Connected) then Reconnecting else s
  | _ => s
  end.

(** The others leave the MQTT state of the manager alone. *)
Definition others_keep_mqtt (ce : Clock * PubEvent (R := R)) : Prop :=
  match ce.2 with PubShared _ f => ∀ m, mqtt_state (f m) = mqtt_state m | _ => True end.

Lemma pub_step_inv p ce :
  others_keep_mqtt ce → pub_inv p →
  ∃ p', pub_step serde_error p ce = Some p' ∧ pub_inv p' ∧ p_state p' = link_after (p_state p) ce.2.
Proof.
  intros Ho Hinv. destruct ce as [c [[|topic payload| |]|e|fr fm]]; cbn [pub_step fst snd on_poll link_after]; unfold others_keep_mqtt in Ho; simpl in Ho.
  - eexists. split; [done|]. destruct (on_connack_loop c (after_poll p PollConnAck)) as [Hl Hs]. split; [|done].
    eapply pub_inv_loop; [exact Hl|by rewrite Hs|]. destruct (pub_inv_set_state c p Connected Hinv) as [Hb Hm].
    split; [|exact Hm]. by apply on_schedule_reset.
  - eexists. split; [done|]. set (q := handle_incoming_publish _ _ _ _ _).
    assert (loop_part (drain_if_connected q) = loop_part p ∧ p_state (drain_if_connected q) = p_state p) as [Hl Hs].
    { unfold drain_if_connected. case_decide; [destruct (drain_loop_part q) as [-> ->]|]; unfold q; by rewrite incoming_loop, incoming_state. }
    split; [by eapply pub_inv_loop|done].
  - eexists. split; [done|]. case_decide; [|done].
    destruct (drain_loop_part (try_subscribe (after_poll p PollOther))) as [Hl Hs].
    destruct (try_subscribe_spec (after_poll p PollOther)) as (Hd & _ & _ & Es & _).
    apply loop_part_data in Hd. rewrite Hd in Hl. rewrite Es in Hs. split; [by eapply pub_inv_loop|done].
  - unfold on_poll_error. set (q := if decide _ then _ else _).
    assert (pub_inv q ∧ p_state q = if decide (p_state p = Connected) then Reconnecting else p_state p) as [[Hb Hm] Hs].
    { unfold q. change (p_state (after_poll p PollError)) with (p_state p).
      case_decide; [split; [by apply (pub_inv_set_state c (after_poll p PollError))|done]|done]. }
    destruct (next_delay_on_schedule 1 30 (p_backoff q)) as (d & b & Hd & Hb' & _); [by left|lia|done|].
    rewrite Hd. simpl. eexists. split; [done|]. split; [by split|done].
  - eexists. split; [done|]. rewrite handle_event_state. split; [|done].
    eapply pub_inv_loop; [apply handle_event_loop|apply handle_event_state|done].
  - eexists. split; [done|]. split; [|done]. destruct Hinv as [Hb Hm]. split; [done|]. simpl.
    intros m. destruct (p_manager p) as [m0|] eqn:Em; [|done]. intros [= <-]. rewrite Ho. by apply Hm.
Qed.

Lemma pub_run_inv p l p' :
  Forall others_keep_mqtt l → pub_inv p → pub_run serde_error p l = Some p' → pub_inv p'.
Proof.
  intros Hl. revert p. induction Hl as [|ce l Hce _ IH]; intros p Hinv Hr; [by injection Hr as <-|]. cbn [pub_run] in Hr.
  destruct (pub_step_inv p ce Hce Hinv) as (q & Hq & Hqi & _). rewrite Hq in Hr. by apply (IH q).
Qed.

(** The publisher never stops on a panic, and what it reports is the broker's state:
    after any run its state is Connected from a ConnAck until an error of the event
    loop, Reconnecting from then on, and the shared manager, which the health endpoint
    reads, shows the same state, whatever the sessions do to the rest of it. *)
Theorem mqtt_state_tracks_broker p l :
  Forall others_keep_mqtt l → pub_inv p →
  ∃ p', pub_run serde_error p l = Some p' ∧ p_state p' = foldl link_after (p_state p) l.*2 ∧
        (∀ m, p_manager p' = Some m → mqtt_state m = p_state p').
Proof.
  intros Hl Hinv.
  assert (∃ p', pub_run serde_error p l = Some p' ∧ p_state p' = foldl link_after (p_state p) l.*2 ∧ pub_inv p')
    as (p' & Hr & Hs & [_ Hm]); [|by exists p'].
  revert p Hinv. induction Hl as [|ce l Hce _ IH]; intros p Hinv; [by exists p|].
  destruct (pub_step_inv p ce Hce Hinv) as (q & Hs & Hq & Es). destruct (IH q Hq) as (p' & Hr & Hs' & Hinv').
  exists p'. cbn [pub_run]. rewrite Hs. split_and!; [exact Hr| |done]. by rewrite Hs', Es.
Qed.
End commands.

(** ** Witnesses *)

#[local] Existing Instance reference_codec.
#[local] Existing Instance reference_codec_laws.
#[local] Existing Instance plain_chrono.
#[local] Existing Instance key_order.

Lemma example_publisher_inv : pub_inv example_publisher.
Proof. split; [apply on_schedule_new; lia|]. by intros m [= <-]. Qed.

Definition away : MqttPublisher Channel (list CommandRequest) := set_router example_publisher (Some ∅).

Lemma command_handed_or_answered_witness :
  ∃ request, handed example_publisher
    (handle_incoming_publish no_error noon example_publisher "ocpp/CP1/command/current_limit" "16") "CP1" request.
Proof.
  pose proof (command_handed_or_answered no_error noon example_publisher "ocpp/CP1/command/current_limit" "16"
    ltac:(apply Nat.leb_le; vm_compute; reflexivity)) as Hc.
  assert (parse_command_topic "ocpp/CP1/command/current_limit" = Some ("CP1"%string, TopicCurrentLimit)) as Et
    by (vm_compute; reflexivity).
  assert (∃ r, parse_command_payload no_error (utc_now noon) TopicCurrentLimit "16" = Ok r) as [r Er]
    by (eexists; vm_compute; reflexivity).
  cbv zeta in Hc. rewrite Et, Er in Hc. exists r. destruct Hc as [Hh|(result & _ & _ & Hr)]; [exact Hh|].
  exfalso. exact Hr.
Defined.

Lemma reapply_on_link_up_witness :
  p_router (handle_event noon example_publisher (EvStateChange "CP1" Connected Connected)) =
  Some {["CP1"%string := mkRegistration 1 [reapply_request noon (of_Z 10)]]}.
Proof.
  assert (∃ m, status_message "CP1" Connected Connected = Some m) as [m Hm] by (eexists; vm_compute; reflexivity).
  destruct (reapply_on_link_up noon example_publisher "CP1" Connected Connected m Hm) as (_ & Hr & _).
  rewrite Hr. vm_compute. reflexivity.
Defined.

Lemma failed_command_drops_limit_witness :
  to_reapply (handle_incoming_publish no_error noon away "ocpp/CP1/command/current_limit" "16") "CP1"
    (Connected, Connected) = None.
Proof.
  assert (∃ r, parse_command_payload no_error (utc_now noon) TopicCurrentLimit "16" = Ok r ∧
               is_limit_command (req_command r) = true) as (r & Er & Hl) by (eexists; vm_compute; split; reflexivity).
  refine (proj2 (failed_command_drops_limit no_error noon away "ocpp/CP1/command/current_limit" "16" "CP1"
    TopicCurrentLimit r ∅ (set_limit cp_default (Some (of_Z 10)) (Some "accepted"%string) None) _ Er Hl eq_refl eq_refl eq_refl) _).
  vm_compute. reflexivity.
Defined.

Lemma mqtt_state_tracks_broker_witness :
  ∃ p', pub_run no_error example_publisher [(noon, PubPoll PollError); (noon, PubPoll PollOther)] = Some p' ∧
        p_state p' = Reconnecting.
Proof.
  destruct (mqtt_state_tracks_broker no_error example_publisher [(noon, PubPoll PollError); (noon, PubPoll PollOther)])
    as (p' & Hr & Hs & _).
  - apply Forall_cons_2; [exact I|]. apply Forall_cons_2; [exact I|apply Forall_nil_2].
  - exact example_publisher_inv.
  - exists p'. split; [exact Hr|exact Hs].
Defined.
