(* ===== verification/PublisherTypes.v ===== *)
(** * The types of the snapshots (src/mqtt.rs, src/charge_point_state.rs, src/snapshot_store.rs)

    The model keeps the integers and the doubles of a snapshot as unbounded integers and
    as all of IEEE 754. Here: from a load of any file on, through whatever the publisher
    does, they are the 64-bit integers and the finite doubles that have a JSON form, so
    that no save fails for its content. On the way, the shape of every argument on the
    snapshots: only folds change them, so what folds keep every event keeps. *)

From S2P Require Import Prelude Float64 Json Text Models StateManager Config Command CallQueue.
From S2P Require Import Forwarder ChargePoint SnapshotStore Publisher PublisherQueue PublisherCommands.

Local Open Scope Z_scope.

(** ** A save on a disk without faults *)

Section save.
Context `{SerdeJsonLaws} `{HashOrder}.

Definition no_faults (d : Disk) : Prop := d_faults d = [].

Lemma file_create_ok p d :
  no_faults d → ∃ d' i, file_create p d = (d', Ok i) ∧ no_faults d' ∧ d_names d' !! p = Some i ∧ is_Some (d_inodes d' !! i).
Proof.
  unfold no_faults, file_create, take_fault. intros Hd. rewrite Hd. destruct (d_names d !! p) as [i|] eqn:Hp; do 2 eexists;
    (split; [reflexivity|]); simpl; rewrite ?lookup_insert_eq; split_and!; by try eexists.
Qed.

Lemma write_ok i bytes d :
  no_faults d → is_Some (d_inodes d !! i) →
  ∃ d', write_all_bytes i bytes d = (d', Ok ()) ∧ no_faults d' ∧ d_names d' = d_names d ∧ is_Some (d_inodes d' !! i).
Proof.
  unfold no_faults, write_all_bytes, take_fault. intros Hd [n Hn]. rewrite Hd, Hn. eexists. split; [reflexivity|].
  simpl. rewrite lookup_insert_eq. split_and!; by try eexists.
Qed.

Lemma sync_ok i d :
  no_faults d → is_Some (d_inodes d !! i) → ∃ d', sync_all i d = (d', Ok ()) ∧ no_faults d' ∧ d_names d' = d_names d.
Proof.
  unfold no_faults, sync_all, take_fault. intros Hd [n Hn]. rewrite Hd, Hn. by eexists.
Qed.

Lemma rename_ok a b i d :
  no_faults d → d_names d !! a = Some i → ∃ d', fs_rename a b d = (d', Ok ()) ∧ no_faults d'.
Proof. unfold no_faults, fs_rename, take_fault. intros Hd Ha. rewrite Hd, Ha. by eexists. Qed.

Lemma save_ok path m d :
  no_faults d → map_Forall (λ _ st, cp_typed st = true) m → ∃ d', save_inner path m d = (d', Ok ()) ∧ no_faults d'.
Proof.
  intros Hd Hm. unfold save_inner, io_bind at 1. set (mk := if decide _ then _ else _).
  assert (∃ d0, mk d = (d0, Ok ()) ∧ no_faults d0) as (d0 & -> & Hd0).
  { unfold mk. case_decide; [|by exists d]. unfold create_dir_all, take_fault. rewrite Hd. by eexists. }
  destruct (to_json_from_str _ (snapshots_representable m Hm)) as (bytes & _ & -> & _). unfold io_bind.
  destruct (file_create_ok (with_extension path "json.tmp") d0 Hd0) as (d1 & i & -> & Hd1 & Hp & Hi).
  destruct (write_ok i bytes d1 Hd1 Hi) as (d2 & -> & Hd2 & E2 & Hi2).
  destruct (sync_ok i d2 Hd2 Hi2) as (d3 & -> & Hd3 & E3).
  apply rename_ok with (i := i); [done|by rewrite E3, E2].
Qed.
End save.

(** ** Snapshots keep their types *)

Section typed.
Context `{SerdeJson} `{Chrono}.

Lemma arg_i64_typed k args : opt_all in_i64 (arg_i64 k args) = true.
Proof.
  unfold arg_i64. destruct (map_get k args) as [v|]; simpl; [|done]. destruct v as [| |[z|]| | |]; simpl; try done.
  by destruct (in_i64 z) eqn:E.
Qed.

Lemma wrap_i64_range z : in_i64 (wrap_i64 z) = true.
Proof.
  unfold in_i64, wrap_i64. apply bool_decide_eq_true_2.
  pose proof (Z.mod_pos_bound (z + 2 ^ 63) (2 ^ 64) ltac:(lia)). lia.
Qed.

Lemma apply_args_typed st act mt args st' :
  cp_typed st = true → apply_args st act mt args = Some st' → cp_typed st' = true.
Proof.
  unfold cp_typed. intros [[[[[Htx Hms]%andb_prop Hmp]%andb_prop He]%andb_prop Hlt]%andb_prop Hl]%andb_prop Ha.
  unfold apply_args in Ha. destruct mt; repeat case_decide; simplify_eq/=;
    rewrite ?arg_i64_typed, ?Htx, ?Hms, ?Hmp, ?He, ?Hlt, ?Hl; try done.
  assert (opt_all in_i64 (option_or (arg_i64 "transactionId" args) (transaction_id st)) = true) as ->.
  { pose proof (arg_i64_typed "transactionId" args) as E. by destruct (arg_i64 "transactionId" args). }
  destruct (arg_i64 "meterStop" args), (meter_start_wh st); simpl; by rewrite ?wrap_i64_range.
Qed.

Lemma cp_apply_typed now st act mt text :
  cp_typed st = true → cp_typed (cp_apply now st act mt text).1 = true.
Proof.
  intros Ht. unfold cp_apply. destruct (ocpp_args text mt) as [args|]; [|done].
  destruct (apply_args st act mt args) as [st'|] eqn:E; [|done].
  pose proof (apply_args_typed st act mt args st' Ht E). by destruct (cp_eqb st' st).
Qed.
End typed.

(** ** What is loaded *)

Section loaded.
Context `{SerdeJsonLaws}.

Lemma in_i64_abs z : in_i64 z || in_u64 z = true → Z.abs z < 2 ^ 64.
Proof. unfold in_i64, in_u64. intros [E|E]%orb_prop; apply bool_decide_eq_true_1 in E; lia. Qed.

Lemma as_f64_finite v a : representable v = true → as_f64 v = Some a → is_finite a = true.
Proof. destruct v as [| |[z|b]| | |]; try done; intros Hr [= <-]; [by apply of_Z_finite, in_i64_abs|done]. Qed.

Lemma as_i64_range v z : as_i64 v = Some z → in_i64 z = true.
Proof. destruct v as [| |[n|b]| | |]; try done. simpl. destruct (in_i64 n) eqn:E; [|done]. by intros [= <-]. Qed.

Lemma map_get_representable k m v : representable (VObject m) = true → map_get k m = Some v → representable v = true.
Proof.
  intros [_ Hm]%andb_prop. induction m as [|[k' w] m IH]; [done|]. apply andb_prop in Hm as [Hw Hm]. simpl.
  case_decide; [by intros [= <-]|by apply IH].
Qed.

(** An optional field holds what its reader can give. *)
Lemma opt_field_all {A} (f : Value → option A) (ok : A → bool) k m o :
  representable (VObject m) = true → (∀ v a, representable v = true → f v = Some a → ok a = true) →
  opt_field f k m = Some o → opt_all ok o = true.
Proof.
  unfold opt_field. intros Hm Hf Ho. destruct (map_get k m) as [v|] eqn:E; [|by injection Ho as <-].
  pose proof (map_get_representable k m v Hm E) as Hv. destruct o as [a|]; [|done]. simpl.
  destruct v; try done; apply fmap_Some in Ho as (a0 & Ha0 & [= <-]); by eapply Hf.
Qed.

Lemma cp_of_value_typed v st : representable v = true → cp_of_value v = Some st → cp_typed st = true.
Proof.
  intros Hv Hc. unfold cp_of_value in Hc. destruct v as [| | | | |m]; try done. simpl in Hc.
  repeat (apply bind_Some in Hc as (? & ? & Hc)). injection Hc as <-. unfold cp_typed. simpl.
  assert (∀ k o, opt_field as_i64 k m = Some o → opt_all in_i64 o = true) as Hi
    by (intros k o; apply opt_field_all; [done|intros w z _; apply as_i64_range]).
  assert (∀ k o, opt_field as_f64 k m = Some o → opt_all is_finite o = true) as Hd
    by (intros k o; apply opt_field_all; [done|apply as_f64_finite]).
  repeat (apply andb_true_intro; split); first [by eapply Hi|by eapply Hd].
Qed.

Definition snaps_typed (m : SnapshotMap) : Prop := map_Forall (λ _ st, cp_typed st = true) m.

Lemma entries_typed l m : representable (VObject l) = true → snapshots_of_entries l = Some m → snaps_typed m.
Proof.
  intros [_ Hl]%andb_prop. revert m. induction l as [|[id v] l IH]; intros m; simpl; [by intros [= <-]|].
  apply andb_prop in Hl as [Hv Hl]. intros (st & Hst & (m' & Hm' & [= <-])%bind_Some)%bind_Some.
  apply map_Forall_insert_2; [by eapply cp_of_value_typed|by apply IH].
Qed.

Lemma store_load_typed store d : snaps_typed (store_load store d).2.
Proof.
  unfold store_load. destruct (store_path store) as [path|]; [|done].
  destruct (fs_read path d) as [d' [bytes|[]]]; simpl; try done.
  destruct (from_slice bytes) as [m|] eqn:E; [|done]. simpl.
  apply bind_Some in E as (text & _ & (v & Hv & Hm)%bind_Some).
  destruct (from_str text) as [w|] eqn:Ew; [|done]. injection Hv as ->. apply from_str_representable in Ew.
  unfold snapshots_of_value in Hm. destruct v; try done. by eapply entries_typed.
Qed.
End loaded.

(** ** What is folded *)

Section folded.
Context {T R : Type} `{MqttClientLaws T} `{MpscSender R CommandRequest} `{SerdeJsonLaws} `{Chrono} `{HashOrder}.
Context (serde_error : Value → string) (io_error_fmt : IoError → string).
Implicit Types (p : MqttPublisher T R).

Definition typed_result (result : CommandResult) : bool := opt_all is_finite (res_applied_limit_a result).

Lemma command_result_typed now st result :
  cp_typed st = true → typed_result result = true → cp_typed (apply_command_result now st result).1 = true.
Proof.
  intros Hst Hr. unfold apply_command_result. destruct (is_limit_result result); [|done]. simpl.
  set (limit := if decide (res_status result = Accepted) then _ else _).
  assert (opt_all is_finite limit = true) as Hl.
  { unfold limit. unfold cp_typed in Hst. apply andb_prop in Hst as [_ Hst]. by repeat case_decide. }
  unfold cp_typed in *. apply andb_prop in Hst as [Hst _]. by destruct (cp_eqb _ _); simpl; rewrite Hst.
Qed.

(** The snapshots, the store and the disk: what a fold reads and writes. *)
Definition store_part p : SnapshotMap * SnapshotStore * Disk := (p_snapshots p, p_store p, p_disk p).

Lemma data_part p (q : MqttPublisher T R) : data_of p = data_of q → store_part p = store_part q.
Proof. unfold data_of, store_part. congruence. Qed.

(** The functions the publisher folds into a snapshot. *)
Inductive fold_fn : (ChargePointState → ChargePointState * bool) → Prop :=
  | fold_message now act mt text : fold_fn (λ st, cp_apply now st act mt text)
  | fold_result now result : typed_result result = true → fold_fn (λ st, apply_command_result now st result).

Lemma fold_fn_typed f st : fold_fn f → cp_typed st = true → cp_typed (f st).1 = true.
Proof. intros []; [apply cp_apply_typed|intros Hst; by apply command_result_typed]. Qed.

Lemma fold_fn_unchanged f st : fold_fn f → (f st).2 = false → (f st).1 = st ∨ cp_eqb (f st).1 st = true.
Proof.
  intros [now act mt text|now result _].
  - unfold cp_apply. destruct (ocpp_args text mt) as [args|]; [|by left].
    destruct (apply_args st act mt args) as [st'|]; [|by left]. destruct (cp_eqb st' st) eqn:E; [by right|done].
  - unfold apply_command_result. destruct (negb _); [by left|]. cbv zeta. destruct (cp_eqb _ st) eqn:E; [by right|done].
Qed.

(** What a fold leaves of that part. *)
Lemma fold_part p id f :
  store_part (fold_snapshot p id f) =
  (let st := f (default cp_default (p_snapshots p !! id)) in
   let m := <[id := st.1]> (p_snapshots p) in
   (m, p_store p, if st.2 : bool then store_save (p_store p) m (p_disk p) else p_disk p)).
Proof.
  unfold fold_snapshot, publish_charge_point_state. destruct (f _) as [st []]; [|done].
  by rewrite enqueue_opt_all, (data_part _ _ (proj1 (enqueue_all_data _ _))).
Qed.

Lemma on_connack_part c p : store_part (on_connack c p) = store_part p.
Proof.
  rewrite on_connack_greeted, (data_part _ _ (proj1 (try_subscribe_spec _))).
  unfold greeted. set (q := set_p_backoff _ _). change (store_part p) with (store_part q). rewrite republish_all.
  change (store_part (set_subscribe ?x _ _)) with (store_part x).
  rewrite (data_part _ _ (proj1 (enqueue_all_data _ _))), (data_part _ _ (proj1 (flush_rest _))).
  unfold publish_online. destruct (p_lwt q); [|done]. by rewrite (data_part _ _ (proj1 (drain_buffer_data _))).
Qed.

(** The results sessions report have applied a finite limit, or none. *)
Definition typed_event (e : PubEvent (R := R)) : bool :=
  match e with PubRecv (EvCommandResult _ result) => typed_result result | _ => true end.

(** *** What every fold keeps every event keeps *)

Section kept_by_folds.
Context (P : SnapshotMap * SnapshotStore * Disk → Prop).
Hypothesis P_fold : ∀ p id f, P (store_part p) → fold_fn f → P (store_part (fold_snapshot p id f)).

Lemma publish_result_kept c p id result :
  P (store_part p) → typed_result result = true → P (store_part (publish_command_result c p id result)).
Proof.
  intros Hp Hr. unfold publish_command_result. apply P_fold; [|by constructor].
  by rewrite enqueue_opt_all, (data_part _ _ (proj1 (enqueue_all_data _ _))).
Qed.

(** A command that is not handed over has applied no limit. *)
Lemma dispatch_kept c p id request : P (store_part p) → P (store_part (dispatch_command c p id request)).
Proof.
  intros Hp. unfold dispatch_command. destruct (p_router p) as [r|]; [|by apply publish_result_kept].
  destruct (dispatch r id request) as [r' [[]|e]]; [done|]. apply publish_result_kept; [done|by destruct e].
Qed.

Lemma incoming_kept c p topic payload :
  P (store_part p) → P (store_part (handle_incoming_publish serde_error c p topic payload)).
Proof.
  intros Hp. unfold handle_incoming_publish. destruct (parse_command_topic topic) as [[id kind]|]; [|done].
  destruct (parse_command_payload _ _ _ _) as [request|]; [by apply dispatch_kept|by apply publish_result_kept].
Qed.

Lemma handle_event_kept c p e :
  P (store_part p) → typed_event (PubRecv e) = true → P (store_part (handle_event c p e)).
Proof.
  intros Hp He. destruct e as [id frame d act|id up down|id result]; simpl; [| |by apply publish_result_kept].
  - destruct (event_message id frame d act) as [m|]; [|done]. apply P_fold; [|constructor].
    by rewrite (data_part _ _ (proj1 (enqueue_data _ _))).
  - destruct (status_message id up down) as [m|]; [|done].
    set (q := set_links _ _). assert (P (store_part q)) as Hq.
    { change (store_part q) with (store_part (enqueue p m)). by rewrite (data_part _ _ (proj1 (enqueue_data _ _))). }
    destruct (_ && _); [|done]. unfold maybe_reapply_limit.
    destruct (p_charging q) as [ch|]; [|done]. destruct (reapply_on_connect ch); [|done].
    destruct (_ ≫= standing_limit) as [a|]; [|done]. by apply dispatch_kept.
Qed.

Lemma pub_step_kept p ce p' :
  P (store_part p) → typed_event ce.2 = true → pub_step serde_error p ce = Some p' → P (store_part p').
Proof.
  destruct ce as [c [[|topic payload| |]|e|fr fm]]; intros Hp He Hs; unfold pub_step in Hs; cbn [fst snd on_poll] in Hs.
  - injection Hs as <-. by rewrite (on_connack_part c (after_poll p PollConnAck)).
  - injection Hs as <-. set (q := handle_incoming_publish _ _ _ _ _).
    assert (P (store_part q)) as Hq by (by apply incoming_kept).
    unfold drain_if_connected. case_decide; [|done]. by rewrite (data_part _ _ (proj1 (drain_buffer_data _))).
  - injection Hs as <-. case_decide; [|done].
    by rewrite (data_part _ _ (proj1 (drain_buffer_data _))), (data_part _ _ (proj1 (try_subscribe_spec _))).
  - unfold on_poll_error in Hs. destruct (next_delay _) as [[d b]|]; [|done]. injection Hs as <-. simpl. by case_decide.
  - injection Hs as <-. by apply handle_event_kept.
  - by injection Hs as <-.
Qed.

Lemma pub_run_kept p l p' :
  P (store_part p) → forallb (λ ce, typed_event ce.2) l = true → pub_run serde_error p l = Some p' → P (store_part p').
Proof.
  revert p. induction l as [|ce l IH]; intros p Hp; simpl; [by intros _ [= <-]|].
  intros [He Hl]%andb_prop (p1 & Hs & Hr)%bind_Some. apply (IH p1); [by eapply pub_step_kept|done..].
Qed.
End kept_by_folds.

Lemma fold_keeps_types p id f :
  snaps_typed (p_snapshots p) → fold_fn f → snaps_typed (p_snapshots (fold_snapshot p id f)).
Proof.
  intros Hp Hf. change (p_snapshots (fold_snapshot p id f)) with (store_part (fold_snapshot p id f)).1.1. rewrite fold_part.
  apply map_Forall_insert_2; [|done]. apply fold_fn_typed; [done|].
  destruct (p_snapshots p !! id) as [st|] eqn:E; [by apply (Hp id)|done].
Qed.

(** C38. Whatever the disk held when the publisher was built, and whatever it has handled
    since, the limits that sessions report as applied being finite numbers, the snapshots are values of their Rust types: integers of 64 bits, also the
    energies, which are differences, and doubles that are finite, also the limits read
    from a file, however long its integers. So they always have a JSON form, and a save on
    a disk without faults succeeds. *)
Theorem snapshots_typed config lwt max_buffer store d d' p l p' :
  publisher_new io_error_fmt config lwt max_buffer store d = (d', Ok p) →
  forallb (λ ce, typed_event ce.2) l = true → pub_run serde_error p l = Some p' →
  (∀ id st, p_snapshots p' !! id = Some st → cp_typed st = true) ∧
  representable (snapshots_to_value (p_snapshots p')) = true ∧
  ∀ path disk, no_faults disk → (save_inner path (p_snapshots p') disk).2 = Ok ().
Proof.
  unfold publisher_new. intros Hn Hl Hr. assert (snaps_typed (p_snapshots p')) as Hty.
  { assert (snaps_typed (p_snapshots p)) as Hp.
    { destruct (build_tls_config _ _ _) as [d1 [tls|e]]; [|done].
      pose proof (store_load_typed store d1) as Ht. destruct (store_load store d1) as [d2 m]. by injection Hn as _ <-. }
    apply (pub_run_kept (λ part, snaps_typed part.1.1)) with (p := p) (l := l); [|done..].
    intros q id f Hq Hf. by apply fold_keeps_types. }
  split_and!; [exact Hty|by apply snapshots_representable|].
  intros path disk Hd. by destruct (save_ok path (p_snapshots p') disk Hd Hty) as (? & -> & _).
Qed.
End folded.

(** ** Witness *)

#[local] Existing Instance reference_codec.
#[local] Existing Instance reference_codec_laws.
#[local] Existing Instance plain_chrono.
#[local] Existing Instance key_order.

Definition plain_broker : MqttConfig := mkMqttConfig "broker" 1883 "user" "secret" None None None.

Definition fmt_io (e : IoError) : string := match e with NotFound => "not found" | OtherError m => m end.

(** A file with the largest integer as the limit. *)
Definition odd_file : string :=
  text_of (VObject [("CP1", VObject [("current_limit_a", json_u (2 ^ 64 - 1))])])%string.

Definition odd_disk : Disk := mkDisk {[state_file := 0%nat]} {[0%nat := mkInode odd_file true]} ∅ [].

(** A session from the smallest reading to the largest. *)
Definition call_frame (act : string) (args : Map) : OcppFrame :=
  mkFrame (text_of (VArray [json_u 2; json_str "1"; json_str act; VObject args])) (Call act) "1" 0.

Definition wide_session : list (Clock * PubEvent (R := list CommandRequest)) :=
  [(noon, PubPoll PollConnAck);
   (noon, PubRecv (EvMessageForwarded "CP1" (call_frame "StartTransaction" [("meterStart"%string, json_u (- 2 ^ 63))])
      ChargerToCentral "StartTransaction"));
   (noon, PubRecv (EvMessageForwarded "CP1" (call_frame "StopTransaction" [("meterStop"%string, json_u (2 ^ 63 - 1))])
      ChargerToCentral "StopTransaction"))].

Lemma snapshots_typed_witness :
  ∃ p p' : MqttPublisher Channel (list CommandRequest), ∃ st,
    (publisher_new fmt_io plain_broker None 500 (store_new (Some state_file)) odd_disk).2 = Ok p ∧
    pub_run no_error p wide_session = Some p' ∧ p_snapshots p' !! "CP1"%string = Some st ∧
    last_session_energy_wh st = Some (-1) ∧ is_Some (current_limit_a st) ∧ cp_typed st = true.
Proof.
  destruct (publisher_new (T := Channel) (R := list CommandRequest) fmt_io plain_broker None 500
              (store_new (Some state_file)) odd_disk) as [d' [p|e]] eqn:Ep; [|vm_compute in Ep; discriminate Ep].
  destruct (pub_run no_error p wide_session) as [p'|] eqn:Er;
    [|vm_compute in Ep; injection Ep as _ <-; vm_compute in Er; discriminate Er].
  destruct (snapshots_typed no_error fmt_io plain_broker None 500 (store_new (Some state_file)) odd_disk d' p wide_session p'
              Ep eq_refl Er) as [Hty _].
  specialize (Hty "CP1"%string). vm_compute in Ep. injection Ep as _ <-. vm_compute in Er. injection Er as <-.
  eexists _, _, _. split; [reflexivity|]. split; [vm_compute; reflexivity|]. split; [vm_compute; reflexivity|].
  split; [reflexivity|]. split; [vm_compute; eexists; reflexivity|]. apply Hty. vm_compute. reflexivity.
Defined.
