(* ===== verification/PublisherRestart.v ===== *)
(** * Across a restart of the proxy (src/mqtt.rs, src/snapshot_store.rs)

    What the publisher has folded into its snapshots it has also saved: at any moment the
    file holds, for every charge point, what the publisher would find there if it were
    started again. *)

From S2P Require Import Prelude Float64 Json Text Models StateManager Config Command CallQueue.
From S2P Require Import Forwarder ChargePoint SnapshotStore Publisher PublisherQueue PublisherCommands PublisherTypes.

Local Open Scope Z_scope.

(** ** In step with the file *)

(** What a publisher holds for a charge point, and what a load gives: the same, the limit to
    within the precision of the JSON reader; a blank snapshot may have no entry. *)
Definition restored (held loaded : option ChargePointState) : Prop :=
  match held, loaded with
  | Some st, Some st' => cp_agree st st'
  | Some st, None => st = cp_default
  | None, None => True
  | None, Some _ => False
  end.

Lemma restored_refl o : restored o o.
Proof. destruct o; [apply cp_agree_refl|done]. Qed.

Lemma restored_agree a b : option_Forall2 cp_agree a b → restored a b.
Proof. by intros []. Qed.

(** A fold that changes nothing leaves what the file agrees with, and makes an entry for a
    charge point that had none, blank. *)
Lemma restored_unchanged held st o :
  st = default cp_default held ∨ cp_eqb st (default cp_default held) = true → restored held o → restored (Some st) o.
Proof.
  intros Hst Hr. destruct held as [old|], o as [st'|]; simpl in *; try done.
  - destruct Hst as [->|Hst]; [done|by eapply cp_eqb_agree].
  - subst old. destruct Hst as [->|Hst]; [done|]. by apply cp_eqb_default.
  - destruct Hst as [->|Hst]; [done|by apply cp_eqb_default].
Qed.

Section in_step.
Context {T R : Type} `{MqttClientLaws T} `{MpscSender R CommandRequest}.
Context `{SerdeJsonLaws} `{Chrono} `{HashOrder} (path : string).
Implicit Types (p : MqttPublisher T R).

Lemma load_quiet d : no_faults d → (store_load (store_new (Some path)) d).1 = d.
Proof.
  unfold no_faults, store_load, fs_read, take_fault. simpl. intros ->. simpl.
  by destruct (contents d path).
Qed.

(** The snapshots are typed, and the disk, which does not fail, holds them. *)
Definition in_step (part : SnapshotMap * SnapshotStore * Disk) : Prop :=
  let '(m, store, d) := part in
  store = store_new (Some path) ∧ disk_ok path (tmp_of path) d ∧ no_faults d ∧ snaps_typed m ∧
  ∀ id, restored (m !! id) ((store_load store d).2 !! id).

Lemma fold_in_step p id f :
  writes_utf8 → in_step (store_part p) → fold_fn f → in_step (store_part (fold_snapshot p id f)).
Proof.
  intros Hutf Hp Hf. destruct Hp as (Hst & Hok & Hnf & Hty & Hd). pose proof (fold_keeps_types p id f Hty Hf) as Hty'.
  change (p_snapshots (fold_snapshot p id f)) with (store_part (fold_snapshot p id f)).1.1 in Hty'.
  rewrite fold_part in *. cbv zeta in *. set (st := f _) in *. simpl in Hty'. rewrite Hst in *.
  unfold in_step. split; [done|]. destruct st.2 eqn:Hch.
  - unfold store_save. cbn [store_path store_new]. destruct (save_ok path _ (p_disk p) Hnf Hty') as (d' & Hsave & Hnf').
    pose proof (save_inner_saved path (<[id := st.1]> (p_snapshots p)) (p_disk p) Hok) as Hsaved.
    rewrite Hsave in *. destruct Hsaved as (Hok' & _). split_and!; [done..|]. intros id'. apply restored_agree.
    apply (load_snapshot path _ (p_disk p)); [done..|]. unfold take_fault. simpl. by rewrite Hnf'.
  - split_and!; [done..|]. intros id'. destruct (decide (id' = id)) as [->|Hne]; [|by rewrite lookup_insert_ne].
    rewrite lookup_insert_eq. apply (restored_unchanged (p_snapshots p !! id)); [|apply Hd].
    by apply (fold_fn_unchanged f).
Qed.
End in_step.

Section restart.
Context {T R : Type} `{MqttClientLaws T} `{MpscSender R CommandRequest}.
Context `{SerdeJsonLaws} `{Chrono} `{HashOrder} (serde_error : Value → string) (io_error_fmt : IoError → string).
Implicit Types (p : MqttPublisher T R).

(** Reading certificates leaves the disk as it was. *)
Lemma tls_quiet config d : no_faults d → (build_tls_config io_error_fmt config d).1 = d.
Proof.
  intros Hd. assert (∀ what at_, read_pem io_error_fmt what at_ d = (d, (read_pem io_error_fmt what at_ d).2)) as Hr.
  { intros what at_. unfold read_pem, fs_read, take_fault. rewrite Hd. by destruct (ok_or _ _). }
  unfold build_tls_config. destruct (ca_cert_path config); [|done]. rewrite Hr.
  destruct (read_pem _ _ _ d).2; [|done]. destruct (client_cert_path config), (client_key_path config); try done.
  rewrite Hr. destruct (read_pem _ _ _ d).2; [|done]. rewrite Hr. by destruct (read_pem _ _ _ d).2.
Qed.

(** A new publisher is in step with the file it has loaded. *)
Lemma publisher_new_in_step config lwt max_buffer path d d' p :
  disk_ok path (tmp_of path) d → no_faults d →
  publisher_new io_error_fmt config lwt max_buffer (store_new (Some path)) d = (d', Ok p) → in_step path (store_part p).
Proof.
  intros Hok Hnf Hn. unfold publisher_new in Hn. pose proof (tls_quiet config d Hnf) as Hq.
  destruct (build_tls_config _ _ _) as [d1 [tls|e]]; [|done]. simpl in Hq. subst d1.
  pose proof (load_quiet path d Hnf) as Hl. pose proof (store_load_typed (store_new (Some path)) d) as Hty.
  destruct (store_load (store_new (Some path)) d) as [d2 m] eqn:E. simpl in Hl, Hty. subst d2. injection Hn as _ <-.
  unfold in_step, store_part. simpl. split_and!; [done..|]. intros id. rewrite E. apply restored_refl.
Qed.

(** C36. A restart loses nothing of the snapshots. Take a publisher started on a disk without
    faults, whose snapshot file, if there is one, is synced and is not the temporary one
    ([disk_ok]), and which writes JSON as UTF-8; what it is given before it runs does not
    matter, as long as its snapshots, its store and its disk are as it loaded them. Let it
    handle any events: messages of either side, command results, which set the limit and
    must not report one that is no finite number, commands of the broker, polls of every
    kind. Then a publisher started on the disk as it is at that moment, if the certificates
    its configuration names can be read, holds for every charge point what the first one
    held: every field is equal, and the limit is the same double to within the precision
    with which the JSON reader reads one. Only an entry that is still blank need not come
    back. *)
Theorem restart_restores path config lwt max_buffer d d1 p0 p l p' config' lwt' max_buffer' :
  writes_utf8 → disk_ok path (tmp_of path) d → no_faults d →
  publisher_new io_error_fmt config lwt max_buffer (store_new (Some path)) d = (d1, Ok p0) →
  store_part p = store_part p0 →
  forallb (λ ce, typed_event ce.2) l = true → pub_run serde_error p l = Some p' →
  match publisher_new io_error_fmt config' lwt' max_buffer' (store_new (Some path)) (p_disk p') with
  | (_, Ok q) => ∀ id, restored (p_snapshots p' !! id) (p_snapshots (q : MqttPublisher T R) !! id)
  | (_, Err _) => ca_cert_path config' ≠ None
  end.
Proof.
  intros Hutf Hok Hnf Hn Hp Hl Hr.
  assert (in_step path (store_part p')) as (Hst & _ & Hnf' & _ & Hd).
  { apply (pub_run_kept serde_error (in_step path)) with (p := p) (l := l); [|rewrite Hp|done..].
    - intros q id f Hq Hf. by apply fold_in_step.
    - by eapply publisher_new_in_step. }
  unfold publisher_new. pose proof (tls_quiet config' (p_disk p') Hnf') as Hq.
  destruct (build_tls_config _ _ _) as [d2 [tls|e]] eqn:Etls; simpl in Hq; subst d2.
  - rewrite Hst in Hd. destruct (store_load (store_new (Some path)) (p_disk p')) as [d3 m]. exact Hd.
  - intros Hca. unfold build_tls_config in Etls. by rewrite Hca in Etls.
Qed.
End restart.

(** ** Witness *)

#[local] Existing Instance reference_codec.
#[local] Existing Instance reference_codec_laws.
#[local] Existing Instance plain_chrono.
#[local] Existing Instance key_order.

(** A limit of 9.7 A accepted, and a StatusNotification. *)
Definition limit_result : CommandResult :=
  mkResult "1" VNull SourceMqtt Accepted (Some "SetChargingProfile"%string) (Some (fdiv (of_Z 97) (of_Z 10)))
    (Some (fdiv (of_Z 97) (of_Z 10))) None None None "2024-01-01T00:00:00Z".

Definition eventful : list (Clock * PubEvent (R := list CommandRequest)) :=
  [(noon, PubPoll PollConnAck); (noon, PubRecv (EvCommandResult "CP1" limit_result));
   (noon, PubRecv (EvMessageForwarded "CP1" (call_frame "StatusNotification" [("status"%string, json_str "Charging")])
      ChargerToCentral "StatusNotification"))].

Abbreviation start_again := (publisher_new (T := Channel) (R := list CommandRequest) fmt_io plain_broker None 500 (store_new (Some state_file))).

(** The run ends with both in the snapshot, and the second publisher has an entry too. *)
Lemma eventful_run :
  match start_again (example_disk []) with
  | (_, Ok p) =>
      match pub_run no_error p eventful with
      | Some p' =>
          match start_again (p_disk p') with
          | (_, Ok q) =>
              match p_snapshots p' !! "CP1"%string, p_snapshots q !! "CP1"%string with
              | Some st, Some _ => (current_limit_a st, connector_status st) = (Some (fdiv (of_Z 97) (of_Z 10)), Some "Charging"%string)
              | _, _ => False
              end
          | _ => False
          end
      | None => False
      end
  | _ => False
  end.
Proof. vm_compute. reflexivity. Qed.

Lemma restart_restores_witness :
  ∃ p p' q : MqttPublisher Channel (list CommandRequest), ∃ st st',
    (start_again (example_disk [])).2 = Ok p ∧ pub_run no_error p eventful = Some p' ∧
    (start_again (p_disk p')).2 = Ok q ∧
    p_snapshots p' !! "CP1"%string = Some st ∧ p_snapshots q !! "CP1"%string = Some st' ∧ cp_agree st st' ∧
    current_limit_a st = Some (fdiv (of_Z 97) (of_Z 10)) ∧ connector_status st = Some "Charging"%string.
Proof.
  pose proof eventful_run as Hrun. destruct (start_again (example_disk [])) as [d1 [p|e]] eqn:Ep; [|destruct Hrun].
  destruct (pub_run no_error p eventful) as [p'|] eqn:Er; [|destruct Hrun].
  pose proof (restart_restores no_error fmt_io state_file plain_broker None 500 (example_disk []) d1 p p eventful p'
                plain_broker None 500%nat reference_writes_utf8 (example_disk_ok []) eq_refl Ep eq_refl eq_refl Er) as Hq.
  destruct (start_again (p_disk p')) as [d2 [q|e]] eqn:Eq; [|destruct Hrun].
  specialize (Hq "CP1"%string). destruct (p_snapshots p' !! _) as [st|] eqn:Es; [|destruct Hrun].
  destruct (p_snapshots q !! _) as [st'|] eqn:Es'; [|destruct Hrun]. injection Hrun as Hl Hc.
  exists p, p', q, st, st'. rewrite Eq. by split_and!.
Defined.
