(* ===== verification/Downstream.v ===== *)
(** * The server for chargers (src/downstream.rs) and its draining (src/main.rs)

    Every charger's connection is a handler task; the tasks share the registry of
    connections, the command router, the state manager and the publisher's channel.
    Each use of a shared object, which the code makes under its lock, is one step, and
    a run is any interleaving of the steps of any number of handlers. The session a
    handler runs is the subject of Session.v: here it is the step from [PcRunning] to
    [PcSessionOver], taken when it returns. *)

From Stdlib Require Import Ascii.
From S2P Require Import Prelude Json Text Models StateManager Command CallQueue Forwarder.

Local Open Scope Z_scope.

Definition OCPP16_SUBPROTOCOL : string := "ocpp1.6".

(** ** The subprotocol *)

Definition validate_subprotocol (protocols : list string) : bool :=
  existsb (λ p, bool_decide (p = OCPP16_SUBPROTOCOL)) protocols.

Definition parse_subprotocol_header (header_value : string) : list string :=
  retain (λ s, negb (bool_decide (s = ""%string))) (trim <$> split ","%char header_value).

(** The header as [HeaderMap] gives it: absent, or its text if it has one. *)
Definition subprotocol_valid (header : option (option string)) : bool :=
  match header with
  | Some (Some header_str) => validate_subprotocol (parse_subprotocol_header header_str)
  | Some None | None => false
  end.

(** ** Shared state *)

(** A connection's token is named by the handler that owns it. *)
Record ActiveConnection := mkActive { ac_generation : Z; ac_cancel : nat }.

(** Where a handler is in [handle_connection]; the generation comes with the first step. *)
Inductive HandlerPc :=
  | PcStart
  | PcNumbered (generation : Z)
  | PcInMap (generation : Z)
  | PcRouted (generation : Z)
  | PcConnected (generation : Z) (states : ConnectionState * ConnectionState)
  | PcRunning (generation : Z)
  | PcSessionOver (generation : Z)
  | PcUnrouted (generation : Z)
  | PcLeaving
  | PcLeft (states : ConnectionState * ConnectionState)
  | PcDone.

Record Handler := mkHandler { h_id : string; h_pc : HandlerPc }.

Record DownstreamState (T R : Type) := mkDownstream {
  ds_connections : gmap string ActiveConnection;
  ds_manager : ConnectionStateManager;
  ds_mqtt_tx : T;
  ds_shutdown : bool;
  ds_generation : Z;
  ds_router : CommandRouter R;
  ds_cancelled : gset nat;
  ds_handlers : gmap nat Handler
}.
Arguments mkDownstream {T R} _ _ _ _ _ _ _ _.
Arguments ds_connections {T R} _.
Arguments ds_manager {T R} _.
Arguments ds_mqtt_tx {T R} _.
Arguments ds_shutdown {T R} _.
Arguments ds_generation {T R} _.
Arguments ds_router {T R} _.
Arguments ds_cancelled {T R} _.
Arguments ds_handlers {T R} _.

Section downstream.
Context {T R : Type} `{MpscSender T MqttEvent} `{MpscSender R CommandRequest} (new_inbox : nat → nat → R).
Implicit Types (d : DownstreamState T R).

Definition downstream_new (manager : ConnectionStateManager) (tx : T) : DownstreamState T R :=
  mkDownstream ∅ manager tx false 1 ∅ ∅ ∅.

(** A child token is cancelled with its parent. *)
Definition is_cancelled d (t : nat) : bool := ds_shutdown d || bool_decide (t ∈ ds_cancelled d).

Definition set_ds_manager d (m : ConnectionStateManager) : DownstreamState T R :=
  mkDownstream (ds_connections d) m (ds_mqtt_tx d) (ds_shutdown d) (ds_generation d) (ds_router d)
    (ds_cancelled d) (ds_handlers d).
Definition set_ds_router d (r : CommandRouter R) : DownstreamState T R :=
  mkDownstream (ds_connections d) (ds_manager d) (ds_mqtt_tx d) (ds_shutdown d) (ds_generation d) r
    (ds_cancelled d) (ds_handlers d).
Definition set_pc d (t : nat) (h : Handler) (pc : HandlerPc) : DownstreamState T R :=
  mkDownstream (ds_connections d) (ds_manager d) (ds_mqtt_tx d) (ds_shutdown d) (ds_generation d) (ds_router d)
    (ds_cancelled d) (<[t := mkHandler (h_id h) pc]> (ds_handlers d)).

(** [ws_upgrade_handler]: a request without the subprotocol is answered 400; any other
    is upgraded, by the handler [t], and shown as connecting. *)
Definition ws_upgrade_handler (now : Z) d (t : nat) (id : string) (header : option (option string)) :
    DownstreamState T R * bool :=
  if subprotocol_valid header then
    let d := set_ds_manager d (transition now (ds_manager d) Downstream Connecting) in
    (set_pc d t (mkHandler id PcStart) PcStart, true)
  else (d, false).

(** [fetch_add], the first half of [register_connection]: it wraps. *)
Definition take_generation d : Z * DownstreamState T R :=
  (ds_generation d,
   mkDownstream (ds_connections d) (ds_manager d) (ds_mqtt_tx d) (ds_shutdown d) (wrap_u64 (ds_generation d + 1))
     (ds_router d) (ds_cancelled d) (ds_handlers d)).

(** The second half of [register_connection]: the displaced connection is cancelled. *)
Definition register_connection d (t : nat) (id : string) (generation : Z) : DownstreamState T R :=
  let cancelled := match ds_connections d !! id with
                   | Some existing => {[ac_cancel existing]} ∪ ds_cancelled d
                   | None => ds_cancelled d
                   end in
  mkDownstream (<[id := mkActive generation t]> (ds_connections d)) (ds_manager d) (ds_mqtt_tx d) (ds_shutdown d)
    (ds_generation d) (ds_router d) cancelled (ds_handlers d).

Definition deregister_connection d (id : string) (generation : Z) : DownstreamState T R * bool :=
  match ds_connections d !! id with
  | Some active =>
      if ac_generation active =? generation then
        (mkDownstream (delete id (ds_connections d)) (ds_manager d) (ds_mqtt_tx d) (ds_shutdown d)
           (ds_generation d) (ds_router d) (ds_cancelled d) (ds_handlers d), true)
      else (d, false)
  | None => (d, false)
  end.

(** The transition of the downstream state, and the two states read under the same lock. *)
Definition report (now : Z) d (s : ConnectionState) : DownstreamState T R * (ConnectionState * ConnectionState) :=
  let m := transition now (ds_manager d) Downstream s in
  (set_ds_manager d m, (upstream_state m, downstream_state m)).

(** [publish_status], which lets a refusal of the channel pass. *)
Definition publish_link d (id : string) (states : ConnectionState * ConnectionState) : DownstreamState T R :=
  mkDownstream (ds_connections d) (ds_manager d) (try_send (ds_mqtt_tx d) (EvStateChange id states.1 states.2)).1
    (ds_shutdown d) (ds_generation d) (ds_router d) (ds_cancelled d) (ds_handlers d).

(** [handle_connection], a step at a time. *)
Definition handler_step (now : Z) d (t : nat) (h : Handler) : option (DownstreamState T R) :=
  let id := h_id h in
  match h_pc h with
  | PcStart => let '(g, d) := take_generation d in Some (set_pc d t h (PcNumbered g))
  | PcNumbered g => Some (set_pc (register_connection d t id g) t h (PcInMap g))
  | PcInMap g =>
      Some (set_pc (set_ds_router d (register (ds_router d) id g (new_inbox t COMMAND_CHANNEL_CAPACITY))) t h (PcRouted g))
  | PcRouted g => let '(d, states) := report now d Connected in Some (set_pc d t h (PcConnected g states))
  | PcConnected g states => Some (set_pc (publish_link d id states) t h (PcRunning g))
  | PcRunning g => Some (set_pc d t h (PcSessionOver g))
  | PcSessionOver g => Some (set_pc (set_ds_router d (deregister (ds_router d) id g).1) t h (PcUnrouted g))
  | PcUnrouted g =>
      let '(d, still_current) := deregister_connection d id g in
      Some (set_pc d t h (if still_current : bool then PcLeaving else PcDone))
  | PcLeaving => let '(d, states) := report now d Disconnected in Some (set_pc d t h (PcLeft states))
  | PcLeft states => Some (set_pc (publish_link d id states) t h PcDone)
  | PcDone => None
  end.

(** What the sessions, which hold the receivers, do to the channels whose senders the
    router holds. *)
Definition map_inboxes (f : R → R) (router : CommandRouter R) : CommandRouter R :=
  (λ reg, mkRegistration (reg_generation reg) (f (reg_tx reg))) <$> router.

(** What can happen: a request to upgrade, an upgrade that fails after its answer, a step
    of a handler, a command dispatched by the publisher, the inboxes read by the sessions,
    the state manager changed by a session or the publisher, and the shutdown. *)
Inductive DsAction :=
  | DsUpgrade (t : nat) (id : string) (header : option (option string))
  | DsUpgradeFailed (t : nat)
  | DsHandler (t : nat)
  | DsDispatch (id : string) (request : CommandRequest)
  | DsInboxes (f : R → R)
  | DsManager (f : ConnectionStateManager → ConnectionStateManager)
  | DsShutdown.

Definition ds_step d (na : Z * DsAction) : option (DownstreamState T R) :=
  match na.2 with
  | DsUpgrade t id header =>
      if decide (ds_handlers d !! t = None) then Some (ws_upgrade_handler na.1 d t id header).1 else None
  | DsUpgradeFailed t =>
      h ← ds_handlers d !! t;
      match h_pc h with PcStart => Some (set_pc d t h PcDone) | _ => None end
  | DsHandler t => h ← ds_handlers d !! t; handler_step na.1 d t h
  | DsDispatch id request => Some (set_ds_router d (dispatch (ds_router d) id request).1)
  | DsInboxes f => Some (set_ds_router d (map_inboxes f (ds_router d)))
  | DsManager f => Some (set_ds_manager d (f (ds_manager d)))
  | DsShutdown =>
      Some (mkDownstream (ds_connections d) (ds_manager d) (ds_mqtt_tx d) true (ds_generation d) (ds_router d)
              (ds_cancelled d) (ds_handlers d))
  end.

Fixpoint ds_run d (l : list (Z * DsAction)) : option (DownstreamState T R) :=
  match l with
  | [] => Some d
  | na :: l => d ← ds_step d na; ds_run d l
  end.
End downstream.

(** ** Draining at shutdown *)

Inductive DrainOutcome := AllClosed | Abandoned (sessions : nat).

(** The loop of [main]: how many connections are registered, and the clock, at each turn.
    [None] is a loop still running. *)
Fixpoint drain (deadline : Z) (turns : list (nat * Z)) : option DrainOutcome :=
  match turns with
  | [] => None
  | (remaining, now) :: turns =>
      if decide (remaining = 0%nat) then Some AllClosed
      else if deadline <=? now then Some (Abandoned remaining)
      else drain deadline turns
  end.

(** ** Invariants *)

(** The generation a handler has taken; the one it holds in the registry, unless it was
    displaced; the one it has in the router, unless that was replaced. *)
Definition numbered (pc : HandlerPc) : option Z :=
  match pc with
  | PcNumbered g | PcInMap g | PcRouted g | PcConnected g _ | PcRunning g | PcSessionOver g | PcUnrouted g => Some g
  | _ => None
  end.
Definition holding (pc : HandlerPc) : option Z :=
  match pc with PcNumbered _ => None | _ => numbered pc end.
Definition routing (pc : HandlerPc) : option Z :=
  match pc with PcInMap _ | PcUnrouted _ => None | _ => holding pc end.

Lemma registered_inboxes {R} (f : R → R) (router : CommandRouter R) id :
  registered (map_inboxes f router) id = registered router id.
Proof. unfold registered, map_inboxes. rewrite lookup_fmap. by destruct (router !! id). Qed.

Lemma holding_numbered pc g : holding pc = Some g → numbered pc = Some g.
Proof. by destruct pc. Qed.

Section invariants.
Context {R : Type} `{MpscSender R CommandRequest}.
Implicit Types (hs : gmap nat Handler) (conns : gmap string ActiveConnection) (cancelled : gset nat)
  (router : CommandRouter R).

(** Generations are taken once. *)
Definition numbers hs (next : Z) : Prop :=
  (∀ t h g, hs !! t = Some h → numbered (h_pc h) = Some g → g < next) ∧
  (∀ t t' h h' g, hs !! t = Some h → hs !! t' = Some h' →
    numbered (h_pc h) = Some g → numbered (h_pc h') = Some g → t = t').

(** The registry names handlers that hold it, and a handler that holds a connection
    without being in the registry has been cancelled. *)
Definition holders hs conns cancelled : Prop :=
  (∀ id ac, conns !! id = Some ac →
    ∃ h, hs !! ac_cancel ac = Some h ∧ h_id h = id ∧ holding (h_pc h) = Some (ac_generation ac)) ∧
  (∀ t h g, hs !! t = Some h → holding (h_pc h) = Some g →
    conns !! h_id h = Some (mkActive g t) ∨ t ∈ cancelled).

(** The router names handlers whose session is not over. *)
Definition routes hs router : Prop :=
  ∀ id g, registered router id = Some g →
    ∃ t h, hs !! t = Some h ∧ h_id h = id ∧ routing (h_pc h) = Some g.

Ltac at_thread t t' :=
  destruct (decide (t' = t)) as [->|]; [rewrite lookup_insert_eq in *|rewrite lookup_insert_ne in * by done]; simplify_eq/=.

Lemma numbers_move hs next t h pc :
  numbers hs next → hs !! t = Some h → numbered pc = numbered (h_pc h) ∨ numbered pc = None →
  numbers (<[t := mkHandler (h_id h) pc]> hs) next.
Proof.
  intros [Hlt Hu] Ht Hpc. split.
  - intros t' h' g Ht' Hg. at_thread t t'; [|by eapply Hlt]. destruct Hpc as [E|E]; rewrite E in Hg; [by eapply Hlt|done].
  - assert (∀ t' h', <[t := mkHandler (h_id h) pc]> hs !! t' = Some h' → ∀ g, numbered (h_pc h') = Some g →
      ∃ h0, hs !! t' = Some h0 ∧ numbered (h_pc h0) = Some g) as Hold.
    { intros t' h' Ht' g Hg. at_thread t t'; [|by eexists]. exists h. split; [done|]. destruct Hpc; congruence. }
    intros t1 t2 h1 h2 g Ht1 Ht2 Hg1 Hg2.
    destruct (Hold _ _ Ht1 _ Hg1) as (k1 & ? & ?), (Hold _ _ Ht2 _ Hg2) as (k2 & ? & ?). by eapply Hu.
Qed.

Lemma numbers_idle hs next t id pc :
  numbers hs next → numbered pc = None → numbers (<[t := mkHandler id pc]> hs) next.
Proof.
  intros [Hlt Hu] Hpc. split.
  - intros t' h' g Ht' Hg. at_thread t t'; try congruence. by eapply Hlt.
  - intros t1 t2 h1 h2 g Ht1 Ht2 Hg1 Hg2. at_thread t t1; try congruence. at_thread t t2; try congruence. by eapply Hu.
Qed.

Lemma numbers_take hs next t id :
  numbers hs next → numbers (<[t := mkHandler id (PcNumbered next)]> hs) (next + 1).
Proof.
  intros [Hlt Hu]. split.
  - intros t' h' g Ht' Hg. at_thread t t'; [lia|]. specialize (Hlt _ _ _ Ht' Hg). lia.
  - intros t1 t2 h1 h2 g Ht1 Ht2 Hg1 Hg2. at_thread t t1; at_thread t t2; try done.
    + specialize (Hlt _ _ _ Ht2 Hg2). lia.
    + specialize (Hlt _ _ _ Ht1 Hg1). lia.
    + by eapply Hu.
Qed.

Lemma holders_move hs conns cancelled t h pc :
  holders hs conns cancelled → hs !! t = Some h → holding pc = holding (h_pc h) →
  holders (<[t := mkHandler (h_id h) pc]> hs) conns cancelled.
Proof.
  intros [Hm Hh] Ht Hpc. split.
  - intros id ac Hid. destruct (Hm id ac Hid) as (h' & Ht' & <- & Hg). destruct (decide (ac_cancel ac = t)) as [E|].
    + rewrite E in *. simplify_eq/=. rewrite lookup_insert_eq. eexists. split; [done|]. simpl. by rewrite Hpc.
    + rewrite lookup_insert_ne by done. by exists h'.
  - intros t' h' g Ht' Hg. at_thread t t'; [|by apply Hh]. rewrite Hpc in Hg. by apply Hh.
Qed.

Lemma holders_spawn hs conns cancelled t id :
  holders hs conns cancelled → hs !! t = None → holders (<[t := mkHandler id PcStart]> hs) conns cancelled.
Proof.
  intros [Hm Hh] Ht. split.
  - intros id' ac Hid. destruct (Hm id' ac Hid) as (h' & Ht' & Hrest). exists h'. rewrite lookup_insert_ne; [done|congruence].
  - intros t' h' g Ht' Hg. at_thread t t'. by apply Hh.
Qed.

Lemma holders_register hs conns cancelled t h g :
  holders hs conns cancelled → hs !! t = Some h → holding (h_pc h) = None →
  holders (<[t := mkHandler (h_id h) (PcInMap g)]> hs) (<[h_id h := mkActive g t]> conns)
    (match conns !! h_id h with Some existing => {[ac_cancel existing]} ∪ cancelled | None => cancelled end).
Proof.
  intros [Hm Hh] Ht Hpc. split.
  - intros id ac Hid. destruct (decide (id = h_id h)) as [->|].
    + rewrite lookup_insert_eq in Hid. simplify_eq/=. rewrite lookup_insert_eq. by eexists.
    + rewrite lookup_insert_ne in Hid by done. destruct (Hm id ac Hid) as (h' & Ht' & <- & Hg).
      rewrite lookup_insert_ne; [by exists h'|]. intros ->. congruence.
  - intros t' h' g' Ht' Hg. at_thread t t'; [left; by rewrite lookup_insert_eq|].
    destruct (Hh t' h' g' Ht' Hg) as [Hc|Hc]; [|right; case_match; set_solver].
    destruct (decide (h_id h' = h_id h)) as [E|]; [|left; by rewrite lookup_insert_ne].
    right. rewrite <- E, Hc. set_solver.
Qed.

Lemma holders_deregister hs conns cancelled next t h g pc :
  numbers hs next → holders hs conns cancelled → hs !! t = Some h → holding (h_pc h) = Some g → holding pc = None →
  holders (<[t := mkHandler (h_id h) pc]> hs)
    (match conns !! h_id h with
     | Some active => if ac_generation active =? g then delete (h_id h) conns else conns
     | None => conns
     end) cancelled.
Proof.
  intros [_ Hu] [Hm Hh] Ht Hg Hpc.
  assert (∀ id ac, conns !! id = Some ac → ac_cancel ac = t → conns !! h_id h = Some ac ∧ ac_generation ac = g) as Hown.
  { intros id ac Hid E. destruct (Hm id ac Hid) as (h' & Ht' & <- & Hg'). rewrite E in Ht'. simplify_eq. split; congruence. }
  assert (∀ conns', (∀ id ac, conns' !! id = Some ac → conns !! id = Some ac ∧ ac_cancel ac ≠ t) →
    (∀ t' h' g', t' ≠ t → hs !! t' = Some h' → conns !! h_id h' = Some (mkActive g' t') → conns' !! h_id h' = Some (mkActive g' t')) →
    holders (<[t := mkHandler (h_id h) pc]> hs) conns' cancelled) as Hgoal.
  { intros conns' Hsub Hkeep. split.
    - intros id ac Hid. destruct (Hsub id ac Hid) as [Hid' Hne]. rewrite lookup_insert_ne by done. by apply Hm.
    - intros t' h' g' Ht' Hg'. at_thread t t'; try congruence. destruct (Hh t' h' g' Ht' Hg') as [Hc|Hc]; [left|by right].
      by apply Hkeep. }
  destruct (conns !! h_id h) as [active|] eqn:Ec; [destruct (ac_generation active =? g) eqn:Eg|]; apply Hgoal; try done.
  - intros id ac [Hne Hid]%lookup_delete_Some. split; [done|]. intros E. destruct (Hm id ac Hid) as (h' & Ht' & <- & _).
    rewrite E in Ht'. simplify_eq.
  - intros t' h' g' Hne Ht' Hc. rewrite lookup_delete_ne; [done|]. intros E. rewrite <- E, Ec in Hc. simplify_eq/=.
    apply Z.eqb_eq in Eg. subst g'. destruct (Hm _ _ Ec) as (h0 & Ht0 & _ & Hg0). simpl in *.
    apply holding_numbered in Hg, Hg0. apply Hne. eapply Hu; [exact Ht0|exact Ht|exact Hg0|exact Hg].
  - intros id ac Hid. split; [done|]. intros E. destruct (Hown id ac Hid E) as [Hid' Eg']. simplify_eq.
    by rewrite Z.eqb_refl in Eg.
  - intros id ac Hid. split; [done|]. intros E. by destruct (Hown id ac Hid E) as [Hid' _].
Qed.

Lemma routes_move hs router t h pc :
  routes hs router → hs !! t = Some h → routing pc = routing (h_pc h) → routes (<[t := mkHandler (h_id h) pc]> hs) router.
Proof.
  intros Hr Ht Hpc id g Hid. destruct (Hr id g Hid) as (t' & h' & Ht' & <- & Hg).
  destruct (decide (t' = t)) as [->|].
  - simplify_eq. exists t. rewrite lookup_insert_eq. eexists. split; [done|]. simpl. by rewrite Hpc.
  - exists t', h'. by rewrite lookup_insert_ne.
Qed.

Lemma routes_spawn hs router t id :
  routes hs router → hs !! t = None → routes (<[t := mkHandler id PcStart]> hs) router.
Proof.
  intros Hr Ht id' g Hid. destruct (Hr id' g Hid) as (t' & h' & Ht' & Hrest). exists t', h'.
  rewrite lookup_insert_ne; [done|congruence].
Qed.

Lemma routes_register hs router t h g (tx : R) :
  routes hs router → hs !! t = Some h → routing (h_pc h) = None →
  routes (<[t := mkHandler (h_id h) (PcRouted g)]> hs) (register router (h_id h) g tx).
Proof.
  intros Hr Ht Hpc id g' Hid. rewrite registered_register in Hid. case_decide as E.
  - simplify_eq. exists t. rewrite lookup_insert_eq. by eexists.
  - destruct (Hr id g' Hid) as (t' & h' & Ht' & Hh & Hg). exists t', h'. rewrite lookup_insert_ne; [done|congruence].
Qed.

Lemma routes_deregister hs router next t h g pc :
  numbers hs next → routes hs router → hs !! t = Some h → holding (h_pc h) = Some g → routing (h_pc h) = Some g →
  routes (<[t := mkHandler (h_id h) pc]> hs) (deregister router (h_id h) g).1.
Proof.
  intros [_ Hu] Hr Ht Hg Hrg id g' Hid. rewrite registered_deregister in Hid. 
  assert (registered router id = Some g' ∧ ¬ (id = h_id h ∧ g' = g)) as [Hid' Hne].
  { repeat case_decide; naive_solver. }
  destruct (Hr id g' Hid') as (t' & h' & Ht' & Hh & Hg'). exists t', h'. split; [|done].
  rewrite lookup_insert_ne; [done|]. intros ->. simplify_eq. apply Hne. split; congruence.
Qed.
End invariants.

(** ** Theorems *)

Section theorems.
Context {T R : Type} `{MpscSender T MqttEvent} `{MpscSender R CommandRequest} (new_inbox : nat → nat → R).
Implicit Types (d : DownstreamState T R).

Definition ds_inv d : Prop :=
  numbers (ds_handlers d) (ds_generation d) ∧ holders (ds_handlers d) (ds_connections d) (ds_cancelled d) ∧
  routes (ds_handlers d) (ds_router d) ∧ 1 ≤ ds_generation d.

Lemma ds_inv_new manager tx : ds_inv (downstream_new manager tx : DownstreamState T R).
Proof.
  split_and!; simpl; [split|split| |lia]; try (intros * Hl; by rewrite lookup_empty in Hl).
  intros id g Hg. unfold registered in Hg. by rewrite lookup_empty in Hg.
Qed.

Lemma handler_step_inv now d t h d' :
  ds_inv d → ds_generation d + 1 < 2 ^ 64 → ds_handlers d !! t = Some h → handler_step new_inbox now d t h = Some d' →
  ds_inv d' ∧ ds_generation d' ≤ ds_generation d + 1.
Proof.
  intros (Hn & Hh & Hr & Hg) Hb Ht Hs. unfold handler_step in Hs.
  destruct (h_pc h) as [|g|g|g|g st|g|g|g| |st|] eqn:Epc; try done;
    try (injection Hs as <-; split; [|simpl; lia]; split_and!; simpl; try done;
         [apply numbers_move|apply holders_move|apply routes_move]; rewrite ?Epc; auto; fail).
  - simpl in Hs. injection Hs as <-. simpl. rewrite wrap_u64_id by (apply bool_decide_eq_true_2; lia).
    split; [|lia]. split_and!; simpl; [by apply numbers_take|apply holders_move; by rewrite ?Epc
      |apply routes_move; by rewrite ?Epc|lia].
  - injection Hs as <-. split; [|simpl; lia]. split_and!; simpl; try done.
    + apply numbers_move; rewrite ?Epc; auto.
    + apply holders_register; by rewrite ?Epc.
    + apply routes_move; by rewrite ?Epc.
  - injection Hs as <-. split; [|simpl; lia]. split_and!; simpl; try done.
    + apply numbers_move; rewrite ?Epc; auto.
    + apply holders_move; by rewrite ?Epc.
    + apply routes_register; by rewrite ?Epc.
  - injection Hs as <-. split; [|simpl; lia]. split_and!; simpl; try done.
    + apply numbers_move; rewrite ?Epc; auto.
    + apply holders_move; by rewrite ?Epc.
    + eapply routes_deregister; rewrite ?Epc; done.
  - assert (∀ pc, numbered pc = None → holding pc = None → routing pc = None →
      ds_inv (set_pc (deregister_connection d (h_id h) g).1 t h pc) ∧
      ds_generation (set_pc (deregister_connection d (h_id h) g).1 t h pc) ≤ ds_generation d + 1) as Hgoal.
    { intros pc E1 E2 E3.
      pose proof (holders_deregister _ _ _ _ t h g pc Hn Hh Ht ltac:(by rewrite Epc) E2) as Hh'.
      assert (numbers (<[t := mkHandler (h_id h) pc]> (ds_handlers d)) (ds_generation d)) as Hn' by (by apply numbers_idle).
      assert (routes (<[t := mkHandler (h_id h) pc]> (ds_handlers d)) (ds_router d)) as Hr'
        by (apply routes_move; [done|done|by rewrite E3, Epc]).
      unfold deregister_connection. destruct (ds_connections d !! h_id h) as [active|];
        [destruct (ac_generation active =? g)|]; (split; [by split_and!|simpl; lia]). }
    destruct (deregister_connection d (h_id h) g) as [d1 still]. injection Hs as <-. destruct still; by apply Hgoal.
Qed.

Lemma ds_step_inv d na d' :
  ds_inv d → ds_generation d + 1 < 2 ^ 64 → ds_step new_inbox d na = Some d' →
  ds_inv d' ∧ ds_generation d' ≤ ds_generation d + 1.
Proof.
  intros Hinv Hb Hs. pose proof Hinv as (Hn & Hh & Hr & Hg). unfold ds_step in Hs.
  destruct na as [now [t id header|t|t|id request|f|f|]]; simpl in Hs.
  - case_decide as Ht; [|done]. injection Hs as <-. unfold ws_upgrade_handler.
    destruct (subprotocol_valid header); [|split; [done|simpl; lia]]. split; [|simpl; lia].
    split_and!; simpl; [by apply numbers_idle|by apply holders_spawn|by apply routes_spawn|done].
  - destruct (ds_handlers d !! t) as [h|] eqn:Ht; simpl in Hs; [|done]. destruct (h_pc h) eqn:Epc; try done.
    injection Hs as <-. split; [|simpl; lia].
    split_and!; simpl; [by apply numbers_idle|apply holders_move; by rewrite ?Epc|apply routes_move; by rewrite ?Epc|done].
  - destruct (ds_handlers d !! t) as [h|] eqn:Ht; simpl in Hs; [|done]. by eapply handler_step_inv.
  - injection Hs as <-. split; [|simpl; lia]. split_and!; simpl; try done.
    intros id' g' Hid. rewrite registered_dispatch in Hid. by apply Hr.
  - injection Hs as <-. split; [|simpl; lia]. split_and!; simpl; try done.
    intros id' g' Hid. rewrite registered_inboxes in Hid. by apply Hr.
  - injection Hs as <-. split; [|simpl; lia]. by split_and!.
  - injection Hs as <-. split; [|simpl; lia]. by split_and!.
Qed.

Lemma ds_run_inv d l d' :
  ds_inv d → ds_generation d + Z.of_nat (length l) < 2 ^ 64 → ds_run new_inbox d l = Some d' → ds_inv d'.
Proof.
  revert d. induction l as [|na l IH]; intros d Hinv Hb Hr; simpl in *; [by injection Hr as <-|].
  destruct (ds_step new_inbox d na) as [q|] eqn:Hs; [|done]. simpl in Hr.
  destruct (ds_step_inv d na q Hinv) as [Hq Hle]; [lia|done|]. apply (IH q Hq); [lia|done].
Qed.

Lemma ds_inv_live d :
  ds_inv d →
  (∀ t h g, ds_handlers d !! t = Some h → holding (h_pc h) = Some g → is_cancelled d t = false →
    ds_connections d !! h_id h = Some (mkActive g t)) ∧
  (∀ t t' h h' g g', ds_handlers d !! t = Some h → ds_handlers d !! t' = Some h' → h_id h = h_id h' →
    holding (h_pc h) = Some g → holding (h_pc h') = Some g' →
    is_cancelled d t = false → is_cancelled d t' = false → t = t').
Proof.
  intros (_ & [_ Hh] & _).
  assert (∀ t h g, ds_handlers d !! t = Some h → holding (h_pc h) = Some g → is_cancelled d t = false →
    ds_connections d !! h_id h = Some (mkActive g t)) as Hlive.
  { intros t h g Ht Hg Hc. destruct (Hh t h g Ht Hg) as [|Hin]; [done|].
    unfold is_cancelled in Hc. apply orb_false_elim in Hc as [_ Hc]. by apply bool_decide_eq_false_1 in Hc. }
  split; [done|]. intros t t' h h' g g' Ht Ht' Hid Hg Hg' Hc Hc'.
  pose proof (Hlive t h g Ht Hg Hc) as E. rewrite Hid, (Hlive t' h' g' Ht' Hg' Hc') in E. by injection E as _ ->.
Qed.

(** A charge point has at most one live session. Whatever the interleaving of any
    number of connections, two handlers of one charge point that have registered and not
    yet deregistered are never both uncancelled, and the one that is not cancelled is the
    one the registry names, under its own generation. *)
Theorem one_live_session manager tx l d :
  Z.of_nat (length l) < 2 ^ 64 - 1 → ds_run new_inbox (downstream_new manager tx) l = Some d →
  (∀ t h g, ds_handlers d !! t = Some h → holding (h_pc h) = Some g → is_cancelled d t = false →
    ds_connections d !! h_id h = Some (mkActive g t)) ∧
  (∀ t t' h h' g g', ds_handlers d !! t = Some h → ds_handlers d !! t' = Some h' → h_id h = h_id h' →
    holding (h_pc h) = Some g → holding (h_pc h') = Some g' →
    is_cancelled d t = false → is_cancelled d t' = false → t = t').
Proof.
  intros Hl Hr. apply ds_inv_live. apply (ds_run_inv _ l d (ds_inv_new manager tx)); [simpl; lia|done].
Qed.

Lemma ds_inv_done d :
  ds_inv d → map_Forall (λ _ h, h_pc h = PcDone) (ds_handlers d) → ds_connections d = ∅ ∧ ds_router d = ∅.
Proof.
  intros (_ & [Hm _] & Hrt & _) Hall. split; apply map_empty; intros id; apply eq_None_not_Some.
  - intros [ac Hid]. destruct (Hm id ac Hid) as (h & Ht & _ & Hg). by rewrite (Hall _ _ Ht) in Hg.
  - intros [reg Hid]. destruct (Hrt id (reg_generation reg)) as (t & h & Ht & _ & Hg);
      [unfold registered; by rewrite Hid|]. by rewrite (Hall _ _ Ht) in Hg.
Qed.

(** Nothing is left behind: when every handler has finished, in whatever order they
    came and went, the registry and the router are empty, so the shutdown, which waits
    for the registry, sees all sessions closed, and no command goes to a dead session. *)
Theorem nothing_left_behind manager tx l d :
  Z.of_nat (length l) < 2 ^ 64 - 1 → ds_run new_inbox (downstream_new manager tx) l = Some d →
  map_Forall (λ _ h, h_pc h = PcDone) (ds_handlers d) →
  ds_connections d = ∅ ∧ ds_router d = ∅.
Proof.
  intros Hl Hr. apply ds_inv_done. apply (ds_run_inv _ l d (ds_inv_new manager tx)); [simpl; lia|done].
Qed.
End theorems.

(** The server upgrades exactly the requests that ask for OCPP 1.6: those whose
    subprotocol header is a text one of whose comma-separated parts is [ocpp1.6], but
    for white space around it. *)
Theorem subprotocol_required header :
  subprotocol_valid header = true ↔
  ∃ text part, header = Some (Some text) ∧ part ∈ split ","%char text ∧ trim part = OCPP16_SUBPROTOCOL.
Proof.
  unfold subprotocol_valid, validate_subprotocol, parse_subprotocol_header. split.
  - destruct header as [[text|]|]; try done. intros (p & Hp & Ht)%existsb_exists.
    apply bool_decide_eq_true_1 in Ht. apply list_elem_of_In, elem_of_retain in Hp as [Hp _].
    apply list_elem_of_fmap in Hp as (part & -> & Hpart). by exists text, part.
  - intros (text & part & -> & Hpart & Ht). apply existsb_exists. exists OCPP16_SUBPROTOCOL. split; [|done].
    apply list_elem_of_In, elem_of_retain. split; [|done]. rewrite <- Ht. by apply list_elem_of_fmap_2.
Qed.

(** The drain of the shutdown ends, after ten seconds and a turn at the latest when a
    turn takes at least the tenth of a second it sleeps: it reports that all sessions
    closed exactly when a turn before the deadline finds the registry empty. *)
Theorem drain_ends start turns :
  (∀ i n now, turns !! i = Some (n, now) → start + Z.of_nat i * from_millis 100 ≤ now) →
  (101 ≤ length turns)%nat →
  ∃ i n now, turns !! i = Some (n, now) ∧ (i ≤ 100)%nat ∧
    (∀ j m now', (j < i)%nat → turns !! j = Some (m, now') → m ≠ 0%nat ∧ now' < start + from_secs 10) ∧
    drain (start + from_secs 10) turns = Some (if decide (n = 0%nat) then AllClosed else Abandoned n).
Proof.
  intros Ht Hl. set (deadline := start + from_secs 10).
  assert (∀ k turns, (k < length turns)%nat → (∃ n now, turns !! k = Some (n, now) ∧ deadline ≤ now) →
    ∃ i n now, turns !! i = Some (n, now) ∧ (i ≤ k)%nat ∧
      (∀ j m now', (j < i)%nat → turns !! j = Some (m, now') → m ≠ 0%nat ∧ now' < deadline) ∧
      drain deadline turns = Some (if decide (n = 0%nat) then AllClosed else Abandoned n)) as Hdrain.
  { clear turns Ht Hl. intros k turns. revert k. induction turns as [|[n now] turns IH]; intros k Hk (nk & nowk & Hlk & Hdk); simpl in *; [lia|].
    case_decide as Hn; [subst n|destruct (Z.leb_spec deadline now) as [Hd|Hd]].
    - exists 0%nat, 0%nat, now. split_and!; [done|lia|lia|done].
    - exists 0%nat, n, now. split_and!; [done|lia|lia|by rewrite decide_False].
    - destruct k as [|k]; simpl in *; [simplify_eq; lia|].
      destruct (IH k) as (i & n' & now' & Hi & Hik & Hbefore & Hd'); [lia|by eauto|].
      exists (S i), n', now'. split_and!; [done|lia| |done].
      intros [|j] m t Hj Hm; simpl in *; [simplify_eq; lia|]. apply (Hbefore j); [lia|done]. }
  destruct (lookup_lt_is_Some_2 turns 100 ltac:(lia)) as [[n now] E].
  apply (Hdrain 100%nat turns); [lia|]. exists n, now. split; [done|].
  specialize (Ht 100%nat n now E). unfold deadline, from_secs, from_millis, NANOS in *. lia.
Qed.

(** ** Runs that go wrong *)

(** Two connections of one charger, handlers 1 and 2, over channels that record. *)
Definition listening : DownstreamState (list MqttEvent) (list CommandRequest) :=
  downstream_new (set_listener_bound (transition 0 (transition 0 manager_new Upstream Connected) Mqtt Connected) true) [].
Definition inbox : nat → nat → list CommandRequest := λ _ _, [].
Abbreviation Action := (@DsAction (list CommandRequest)).
Definition steps (l : list Action) : list (Z * Action) := pair 0 <$> l.
Definition ocpp_header : option (option string) := Some (Some "ocpp1.6"%string).
Definition arrive (t : nat) : Action := DsUpgrade t "CP1" ocpp_header.
Definition handler (t n : nat) : list Action := replicate n (DsHandler t).

Definition crossed_registrations : list Action :=
  [arrive 1; arrive 2] ++ handler 1 2 ++ handler 2 5 ++ handler 1 5.

(** Finding: a charger can be connected and out of reach of commands. A connection is
    registered in two steps, in the registry and in the router; when a charger connects
    again between the two steps of its old connection, the old one registers its inbox
    over the new one's and takes it away when it ends: the session of the new connection
    runs, it is the one in the registry, and every command for it is answered not
    connected for as long as it lasts. *)
Theorem late_registration_unroutes :
  ∃ d, ds_run inbox listening (steps crossed_registrations) = Some d ∧
    ds_handlers d !! 2%nat = Some (mkHandler "CP1" (PcRunning 2)) ∧ is_cancelled d 2 = false ∧
    ds_connections d !! "CP1"%string = Some (mkActive 2 2) ∧
    ∀ request, (dispatch (ds_router d) "CP1" request).2 = Err NotConnected.
Proof.
  destruct (ds_run inbox listening (steps crossed_registrations)) as [d|] eqn:E; [|vm_compute in E; discriminate E].
  vm_compute in E. injection E as <-. eexists. split; [reflexivity|]. split_and!; [reflexivity..|].
  intros request. reflexivity.
Qed.

(** The first connection ends and its handler has left the registry when the second one
    arrives and is served; then the first handler reports its end. *)
Definition late_farewell : list Action :=
  [arrive 1] ++ handler 1 8 ++ [arrive 2] ++ handler 2 5 ++ handler 1 2.

(** A connection is up when another request to upgrade comes and is never completed. *)
Definition abandoned_upgrade : list Action :=
  [arrive 1] ++ handler 1 5 ++ [arrive 2; DsUpgradeFailed 2].

(** Finding: the proxy reports itself idle while a charger is being served. The
    downstream state is one for all connections and any of them can set it: the handler
    of an ended connection sets it to disconnected after its successor has connected,
    and a request to upgrade sets it to connecting and nobody sets it back when the
    upgrade fails. *)
Theorem served_while_idle :
  ∀ l t g, (l, t, g) ∈ [(late_farewell, 2%nat, 2); (abandoned_upgrade, 1%nat, 1)] →
  ∃ d, ds_run inbox listening (steps l) = Some d ∧
    ds_handlers d !! t = Some (mkHandler "CP1" (PcRunning g)) ∧ is_cancelled d t = false ∧
    ds_connections d !! "CP1"%string = Some (mkActive g t) ∧
    health_status (ds_manager d) = Idle.
Proof.
  intros l t g Hl. rewrite !elem_of_cons in Hl. destruct Hl as [[= -> -> ->]|[[= -> -> ->]|[]%not_elem_of_nil]];
    eexists; (split; [vm_compute; reflexivity|]); vm_compute; split_and!; reflexivity.
Qed.

(** ** Witnesses *)

Definition served : list Action := [arrive 1; arrive 2] ++ handler 1 5 ++ handler 2 5.

Lemma one_live_session_witness :
  ∃ d, ds_run inbox listening (steps served) = Some d ∧ ds_connections d !! "CP1"%string = Some (mkActive 2 2).
Proof.
  destruct (ds_run inbox listening (steps served)) as [d|] eqn:E; [|vm_compute in E; discriminate E].
  exists d. split; [reflexivity|].
  destruct (one_live_session inbox _ _ (steps served) d ltac:(apply Z.ltb_lt; vm_compute; reflexivity) E) as [Hlive _].
  vm_compute in E. injection E as <-.
  exact (Hlive 2%nat (mkHandler "CP1" (PcRunning 2)) 2 eq_refl eq_refl eq_refl).
Defined.

Definition both_leave : list Action := served ++ handler 1 3 ++ handler 2 5.

Lemma nothing_left_behind_witness :
  ∃ d, ds_run inbox listening (steps both_leave) = Some d ∧ ds_connections d = ∅.
Proof.
  destruct (ds_run inbox listening (steps both_leave)) as [d|] eqn:E; [|vm_compute in E; discriminate E].
  exists d. split; [reflexivity|].
  refine (proj1 (nothing_left_behind inbox _ _ (steps both_leave) d ltac:(apply Z.ltb_lt; vm_compute; reflexivity) E _)).
  vm_compute in E. injection E as <-. apply map_Forall_to_list. vm_compute. repeat constructor.
Defined.

Lemma served_while_idle_witness :
  ∃ d, ds_run inbox listening (steps abandoned_upgrade) = Some d ∧ health_status (ds_manager d) = Idle.
Proof.
  destruct (served_while_idle abandoned_upgrade 1 1) as (d & Hr & _ & _ & _ & Hh); [right; left|].
  exists d. split; [exact Hr|exact Hh].
Defined.

(** A registry that empties at the third turn. *)
Definition drain_turns : list (nat * Z) :=
  (λ i, ((if decide (i < 2) then 1 else 0)%nat, from_millis 100 * Z.of_nat i)) <$> seq 0 101.

Lemma drain_ends_witness : drain (from_secs 10) drain_turns = Some AllClosed.
Proof.
  destruct (drain_ends 0 drain_turns) as (i & n & now & Hi & _ & Hbefore & Hd).
  - intros i n now Hi. unfold drain_turns in Hi. apply list_lookup_fmap_Some in Hi as (k & E & [-> _]%lookup_seq).
    injection E as _ ->. unfold from_millis. lia.
  - apply Nat.leb_le. vm_compute. reflexivity.
  - rewrite Z.add_0_l in Hd. rewrite Hd. destruct n; [reflexivity|]. exfalso. vm_compute in Hd. discriminate Hd.
Defined.
