(* ===== verification/System.v ===== *)
(** * The whole proxy: handlers, sessions and publisher together (src/main.rs)

    The components' models put together the way [main] wires them: one state manager, one
    command router and one bounded channel of events, shared by the handlers of
    Downstream.v, the sessions of Session.v and the publisher of Publisher.v. A step of
    the system is a step of one component with the shared objects as the others left
    them; what the step does to them is what the others find. The event of one component
    that stands for the others' doings ([EvOthers], [DsManager], [DsInboxes], [PubShared])
    is here what the others do.

    The router's senders are [Port]s: they name the handler whose session reads the
    inbox, and show, before the publisher uses them, the room that inbox has. *)

From S2P Require Import Prelude Float64 Json Models StateManager Config Command CallQueue Forwarder.
From S2P Require Import Session ChargePoint SnapshotStore Publisher Downstream.

Local Open Scope nat_scope.

(** ** Inboxes *)

(** The sending half of an inbox: whose it is, the room left, [None] when the receiver is
    gone, and what was sent since the room was last looked at. *)
Record Port := mkPort {
  port_owner : nat;
  port_room : option nat;
  port_sent : list CommandRequest
}.

#[export] Instance port_sender : MpscSender Port CommandRequest := {
  try_send p request :=
    match port_room p with
    | None => (p, Err Closed)
    | Some O => (p, Err Full)
    | Some (S n) => (mkPort (port_owner p) (Some n) (port_sent p ++ [request]), Ok ())
    end
}.

(** [mpsc::channel(capacity)] of the handler [t]. *)
Definition new_port (t capacity : nat) : Port := mkPort t (Some capacity) [].

(** ** The channel of events *)

Definition MQTT_CHANNEL_CAPACITY : nat := 1000.

(** [try_send] of each event on the bounded channel: those that find no room are lost. *)
Definition accept_events (queue events : list MqttEvent) : list MqttEvent :=
  queue ++ take (MQTT_CHANNEL_CAPACITY - length queue) events.

Section system.
Context {T C U : Type} `{MqttClient T} `{AsyncSender C AxumMessage} `{UpstreamLink U}.
Context `{SerdeJson} `{Chrono} `{HashOrder} (serde_error : Value → string) (config : SessionConfig).
Abbreviation Session := (Session (list MqttEvent) C U).
Abbreviation DownstreamState := (DownstreamState (list MqttEvent) Port).
Abbreviation MqttPublisher := (MqttPublisher T Port).

(** ** The state *)

(** [sys_down] holds the manager and the router all share. [sys_waiting] is what a
    handler's inbox holds before its session runs; a session that has ended stays, and its
    inbox is closed. [sys_pub_live] is the receiver of the events. [sys_handed] is history:
    the commands the router put in each inbox. *)
Record System := mkSystem {
  sys_down : DownstreamState;
  sys_sessions : gmap nat Session;
  sys_waiting : gmap nat (list CommandRequest);
  sys_pub : MqttPublisher;
  sys_pub_live : bool;
  sys_queue : list MqttEvent;
  sys_handed : gmap nat (list CommandRequest)
}.
Implicit Types (sys : System) (s : Session) (d : DownstreamState) (p : MqttPublisher).

(** The wiring of [main], the publisher at the start of its [run]. *)
Definition sys_new (manager : ConnectionStateManager) p : System :=
  mkSystem (downstream_new manager []) ∅ ∅ p true [] ∅.

(** What a component recorded after [old] joins the channel. *)
Definition offer sys (old new : list MqttEvent) : list MqttEvent :=
  if sys_pub_live sys then accept_events (sys_queue sys) (drop (length old) new) else sys_queue sys.

Definition offered s : list MqttEvent := mqtt_tx (s_forwarder s).

(** ** Inboxes and what is in them *)

Definition ended s : bool := match s_phase s with PhEnded => true | _ => false end.

Definition room_of (inbox : list CommandRequest) : nat := COMMAND_CHANNEL_CAPACITY - length inbox.

Definition inbox_room sys (t : nat) : option nat :=
  match sys_sessions sys !! t with
  | Some s => if ended s then None else Some (room_of (s_inbox s))
  | None => Some (room_of (default [] (sys_waiting sys !! t)))
  end.

Definition refresh sys (port : Port) : Port := mkPort (port_owner port) (inbox_room sys (port_owner port)) [].

(** What the router has sent to the handler [t]. *)
Definition arrivals d (t : nat) : list CommandRequest :=
  match (λ h, ds_router d !! h_id h) <$> ds_handlers d !! t with
  | Some (Some reg) => if decide (port_owner (reg_tx reg) = t) then port_sent (reg_tx reg) else []
  | _ => []
  end.

Definition deliver s (l : list CommandRequest) : Session := set_inbox s (s_inbox s ++ l).

(** The sender of the handler [t]'s inbox is still in the router. *)
Definition routed d (t : nat) : bool :=
  match (λ h, ds_router d !! h_id h) <$> ds_handlers d !! t with
  | Some (Some reg) => bool_decide (port_owner (reg_tx reg) = t)
  | _ => false
  end.

(** ** Steps *)

(** A handler goes on from its session only when that has returned. *)
Definition handler_may_move sys (t : nat) : bool :=
  match h_pc <$> ds_handlers (sys_down sys) !! t with
  | Some (PcRunning _) => match sys_sessions sys !! t with Some s => ended s | None => false end
  | _ => true
  end.

(** The server's own events: the others of [DsAction] are what sessions and publisher do. *)
Definition server_action (a : DsAction (R := Port)) : bool :=
  match a with DsDispatch _ _ | DsInboxes _ | DsManager _ => false | _ => true end.

Definition down_step sys (now : Z) (a : DsAction (R := Port)) : option System :=
  if server_action a && match a with DsHandler t => handler_may_move sys t | _ => true end then
    d ← ds_step new_port (sys_down sys) (now, a);
    Some (mkSystem d (sys_sessions sys) (sys_waiting sys) (sys_pub sys) (sys_pub_live sys)
            (offer sys (ds_mqtt_tx (sys_down sys)) (ds_mqtt_tx d)) (sys_handed sys))
  else None.

(** [run_session] is called: its receiver is the inbox as it stands. *)
Definition start_session sys (c : Clock) (t : nat) (charger : C) : option System :=
  h ← ds_handlers (sys_down sys) !! t;
  match h_pc h, sys_sessions sys !! t with
  | PcRunning _, None =>
      let s := session_new config c (h_id h) [] charger (ds_manager (sys_down sys)) in
      let s := deliver s (default [] (sys_waiting sys !! t)) in
      Some (mkSystem (set_ds_manager (sys_down sys) (s_state s)) (<[t := s]> (sys_sessions sys))
              (delete t (sys_waiting sys)) (sys_pub sys) (sys_pub_live sys) (offer sys [] (offered s)) (sys_handed sys))
  | _, _ => None
  end.

(** The events of a session that are its own, and when they can come: a cancellation when
    its token is cancelled, the end of its inbox when the router has dropped the sender. *)
Definition session_may sys (t : nat) (ev : Event U) : bool :=
  match ev with
  | EvDispatched _ | EvOthers _ => false
  | EvCancelled => is_cancelled (sys_down sys) t
  | EvCommandsClosed => negb (routed (sys_down sys) t)
  | _ => true
  end.

Definition session_step sys (c : Clock) (t : nat) (ev : Event U) : option System :=
  s ← sys_sessions sys !! t;
  if session_may sys t ev then
    s' ← step config c (set_state s (ds_manager (sys_down sys))) ev;
    Some (mkSystem (set_ds_manager (sys_down sys) (s_state s')) (<[t := s']> (sys_sessions sys)) (sys_waiting sys)
            (sys_pub sys) (sys_pub_live sys) (offer sys (offered s) (offered s')) (sys_handed sys))
  else None.

(** The publisher handles one event: it finds the router with the rooms of the inboxes and
    the manager as it is, and what it dispatches arrives. *)
Definition publisher_step sys (c : Clock) (e : PubEvent (R := Port)) (queue : list MqttEvent) : option System :=
  if sys_pub_live sys then
    let d := set_ds_router (sys_down sys) (map_inboxes (refresh sys) (ds_router (sys_down sys))) in
    p ← pub_step serde_error (sys_pub sys) (c, PubShared (λ _, ds_router d) (λ _, ds_manager d));
    p ← pub_step serde_error p (c, e);
    let d := set_ds_router d (default (ds_router d) (p_router p)) in
    let d := set_ds_manager d (default (ds_manager d) (p_manager p)) in
    Some (mkSystem d
            (map_imap (λ t s, Some (deliver s (arrivals d t))) (sys_sessions sys))
            (map_imap (λ t h, if decide (sys_sessions sys !! t = None)
                              then Some (default [] (sys_waiting sys !! t) ++ arrivals d t) else None) (ds_handlers d))
            p true queue
            (map_imap (λ t h, Some (default [] (sys_handed sys !! t) ++ arrivals d t)) (ds_handlers d)))
  else None.

(** What can happen in the proxy. [SysStopPublisher] is the cancellation of the publisher's
    thread, [SysDrain] the one change [main] makes when the shutdown begins. *)
Inductive SysEvent :=
  | SysServer (a : DsAction (R := Port))
  | SysStart (t : nat) (charger : C)
  | SysSession (t : nat) (ev : Event U)
  | SysPoll (e : PollEvent)
  | SysReceive
  | SysStopPublisher
  | SysDrain.

Definition sys_step sys (ce : Clock * SysEvent) : option System :=
  let c := ce.1 in
  match ce.2 with
  | SysServer a => down_step sys (utc_now c) a
  | SysStart t charger => start_session sys c t charger
  | SysSession t ev => session_step sys c t ev
  | SysPoll e => publisher_step sys c (PubPoll e) (sys_queue sys)
  | SysReceive =>
      match sys_queue sys with
      | e :: queue => publisher_step sys c (PubRecv e) queue
      | [] => None
      end
  | SysStopPublisher =>
      if sys_pub_live sys && ds_shutdown (sys_down sys) then
        Some (mkSystem (set_ds_manager (sys_down sys) (transition (utc_now c) (ds_manager (sys_down sys)) Mqtt Disconnected))
                (sys_sessions sys) (sys_waiting sys) (sys_pub sys) false [] (sys_handed sys))
      else None
  | SysDrain =>
      if ds_shutdown (sys_down sys) then
        Some (mkSystem (set_ds_manager (sys_down sys) (set_listener_bound (ds_manager (sys_down sys)) false))
                (sys_sessions sys) (sys_waiting sys) (sys_pub sys) (sys_pub_live sys) (sys_queue sys) (sys_handed sys))
      else None
  end.

Fixpoint sys_run sys (l : list (Clock * SysEvent)) : option System :=
  match l with
  | [] => Some sys
  | ce :: l => sys ← sys_step sys ce; sys_run sys l
  end.
End system.
