(* ===== verification/SystemRuns.v ===== *)
(** * Runs of the whole proxy

    Every run of the system is, for each of its components, a run of that component's
    model, so what is proved of the components holds in the whole. On top of it: no
    command is lost between the router and the sessions, inboxes and channel are bounded,
    a charge point has one live session, and each task writes its own part of the shared
    state only. *)

From S2P Require Import Prelude Float64 Json Models StateManager Config Command CallQueue Forwarder.
From S2P Require Import Session SessionShared SessionCalls SessionStates ChargePoint SnapshotStore.
From S2P Require Import Publisher PublisherQueue PublisherCommands Downstream System.

Local Open Scope nat_scope.

(** ** Runs, an event more *)

Section snoc.
Context {R : Type} `{MpscSender R CommandRequest} (new_inbox : nat → nat → R).
Implicit Types (d : DownstreamState (list MqttEvent) R).

Lemma ds_run_app d l1 l2 d1 d2 :
  ds_run new_inbox d l1 = Some d1 → ds_run new_inbox d1 l2 = Some d2 → ds_run new_inbox d (l1 ++ l2) = Some d2.
Proof.
  revert d. induction l1 as [|a l1 IH]; intros d Hr Hr2; [by injection Hr as ->|]. cbn [app ds_run] in *.
  destruct (ds_step new_inbox d a) as [q|]; [|done]. by apply (IH q).
Qed.
End snoc.

Section session_snoc.
Context {C U : Type} `{AsyncSender C AxumMessage} `{UpstreamLink U} `{SerdeJson} `{Chrono} (config : SessionConfig).
Implicit Types (s : Session (list MqttEvent) C U).

(** A delivery is a run of dispatches. *)
Lemma run_deliver c l s :
  ended s = false ∨ l = [] → run config ((λ r, (c, EvDispatched r)) <$> l) s = Some (deliver s l).
Proof.
  unfold deliver. revert s. induction l as [|r l IH]; intros s Hs.
  { cbn. rewrite app_nil_r. by destruct s. }
  destruct Hs as [Hs|]; [|done].
  assert (step config c s (EvDispatched r) = Some (set_inbox s (s_inbox s ++ [r]))) as E
    by (unfold step; unfold ended in Hs; by destruct (s_phase s)).
  cbn [fmap list_fmap run]. rewrite E. cbn [mbind option_bind]. rewrite IH by (by left). simpl. by rewrite <- app_assoc.
Qed.

Lemma deliver_events (c : Clock) (l : list CommandRequest) :
  (((λ r, (c, EvDispatched (U := U) r)) <$> l) ≫= λ ev, dispatched ev.2) = l.
Proof. induction l as [|r l IH]; simpl; [done|]. by f_equal. Qed.
End session_snoc.

Section pub_snoc.
Context {T R : Type} `{MqttClient T} `{MpscSender R CommandRequest} `{SerdeJson} `{Chrono} `{HashOrder}.
Context (serde_error : Value → string).
Implicit Types (p : MqttPublisher T R).

Lemma pub_run_app p l1 l2 p1 p2 :
  pub_run serde_error p l1 = Some p1 → pub_run serde_error p1 l2 = Some p2 → pub_run serde_error p (l1 ++ l2) = Some p2.
Proof.
  revert p. induction l1 as [|a l1 IH]; intros p Hr Hr2; [by injection Hr as ->|]. cbn [app pub_run] in *.
  destruct (pub_step serde_error p a) as [q|]; [|done]. by apply (IH q).
Qed.
End pub_snoc.

(** ** Operations on the shared manager *)

(** An operation that leaves the state of [c] and the listener alone. *)
Definition spares (c : ConnectionId) (op : ManagerOp) : Prop :=
  match op with OpTransition _ c' _ => c' ≠ c | OpListener _ => False | _ => True end.

Lemma spared c ops m :
  Forall (spares c) ops →
  state_of (foldl apply_op m ops) c = state_of m c ∧ listener_bound (foldl apply_op m ops) = listener_bound m.
Proof.
  intros Hops. revert m. induction Hops as [|op ops Hop _ IH]; intros m; [done|]. simpl.
  destruct (IH (apply_op m op)) as [-> ->]. destruct op as [now c' st|b|d|d n]; simpl in *; try done.
  rewrite state_of_transition, listener_bound_transition. by rewrite decide_False.
Qed.

Lemma session_op_spares c op : c ≠ Upstream → session_op op → spares c op.
Proof. destruct op as [? []| | |], c; simpl; try done; by intros ? []. Qed.
Lemma mqtt_op_spares c op : c ≠ Mqtt → mqtt_op op → spares c op.
Proof. destruct op as [? []| | |], c; simpl; try done; by intros ? []. Qed.

(** ** The server's steps *)

Section server.
Implicit Types (d : DownstreamState (list MqttEvent) Port).

(** A step of a handler moves that handler on, and the shutdown is not undone. *)
Definition pc_rank (pc : HandlerPc) : nat :=
  match pc with
  | PcStart => 24
  | PcNumbered _ => 23
  | PcInMap _ => 22
  | PcRouted _ => 21
  | PcConnected _ _ => 20
  | PcRunning _ => 10
  | PcSessionOver _ => 9
  | PcUnrouted _ => 8
  | PcLeaving => 7
  | PcLeft _ => 6
  | PcDone => 0
  end.

Lemma handler_step_moves now d t h d' :
  handler_step new_port now d t h = Some d' →
  ∃ pc, ds_handlers d' = <[t := mkHandler (h_id h) pc]> (ds_handlers d) ∧ pc_rank pc < pc_rank (h_pc h) ∧
        ds_shutdown d' = ds_shutdown d.
Proof.
  unfold handler_step. intros Hs. destruct (h_pc h) as [|g|g|g|g st|g|g|g| |st|]; try done;
    try (injection Hs as <-; eexists; split_and!; [reflexivity|simpl; lia|reflexivity]; fail).
  unfold deregister_connection in Hs. destruct (ds_connections d !! h_id h) as [ac|];
    [destruct (ac_generation ac =? g)%Z|]; injection Hs as <-; eexists; (split_and!; [reflexivity|simpl; lia|reflexivity]).
Qed.

Lemma handler_step_total now d t h : h_pc h ≠ PcDone → is_Some (handler_step new_port now d t h).
Proof. unfold handler_step, deregister_connection. destruct (h_pc h); try done; intros _; repeat case_match; simplify_eq/=; by eexists. Qed.

(** Handlers keep their charge point, and move only on their own steps. *)
Lemma ds_step_handlers d now a d' t h :
  ds_step new_port d (now, a) = Some d' → ds_handlers d !! t = Some h →
  ∃ h', ds_handlers d' !! t = Some h' ∧ h_id h' = h_id h ∧
        (h_pc h' = h_pc h ∨ a = DsHandler t ∨ (a = DsUpgradeFailed t ∧ h_pc h = PcStart)).
Proof.
  intros Hs Ht. unfold ds_step in Hs. cbn [fst snd] in Hs.
  destruct a as [t' id header|t'|t'|id request|f|f|]; try (injection Hs as <-; by exists h; auto).
  - case_decide as Hn; [|done]. injection Hs as <-. unfold ws_upgrade_handler.
    destruct (subprotocol_valid header); [|by exists h; auto]. simpl. exists h.
    rewrite lookup_insert_ne by congruence. auto.
  - destruct (ds_handlers d !! t') as [h'|] eqn:Ht'; [|done]. simpl in Hs. destruct (h_pc h') eqn:Epc; try done.
    injection Hs as <-. simpl. destruct (decide (t' = t)) as [->|].
    + rewrite lookup_insert_eq. eexists. split; [done|]. simplify_eq. by auto.
    + rewrite lookup_insert_ne by done. exists h. auto.
  - destruct (ds_handlers d !! t') as [h'|] eqn:Ht'; [|done]. simpl in Hs.
    apply handler_step_moves in Hs as (pc & -> & _).
    destruct (decide (t' = t)) as [->|].
    + rewrite lookup_insert_eq. eexists. split; [done|]. simplify_eq. by auto.
    + rewrite lookup_insert_ne by done. exists h. auto.
Qed.

(** A port of the router belongs to a handler of the charge point it is registered for. *)
Definition ports_inv d : Prop :=
  ∀ id reg, ds_router d !! id = Some reg →
    ∃ h, ds_handlers d !! port_owner (reg_tx reg) = Some h ∧ h_id h = id.

Lemma ports_inv_step d now a d' :
  server_action a = true → ports_inv d → ds_step new_port d (now, a) = Some d' → ports_inv d'.
Proof.
  intros Ha Hp Hs.
  assert (∀ id reg, ds_router d !! id = Some reg →
    ∃ h, ds_handlers d' !! port_owner (reg_tx reg) = Some h ∧ h_id h = id) as Hold.
  { intros id reg (h & Hh & <-)%Hp. destruct (ds_step_handlers _ _ _ _ _ _ Hs Hh) as (h' & ? & ? & _). by exists h'. }
  unfold ds_step in Hs. cbn [fst snd] in Hs.
  destruct a as [t' id header|t'|t'|id request|f|f|]; try done; try (by injection Hs as <-).
  - case_decide; [|done]. unfold ws_upgrade_handler in Hs. destruct (subprotocol_valid header); by injection Hs as <-.
  - destruct (ds_handlers d !! t') as [h'|]; [|done]. simpl in Hs. destruct (h_pc h'); by simplify_eq/=.
  - destruct (ds_handlers d !! t') as [h'|] eqn:Ht'; [|done]. simpl in Hs. unfold handler_step in Hs.
    destruct (h_pc h'); try done; try (by injection Hs as <-).
    + injection Hs as <-. intros id reg Hid. cbn [ds_router set_pc set_ds_router] in Hid. unfold register in Hid.
      destruct (decide (id = h_id h')) as [->|]; [|rewrite lookup_insert_ne in Hid by done; by apply Hold].
      rewrite lookup_insert_eq in Hid. injection Hid as <-. simpl. rewrite lookup_insert_eq. by eexists.
    + injection Hs as <-. intros id reg Hid. cbn [ds_router set_pc set_ds_router] in Hid. unfold deregister in Hid.
      apply Hold. destruct (ds_router d !! h_id h') as [r|] eqn:Er; [|done].
      destruct (reg_generation r =? generation)%Z; [|done]. simpl in Hid. by apply lookup_delete_Some in Hid as [_ ?].
    + unfold deregister_connection in Hs. destruct (ds_connections d !! h_id h') as [ac|]; simplify_eq/=; [|done].
      destruct (ac_generation ac =? generation)%Z; by simplify_eq/=.
Qed.

(** The handlers' part of the manager is the downstream state. *)
Definition downstream_op (op : ManagerOp) : Prop := match op with OpTransition _ Downstream _ => True | _ => False end.

Lemma ds_step_manager d now a d' :
  server_action a = true → ds_step new_port d (now, a) = Some d' →
  ∃ ops, Forall downstream_op ops ∧ ds_manager d' = foldl apply_op (ds_manager d) ops.
Proof.
  intros Ha Hs.
  assert (∀ m, m = ds_manager d → ∃ ops, Forall downstream_op ops ∧ m = foldl apply_op (ds_manager d) ops)
    as Hsame by (intros m ->; by exists []).
  assert (∀ m st, m = transition now (ds_manager d) Downstream st →
    ∃ ops, Forall downstream_op ops ∧ m = foldl apply_op (ds_manager d) ops)
    as Hmove by (intros m st ->; exists [OpTransition now Downstream st]; by repeat constructor).
  unfold ds_step in Hs. cbn [fst snd] in Hs.
  destruct a as [t' id header|t'|t'|id request|f|f|]; try done; try (injection Hs as <-; by apply Hsame).
  - case_decide; [|done]. injection Hs as <-. unfold ws_upgrade_handler.
    destruct (subprotocol_valid header); [by eapply Hmove|by apply Hsame].
  - destruct (ds_handlers d !! t') as [h'|]; [|done]. simpl in Hs.
    destruct (h_pc h'); simplify_eq/=; by apply Hsame.
  - destruct (ds_handlers d !! t') as [h'|]; [|done]. simpl in Hs. unfold handler_step in Hs.
    destruct (h_pc h'); simplify_eq/=; try (by apply Hsame); try (by eapply Hmove).
    unfold deregister_connection in Hs. destruct (ds_connections d !! h_id h') as [ac|]; simplify_eq/=;
      [destruct (ac_generation ac =? generation)%Z; simplify_eq/=|]; by apply Hsame.
Qed.

Lemma downstream_op_spares c op : c ≠ Downstream → downstream_op op → spares c op.
Proof. destruct op as [? []| | |], c; simpl; try done; by intros ? []. Qed.
End server.

(** ** The invariant *)

Section system.
Context {T C U : Type} `{MqttClientLaws T} `{AsyncSender C AxumMessage} `{UpstreamLink U}.
Context `{SerdeJsonLaws} `{Chrono} `{HashOrder} (serde_error : Value → string) (config : SessionConfig).
Abbreviation Session := (Session (list MqttEvent) C U).
Abbreviation System := (System (T := T) (C := C) (U := U)).
Implicit Types (sys : System) (s : Session) (d : DownstreamState (list MqttEvent) Port).

(** A session of the handler [t]: a run of the session's model from the start for the
    handler's charge point, which was dispatched what the router handed to [t]; until it
    has ended its handler is at the call of [run_session]. *)
Definition session_ok d (handed : list CommandRequest) (t : nat) s : Prop :=
  ∃ h c ch m evs, ds_handlers d !! t = Some h ∧
    run config evs (session_new config c (h_id h) [] ch m) = Some s ∧
    handed = (evs ≫= λ ev, dispatched ev.2) ∧
    (ended s = false → ∃ g, h_pc h = PcRunning g) ∧
    length (s_inbox s) ≤ COMMAND_CHANNEL_CAPACITY.

Record sys_inv (m0 : ConnectionStateManager) (p0 : MqttPublisher T Port) (n : nat) sys : Prop := {
  inv_down : ∃ la, length la ≤ 3 * n ∧ ds_run new_port (downstream_new m0 []) la = Some (sys_down sys);
  inv_ports : ports_inv (sys_down sys);
  inv_sessions t s : sys_sessions sys !! t = Some s →
    session_ok (sys_down sys) (default [] (sys_handed sys !! t)) t s;
  inv_waiting t : sys_sessions sys !! t = None →
    default [] (sys_waiting sys !! t) = default [] (sys_handed sys !! t) ∧
    length (default [] (sys_waiting sys !! t)) ≤ COMMAND_CHANNEL_CAPACITY;
  inv_handed t : is_Some (sys_handed sys !! t) → is_Some (ds_handlers (sys_down sys) !! t);
  inv_queue : length (sys_queue sys) ≤ MQTT_CHANNEL_CAPACITY;
  inv_pub : ∃ lp, Forall others_keep_mqtt lp ∧ pub_run serde_error p0 lp = Some (sys_pub sys);
  inv_mqtt : sys_pub_live sys = true →
    ∃ m, p_manager (sys_pub sys) = Some m ∧ mqtt_state m = mqtt_state (ds_manager (sys_down sys));
  inv_manager : ∃ ops, ds_manager (sys_down sys) = foldl apply_op m0 ops
}.

Lemma offer_length sys old new :
  length (sys_queue sys) ≤ MQTT_CHANNEL_CAPACITY → length (offer sys old new) ≤ MQTT_CHANNEL_CAPACITY.
Proof.
  intros Hq. unfold offer, accept_events. destruct (sys_pub_live sys); [|done]. rewrite length_app, length_take. lia.
Qed.

(** The server's record changed by the others: the manager it holds. *)
Lemma down_manager m0 n sys m :
  (∃ la, length la ≤ 3 * n ∧ ds_run new_port (downstream_new m0 []) la = Some (sys_down sys)) →
  ∃ la, length la ≤ 3 * S n ∧ ds_run new_port (downstream_new m0 []) la = Some (set_ds_manager (sys_down sys) m).
Proof.
  intros (la & Hl & Hr). exists (la ++ [(0%Z, DsManager (λ _, m))]). rewrite length_app. split; [simpl; lia|].
  by eapply ds_run_app.
Qed.

Lemma ops_app (m0 m m' : ConnectionStateManager) :
  (∃ ops, m = foldl apply_op m0 ops) → (∃ ops, m' = foldl apply_op m ops) → ∃ ops, m' = foldl apply_op m0 ops.
Proof. intros [l1 ->] [l2 ->]. exists (l1 ++ l2). by rewrite foldl_app. Qed.

Lemma session_ok_down d d' handed t s :
  ds_handlers d' = ds_handlers d → session_ok d handed t s → session_ok d' handed t s.
Proof. unfold session_ok. by intros ->. Qed.

Lemma down_step_inv m0 p0 n sys now a sys' :
  sys_inv m0 p0 n sys → down_step sys now a = Some sys' → sys_inv m0 p0 (S n) sys'.
Proof.
  intros Hinv Hs. unfold down_step in Hs. destruct (server_action a && _) eqn:Ha; [|done].
  apply andb_prop in Ha as [Ha Hmove]. destruct (ds_step new_port (sys_down sys) (now, a)) as [d|] eqn:Ed; [|done].
  injection Hs as <-. destruct (ds_step_manager _ _ _ _ Ha Ed) as (ops & Hops & Em).
  destruct Hinv as [(la & Hl & Hr) Hp Hss Hw Hhd Hq Hpub Hmq Hman]. split; simpl; try done.
  - exists (la ++ [(now, a)]). rewrite length_app. split; [simpl; lia|]. eapply ds_run_app; [done|]. cbn. by rewrite Ed.
  - by eapply ports_inv_step.
  - intros t s Ht. destruct (Hss t s Ht) as (h & c & ch & m & evs & Hh & Hrun & Hhand & Hend & Hin).
    destruct (ds_step_handlers _ _ _ _ t h Ed Hh) as (h' & Hh' & Hid & Hpc).
    exists h', c, ch, m, evs. rewrite Hid. split_and!; try done. intros He. destruct (Hend He) as [g Hg].
    destruct Hpc as [->|[-> |[-> Hst]]]; [by exists g| |congruence].
    unfold handler_may_move in Hmove. rewrite Hh, Ht in Hmove. simpl in Hmove. rewrite Hg in Hmove. congruence.
  - intros t [h Hh]%Hhd. destruct (ds_step_handlers _ _ _ _ t h Ed Hh) as (h' & -> & _). by eexists.
  - by apply offer_length.
  - intros Hlive. destruct (Hmq Hlive) as (m & Hm & E). exists m. split; [done|]. rewrite E, Em.
    symmetry. apply (spared Mqtt). eapply Forall_impl; [exact Hops|]. intros op. by apply downstream_op_spares.
  - eapply ops_app; [exact Hman|]. by exists ops.
Qed.

Lemma start_session_inv m0 p0 n sys c t ch sys' :
  sys_inv m0 p0 n sys → start_session config sys c t ch = Some sys' → sys_inv m0 p0 (S n) sys'.
Proof.
  intros Hinv Hs. unfold start_session in Hs. destruct (ds_handlers (sys_down sys) !! t) as [h|] eqn:Hh; [|done].
  cbn [mbind option_bind] in Hs. destruct (h_pc h) eqn:Epc; try done. destruct (sys_sessions sys !! t) eqn:Ess; [done|].
  set (s0 := session_new config c (h_id h) [] ch (ds_manager (sys_down sys))) in Hs.
  apply (inj Some) in Hs. subst sys'.
  destruct Hinv as [Hd Hp Hss Hw Hhd Hq Hpub Hmq Hman]. destruct (Hw t Ess) as [Hwt Hwl].
  assert (∃ s00 : Session, s_inbox s00 = [] ∧ s_state s00 = ds_manager (sys_down sys) ∧ touches s00 s0 ∧ s_phase s0 = PhConnect)
    as (s00 & Hi0 & Hst0 & [_ Hi _ (ops & Hops & Hst)] & Hph).
  { unfold s0, session_new. eexists. split_and!; [| |apply touches_begin_connect|apply begin_connect_fields]; done. }
  rewrite Hi0 in Hi. rewrite Hst0 in Hst.
  assert (s0 = session_new config c (h_id h) [] ch (ds_manager (sys_down sys))) as Es0 by done.
  clearbody s0. split; simpl; try done.
  - by apply down_manager.
  - intros t' s Ht'. destruct (decide (t' = t)) as [->|].
    2: { rewrite lookup_insert_ne in Ht' by done. by apply Hss. }
    rewrite lookup_insert_eq in Ht'. injection Ht' as <-.
    exists h, c, ch, (ds_manager (sys_down sys)), ((λ r, (c, EvDispatched r)) <$> default [] (sys_waiting sys !! t)).
    rewrite deliver_events. split_and!; [done| |by rewrite Hwt|by eexists|].
    + rewrite <- Es0. apply run_deliver. left. unfold ended. by rewrite Hph.
    + change (length (s_inbox s0 ++ default [] (sys_waiting sys !! t)) ≤ COMMAND_CHANNEL_CAPACITY).
      rewrite length_app. change (length []) with 0 in Hi. lia.
  - intros t' Ht'. rewrite lookup_insert_None in Ht'. destruct Ht' as [Ht' Hne]. rewrite lookup_delete_ne by done. by apply Hw.
  - by apply offer_length.
  - intros Hlive. destruct (Hmq Hlive) as (m & Hm & E). exists m. split; [done|]. rewrite E, Hst.
    symmetry. apply (spared Mqtt). eapply Forall_impl; [exact Hops|]. intros op. by apply session_op_spares.
  - eapply ops_app; [exact Hman|]. by exists ops.
Qed.

Lemma session_step_inv m0 p0 n sys c t ev sys' :
  sys_inv m0 p0 n sys → session_step config sys c t ev = Some sys' → sys_inv m0 p0 (S n) sys'.
Proof.
  intros Hinv Hs. unfold session_step in Hs. destruct (sys_sessions sys !! t) as [s|] eqn:Ess; [|done]. simpl in Hs.
  destruct (session_may sys t ev) eqn:Hmay; [|done].
  set (s1 := set_state s (ds_manager (sys_down sys))) in Hs.
  destruct (step config c s1 ev) as [s'|] eqn:Es; [|done]. injection Hs as <-.
  assert (own_event ev = true) as Hown by (by destruct ev).
  destruct (step_touches config c s1 ev s' Hown Es) as [Hid Hi _ (ops & Hops & Hst)].
  destruct Hinv as [Hd Hp Hss Hw Hhd Hq Hpub Hmq Hman]. split; simpl; try done.
  - by apply down_manager.
  - intros t' s2 Ht'. destruct (decide (t' = t)) as [->|].
    2: { rewrite lookup_insert_ne in Ht' by done. by apply Hss. }
    rewrite lookup_insert_eq in Ht'. injection Ht' as <-.
    destruct (Hss t s Ess) as (h & c0 & ch & m & evs & Hh & Hrun & Hhand & Hend & Hin).
    exists h, c0, ch, m, (evs ++ [(c, EvOthers (ds_manager (sys_down sys))); (c, ev)]). split_and!; [done| | | |].
    + eapply run_app; [exact Hrun|]. cbn [run]. change (step config c s (EvOthers _)) with (Some s1). cbn [mbind option_bind].
      by rewrite Es.
    + rewrite bind_app, <- Hhand. destruct ev; try done; simpl; by rewrite app_nil_r.
    + intros He. apply Hend. unfold ended. destruct (s_phase s) eqn:Hph; try done.
      exfalso. unfold step in Es. change (s_phase s1) with (s_phase s) in Es. rewrite Hph in Es. by destruct ev as [[]| | | | | | | | | |].
    + simpl in Hi. lia.
  - intros t' Ht'. apply lookup_insert_None in Ht' as [Ht' _]. by apply Hw.
  - by apply offer_length.
  - intros Hlive. destruct (Hmq Hlive) as (m & Hm & E). exists m. split; [done|]. rewrite E, Hst.
    symmetry. apply (spared Mqtt). eapply Forall_impl; [exact Hops|]. intros op. by apply session_op_spares.
  - eapply ops_app; [exact Hman|]. by exists ops.
Qed.

(** ** The publisher's step *)

Definition refreshed sys : CommandRouter Port := map_inboxes (refresh sys) (ds_router (sys_down sys)).

(** The router after the publisher's event: as it was shown, or with one request sent to a
    port that had room. *)
Definition sent_one sys (router : CommandRouter Port) : Prop :=
  router = refreshed sys ∨
  ∃ id request reg k, refreshed sys !! id = Some reg ∧ inbox_room sys (port_owner (reg_tx reg)) = Some (S k) ∧
    router = <[id := mkRegistration (reg_generation reg) (mkPort (port_owner (reg_tx reg)) (Some k) [request])]> (refreshed sys).

Lemma refreshed_lookup sys id reg :
  refreshed sys !! id = Some reg →
  ∃ reg0, ds_router (sys_down sys) !! id = Some reg0 ∧ port_owner (reg_tx reg) = port_owner (reg_tx reg0) ∧
    port_sent (reg_tx reg) = [] ∧ port_room (reg_tx reg) = inbox_room sys (port_owner (reg_tx reg)).
Proof.
  unfold refreshed, map_inboxes. rewrite lookup_fmap. intros (reg0 & -> & ->)%fmap_Some. by exists reg0.
Qed.

Lemma dispatch_sent_one sys id request :
  sent_one sys (dispatch (refreshed sys) id request).1.
Proof.
  unfold dispatch. destruct (refreshed sys !! id) as [reg|] eqn:Er; [|by left].
  destruct (refreshed_lookup _ _ _ Er) as (reg0 & _ & _ & Hsent & Hroom).
  assert (<[id := mkRegistration (reg_generation reg) (reg_tx reg)]> (refreshed sys) = refreshed sys) as Hsame
    by (apply insert_id; rewrite Er; by destruct reg).
  destruct reg as [g [o room sent]]. simpl in *. subst sent.
  destruct room as [[|k]|]; [left; exact Hsame|right|left; exact Hsame]. by exists id, request, (mkRegistration g (mkPort o (Some (S k)) [])), k.
Qed.

(** Only the owner of that port receives something, and there is room for it. *)
Lemma arrivals_sent_one sys d t :
  sent_one sys (ds_router d) → ds_handlers d = ds_handlers (sys_down sys) →
  arrivals d t = [] ∨ ∃ request k, arrivals d t = [request] ∧ inbox_room sys t = Some (S k).
Proof.
  intros Hr Hh. unfold arrivals. destruct (ds_handlers d !! t) as [h|]; simpl; [|by left].
  destruct Hr as [->|(id & request & reg & k & Hreg & Hroom & ->)].
  - destruct (refreshed sys !! h_id h) as [reg|] eqn:E; [|by left].
    destruct (refreshed_lookup _ _ _ E) as (reg0 & _ & _ & -> & _). left. by case_decide.
  - destruct (decide (h_id h = id)) as [->|].
    + rewrite lookup_insert_eq. simpl. case_decide as Ho; [|by left]. right. exists request, k. by rewrite <- Ho.
    + rewrite lookup_insert_ne by done. destruct (refreshed sys !! h_id h) as [reg1|] eqn:E; [|by left].
      destruct (refreshed_lookup _ _ _ E) as (reg0 & _ & _ & -> & _). left. by case_decide.
Qed.

(** What the publisher's event makes of the record of the server. *)
Definition down_after sys (router : CommandRouter Port) (m : ConnectionStateManager) : DownstreamState (list MqttEvent) Port :=
  set_ds_manager (set_ds_router (set_ds_router (sys_down sys) (refreshed sys)) router) m.

Lemma down_after_run m0 n sys router m :
  (∃ la, length la ≤ 3 * n ∧ ds_run new_port (downstream_new m0 []) la = Some (sys_down sys)) →
  router = refreshed sys ∨ (∃ id request, router = (dispatch (refreshed sys) id request).1) →
  ∃ la, length la ≤ 3 * S n ∧ ds_run new_port (downstream_new m0 []) la = Some (down_after sys router m).
Proof.
  intros (la & Hl & Hr) [->|(id & request & ->)].
  - exists (la ++ [(0%Z, DsInboxes (refresh sys)); (0%Z, DsManager (λ _, m))]). rewrite length_app. split; [simpl; lia|].
    by eapply ds_run_app.
  - exists (la ++ [(0%Z, DsInboxes (refresh sys)); (0%Z, DsDispatch id request); (0%Z, DsManager (λ _, m))]).
    rewrite length_app. split; [simpl; lia|]. by eapply ds_run_app.
Qed.

Lemma dispatch_keeps_owner (router : CommandRouter Port) id request id' reg :
  (dispatch router id request).1 !! id' = Some reg →
  ∃ reg0, router !! id' = Some reg0 ∧ port_owner (reg_tx reg) = port_owner (reg_tx reg0).
Proof.
  unfold dispatch. destruct (router !! id) as [r|] eqn:E; [|by exists reg].
  destruct (decide (id' = id)) as [->|].
  - simpl. destruct r as [g [o [[|k]|] sent]]; simpl; rewrite lookup_insert_eq; intros [= <-]; by eexists.
  - destruct (try_send _ _) as [tx x]. simpl. rewrite lookup_insert_ne by done. by exists reg.
Qed.

Lemma down_after_ports sys router m :
  ports_inv (sys_down sys) →
  router = refreshed sys ∨ (∃ id request, router = (dispatch (refreshed sys) id request).1) →
  ports_inv (down_after sys router m).
Proof.
  intros Hp Hr id reg Hid. simpl in Hid.
  assert (∃ reg0, refreshed sys !! id = Some reg0 ∧ port_owner (reg_tx reg) = port_owner (reg_tx reg0)) as (reg0 & Hid0 & Ho).
  { destruct Hr as [->|(id0 & request & ->)]; [by exists reg|by eapply dispatch_keeps_owner]. }
  destruct (refreshed_lookup _ _ _ Hid0) as (reg1 & Hid1 & Ho1 & _). rewrite Ho, Ho1. by apply Hp.
Qed.

(** The step itself, taken apart. *)
Lemma publisher_step_inv_split sys c e queue sys' :
  own_pub_event e = true → publisher_step serde_error sys c e queue = Some sys' →
  sys_pub_live sys = true ∧ ∃ p1 p2 router m,
  p1 = set_mqtt_state (set_router (sys_pub sys) ((λ _, refreshed sys) <$> p_router (sys_pub sys)))
         (p_state (sys_pub sys)) ((λ _, ds_manager (sys_down sys)) <$> p_manager (sys_pub sys)) ∧
  pub_step serde_error p1 (c, e) = Some p2 ∧
  (router = refreshed sys ∨ ∃ id request, router = (dispatch (refreshed sys) id request).1) ∧
  router = default (refreshed sys) (p_router p2) ∧ m = default (ds_manager (sys_down sys)) (p_manager p2) ∧
  let d := down_after sys router m in
  sys' = mkSystem d
    (map_imap (λ t s, Some (deliver s (arrivals d t))) (sys_sessions sys))
    (map_imap (λ t h, if decide (sys_sessions sys !! t = None)
                      then Some (default [] (sys_waiting sys !! t) ++ arrivals d t) else None) (ds_handlers d))
    p2 true queue
    (map_imap (λ t h, Some (default [] (sys_handed sys !! t) ++ arrivals d t)) (ds_handlers d)).
Proof.
  intros Hown Hs. unfold publisher_step in Hs. destruct (sys_pub_live sys); [|done]. split; [done|].
  cbn [mbind option_bind pub_step fst snd] in Hs.
  set (p1 := set_mqtt_state _ _ _) in Hs. change (pub_step serde_error p1 (c, e)) with (pub_step serde_error p1 (c, e)) in Hs.
  destruct (pub_step serde_error p1 (c, e)) as [p2|] eqn:E2; [|done].
  exists p1, p2, (default (refreshed sys) (p_router p2)), (default (ds_manager (sys_down sys)) (p_manager p2)).
  split; [done|]. split; [done|]. split; [|split_and!; [done|done|by injection Hs as <-]].
  destruct (pub_step_router serde_error _ _ _ _ Hown E2) as [E|(id & request & E)]; rewrite E;
    change (p_router p1) with ((λ _, refreshed sys) <$> p_router (sys_pub sys));
    destruct (p_router (sys_pub sys)); simpl; [by left..|right; by exists id, request|by left].
Qed.

(** A delivery to a session that is well is well. *)
Lemma session_ok_deliver sys d (c : Clock) t s :
  sent_one sys (ds_router d) → ds_handlers d = ds_handlers (sys_down sys) → sys_sessions sys !! t = Some s →
  session_ok (sys_down sys) (default [] (sys_handed sys !! t)) t s →
  session_ok d (default [] (sys_handed sys !! t) ++ arrivals d t) t (deliver s (arrivals d t)).
Proof.
  intros Hsent Hh Ht (h & c0 & ch & m & evs & Hth & Hrun & Hhand & Hend & Hin).
  exists h, c0, ch, m, (evs ++ ((λ r, (c, EvDispatched r)) <$> arrivals d t)).
  assert (arrivals d t = [] ∨ ∃ request, arrivals d t = [request] ∧ ended s = false ∧ S (length (s_inbox s)) ≤ COMMAND_CHANNEL_CAPACITY) as Ha.
  { destruct (arrivals_sent_one sys d t Hsent Hh) as [->|(request & k & -> & Hroom)]; [by left|right]. exists request.
    unfold inbox_room in Hroom. rewrite Ht in Hroom. destruct (ended s); [done|]. injection Hroom as Hroom.
    unfold room_of in Hroom. split_and!; [done|done|lia]. }
  rewrite bind_app, deliver_events, <- Hhand, Hh. split_and!; [done| |done|done|].
  - eapply run_app; [exact Hrun|]. apply run_deliver. destruct Ha as [->|(request & _ & -> & _)]; auto.
  - simpl. rewrite length_app. destruct Ha as [->|(request & -> & _ & Hl)]; simpl; lia.
Qed.

Lemma publisher_step_inv m0 p0 n sys c e queue sys' :
  own_pub_event e = true → sys_inv m0 p0 n sys → length queue ≤ MQTT_CHANNEL_CAPACITY →
  publisher_step serde_error sys c e queue = Some sys' → sys_inv m0 p0 (S n) sys'.
Proof.
  intros Hown Hinv Hq (Hlive & p1 & p2 & router & m & Ep1 & Hs & Hrouter & _ & Em & ->)%publisher_step_inv_split; [|done].
  destruct Hinv as [Hd Hp Hss Hw _ _ (lp & Hlp & Hpub) Hmq Hman]. destruct (Hmq Hlive) as (mp & Hmp & Emq).
  assert (sent_one sys router) as Hsent by (destruct Hrouter as [->|(id & request & ->)]; [by left|apply dispatch_sent_one]).
  set (d := down_after sys router m). assert (ds_handlers d = ds_handlers (sys_down sys)) as Hh by done.
  destruct (pub_step_manager serde_error p1 c e p2 Hown Hs) as (ops & Hops & Hp2).
  assert (p_manager p2 = Some m ∧ m = foldl apply_op (ds_manager (sys_down sys)) ops) as [Hpm Hm].
  { rewrite Em, Hp2, Ep1. simpl. by rewrite Hmp. }
  split; cbn [sys_down sys_sessions sys_waiting sys_pub sys_pub_live sys_queue sys_handed].
  - by apply down_after_run.
  - by apply down_after_ports.
  - intros t s Ht. rewrite map_lookup_imap in Ht. apply bind_Some in Ht as (s0 & Ht & [= <-]).
    pose proof (Hss t s0 Ht) as Hok. rewrite map_lookup_imap, Hh.
    destruct Hok as (h & Hok). destruct Hok as (c0 & ch & mm & evs & Hth & Hrest). rewrite Hth. simpl.
    apply session_ok_deliver; [exact c|done|done|done|]. by exists h, c0, ch, mm, evs.
  - intros t Ht. rewrite map_lookup_imap in Ht. destruct (sys_sessions sys !! t) eqn:Ess; [done|].
    rewrite !map_lookup_imap. destruct (ds_handlers d !! t) as [h|] eqn:Eh; simpl; [|split; [done|simpl; lia]].
    rewrite decide_True by done. simpl. destruct (Hw t Ess) as [-> Hl]. split; [done|].
    rewrite length_app.
    destruct (arrivals_sent_one sys d t Hsent Hh) as [->|(request & k & -> & Hroom)]; simpl; [lia|].
    unfold inbox_room in Hroom. rewrite Ess in Hroom. injection Hroom as Hroom. unfold room_of in Hroom.
    rewrite (proj1 (Hw t Ess)) in Hroom. lia.
  - intros t [x Hx]. rewrite map_lookup_imap in Hx. apply bind_Some in Hx as (h & Hth & _). by exists h.
  - done.
  - (* the manager as the others left it, but for the MQTT state, which is the publisher's own *)
    set (fm := λ m' : ConnectionStateManager, let x := ds_manager (sys_down sys) in
      mkManager (upstream_state x) (downstream_state x) (mqtt_state m') (listener_bound x) (state_tx x) (metrics x)).
    exists (lp ++ [(c, PubShared (λ _, refreshed sys) fm); (c, e)]). split.
    + apply Forall_app. split; [done|]. apply Forall_cons_2; [done|]. apply Forall_cons_2; [by destruct e|done].
    + assert (pub_step serde_error (sys_pub sys) (c, PubShared (λ _, refreshed sys) fm) = Some p1) as E1.
      { rewrite Ep1. unfold pub_step. cbn [fst snd]. rewrite Hmp. simpl. unfold fm. rewrite Emq.
        by destruct (ds_manager (sys_down sys)). }
      eapply pub_run_app; [exact Hpub|]. cbn [pub_run]. rewrite E1. cbn [mbind option_bind]. by rewrite Hs.
  - intros _. by exists m.
  - eapply ops_app; [exact Hman|]. simpl. rewrite Hm. by exists ops.
Qed.

Lemma sys_step_inv m0 p0 n sys ce sys' :
  sys_inv m0 p0 n sys → sys_step serde_error config sys ce = Some sys' → sys_inv m0 p0 (S n) sys'.
Proof.
  destruct ce as [c [a|t ch|t ev|e| | |]]; unfold sys_step; cbn [fst snd]; intros Hinv Hs.
  - by eapply down_step_inv.
  - by eapply start_session_inv.
  - by eapply session_step_inv.
  - eapply publisher_step_inv; [|done|by apply Hinv|exact Hs]. done.
  - destruct (sys_queue sys) as [|e queue] eqn:Eq; [done|]. eapply publisher_step_inv; [|done| |exact Hs]; [done|].
    pose proof (inv_queue _ _ _ _ Hinv) as Hq. rewrite Eq in Hq. simpl in Hq. lia.
  - destruct (sys_pub_live sys && _); [|done]. injection Hs as <-. destruct Hinv. split; simpl; try done; [by apply down_manager|lia|].
    eapply ops_app; [done|]. by exists [OpTransition (utc_now c) Mqtt Disconnected].
  - destruct (ds_shutdown _); [|done]. injection Hs as <-. destruct Hinv as [? ? ? ? ? ? ? Hmq ?]. split; simpl; try done; [by apply down_manager|].
    eapply ops_app; [done|]. by exists [OpListener false].
Qed.

Lemma sys_run_inv m0 p0 n l sys sys' :
  sys_inv m0 p0 n sys → sys_run serde_error config sys l = Some sys' → sys_inv m0 p0 (length l + n) sys'.
Proof.
  revert n sys. induction l as [|ce l IH]; intros n sys Hinv Hr; [by injection Hr as <-|]. cbn [sys_run] in Hr.
  destruct (sys_step serde_error config sys ce) as [q|] eqn:Es; [|done].
  replace (length (ce :: l) + n) with (length l + S n) by (simpl; lia). apply (IH (S n) q); [by eapply sys_step_inv|done].
Qed.

(** The publisher at its start: it has the manager it was given. *)
Definition wired (m0 : ConnectionStateManager) (p0 : MqttPublisher T Port) : Prop :=
  pub_inv p0 ∧ p_manager p0 = Some m0.

Lemma sys_new_inv m0 p0 : wired m0 p0 → sys_inv m0 p0 0 (sys_new m0 p0).
Proof.
  intros [_ Hm]. split; simpl; try done.
  - by exists [].
  - intros t _. split; [done|]. change (0 ≤ COMMAND_CHANNEL_CAPACITY). lia.
  - intros t [x Hx]. by rewrite lookup_empty in Hx.
  - lia.
  - exists []. by split.
  - intros _. by exists m0.
  - by exists [].
Qed.
End system.

(** ** A proxy for examples: one charger, connected, with commands enabled *)

Definition start_manager : ConnectionStateManager := set_listener_bound (transition 0 manager_new Mqtt Connected) true.

Definition start_publisher : MqttPublisher Channel Port :=
  mkPublisher (mkChannel [] REQUEST_CHANNEL_CAPACITY) (Some "CP1"%string) [] 500 Connected
    (backoff_with_defaults (from_secs 1) (from_secs 30)) ∅ store_disabled (example_disk []) (Some start_manager) None
    (Some ∅) (Some ChargingConfig_default) false ∅.

Lemma start_wired : wired start_manager start_publisher.
Proof. split; [|done]. split; [apply on_schedule_new; lia|]. by intros m [= <-]. Qed.

Definition ExampleSystem : Type := System (T := Channel) (C := CountedChannel AxumMessage) (U := ListLink).
Definition ExampleEvent : Type := SysEvent (C := CountedChannel AxumMessage) (U := ListLink).

Definition example_sys_run (sys : ExampleSystem) (l : list ExampleEvent) : option ExampleSystem :=
  @sys_run Channel (CountedChannel AxumMessage) ListLink channel_client counted_sender list_link reference_codec
    plain_chrono key_order no_error sample_session_config sys (pair noon <$> l).

Definition start_system : ExampleSystem := sys_new start_manager start_publisher.

(** The charger [CP1] connects as handler [t], and its session reaches the Central System. *)
Definition charger_arrives (t : nat) : list ExampleEvent :=
  [SysServer (DsUpgrade t "CP1" ocpp_header)] ++ replicate 5 (SysServer (DsHandler t)) ++
  [SysStart t (mkCounted [] 1000); SysSession t (EvConnect (Ok good_link))].

Definition limit_command : ExampleEvent := SysPoll (PollPublish "ocpp/CP1/command/current_limit" "16").

(** It reads a command. *)
Definition commanded : list ExampleEvent :=
  charger_arrives 1 ++ [SysReceive; limit_command; SysSession 1 EvCommand; limit_command].

Definition commanded_system : ExampleSystem := default start_system (example_sys_run start_system commanded).

Lemma commanded_run :
  @sys_run Channel (CountedChannel AxumMessage) ListLink channel_client counted_sender list_link reference_codec
    plain_chrono key_order no_error sample_session_config start_system (pair noon <$> commanded) = Some commanded_system.
Proof. vm_compute. reflexivity. Qed.
