(* ===== verification/SystemTheorems.v ===== *)
(** * What holds of the whole proxy

    Theorems on all runs of the system of System.v: its components run as their own
    models say, a command the broker sends ends in one inbox and is answered for once,
    inboxes and channel are bounded, a charge point has one live session, and the shared
    state says what its owners know. *)

From S2P Require Import Prelude Float64 Json Text Models StateManager Config Command CallQueue Forwarder.
From S2P Require Import Session SessionShared SessionCalls SessionStates ChargePoint SnapshotStore.
From S2P Require Import Publisher PublisherQueue PublisherCommands Downstream System SystemRuns.

Local Open Scope nat_scope.

Section theorems.
Context {T C U : Type} `{MqttClientLaws T} `{AsyncSender C AxumMessage} `{UpstreamLink U}.
Context `{SerdeJsonLaws} `{Chrono} `{HashOrder} (serde_error : Value → string) (config : SessionConfig).
Abbreviation System := (System (T := T) (C := C) (U := U)).
Implicit Types (sys : System) (s : Session (list MqttEvent) C U).

Lemma reachable_inv m0 p0 l sys :
  wired m0 p0 → sys_run serde_error config (sys_new m0 p0) l = Some sys →
  sys_inv serde_error config m0 p0 (length l) sys.
Proof.
  intros Hw Hr. rewrite <- (Nat.add_0_r (length l)). eapply sys_run_inv; [by apply sys_new_inv|exact Hr].
Qed.

(** C2. The whole is its parts. Whatever the interleaving of connections, sessions, broker and
    shutdown, the server's part of a run is a run of the server's model, each session is
    a run of the session's model for the charge point of its handler, and the publisher's
    part is a run of the publisher's, in which the others leave its state alone: what is
    proved of each on all its runs holds in the proxy. *)
Theorem system_refines_parts m0 p0 l sys :
  wired m0 p0 → sys_run serde_error config (sys_new m0 p0) l = Some sys →
  (∃ la, length la ≤ 3 * length l ∧ ds_run new_port (downstream_new m0 []) la = Some (sys_down sys)) ∧
  (∀ t s, sys_sessions sys !! t = Some s →
     ∃ h c ch m evs, ds_handlers (sys_down sys) !! t = Some h ∧
       run config evs (session_new config c (h_id h) [] ch m) = Some s) ∧
  (∃ lp, Forall others_keep_mqtt lp ∧ pub_run serde_error p0 lp = Some (sys_pub sys)).
Proof.
  intros Hw Hr. destruct (reachable_inv m0 p0 l sys Hw Hr) as [Hd _ Hss _ _ _ Hpub _ _].
  split_and!; [done| |done]. intros t s Ht. destruct (Hss t s Ht) as (h & c & ch & m & evs & ? & ? & _).
  by exists h, c, ch, m, evs.
Qed.

(** C3. No command is lost between the router and its result. Of the commands the router has
    put in the inbox of a connection, over any run, each one is reported on by its
    session exactly once or still owed a report there; before the session starts they wait
    in the inbox in the order they came. *)
Theorem commands_accounted m0 p0 l sys t :
  wired m0 p0 → sys_run serde_error config (sys_new m0 p0) l = Some sys →
  let handed := default [] (sys_handed sys !! t) in
  match sys_sessions sys !! t with
  | Some s => (result_key <$> results s) ++ (request_key <$> owed s) ≡ₚ request_key <$> handed
  | None => default [] (sys_waiting sys !! t) = handed
  end.
Proof.
  intros Hw Hr handed. destruct (reachable_inv m0 p0 l sys Hw Hr) as [_ _ Hss Hwt _ _ _ _ _].
  destruct (sys_sessions sys !! t) as [s|] eqn:Ht; [|by apply Hwt].
  destruct (Hss t s Ht) as (h & c & ch & m & evs & _ & Hrun & Hh & _). apply run_ledger in Hrun.
  fold (ledger s). unfold handed. rewrite Hh, Hrun. unfold session_new. by rewrite begin_connect_ledger.
Qed.

(** C21. The channels of the proxy stay within the capacities they are made with, whatever the
    order in which the publisher writes and the sessions read: 32 commands in an inbox,
    before its session starts as well as after, and 1000 events. *)
Theorem channels_bounded m0 p0 l sys :
  wired m0 p0 → sys_run serde_error config (sys_new m0 p0) l = Some sys →
  map_Forall (λ _ s, length (s_inbox s) ≤ COMMAND_CHANNEL_CAPACITY) (sys_sessions sys) ∧
  (∀ t, sys_sessions sys !! t = None → length (default [] (sys_waiting sys !! t)) ≤ COMMAND_CHANNEL_CAPACITY) ∧
  length (sys_queue sys) ≤ MQTT_CHANNEL_CAPACITY.
Proof.
  intros Hw Hr. destruct (reachable_inv m0 p0 l sys Hw Hr) as [_ _ Hss Hwt _ Hq _ _ _].
  split_and!; [|by apply Hwt|done]. intros t s Ht. by destruct (Hss t s Ht) as (h & c & ch & m & evs & _ & _ & _ & _ & ?).
Qed.

(** C4. One charger, one session: of the sessions that run for one charge point, at most one
    has not been cancelled. *)
Theorem one_session_runs m0 p0 l sys t t' h h' s s' :
  wired m0 p0 → sys_run serde_error config (sys_new m0 p0) l = Some sys →
  (3 * Z.of_nat (length l) < 2 ^ 64 - 1)%Z →
  ds_handlers (sys_down sys) !! t = Some h → ds_handlers (sys_down sys) !! t' = Some h' → h_id h = h_id h' →
  sys_sessions sys !! t = Some s → sys_sessions sys !! t' = Some s' → ended s = false → ended s' = false →
  is_cancelled (sys_down sys) t = false → is_cancelled (sys_down sys) t' = false → t = t'.
Proof.
  intros Hw Hr Hl Hh Hh' Hid Hs Hs' He He' Hc Hc'.
  destruct (reachable_inv m0 p0 l sys Hw Hr) as [(la & Hla & Hrun) _ Hss _ _ _ _ _ _].
  apply ds_run_inv in Hrun; [|apply ds_inv_new|simpl; lia]. destruct (ds_inv_live _ Hrun) as [_ Hone].
  destruct (Hss t s Hs) as (h0 & _ & _ & _ & _ & E & _ & _ & Hpc & _). destruct (Hpc He) as [g Hg].
  destruct (Hss t' s' Hs') as (h0' & _ & _ & _ & _ & E' & _ & _ & Hpc' & _). destruct (Hpc' He') as [g' Hg'].
  simplify_eq. apply (Hone t t' h h' g g'); try done; [by rewrite Hg|by rewrite Hg'].
Qed.

(** C20. The shared state says what its owners know: the manager's MQTT state is the
    publisher's own as long as the publisher runs, whatever sessions and handlers do to
    the rest; and its broadcast events lead, for each of the three connections, from
    where the manager started to its present state, a real change at a time. *)
Theorem shared_state_tells m0 p0 l sys :
  wired m0 p0 → log_inv m0 → sys_run serde_error config (sys_new m0 p0) l = Some sys →
  (sys_pub_live sys = true → mqtt_state (ds_manager (sys_down sys)) = p_state (sys_pub sys)) ∧
  log_inv (ds_manager (sys_down sys)).
Proof.
  intros Hw Hlog Hr. destruct (reachable_inv m0 p0 l sys Hw Hr) as [_ _ _ _ _ _ (lp & Hlp & Hpub) Hmq (ops & Hops)]. split.
  - intros (m & Hm & <-)%Hmq. destruct Hw as [Hinv _].
    destruct (pub_run_inv _ _ _ _ Hlp Hinv Hpub) as [_ Hpm]. by apply Hpm.
  - rewrite Hops. clear Hops. revert Hlog. generalize m0 as m. induction ops as [|op ops IH]; intros m Hlog; [done|]. simpl.
    by apply IH, log_inv_op.
Qed.

(** ** A command from the broker to the inbox *)

(** The handler whose inbox takes a command for the charge point: the one whose sender the
    router holds, if its inbox is open and has room. *)
Definition inbox_for sys (id : string) : option nat :=
  reg ← ds_router (sys_down sys) !! id;
  match inbox_room sys (port_owner (reg_tx reg)) with Some (S _) => Some (port_owner (reg_tx reg)) | _ => None end.

Lemma arrivals_dispatch sys d id request t :
  ports_inv (sys_down sys) → ds_handlers d = ds_handlers (sys_down sys) →
  ds_router d = (dispatch (refreshed sys) id request).1 →
  arrivals d t = if decide (inbox_for sys id = Some t) then [request] else [].
Proof.
  intros Hp Hh Hr.
  assert (∀ id' reg, refreshed sys !! id' = Some reg → port_sent (reg_tx reg) = []) as Hnone.
  { intros id' reg Hreg. by destruct (refreshed_lookup _ _ _ Hreg) as (? & _ & _ & ? & _). }
  assert (ds_router d = refreshed sys → arrivals d t = []) as Hsame.
  { unfold arrivals. intros ->. destruct (ds_handlers d !! t) as [h|]; simpl; [|done].
    destruct (refreshed sys !! h_id h) as [reg|] eqn:E; [|done]. rewrite (Hnone _ _ E). by repeat case_decide. }
  unfold inbox_for. destruct (ds_router (sys_down sys) !! id) as [[g [o room sent]]|] eqn:Er; simpl.
  2: { rewrite Hsame; [by repeat case_decide|]. rewrite Hr. unfold dispatch, refreshed, map_inboxes. by rewrite lookup_fmap, Er. }
  assert (refreshed sys !! id = Some (mkRegistration g (mkPort o (inbox_room sys o) []))) as Erf
    by (unfold refreshed, map_inboxes; by rewrite lookup_fmap, Er).
  unfold dispatch in Hr. rewrite Erf in Hr. simpl in Hr.
  destruct (inbox_room sys o) as [[|k]|] eqn:Eroom; simpl in Hr; rewrite ?(insert_id _ _ _ Erf) in Hr;
    [rewrite Hsame by done; by repeat case_decide| |rewrite Hsame by done; by repeat case_decide].
  destruct (Hp id _ Er) as (h & Hho & Hid). simpl in Hho. unfold arrivals. rewrite Hh, Hr. case_decide as E.
  - injection E as <-. rewrite Hho. simpl. rewrite Hid, lookup_insert_eq. simpl. by rewrite decide_True.
  - destruct (ds_handlers (sys_down sys) !! t) as [h'|] eqn:Ht; simpl; [|done].
    destruct (decide (h_id h' = id)) as [->|].
    + rewrite lookup_insert_eq. simpl. rewrite decide_False; [done|]. congruence.
    + rewrite lookup_insert_ne by done. destruct (refreshed sys !! h_id h') as [reg|] eqn:E'; [|done].
      rewrite (Hnone _ _ E'). by repeat case_decide.
Qed.

(** C9. From the broker to the charger's session: with commands enabled, a command for a charge
    point goes to the end of exactly one inbox, that of the connection the router names,
    when that is open and has room, and otherwise to none, and then, if the publisher's
    buffer has room for two messages more, its sender is answered that it was not; no
    other connection gets it. *)
Theorem command_delivered m0 p0 l sys sys' c topic payload id kind request :
  wired m0 p0 → sys_run serde_error config (sys_new m0 p0) l = Some sys → is_Some (p_router (sys_pub sys)) →
  parse_command_topic topic = Some (id, kind) →
  parse_command_payload serde_error (utc_now c) kind payload = Ok request →
  sys_step serde_error config sys (c, SysPoll (PollPublish topic payload)) = Some sys' →
  (∀ t, default [] (sys_handed sys' !! t) =
     default [] (sys_handed sys !! t) ++ (if decide (inbox_for sys id = Some t) then [request] else [])) ∧
  (∀ t s, sys_sessions sys !! t = Some s → sys_sessions sys' !! t =
     Some (set_inbox s (s_inbox s ++ (if decide (inbox_for sys id = Some t) then [request] else [])))) ∧
  (inbox_for sys id = None → length (p_buffer (sys_pub sys)) + 2 ≤ p_max_buffer_size (sys_pub sys) →
     ∃ result, answered (sys_pub sys) (sys_pub sys') id result ∧ res_id result = req_id request ∧
       (res_status result = Rejected ∨ res_status result = CsNotConnected)).
Proof.
  intros Hw Hr [rt Hrt] Htopic Hpay Hstep. destruct (reachable_inv m0 p0 l sys Hw Hr) as [_ Hp _ _ Hhd _ _ _ _].
  unfold sys_step in Hstep. cbn [fst snd] in Hstep.
  apply publisher_step_inv_split in Hstep as (_ & p1 & p2 & router & m & Ep1 & Hs & _ & Erouter & _ & ->); [|done].
  unfold pub_step in Hs. cbn [fst snd on_poll] in Hs. unfold handle_incoming_publish in Hs. rewrite Htopic, Hpay in Hs.
  injection Hs as Hs. set (p1' := after_poll p1 (PollPublish topic payload)) in Hs.
  assert (p_router p1' = Some (refreshed sys)) as E1 by (unfold p1'; rewrite Ep1; simpl; by rewrite Hrt).
  assert (router = (dispatch (refreshed sys) id request).1) as ->.
  { rewrite Erouter, <- Hs, drain_router, (proj1 (dispatch_command_router _ _ _ _)), E1. done. }
  set (d := down_after sys _ m). assert (∀ t, arrivals d t = if decide (inbox_for sys id = Some t) then [request] else []) as Ha
    by (intros t; by apply arrivals_dispatch).
  cbn [sys_handed sys_sessions sys_pub]. split_and!.
  - intros t. rewrite map_lookup_imap. destruct (ds_handlers d !! t) as [h|] eqn:Eh; simpl; [by rewrite Ha|].
    assert (sys_handed sys !! t = None) as ->.
    { apply eq_None_not_Some. intros [h Hh]%Hhd. change (ds_handlers d) with (ds_handlers (sys_down sys)) in Eh. congruence. }
    simpl. rewrite <- Ha. unfold arrivals. by rewrite Eh.
  - intros t s Ht. rewrite map_lookup_imap, Ht. simpl. unfold deliver. by rewrite Ha.
  - intros Hnone Hroom.
    assert (stream p1' = stream (sys_pub sys)) as Est by (unfold p1'; rewrite after_poll_stream, Ep1; done).
    destruct (dispatched_or_answered c p1' id request) as [(router & reg & Er & Hreg & Hok & _)|(status & detail & (pl & snap & Hj & Hst & Hsn) & Href)].
    + by eapply parse_command_typed.
    + unfold p1'. by rewrite Ep1.
    + rewrite E1 in Er. injection Er as <-. destruct (refreshed_lookup _ _ _ Hreg) as (reg0 & Hreg0 & Ho & _ & Hrm).
      unfold inbox_for in Hnone. rewrite Hreg0 in Hnone. simpl in Hnone. rewrite <- Ho, <- Hrm in Hnone.
      simpl in Hok. destruct (port_room (reg_tx reg)) as [[|k]|]; done.
    + exists (for_request (utc_now c) request status detail). split_and!; [|done|].
      * exists pl, snap. rewrite <- Hs, (proj1 (drain_if_connected_stream _)), Hst, Est. done.
      * unfold refusal in Href. rewrite E1 in Href. destruct (refreshed sys !! id) as [reg|]; [|by right].
        destruct (try_send (reg_tx reg) request).2 as [|[]]; [done|by left|by right].
Qed.
End theorems.

(** ** Witnesses *)

#[local] Existing Instance reference_codec.
#[local] Existing Instance reference_codec_laws.
#[local] Existing Instance plain_chrono.
#[local] Existing Instance key_order.

Lemma system_refines_parts_witness :
  ∃ la, ds_run new_port (downstream_new start_manager []) la = Some (sys_down commanded_system).
Proof.
  destruct (system_refines_parts no_error sample_session_config start_manager start_publisher
    (pair noon <$> commanded) commanded_system start_wired commanded_run) as ((la & _ & Hr) & _ & _).
  exists la. exact Hr.
Defined.

(** One of the two commands is in flight, the other in the inbox. *)
Lemma commands_accounted_witness :
  match sys_sessions commanded_system !! 1 with
  | Some s => length ((result_key <$> results s) ++ (request_key <$> owed s)) = 2
  | None => False
  end.
Proof.
  pose proof (commands_accounted no_error sample_session_config start_manager start_publisher
    (pair noon <$> commanded) commanded_system 1 start_wired commanded_run) as Hc. cbv zeta in Hc.
  destruct (sys_sessions commanded_system !! 1) as [s|] eqn:E; [|vm_compute in E; discriminate E].
  apply Permutation_length in Hc. rewrite Hc. vm_compute. reflexivity.
Defined.

Lemma channels_bounded_witness : length (sys_queue commanded_system) ≤ MQTT_CHANNEL_CAPACITY.
Proof.
  exact (proj2 (proj2 (channels_bounded no_error sample_session_config start_manager start_publisher
    (pair noon <$> commanded) commanded_system start_wired commanded_run))).
Defined.

Lemma shared_state_tells_witness :
  mqtt_state (ds_manager (sys_down commanded_system)) = Connected.
Proof.
  destruct (shared_state_tells no_error sample_session_config start_manager start_publisher
    (pair noon <$> commanded) commanded_system start_wired) as [Hs _].
  - intros []; vm_compute; repeat split; discriminate.
  - exact commanded_run.
  - rewrite Hs by (vm_compute; reflexivity). vm_compute. reflexivity.
Defined.

(** The charger connects a second time: the first session is cancelled and still runs. *)
Definition reconnected : list ExampleEvent := charger_arrives 1 ++ charger_arrives 2.
Definition reconnected_system : ExampleSystem := default start_system (example_sys_run start_system reconnected).

Lemma reconnected_run :
  sys_run no_error sample_session_config start_system (pair noon <$> reconnected) = Some reconnected_system.
Proof. vm_compute. reflexivity. Qed.

Definition session_at (t : nat) : ExampleSession :=
  default example_session (sys_sessions reconnected_system !! t).

Lemma one_session_runs_witness : is_cancelled (sys_down reconnected_system) 1 = true.
Proof.
  destruct (is_cancelled (sys_down reconnected_system) 1) eqn:E; [reflexivity|exfalso].
  assert (1 = 2) as Hne; [|discriminate Hne].
  refine (one_session_runs no_error sample_session_config start_manager start_publisher (pair noon <$> reconnected)
    reconnected_system 1 2 (mkHandler "CP1" (PcRunning 1)) (mkHandler "CP1" (PcRunning 2)) (session_at 1) (session_at 2)
    start_wired reconnected_run _ _ _ eq_refl _ _ _ _ E _).
  - apply Z.ltb_lt. vm_compute. reflexivity.
  - vm_compute. reflexivity.
  - vm_compute. reflexivity.
  - vm_compute. reflexivity.
  - vm_compute. reflexivity.
  - vm_compute. reflexivity.
  - vm_compute. reflexivity.
  - vm_compute. reflexivity.
Defined.

(** The command reaches the inbox of the running session, whose handler is 1. *)
Definition idle_system : ExampleSystem := default start_system (example_sys_run start_system (charger_arrives 1)).

Lemma idle_run :
  sys_run no_error sample_session_config start_system (pair noon <$> charger_arrives 1) = Some idle_system.
Proof. vm_compute. reflexivity. Qed.

Definition sixteen : CommandRequest :=
  match parse_command_payload no_error (utc_now noon) TopicCurrentLimit "16" with Ok r => r | Err _ => sample_request end.

Lemma command_delivered_witness :
  ∃ sys', sys_step no_error sample_session_config idle_system (noon, limit_command) = Some sys' ∧
    default [] (sys_handed sys' !! 1) = [sixteen].
Proof.
  destruct (sys_step no_error sample_session_config idle_system (noon, limit_command)) as [sys'|] eqn:E;
    [|vm_compute in E; discriminate E].
  exists sys'. split; [reflexivity|].
  destruct (command_delivered no_error sample_session_config start_manager start_publisher (pair noon <$> charger_arrives 1)
    idle_system sys' noon "ocpp/CP1/command/current_limit" "16" "CP1" TopicCurrentLimit sixteen start_wired idle_run)
    as (Hh & _ & _); [eexists; vm_compute; reflexivity|vm_compute; reflexivity|vm_compute; reflexivity|exact E|].
  rewrite Hh. vm_compute. reflexivity.
Defined.
