(* ===== verification/SystemRecord.v ===== *)
(** * The publisher's record in the whole proxy

    Sessions and handlers report to one bounded channel and the publisher reads it. Here
    each event of the channel is traced to the task that reported it, so that what the
    publisher is told of the traffic can be compared with the traffic itself. *)

From S2P Require Import Prelude Float64 Json Models StateManager Config Command CallQueue Forwarder.
From S2P Require Import Session SessionShared SessionRelay SessionCalls SessionStates SessionSpeech SessionRecord.
From S2P Require Import ChargePoint SnapshotStore Publisher PublisherQueue PublisherCommands Downstream System SystemRuns SystemTheorems.

Local Open Scope nat_scope.

(** ** One session's record, as sublists *)

Section session.
Context {C U : Type} `{AsyncSenderLaws C AxumMessage} `{UpstreamLinkLaws U} `{SerdeJson} `{Chrono} (config : SessionConfig).

Lemma reported_sublist (items : list (bool * string)) : omap reported items `sublist_of` items.*2.
Proof. induction items as [|[[] x] items IH]; [done|by apply sublist_skip|by apply sublist_cons]. Qed.

Lemma relayed_sublist (items : list ToCharger) : omap relayed_text items `sublist_of` axum_texts (to_axum <$> items).
Proof. induction items as [|[] items IH]; [done|by apply sublist_skip|by apply sublist_cons|done]. Qed.

Lemma session_record_true c id charger m events (s : Session (list MqttEvent) C U) :
  run config events (session_new config c id [] charger m) = Some s →
  Forall (λ e, event_id e = id) (reports s) ∧
  told ChargerToCentral (reports s) `sublist_of` sent_upstream s ∧
  told CentralToCharger (reports s) `sublist_of` axum_texts (accepted (s_charger s)).
Proof.
  intros Hr. destruct (session_new_quiet (U := U) config c id charger m) as (Es & Et & _ & _ & Ea).
  destruct (session_new_signed (U := U) config c id charger m) as (Ei & Eid & Fid).
  destruct (signed_run config events _ s Hr) as (_ & _ & l & El & Fl).
  destruct (run_conveys config events _ s Hr) as (items & E1 & E2). rewrite Es in E1. rewrite Et in E2. simpl in E1, E2.
  assert (winding_down (session_new (U := U) config c id [] charger m) = false) as Ho by done.
  destruct (run_spoke config events _ s Ho Hr) as (carried & _ & (body & tail & _ & E & A & _ & T & _) & _).
  rewrite Et in T. simpl in T. split_and!.
  - rewrite El. apply Forall_app_2; [exact Fid|]. eapply Forall_impl; [exact Fl|]. cbv beta. intros e [He|He]; congruence.
  - rewrite E1, E2. apply reported_sublist.
  - rewrite T, A. unfold axum_texts. rewrite omap_app, fmap_app, omap_app. apply sublist_inserts_l, sublist_inserts_r.
    etrans; [apply retain_sublist|]. rewrite <- E. apply relayed_sublist.
Qed.
End session.

(** ** Events with the task that reported them *)

Section tagged.
Implicit Types (l kept all : list (option nat * MqttEvent)).

(** The events of one task: a session, by its handler, or the handlers together. *)
Definition of_task (o : option nat) l : list MqttEvent := omap (λ x, if decide (x.1 = o) then Some x.2 else None) l.

Lemma of_task_app o l1 l2 : of_task o (l1 ++ l2) = of_task o l1 ++ of_task o l2.
Proof. apply omap_app. Qed.

Lemma of_task_tag o o' events : of_task o (pair o' <$> events) = if decide (o' = o) then events else [].
Proof.
  unfold of_task. induction events as [|e events IH]; [by case_decide|]. cbn [fmap list_fmap omap list_omap fst snd].
  destruct (decide (o' = o)) as [->|]; by rewrite IH.
Qed.

Lemma of_task_sublist o l1 l2 : l1 `sublist_of` l2 → of_task o l1 `sublist_of` of_task o l2.
Proof. unfold of_task. induction 1 as [|x l1 l2 _ IH|x l1 l2 _ IH]; simpl; [done|..]; case_decide; first [exact IH|by apply sublist_skip|by apply sublist_cons]. Qed.

Lemma told_sublist d (l1 l2 : list MqttEvent) : l1 `sublist_of` l2 → told d l1 `sublist_of` told d l2.
Proof. unfold told. induction 1 as [|x l1 l2 _ IH|x l1 l2 _ IH]; simpl; [done|..]; destruct x; simpl; repeat case_decide; first [exact IH|by apply sublist_skip|by apply sublist_cons]. Qed.

Lemma tag_snd (o : option nat) (events : list MqttEvent) : (pair o <$> events).*2 = events.
Proof. rewrite <- list_fmap_compose. apply list_fmap_id. Qed.
End tagged.

Section record.
Context {T C U : Type} `{MqttClientLaws T} `{AsyncSenderLaws C AxumMessage} `{UpstreamLinkLaws U}.
Context `{SerdeJsonLaws} `{Chrono} `{HashOrder} (serde_error : Value → string) (config : SessionConfig).
Abbreviation Session := (Session (list MqttEvent) C U).
Abbreviation System := (System (T := T) (C := C) (U := U)).
Abbreviation SysEvent := (SysEvent (C := C) (U := U)).
Implicit Types (sys : System) (s : Session) (d : DownstreamState (list MqttEvent) Port).

(** The events the publisher takes from the channel. *)
Definition handled_now sys (ce : Clock * SysEvent) : list MqttEvent :=
  match ce.2, sys_queue sys with SysReceive, e :: _ => [e] | _, _ => [] end.

Fixpoint sys_handled sys (l : list (Clock * SysEvent)) : list MqttEvent :=
  match l with
  | [] => []
  | ce :: l => handled_now sys ce ++ match sys_step serde_error config sys ce with Some sys' => sys_handled sys' l | None => [] end
  end.

(** All that was reported, by task, and what of it reached the channel. *)
Definition record_inv sys (handled : list MqttEvent) : Prop :=
  ∃ kept all, kept `sublist_of` all ∧ kept.*2 = handled ++ sys_queue sys ∧
    of_task None all = ds_mqtt_tx (sys_down sys) ∧
    ∀ t, of_task (Some t) all = match sys_sessions sys !! t with Some s => offered s | None => [] end.

(** The server reports states, and no frames. *)
Lemma ds_step_reports d now a d' :
  ds_step new_port d (now, a) = Some d' → ∃ l, ds_mqtt_tx d' = ds_mqtt_tx d ++ l ∧ ∀ dir, told dir l = [].
Proof.
  assert (∀ d', ds_mqtt_tx d' = ds_mqtt_tx d → ∃ l, ds_mqtt_tx d' = ds_mqtt_tx d ++ l ∧ ∀ dir, told dir l = []) as Hsame.
  { intros q ->. exists []. by rewrite app_nil_r. }
  unfold ds_step. cbn [fst snd]. intros Hs. destruct a as [t id header|t|t|id request|f|f|]; try (injection Hs as <-; by apply Hsame).
  - case_decide; [|done]. injection Hs as <-. apply Hsame. unfold ws_upgrade_handler. by destruct (subprotocol_valid header).
  - destruct (ds_handlers d !! t) as [h|]; [|done]. simpl in Hs. destruct (h_pc h); try done. injection Hs as <-. by apply Hsame.
  - destruct (ds_handlers d !! t) as [h|]; [|done]. simpl in Hs. unfold handler_step, deregister_connection, take_generation, report in Hs.
    destruct (h_pc h); try done; repeat case_match; simplify_eq/=; try (apply Hsame; reflexivity);
      (eexists [_]; split; [reflexivity|done]).
Qed.

(** What a task reports joins its record, and as much of it the channel as there is room. *)
Lemma record_offer sys sys' handled o old ext :
  record_inv sys handled → sys_queue sys' = offer sys old (old ++ ext) →
  (∀ o', match o' with None => ds_mqtt_tx (sys_down sys') | Some t => match sys_sessions sys' !! t with Some s => offered s | None => [] end end =
         match o' with None => ds_mqtt_tx (sys_down sys) | Some t => match sys_sessions sys !! t with Some s => offered s | None => [] end end
         ++ if decide (o = o') then ext else []) →
  record_inv sys' handled.
Proof.
  intros (kept & all & Hk & Eq & En & Et) Hq Hnew. unfold offer, accept_events in Hq. rewrite drop_app_length in Hq.
  set (room := MQTT_CHANNEL_CAPACITY - length (sys_queue sys)) in *.
  exists (kept ++ (pair o <$> if sys_pub_live sys then take room ext else [])), (all ++ (pair o <$> ext)). split_and!.
  - apply sublist_app; [done|]. apply fmap_sublist. destruct (sys_pub_live sys); [apply sublist_take|apply sublist_nil_l].
  - rewrite fmap_app, tag_snd, Eq, Hq, <- app_assoc. destruct (sys_pub_live sys); [done|by rewrite app_nil_r].
  - rewrite of_task_app, of_task_tag, En. symmetry. apply (Hnew None).
  - intros t. rewrite of_task_app, of_task_tag, Et. symmetry. apply (Hnew (Some t)).
Qed.

Lemma offered_deliver s l : offered (deliver s l) = offered s.
Proof. done. Qed.

Lemma publisher_step_record sys handled c e queue sys' popped :
  own_pub_event e = true → sys_queue sys = popped ++ queue → record_inv sys handled →
  publisher_step serde_error sys c e queue = Some sys' → record_inv sys' (handled ++ popped).
Proof.
  intros Hown Hq (kept & all & Hk & Eq & En & Et) Hs.
  apply publisher_step_inv_split in Hs as (_ & p1 & p2 & router & m & _ & _ & _ & _ & _ & ->); [|done].
  exists kept, all. split_and!; [done|simpl; by rewrite Eq, Hq, app_assoc|done|].
  intros t. rewrite Et. cbn [sys_sessions]. rewrite map_lookup_imap. by destruct (sys_sessions sys !! t).
Qed.

Lemma session_step_record sys handled c t ev sys' :
  record_inv sys handled → session_step config sys c t ev = Some sys' → record_inv sys' handled.
Proof.
  intros Hinv Hs. unfold session_step in Hs. destruct (sys_sessions sys !! t) as [s|] eqn:Ht; [|done]. simpl in Hs.
  destruct (session_may sys t ev); [|done]. destruct (step config c _ ev) as [s'|] eqn:Hstep; [|done]. injection Hs as <-.
  destruct (signed_step config c _ _ _ Hstep) as (_ & _ & l & Hl & _).
  change (offered s' = offered s ++ l) in Hl.
  apply (record_offer sys _ handled (Some t) (offered s) l Hinv); [simpl; by rewrite Hl|].
  intros [t'|]; simpl; [|by rewrite app_nil_r]. destruct (decide (t' = t)) as [->|Hne].
  - by rewrite lookup_insert_eq, Ht, Hl, decide_True.
  - rewrite lookup_insert_ne by done. rewrite decide_False by congruence. by rewrite app_nil_r.
Qed.

Lemma start_session_record sys handled c t ch sys' :
  record_inv sys handled → start_session config sys c t ch = Some sys' → record_inv sys' handled.
Proof.
  intros Hinv Hs. unfold start_session in Hs. destruct (ds_handlers (sys_down sys) !! t) as [h|]; [|done]. simpl in Hs.
  destruct (h_pc h); try done. destruct (sys_sessions sys !! t) as [|] eqn:Ht; [done|]. injection Hs as <-.
  set (s := deliver _ _). apply (record_offer sys _ handled (Some t) [] (offered s) Hinv); [done|].
  intros [t'|]; simpl; [|by rewrite app_nil_r]. destruct (decide (t' = t)) as [->|Hne].
  - by rewrite lookup_insert_eq, Ht, decide_True.
  - rewrite lookup_insert_ne by done. rewrite decide_False by congruence. by rewrite app_nil_r.
Qed.

Lemma down_step_record sys handled now a sys' :
  record_inv sys handled → down_step sys now a = Some sys' → record_inv sys' handled.
Proof.
  intros Hinv Hs. unfold down_step in Hs. destruct (_ && _); [|done].
  destruct (ds_step new_port (sys_down sys) (now, a)) as [d|] eqn:Hd; [|done]. injection Hs as <-.
  destruct (ds_step_reports _ _ _ _ Hd) as (l & Hl & _).
  apply (record_offer sys _ handled None (ds_mqtt_tx (sys_down sys)) l Hinv); [simpl; by rewrite Hl|].
  intros [t'|]; simpl; [by rewrite app_nil_r|]. by rewrite Hl.
Qed.

Lemma sys_step_record sys handled ce sys' :
  record_inv sys handled → sys_step serde_error config sys ce = Some sys' → record_inv sys' (handled ++ handled_now sys ce).
Proof.
  intros Hinv Hs. destruct ce as [c ev]. unfold sys_step in Hs. cbn [fst snd] in Hs. unfold handled_now. cbn [snd].
  destruct ev as [a|t ch|t ev|e| | |]; rewrite ?app_nil_r.
  - by eapply down_step_record.
  - by eapply start_session_record.
  - by eapply session_step_record.
  - rewrite <- (app_nil_r handled). by eapply (publisher_step_record sys handled c (PubPoll e) (sys_queue sys) sys' []).
  - destruct (sys_queue sys) as [|e queue] eqn:Hq; [done|].
    by eapply (publisher_step_record sys handled c (PubRecv e) queue sys' [e]).
  - destruct (_ && _); [|done]. injection Hs as <-. destruct Hinv as (kept & all & Hk & Eq & En & Et).
    apply fmap_app_inv in Eq as (k1 & k2 & E1 & E2 & ->). exists k1, all. simpl. rewrite app_nil_r. split_and!; [|done..].
    etrans; [by apply sublist_inserts_r|exact Hk].
  - destruct (ds_shutdown _); [|done]. injection Hs as <-. exact Hinv.
Qed.

Lemma sys_run_record l sys handled sys' :
  record_inv sys handled → sys_run serde_error config sys l = Some sys' → record_inv sys' (handled ++ sys_handled sys l).
Proof.
  revert sys handled. induction l as [|ce l IH]; intros sys handled Hinv Hr; cbn [sys_run sys_handled] in *.
  { simplify_eq. by rewrite app_nil_r. }
  apply bind_Some in Hr as (sys1 & Hs & Hr). rewrite Hs, app_assoc. apply IH; [|done]. by apply sys_step_record.
Qed.

Lemma sys_new_record m0 p0 : record_inv (sys_new m0 p0) [].
Proof. exists [], []. by split_and!. Qed.

(** The server's own record. *)
Lemma ds_run_reports d la d' dir :
  told dir (ds_mqtt_tx d) = [] → ds_run new_port d la = Some d' → told dir (ds_mqtt_tx d') = [].
Proof.
  revert d. induction la as [|[now a] la IH]; intros d Hd Hr; cbn [ds_run] in Hr; [by simplify_eq|].
  apply bind_Some in Hr as (d1 & Hs & Hr). apply (IH d1); [|done].
  destruct (ds_step_reports _ _ _ _ Hs) as (l & -> & Hl). by rewrite told_app, Hd, Hl.
Qed.

(** ** Theorem *)

(** C5. What reaches MQTT about the traffic happened. In every interleaving of the proxy, the
    events the publisher has taken from the channel, followed by those still in it, can be
    told apart by the task that reported them, so that those of a session are under the
    charge point of its connection, and the frames among them are texts which that session
    put on its upstream connections, or on its charger's channel, in that order, none of
    them twice; the tasks of the server report no frames, and no one else reports. *)
Theorem mqtt_record_true m0 p0 l sys :
  wired m0 p0 → sys_run serde_error config (sys_new m0 p0) l = Some sys →
  ∃ kept : list (option nat * MqttEvent),
    kept.*2 = sys_handled (sys_new m0 p0) l ++ sys_queue sys ∧
    (∀ dir, told dir (of_task None kept) = []) ∧
    ∀ t, match sys_sessions sys !! t with
         | Some s => ∃ h, ds_handlers (sys_down sys) !! t = Some h ∧
             Forall (λ e, event_id e = h_id h) (of_task (Some t) kept) ∧
             told ChargerToCentral (of_task (Some t) kept) `sublist_of` sent_upstream s ∧
             told CentralToCharger (of_task (Some t) kept) `sublist_of` axum_texts (accepted (s_charger s))
         | None => of_task (Some t) kept = []
         end.
Proof.
  intros Hw Hr. destruct (reachable_inv serde_error config m0 p0 l sys Hw Hr) as [(la & _ & Hd) _ Hss _ _ _ _ _ _].
  destruct (sys_run_record l _ [] sys (sys_new_record m0 p0) Hr) as (kept & all & Hk & Eq & En & Et).
  exists kept. split_and!; [done| |].
  - intros dir. apply sublist_nil_r. assert (told dir (ds_mqtt_tx (sys_down sys)) = []) as <- by (by eapply ds_run_reports; [|exact Hd]).
    rewrite <- En. by apply told_sublist, of_task_sublist.
  - intros t. specialize (Et t). pose proof (of_task_sublist (Some t) _ _ Hk) as Hsub. rewrite Et in Hsub.
    destruct (sys_sessions sys !! t) as [s|] eqn:Ht; [|by apply sublist_nil_r].
    destruct (Hss t s Ht) as (h & c & ch & m & evs & Hh & Hrun & _). exists h. split; [done|].
    destruct (session_record_true config c (h_id h) ch m evs s Hrun) as (Hid & Hup & Hdown). split_and!.
    + apply Forall_forall. intros e He. rewrite Forall_forall in Hid. apply Hid. by eapply elem_of_submseteq, sublist_submseteq.
    + etrans; [by apply told_sublist|exact Hup].
    + etrans; [by apply told_sublist|exact Hdown].
Qed.
End record.

(** ** Witness: a heartbeat goes by, and the publisher takes all that was reported *)

#[local] Existing Instance reference_codec.
#[local] Existing Instance reference_codec_laws.
#[local] Existing Instance plain_chrono.
#[local] Existing Instance key_order.

Definition passing : list ExampleEvent :=
  charger_arrives 1 ++ [SysSession 1 (EvCharger (Some (Ok (AxText heartbeat_text))))] ++ replicate 3 SysReceive.

Definition passed_system : ExampleSystem := default start_system (example_sys_run start_system passing).

Lemma passing_run :
  sys_run no_error sample_session_config start_system (pair noon <$> passing) = Some passed_system.
Proof. vm_compute. reflexivity. Qed.

Definition passed_session : ExampleSession :=
  default example_session (sys_sessions passed_system !! 1).

Lemma mqtt_record_true_witness :
  ∃ kept, kept.*2 = sys_handled no_error sample_session_config start_system (pair noon <$> passing) ++ sys_queue passed_system ∧
    told ChargerToCentral (of_task (Some 1) kept) `sublist_of` [heartbeat_text] ∧
    In heartbeat_text (told ChargerToCentral kept.*2).
Proof.
  destruct (mqtt_record_true no_error sample_session_config start_manager start_publisher (pair noon <$> passing) passed_system
    start_wired passing_run) as (kept & Eq & _ & Hk).
  specialize (Hk 1).
  match type of Hk with match ?o with _ => _ end => assert (o = Some passed_session) as Es by (vm_compute; reflexivity) end.
  rewrite Es in Hk. destruct Hk as (h & _ & _ & Hup & _).
  exists kept. split_and!; [exact Eq| |].
  - assert (sent_upstream passed_session = [heartbeat_text]) as <- by (vm_compute; reflexivity). exact Hup.
  - rewrite Eq. vm_compute. auto.
Defined.
