(* ===== verification/SystemShutdown.v ===== *)
(** * The shutdown of the whole proxy can always complete

    From every state the proxy can be in once the shutdown has been requested, the tasks
    themselves can finish, in a bounded number of steps that ask nothing of the charger,
    the Central System or the broker: handlers go on, attempts to connect end, waits
    are cancelled. No task waits for another for ever. *)

From S2P Require Import Prelude Float64 Json Models StateManager Config Command CallQueue Forwarder.
From S2P Require Import Session SessionShared SessionCalls SessionStates ChargePoint SnapshotStore.
From S2P Require Import Publisher PublisherQueue PublisherCommands Downstream System SystemRuns.

Local Open Scope nat_scope.

Section shutdown.
Context {T C U : Type} `{MqttClientLaws T} `{AsyncSender C AxumMessage} `{UpstreamLink U}.
Context `{SerdeJsonLaws} `{Chrono} `{HashOrder} (serde_error : Value → string) (config : SessionConfig).
Abbreviation System := (System (T := T) (C := C) (U := U)).
Implicit Types (sys : System) (s : Session (list MqttEvent) C U).

(** The events that need nobody outside the proxy. *)
Definition self_driven (e : SysEvent (C := C) (U := U)) : Prop :=
  match e with
  | SysServer (DsHandler _) | SysStart _ _ => True
  | SysSession _ (EvConnect (Err _)) | SysSession _ EvCancelled | SysSession _ EvSlept => True
  | _ => False
  end.

(** How far the handler [t] is from its end. *)
Definition session_rank (o : option (Session (list MqttEvent) C U)) : nat :=
  match o with
  | None => 5
  | Some s =>
      match s_phase s with
      | PhConnect => 4
      | PhRetry _ | PhForward _ | PhLost _ => 3
      | PhClosing => 1
      | PhEnded => 0
      end
  end.

Definition task_rank sys (t : nat) (h : Handler) : nat :=
  pc_rank (h_pc h) + match h_pc h with PcRunning _ => session_rank (sys_sessions sys !! t) | _ => 0 end.

Definition rank_at sys (t : nat) : nat :=
  match ds_handlers (sys_down sys) !! t with Some h => task_rank sys t h | None => 0 end.

Lemma session_rank_le o : session_rank o ≤ 5.
Proof. destruct o as [s|]; simpl; [destruct (s_phase s)|]; lia. Qed.

Lemma task_rank_le sys t h : task_rank sys t h ≤ 24.
Proof. unfold task_rank. pose proof (session_rank_le (sys_sessions sys !! t)). destruct (h_pc h); simpl; lia. Qed.

(** What is carried along: the invariant, the shutdown and sound backoffs. *)
Definition closing (m0 : ConnectionStateManager) (p0 : MqttPublisher T Port) sys : Prop :=
  (∃ n, sys_inv serde_error config m0 p0 n sys) ∧ ds_shutdown (sys_down sys) = true.

(** The step moves [t] and nobody else. *)
Definition advances sys sys' (t : nat) : Prop :=
  ds_shutdown (sys_down sys') = true ∧ rank_at sys' t < rank_at sys t ∧
  (∀ t', t' ≠ t → rank_at sys' t' = rank_at sys t') ∧
  dom (ds_handlers (sys_down sys')) = dom (ds_handlers (sys_down sys)).

Lemma connect_failed_phase c s s' :
  connect_failed config c s = Some s' → s_phase s' = PhClosing ∨ ∃ d, s_phase s' = PhRetry d.
Proof.
  unfold connect_failed. destruct (_ <=? _)%Z.
  - intros [= <-]. left. apply teardown_fields.
  - destruct (next_delay _) as [[d b]|]; intros Hs; simplify_eq/=. right. by eexists.
Qed.

(** A session that has not ended takes one of these events, and gets nearer to its end. *)
Lemma session_advances i m c s :
  (i = 1 ∨ i = 2)%Z → (i ≤ m ≤ 600)%Z → state_inv i m s → ended s = false →
  ∃ ev s', (ev = EvConnect (Err (Forwarding "")) ∨ ev = EvCancelled ∨ ev = EvSlept) ∧
    step config c s ev = Some s' ∧ session_rank (Some s') < session_rank (Some s).
Proof.
  intros Hi Hm Hinv He. destruct (s_phase s) eqn:Hp; unfold ended in He; rewrite Hp in He; try done.
  - pose proof (step_total config i m c s (EvConnect (Err (Forwarding ""))) Hi Hm Hinv) as Ht.
    unfold awaits in Ht. rewrite Hp in Ht. destruct Ht as (s' & Hs & _). exists (EvConnect (Err (Forwarding ""))), s'.
    split_and!; [auto|done|]. unfold step in Hs. rewrite Hp in Hs. unfold session_rank. rewrite Hp.
    destruct (connect_failed_phase _ _ _ Hs) as [->|[d ->]]; lia.
  - exists EvCancelled, (teardown c s). unfold step, session_rank. rewrite Hp, (proj2 (teardown_fields c s)). auto with lia.
  - exists EvCancelled, (teardown c (drop_link s)). unfold step, session_rank. rewrite Hp, (proj2 (teardown_fields c _)).
    split_and!; [auto|done|lia].
  - exists EvCancelled, (teardown c s). unfold step, session_rank. rewrite Hp, (proj2 (teardown_fields c s)).
    split_and!; [auto|done|lia].
  - exists EvSlept, (close_down c s). unfold step, session_rank. rewrite Hp. split_and!; [auto|done|]. simpl. lia.
Qed.

Lemma dom_move (hs : gmap nat Handler) t h h' : hs !! t = Some h → dom (<[t := h']> hs) = dom hs.
Proof. intros Ht. apply dom_insert_lookup_L. by exists h. Qed.

Lemma handler_advances sys now t h :
  ds_shutdown (sys_down sys) = true → ds_handlers (sys_down sys) !! t = Some h → h_pc h ≠ PcDone →
  handler_may_move sys t = true →
  ∃ sys', down_step sys now (DsHandler t) = Some sys' ∧ advances sys sys' t.
Proof.
  intros Hsd Ht Hpc Hmove. unfold down_step. rewrite Hmove. cbn [server_action andb].
  destruct (handler_step_total now (sys_down sys) t h Hpc) as [d Hd].
  assert (ds_step new_port (sys_down sys) (now, DsHandler t) = Some d) as -> by (unfold ds_step; cbn [fst snd]; by rewrite Ht).
  cbn [mbind option_bind]. eexists. split; [done|].
  apply handler_step_moves in Hd as (pc & Hh & Hrank & Hs). unfold advances, rank_at. cbn [sys_down]. rewrite Hh, Hs.
  split_and!; [done| | |by eapply dom_move].
  - rewrite lookup_insert_eq, Ht. unfold task_rank. cbn [h_pc sys_sessions].
    pose proof (session_rank_le (sys_sessions sys !! t)). destruct pc, (h_pc h); simpl in *; lia.
  - intros t' Hne. by rewrite lookup_insert_ne.
Qed.

Lemma task_advances i m m0 p0 sys (c : Clock) (ch : C) t h :
  schedule_config config i m → closing m0 p0 sys → ds_handlers (sys_down sys) !! t = Some h → h_pc h ≠ PcDone →
  ∃ ev sys', self_driven ev ∧ sys_step serde_error config sys (c, ev) = Some sys' ∧ advances sys sys' t.
Proof.
  intros Hsc [[n Hinv] Hsd] Ht Hpc. pose proof Hsc as (Hi & Hm & _).
  destruct (handler_may_move sys t) eqn:Hmove.
  { destruct (handler_advances sys (utc_now c) t h Hsd Ht Hpc Hmove) as (sys' & Hs & Ha).
    by exists (SysServer (DsHandler t)), sys'. }
  unfold handler_may_move in Hmove. rewrite Ht in Hmove. simpl in Hmove. destruct (h_pc h) as [|g|g|g|g st|g|g|g| |st|] eqn:Epc; try done.
  assert (∀ sys', ds_handlers (sys_down sys') = ds_handlers (sys_down sys) → ds_shutdown (sys_down sys') = true →
    session_rank (sys_sessions sys' !! t) < session_rank (sys_sessions sys !! t) →
    (∀ t', t' ≠ t → sys_sessions sys' !! t' = sys_sessions sys !! t') → advances sys sys' t) as Hadv.
  { intros sys' Eh Es Hr Ho. unfold advances, rank_at, task_rank. rewrite Eh. split_and!; [done| | |done].
    - rewrite Ht, Epc. lia.
    - intros t' Hne. by rewrite Ho. }
  destruct (sys_sessions sys !! t) as [s|] eqn:Ess.
  - destruct (inv_sessions _ _ _ _ _ _ Hinv t s Ess) as (h0 & c0 & ch0 & mm & evs & _ & Hrun & _).
    pose proof (run_inv config i m evs _ s Hi Hm (session_new_state_inv config i m _ _ _ _ _ Hsc) Hrun) as Hst.
    set (s1 := set_state s (ds_manager (sys_down sys))).
    destruct (session_advances i m c s1 Hi Hm Hst Hmove) as (ev & s' & Hev & Hs & Hr).
    eexists (SysSession t ev), _. split; [by destruct Hev as [->|[->| ->]]|]. split.
    + unfold sys_step. cbn [fst snd]. unfold session_step. rewrite Ess. cbn [mbind option_bind].
      assert (session_may sys t ev = true) as -> by (destruct Hev as [->|[->| ->]]; [done| |done]; simpl; unfold is_cancelled; by rewrite Hsd).
      fold s1. rewrite Hs. reflexivity.
    + apply Hadv; [done|done| |].
      * cbn [sys_sessions]. by rewrite lookup_insert_eq.
      * intros t' Hne. cbn [sys_sessions]. by rewrite lookup_insert_ne.
  - eexists (SysStart t ch), _. split; [done|]. split.
    + unfold sys_step. cbn [fst snd]. unfold start_session. rewrite Ht. cbn [mbind option_bind]. rewrite Epc, Ess. reflexivity.
    + apply Hadv; [done|done| |].
      * cbn [sys_sessions]. rewrite lookup_insert_eq. set (s0 := session_new _ _ _ _ _ _).
        assert (s_phase s0 = PhConnect) as Hph by apply begin_connect_fields.
        clearbody s0. unfold session_rank, deliver. simpl. rewrite Hph. lia.
      * intros t' Hne. cbn [sys_sessions]. by rewrite lookup_insert_ne.
Qed.

Lemma run_snoc_sys sys l1 l2 sys1 sys2 :
  sys_run serde_error config sys l1 = Some sys1 → sys_run serde_error config sys1 l2 = Some sys2 →
  sys_run serde_error config sys (l1 ++ l2) = Some sys2.
Proof.
  revert sys. induction l1 as [|a l1 IH]; intros sys Hr Hr2; [by injection Hr as ->|]. cbn [app sys_run] in *.
  destruct (sys_step serde_error config sys a) as [q|]; [|done]. by apply (IH q).
Qed.

Lemma closing_step m0 p0 sys ce sys' t :
  closing m0 p0 sys → sys_step serde_error config sys ce = Some sys' → advances sys sys' t → closing m0 p0 sys'.
Proof. intros [[n Hinv] _] Hs [Hsd _]. split; [|done]. exists (S n). by eapply sys_step_inv. Qed.

(** One task to its end. *)
Lemma task_finishes i m m0 p0 (c : Clock) (ch : C) t sys :
  schedule_config config i m → closing m0 p0 sys →
  ∃ l sys', Forall (λ ce, self_driven ce.2) l ∧ length l ≤ rank_at sys t ∧
    sys_run serde_error config sys l = Some sys' ∧ closing m0 p0 sys' ∧ rank_at sys' t = 0 ∧
    (∀ t', t' ≠ t → rank_at sys' t' = rank_at sys t') ∧
    dom (ds_handlers (sys_down sys')) = dom (ds_handlers (sys_down sys)).
Proof.
  intros Hsc. remember (rank_at sys t) as k eqn:Ek. revert sys Ek.
  induction (lt_wf k) as [k _ IH]. intros sys Ek Hcl. destruct (decide (k = 0)) as [->|Hk].
  { exists [], sys. split_and!; auto. }
  assert (∃ h, ds_handlers (sys_down sys) !! t = Some h ∧ h_pc h ≠ PcDone) as (h & Ht & Hpc).
  { unfold rank_at, task_rank in Ek. destruct (ds_handlers (sys_down sys) !! t) as [h|]; [|done]. exists h. split; [done|].
    intros E. rewrite E in Ek. simpl in Ek. lia. }
  destruct (task_advances i m m0 p0 sys c ch t h Hsc Hcl Ht Hpc) as (ev & sys1 & Hev & Hs & Ha).
  pose proof (closing_step _ _ _ _ _ _ Hcl Hs Ha) as Hcl1. destruct Ha as (_ & Hr & Ho & Hd).
  destruct (IH (rank_at sys1 t) ltac:(lia) sys1 eq_refl Hcl1) as (l & sys' & Hl & Hlen & Hrun & Hcl' & H0' & Ho' & Hd').
  exists ((c, ev) :: l), sys'. split_and!; [by constructor|simpl; lia| |done|done| |congruence].
  - cbn [sys_run]. rewrite Hs. exact Hrun.
  - intros t' Hne. by rewrite Ho', Ho.
Qed.

Lemma all_finish i m m0 p0 (c : Clock) (ch : C) ts sys :
  schedule_config config i m → closing m0 p0 sys →
  ∃ l sys', Forall (λ ce, self_driven ce.2) l ∧ length l ≤ 24 * length ts ∧
    sys_run serde_error config sys l = Some sys' ∧ closing m0 p0 sys' ∧
    (∀ t, t ∈ ts ∨ rank_at sys t = 0 → rank_at sys' t = 0) ∧
    dom (ds_handlers (sys_down sys')) = dom (ds_handlers (sys_down sys)).
Proof.
  intros Hsc. revert sys. induction ts as [|t ts IH]; intros sys Hcl.
  { exists [], sys. split_and!; auto. intros t [[]%not_elem_of_nil|]; done. }
  destruct (task_finishes i m m0 p0 c ch t sys Hsc Hcl) as (l1 & sys1 & Hl1 & Hlen1 & Hr1 & Hcl1 & Hz1 & Ho1 & Hd1).
  destruct (IH sys1 Hcl1) as (l2 & sys2 & Hl2 & Hlen2 & Hr2 & Hcl2 & Hz2 & Hd2).
  assert (rank_at sys t ≤ 24) as Hrk by (unfold rank_at; destruct (_ !! t); [apply task_rank_le|lia]).
  exists (l1 ++ l2), sys2. split_and!; [by apply Forall_app|rewrite length_app; simpl; lia|by eapply run_snoc_sys|done| |congruence].
  intros t' Ht'. apply Hz2. destruct (decide (t' = t)) as [->|Hne]; [by right|].
  rewrite Ho1 by done. destruct Ht' as [[->|]%elem_of_cons|]; [done|by left|by right].
Qed.

(** Every task to its end, from any state the invariant holds in. *)
Lemma tasks_finish i m m0 p0 n sys (c : Clock) (ch : C) :
  schedule_config config i m → sys_inv serde_error config m0 p0 n sys → ds_shutdown (sys_down sys) = true →
  let k := size (ds_handlers (sys_down sys)) in
  (3 * (Z.of_nat n + 24 * Z.of_nat k) < 2 ^ 64 - 1)%Z →
  ∃ l' sys' n', Forall (λ ce, self_driven ce.2) l' ∧ length l' ≤ 24 * k ∧
    sys_run serde_error config sys l' = Some sys' ∧ sys_inv serde_error config m0 p0 n' sys' ∧
    ds_shutdown (sys_down sys') = true ∧ map_Forall (λ _ h, h_pc h = PcDone) (ds_handlers (sys_down sys')) ∧
    ds_connections (sys_down sys') = ∅ ∧ ds_router (sys_down sys') = ∅.
Proof.
  intros Hsc Hinv Hsd k Hb. assert (closing m0 p0 sys) as Hcl by (split; [by eexists|done]).
  destruct (all_finish i m m0 p0 c ch (elements (dom (ds_handlers (sys_down sys)))) sys Hsc Hcl)
    as (l' & sys' & Hl' & Hlen & Hrun & [_ Hsd'] & Hz & Hd).
  assert (length (elements (dom (ds_handlers (sys_down sys)))) = k) as Ek by apply size_dom.
  rewrite Ek in Hlen. pose proof (sys_run_inv _ _ _ _ _ _ _ _ Hinv Hrun) as Hinv'.
  assert (map_Forall (λ _ h, h_pc h = PcDone) (ds_handlers (sys_down sys'))) as Hall.
  { intros t h Ht. assert (rank_at sys' t = 0) as Hzt.
    { apply Hz. left. rewrite elem_of_elements, <- Hd. by apply elem_of_dom_2 in Ht. }
    unfold rank_at, task_rank in Hzt. rewrite Ht in Hzt. destruct (h_pc h); simpl in Hzt; try done; lia. }
  destruct (inv_down _ _ _ _ _ _ Hinv') as (la & Hla & Hds). apply ds_run_inv in Hds; [|apply ds_inv_new|simpl; lia].
  destruct (ds_inv_done _ Hds Hall) as [Hc0 Hr0].
  exists l', sys', (length l' + n). by split_and!.
Qed.

(** The shutdown completes, whatever the proxy was doing when it was requested: there are
    at most 24 steps per connection, none of which needs the charger, the Central System
    or the broker to do anything, after which every handler has finished, the registry
    and the router are empty, and so the drain of [main] reports that all sessions closed. *)
Theorem shutdown_completes i m m0 p0 l sys (c : Clock) (ch : C) :
  schedule_config config i m → wired m0 p0 → sys_run serde_error config (sys_new m0 p0) l = Some sys →
  ds_shutdown (sys_down sys) = true →
  let k := size (ds_handlers (sys_down sys)) in
  (3 * (Z.of_nat (length l) + 24 * Z.of_nat k) < 2 ^ 64 - 1)%Z →
  ∃ l' sys', Forall (λ ce, self_driven ce.2) l' ∧ length l' ≤ 24 * k ∧
    sys_run serde_error config sys l' = Some sys' ∧
    map_Forall (λ _ h, h_pc h = PcDone) (ds_handlers (sys_down sys')) ∧
    ds_connections (sys_down sys') = ∅ ∧ ds_router (sys_down sys') = ∅ ∧
    ∀ deadline now, drain deadline [(size (ds_connections (sys_down sys')), now)] = Some AllClosed.
Proof.
  intros Hsc Hw Hr Hsd k Hb.
  assert (sys_inv serde_error config m0 p0 (length l) sys) as Hinv
    by (rewrite <- (Nat.add_0_r (length l)); eapply sys_run_inv; [by apply sys_new_inv|exact Hr]).
  destruct (tasks_finish i m m0 p0 _ sys c ch Hsc Hinv Hsd Hb) as (l' & sys' & _ & Hl' & Hlen & Hrun & _ & _ & Hall & Hc0 & Hr0).
  exists l', sys'. rewrite Hc0. by split_and!.
Qed.

Lemma sys_step_stopped sys sys' ce p :
  sys_pub_live sys = false ∧ sys_queue sys = [] ∧ sys_pub sys = p → sys_step serde_error config sys ce = Some sys' →
  sys_pub_live sys' = false ∧ sys_queue sys' = [] ∧ sys_pub sys' = p.
Proof.
  intros (Hl & Hq & Hp). assert (∀ old new, offer sys old new = []) as Ho by (intros; unfold offer; by rewrite Hl).
  destruct ce as [c [a|t ch|t ev|e| | |]]; unfold sys_step; cbn [fst snd].
  - unfold down_step. intros Hs. case_match; [|done]. apply bind_Some in Hs as (d & _ & [= <-]). simpl. by rewrite Ho.
  - unfold start_session. intros (h & _ & Hs)%bind_Some. destruct (h_pc h), (sys_sessions sys !! t); simplify_eq/=; by rewrite Ho.
  - unfold session_step. intros (s & _ & Hs)%bind_Some. destruct (session_may _ _ _); [|done].
    apply bind_Some in Hs as (s' & _ & [= <-]). simpl. by rewrite Ho.
  - unfold publisher_step. by rewrite Hl.
  - by rewrite Hq.
  - rewrite Hl. done.
  - destruct (ds_shutdown _); [|done]. by intros [= <-].
Qed.

(** Once the publisher's thread has seen the shutdown, it hears nothing more: whatever the
    sessions report while they unwind, results of commands and the end of the charger's
    connection among it, neither waits for the publisher nor changes it. *)
Theorem shutdown_silences_publisher sys c sys1 l sys2 :
  sys_step serde_error config sys (c, SysStopPublisher) = Some sys1 →
  sys_run serde_error config sys1 l = Some sys2 →
  sys_queue sys2 = [] ∧ sys_pub sys2 = sys_pub sys.
Proof.
  unfold sys_step; cbn [fst snd]. intros Hs. assert (sys_pub_live sys1 = false ∧ sys_queue sys1 = [] ∧ sys_pub sys1 = sys_pub sys) as Hq
    by (case_match; simplify_eq/=; done).
  clear Hs. revert sys1 Hq. induction l as [|ce l IH]; intros sys1 Hq; simpl; [intros [= <-]; tauto|].
  intros (sys3 & Hs3 & Hr)%bind_Some. apply (IH sys3); [|done]. by eapply sys_step_stopped.
Qed.
End shutdown.

(** ** Witness *)

#[local] Existing Instance reference_codec.
#[local] Existing Instance reference_codec_laws.
#[local] Existing Instance plain_chrono.
#[local] Existing Instance key_order.

(** A charger is connected with a command in flight when the shutdown comes. *)
Definition told_to_stop : list ExampleEvent := commanded ++ [SysServer DsShutdown].
Definition stopping_system : ExampleSystem := default start_system (example_sys_run start_system told_to_stop).

Lemma stopping_run :
  sys_run no_error sample_session_config start_system (pair noon <$> told_to_stop) = Some stopping_system.
Proof. vm_compute. reflexivity. Qed.

Lemma shutdown_completes_witness :
  ∃ l' sys', sys_run no_error sample_session_config stopping_system l' = Some sys' ∧ length l' ≤ 24 ∧
    ds_connections (sys_down sys') = ∅.
Proof.
  destruct (shutdown_completes no_error sample_session_config 1 60 start_manager start_publisher (pair noon <$> told_to_stop)
    stopping_system noon (mkCounted [] 1000) sample_schedule start_wired stopping_run)
    as (l' & sys' & _ & Hlen & Hr & _ & Hc & _); [vm_compute; reflexivity|apply Z.ltb_lt; vm_compute; reflexivity|].
  exists l', sys'. split; [exact Hr|]. split; [|exact Hc].
  assert (size (ds_handlers (sys_down stopping_system)) = 1) as Es by (vm_compute; reflexivity). rewrite Es in Hlen. exact Hlen.
Defined.

(** The publisher stops first, then the session, which reports the command it had to drop
    and the charger's disconnection: the broker is told neither. *)
Definition unheard : list ExampleEvent := [SysStopPublisher; SysSession 1 EvCancelled; SysSession 1 EvSlept].
Definition silent_system : ExampleSystem := default stopping_system (example_sys_run stopping_system unheard).

Lemma shutdown_silences_publisher_witness :
  (∃ s, sys_sessions silent_system !! 1 = Some s ∧ ended s = true ∧
     ∃ s0, sys_sessions stopping_system !! 1 = Some s0 ∧ length (offered s0) < length (offered s)) ∧
  sys_queue silent_system = [] ∧ sys_pub silent_system = sys_pub stopping_system.
Proof.
  assert (sys_run no_error sample_session_config stopping_system (pair noon <$> unheard) = Some silent_system) as Hr
    by (vm_compute; reflexivity).
  split.
  - destruct (sys_sessions silent_system !! 1) as [s|] eqn:E; [|vm_compute in E; discriminate E].
    destruct (sys_sessions stopping_system !! 1) as [s0|] eqn:E0; [|vm_compute in E0; discriminate E0].
    exists s. split; [reflexivity|]. vm_compute in E. injection E as <-. split; [reflexivity|].
    exists s0. split; [reflexivity|]. vm_compute in E0. injection E0 as <-. vm_compute. lia.
  - destruct (proj1 (bind_Some _ _ _) Hr) as (sys1 & Hstop & Hrest).
    exact (shutdown_silences_publisher _ _ _ _ _ (pair noon <$> tail unheard) _ Hstop Hrest).
Defined.
