(* ===== verification/Shutdown.v ===== *)
(** * The end of the process (src/shutdown.rs, the second half of [main] in src/main.rs)

    The coordinator and its token; the task that waits for a signal; and what [main] does
    from the line that announces readiness to its end, next to the system of System.v:
    it waits for the token, stops reporting the listener, waits for the sessions, joins the
    publisher's thread and returns, which ends whatever else still runs. *)

From S2P Require Import Prelude Float64 Json Models StateManager Config Command CallQueue Forwarder.
From S2P Require Import Session SessionShared SessionStates ChargePoint SnapshotStore.
From S2P Require Import Publisher PublisherQueue PublisherCommands Downstream System SystemRuns SystemShutdown.

Local Open Scope Z_scope.

(** ** Constants *)

Definition INFLIGHT_TIMEOUT : Z := from_secs 10.
Definition CLOSE_ACK_TIMEOUT : Z := from_secs 5.
Definition MQTT_STARTUP_TIMEOUT : Z := from_secs 10.

(** ** The coordinator *)

(** [CancellationToken]s: [Tok] stands for a token and all its clones, [W] for what the
    library keeps. *)
Class TokenLib (W Tok : Type) := {
  token_new : W → W * Tok;
  token_cancel : Tok → W → W;
  token_is_cancelled : W → Tok → bool
}.

(** A new token is not cancelled; a cancelled one stays so; cancelling a token cancels it
    and no unrelated one. *)
Class TokenLaws (W Tok : Type) `{TokenLib W Tok} : Prop := {
  token_new_fresh w w' t : token_new w = (w', t) → token_is_cancelled w' t = false;
  token_cancel_eq w t : token_is_cancelled (token_cancel t w) t = true;
  token_cancel_ne w t t' : t' ≠ t → token_is_cancelled (token_cancel t w) t' = token_is_cancelled w t'
}.

Record ShutdownCoordinator (Tok : Type) := mkCoordinator { sc_token : Tok }.
Arguments mkCoordinator {Tok} _.
Arguments sc_token {Tok} _.

Section coordinator.
Context {W Tok : Type} `{TokenLib W Tok}.

(** [ShutdownCoordinator::new], [token], [is_shutting_down], [initiate_shutdown]. *)
Definition coordinator_new (w : W) : W * ShutdownCoordinator Tok :=
  let '(w, t) := token_new w in (w, mkCoordinator t).
Definition coordinator_token (c : ShutdownCoordinator Tok) : Tok := sc_token c.
Definition is_shutting_down (w : W) (c : ShutdownCoordinator Tok) : bool := token_is_cancelled w (sc_token c).
Definition initiate_shutdown (w : W) (c : ShutdownCoordinator Tok) : W := token_cancel (sc_token c) w.
End coordinator.

(** ** The signal *)

Inductive Signal := SIGTERM | SIGINT.

(** [wait_for_shutdown_signal], on Unix: the name of the signal that came first. *)
Definition wait_for_shutdown_signal (s : Signal) : string :=
  match s with SIGTERM => "SIGTERM" | SIGINT => "SIGINT" end.

(** The task [main] spawns: it waits, then it initiates the shutdown, then it is over. *)
Inductive SignalTask := SigWaiting | SigReceived (name : string) | SigDone.

(** ** [main] after start-up *)

(** Waiting for the token; draining until [deadline], asleep until [wake]; joining the
    publisher's thread; returned. *)
Inductive MainPc :=
  | MainWaiting
  | MainDraining (deadline wake : Z)
  | MainJoining (o : DrainOutcome)
  | MainDone (o : DrainOutcome).

Section process.
Context {T C U : Type} `{MqttClient T} `{AsyncSender C AxumMessage} `{UpstreamLink U}.
Context `{SerdeJson} `{Chrono} `{HashOrder} (serde_error : Value → string) (config : SessionConfig).
Abbreviation System := (System (T := T) (C := C) (U := U)).
Abbreviation SysEvent := (SysEvent (C := C) (U := U)).

(** The token of the coordinator is the system's [ds_shutdown]: all tasks share it. *)
Record Process := mkProcess { pr_sys : System; pr_main : MainPc; pr_signal : SignalTask }.
Implicit Types (pr : Process).

(** The process as it is when the system of System.v begins: [main] has announced readiness
    and the publisher's thread has ended its start-up connect and is in [run]. A signal
    that comes before ends the thread without [run] ([mqtt_thread] in Main.v). *)
Definition process_new (sys : System) : Process := mkProcess sys MainWaiting SigWaiting.

Definition set_sys pr sys : Process := mkProcess sys (pr_main pr) (pr_signal pr).
Definition set_main pr pc : Process := mkProcess (pr_sys pr) pc (pr_signal pr).

(** The two events of the system that are [main]'s and the signal task's to cause. *)
Definition reserved (e : SysEvent) : bool :=
  match e with SysServer DsShutdown | SysDrain => true | _ => false end.

(** A turn of [main]. The join returns when the thread has. *)
Definition main_step pr (c : Clock) : option Process :=
  match pr_main pr with
  | MainWaiting =>
      sys ← sys_step serde_error config (pr_sys pr) (c, SysDrain);
      Some (mkProcess sys (MainDraining (instant_now c + from_secs 10) (instant_now c)) (pr_signal pr))
  | MainDraining deadline wake =>
      if wake <=? instant_now c then
        let remaining := size (ds_connections (sys_down (pr_sys pr))) in
        Some (set_main pr
          match drain deadline [(remaining, instant_now c)] with
          | Some o => MainJoining o
          | None => MainDraining deadline (instant_now c + from_millis 100)
          end)
      else None
  | MainJoining o => if sys_pub_live (pr_sys pr) then None else Some (set_main pr (MainDone o))
  | MainDone _ => None
  end.

(** The signal task once it has a signal. *)
Definition signal_step pr (c : Clock) : option Process :=
  match pr_signal pr with
  | SigReceived _ =>
      sys ← sys_step serde_error config (pr_sys pr) (c, SysServer DsShutdown);
      Some (mkProcess sys (pr_main pr) SigDone)
  | _ => None
  end.

(** A task of the system, a signal from outside, the signal task, [main]. *)
Inductive ProcEvent :=
  | PrTask (e : SysEvent)
  | PrSignal (s : Signal)
  | PrSignalTask
  | PrMain.

Definition returned pr : bool := match pr_main pr with MainDone _ => true | _ => false end.

(** Once [main] has returned the runtime is gone, and nothing happens any more. *)
Definition proc_step pr (ce : Clock * ProcEvent) : option Process :=
  if returned pr then None
  else
    match ce.2 with
    | PrTask e =>
        if reserved e then None
        else sys ← sys_step serde_error config (pr_sys pr) (ce.1, e); Some (set_sys pr sys)
    | PrSignal s =>
        Some (match pr_signal pr with
              | SigWaiting => mkProcess (pr_sys pr) (pr_main pr) (SigReceived (wait_for_shutdown_signal s))
              | _ => pr
              end)
    | PrSignalTask => signal_step pr ce.1
    | PrMain => main_step pr ce.1
    end.

Fixpoint proc_run pr (l : list (Clock * ProcEvent)) : option Process :=
  match l with
  | [] => Some pr
  | ce :: l => pr ← proc_step pr ce; proc_run pr l
  end.
End process.

(** ** Theorems: the coordinator *)

(** A fresh coordinator has not begun to shut down; initiating the shutdown is seen by it
    and by every clone of its token, it stays, and no other token is cancelled by it. *)
Theorem shutdown_shared {W Tok} `{TokenLaws W Tok} (w w' : W) (c : ShutdownCoordinator Tok) :
  coordinator_new w = (w', c) →
  is_shutting_down w' c = false ∧ is_shutting_down (initiate_shutdown w' c) c = true ∧
  token_is_cancelled (initiate_shutdown w' c) (coordinator_token c) = true ∧
  (∀ t, t ≠ sc_token c → token_is_cancelled (initiate_shutdown w' c) t = token_is_cancelled w' t).
Proof.
  unfold coordinator_new. intros E. destruct (token_new w) as [w1 t] eqn:Et. injection E as <- <-.
  unfold is_shutting_down, coordinator_token, initiate_shutdown. simpl.
  split_and!; [by eapply token_new_fresh|apply token_cancel_eq..|intros t' Hne; by apply token_cancel_ne].
Qed.

(** ** Lemmas: what a step of the system does to the manager *)

Section process_lemmas.
Context {T C U : Type} `{MqttClientLaws T} `{AsyncSender C AxumMessage} `{UpstreamLink U}.
Context `{SerdeJsonLaws} `{Chrono} `{HashOrder} (serde_error : Value → string) (config : SessionConfig).
Abbreviation System := (System (T := T) (C := C) (U := U)).
Abbreviation Process := (Process (T := T) (C := C) (U := U)).
Implicit Types (sys : System) (pr : Process).

(** The listener is at most taken back; the MQTT state is the publisher's to change. *)
Definition closing_op (live : bool) (op : ManagerOp) : Prop :=
  match op with OpListener b => b = false | OpTransition _ Mqtt _ => live = true | _ => True end.

Lemma session_closing live op : session_op op → closing_op live op.
Proof. by destruct op as [? []| | |]. Qed.
Lemma downstream_closing live op : downstream_op op → closing_op live op.
Proof. by destruct op as [? []| | |]. Qed.
Lemma mqtt_closing op : mqtt_op op → closing_op true op.
Proof. by destruct op as [? []| | |]. Qed.

Lemma publisher_step_ops m0 p0 n sys c e queue sys' :
  sys_inv serde_error config m0 p0 n sys → own_pub_event e = true →
  publisher_step serde_error sys c e queue = Some sys' →
  sys_pub_live sys = true ∧ sys_pub_live sys' = true ∧ ds_shutdown (sys_down sys') = ds_shutdown (sys_down sys) ∧
  ∃ ops, Forall mqtt_op ops ∧ ds_manager (sys_down sys') = foldl apply_op (ds_manager (sys_down sys)) ops.
Proof.
  intros Hinv Hown (Hlive & p1 & p2 & router & m & Ep1 & Hs & _ & _ & Em & ->)%publisher_step_inv_split; [|done].
  destruct (inv_mqtt _ _ _ _ _ _ Hinv Hlive) as (mp & Hmp & _).
  destruct (pub_step_manager serde_error p1 c e p2 Hown Hs) as (ops & Hops & Hp2).
  split_and!; [done..|]. exists ops. split; [done|]. simpl. rewrite Em, Hp2, Ep1. simpl. by rewrite Hmp.
Qed.

Definition is_shutdown (a : DsAction (R := Port)) : bool := match a with DsShutdown => true | _ => false end.

Lemma ds_step_shutdown (d d' : DownstreamState (list MqttEvent) Port) now a :
  ds_step new_port d (now, a) = Some d' → ds_shutdown d' = ds_shutdown d || is_shutdown a.
Proof.
  unfold ds_step; cbn [fst snd]. intros Hs.
  destruct a as [t' id header|t'|t'|id request|f|f|]; simpl is_shutdown; rewrite ?orb_false_r, ?orb_true_r;
    try (by injection Hs as <-).
  - case_decide; [|done]. injection Hs as <-. unfold ws_upgrade_handler. by destruct (subprotocol_valid header).
  - destruct (ds_handlers d !! t') as [h'|]; [|done]. simpl in Hs. destruct (h_pc h'); by simplify_eq/=.
  - destruct (ds_handlers d !! t') as [h'|]; [|done]. simpl in Hs.
    by apply handler_step_moves in Hs as (pc & _ & _ & Hsd).
Qed.

(** What a step keeps: the shutdown but for the event that is it, the end of the publisher;
    and what it does to the manager. *)
Definition shuts_down (e : SysEvent (C := C) (U := U)) : bool :=
  match e with SysServer a => is_shutdown a | _ => false end.

Definition keeps (e : SysEvent (C := C) (U := U)) sys sys' : Prop :=
  ds_shutdown (sys_down sys') = ds_shutdown (sys_down sys) || shuts_down e ∧
  (sys_pub_live sys = false → sys_pub_live sys' = false) ∧
  (sys_pub_live sys = true → sys_pub_live sys' = false →
     ds_shutdown (sys_down sys) = true ∧ mqtt_state (ds_manager (sys_down sys')) = Disconnected) ∧
  ∃ ops, Forall (closing_op (sys_pub_live sys)) ops ∧
    ds_manager (sys_down sys') = foldl apply_op (ds_manager (sys_down sys)) ops ∧
    (e = SysDrain → listener_bound (ds_manager (sys_down sys')) = false).

Lemma sys_step_keeps m0 p0 n sys c e sys' :
  sys_inv serde_error config m0 p0 n sys → sys_step serde_error config sys (c, e) = Some sys' → keeps e sys sys'.
Proof.
  intros Hinv Hs. unfold keeps.
  destruct e as [a|t ch|t ev|e| | |]; unfold sys_step in Hs; cbn [fst snd shuts_down] in *; rewrite ?orb_false_r.
  - unfold down_step in Hs. destruct (server_action a && _) eqn:Ha; [|done]. apply andb_prop in Ha as [Ha _].
    destruct (ds_step new_port (sys_down sys) (utc_now c, a)) as [d|] eqn:Ed; [|done]. injection Hs as <-. simpl.
    split_and!; [by eapply ds_step_shutdown|done|congruence|].
    destruct (ds_step_manager _ _ _ _ Ha Ed) as (ops & Hops & ->). exists ops.
    split_and!; [eapply Forall_impl; [exact Hops|apply downstream_closing]|done|done].
  - unfold start_session in Hs. destruct (ds_handlers (sys_down sys) !! t) as [h|]; [|done]. cbn [mbind option_bind] in Hs.
    destruct (h_pc h); try done. destruct (sys_sessions sys !! t); [done|]. apply (inj Some) in Hs. subst sys'. simpl.
    split_and!; [done|done|congruence|]. unfold session_new. set (s00 := mkSession _ _ _ _ _ _ _ _ _ _ _ _).
    destruct (touches_begin_connect c s00) as [_ _ _ (ops & Hops & Hst)].
    exists ops. split_and!; [eapply Forall_impl; [exact Hops|apply session_closing]|exact Hst|done].
  - unfold session_step in Hs. destruct (sys_sessions sys !! t) as [s|]; [|done]. simpl in Hs.
    destruct (session_may sys t ev) eqn:Hmay; [|done]. destruct (step config c _ ev) as [s'|] eqn:Es; [|done].
    injection Hs as <-. simpl. split_and!; [done|done|congruence|].
    assert (own_event ev = true) as Hown by (by destruct ev).
    destruct (step_touches config c _ ev s' Hown Es) as [_ _ _ (ops & Hops & ->)].
    exists ops. split_and!; [eapply Forall_impl; [exact Hops|apply session_closing]|done|done].
  - apply (publisher_step_ops _ _ _ _ _ _ _ _ Hinv) in Hs as (Hl & Hl' & -> & ops & Hops & ->); [|done].
    rewrite Hl, Hl'. split_and!; [done..|]. exists ops.
    split_and!; [eapply Forall_impl; [exact Hops|apply mqtt_closing]|done|done].
  - destruct (sys_queue sys) as [|e queue]; [done|].
    apply (publisher_step_ops _ _ _ _ _ _ _ _ Hinv) in Hs as (Hl & Hl' & -> & ops & Hops & ->); [|done].
    rewrite Hl, Hl'. split_and!; [done..|]. exists ops.
    split_and!; [eapply Forall_impl; [exact Hops|apply mqtt_closing]|done|done].
  - destruct (sys_pub_live sys) eqn:Hl; [|done]. destruct (ds_shutdown (sys_down sys)) eqn:Hsd; [|done]. injection Hs as <-.
    simpl. split_and!; [done|done| |].
    + intros _ _. split; [done|]. apply (state_of_transition (utc_now c) (ds_manager (sys_down sys)) Mqtt Mqtt Disconnected).
    + exists [OpTransition (utc_now c) Mqtt Disconnected]. split_and!; [by repeat constructor|done|done].
  - destruct (ds_shutdown (sys_down sys)) eqn:Hsd; [|done]. injection Hs as <-. simpl. split_and!; [done|done|congruence|].
    exists [OpListener false]. split_and!; [by repeat constructor|done|done].
Qed.

(** What such operations leave as it is. *)
Lemma closing_ops live ops m :
  Forall (closing_op live) ops →
  (listener_bound m = false → listener_bound (foldl apply_op m ops) = false) ∧
  (live = false → mqtt_state (foldl apply_op m ops) = mqtt_state m).
Proof.
  intros Hops. revert m. induction Hops as [|op ops Hop _ IH]; intros m; [done|]. simpl.
  destruct (IH (apply_op m op)) as [IH1 IH2]. split.
  - intros Hl. apply IH1. destruct op as [now c' st|b|d|d n]; simpl in *; try done. by rewrite listener_bound_transition.
  - intros ->. rewrite IH2 by done. destruct op as [now c' st|b|d|d n]; simpl in *; try done.
    change (mqtt_state (transition now m c' st)) with (state_of (transition now m c' st) Mqtt).
    rewrite state_of_transition. destruct c'; try done; by rewrite decide_False.
Qed.
End process_lemmas.

(** ** Lemmas: the process *)

Section process_theorems.
Context {T C U : Type} `{MqttClientLaws T} `{AsyncSender C AxumMessage} `{UpstreamLink U}.
Context `{SerdeJsonLaws} `{Chrono} `{HashOrder} (serde_error : Value → string) (config : SessionConfig).
Abbreviation System := (System (T := T) (C := C) (U := U)).
Abbreviation Process := (Process (T := T) (C := C) (U := U)).
Abbreviation ProcEvent := (ProcEvent (C := C) (U := U)).
Implicit Types (sys : System) (pr : Process).

Definition before_signal (pc : MainPc) : bool := match pc with MainWaiting => true | _ => false end.

Record proc_inv (m0 : ConnectionStateManager) (p0 : MqttPublisher T Port) (n : nat) pr : Prop := {
  pi_sys : ∃ k, (k ≤ n)%nat ∧ sys_inv serde_error config m0 p0 k (pr_sys pr);
  pi_shutdown : ds_shutdown (sys_down (pr_sys pr)) = true ↔ pr_signal pr = SigDone;
  pi_main : before_signal (pr_main pr) = false →
    pr_signal pr = SigDone ∧ listener_bound (ds_manager (sys_down (pr_sys pr))) = false;
  pi_live : sys_pub_live (pr_sys pr) = false →
    ds_shutdown (sys_down (pr_sys pr)) = true ∧ mqtt_state (ds_manager (sys_down (pr_sys pr))) = Disconnected;
  pi_done : returned pr = true → sys_pub_live (pr_sys pr) = false
}.

Lemma process_new_inv m0 p0 : wired m0 p0 → proc_inv m0 p0 0 (process_new (sys_new m0 p0)).
Proof. intros Hw. split; try done. exists 0%nat. split; [done|by apply sys_new_inv]. Qed.

(** A step of the system inside the process. *)
Lemma proc_inv_sys m0 p0 n pr c e sys pc sg :
  proc_inv m0 p0 n pr → sys_step serde_error config (pr_sys pr) (c, e) = Some sys → returned pr = false →
  sg = (if shuts_down e then SigDone else pr_signal pr) →
  pc = pr_main pr ∨ e = SysDrain ∧ (∃ d w, pc = MainDraining d w) →
  proc_inv m0 p0 (S n) (mkProcess sys pc sg).
Proof.
  intros [(k & Hk & Hinv) Hsd Hm Hl Hd] Hs Hret -> Hpc. pose proof (sys_step_inv _ _ _ _ _ _ _ _ Hinv Hs) as Hinv'.
  destruct (sys_step_keeps _ _ _ _ _ _ _ _ _ Hinv Hs) as (Hk1 & Hk2 & Hk3 & ops & Hops & Hmgr & Hdr).
  destruct (closing_ops _ _ (ds_manager (sys_down (pr_sys pr))) Hops) as [Hlb Hmq].
  split; simpl.
  - exists (S k). split; [lia|done].
  - rewrite Hk1, orb_true_iff. destruct (shuts_down e); [by split; auto|]. rewrite Hsd. split; [by intros [|]|by left].
  - intros Hb. destruct Hpc as [->|[-> (d & w & ->)]].
    + destruct (Hm Hb) as [Hsg Hlf]. rewrite Hmgr. split; [by destruct (shuts_down e)|by apply Hlb].
    + split; [|by apply Hdr]. simpl. apply Hsd. unfold sys_step in Hs. cbn [fst snd] in Hs. by destruct (ds_shutdown _).
  - intros Hl'. destruct (sys_pub_live (pr_sys pr)) eqn:El.
    + destruct (Hk3 eq_refl Hl') as [Hs1 Hs2]. split; [by rewrite Hk1, Hs1|done].
    + destruct (Hl eq_refl) as [Hs1 Hs2]. split; [by rewrite Hk1, Hs1|]. by rewrite Hmgr, Hmq.
  - unfold returned in *. simpl. destruct Hpc as [->|[_ (d & w & ->)]]; [by rewrite Hret|done].
Qed.

Lemma proc_step_inv m0 p0 n pr ce pr' :
  proc_inv m0 p0 n pr → proc_step serde_error config pr ce = Some pr' → proc_inv m0 p0 (S n) pr'.
Proof.
  intros Hinv Hs. unfold proc_step in Hs. destruct (returned pr) eqn:Hret; [done|]. destruct ce as [c [e|s| |]]; cbn [fst snd] in Hs.
  - destruct (reserved e) eqn:Hr; [done|]. apply bind_Some in Hs as (sys & Hs & [= <-]).
    apply (proc_inv_sys _ _ _ _ _ _ _ _ _ Hinv Hs); [done| |by left]. by destruct e as [[]| | | | | |].
  - injection Hs as <-. destruct Hinv as [(k & Hk & Hi) Hsd Hm Hl Hd].
    destruct (pr_signal pr) eqn:Hsg; (split; simpl; [by exists k; split; [lia|]| | |done|done]); rewrite ?Hsg; try done.
    + rewrite Hsd. by split.
    + intros Hb. by destruct (Hm Hb).
  - unfold signal_step in Hs. destruct (pr_signal pr) eqn:Hsg; try done. apply bind_Some in Hs as (sys & Hs & [= <-]).
    apply (proc_inv_sys _ _ _ _ _ _ _ _ _ Hinv Hs); [done|done|by left].
  - unfold main_step in Hs. destruct (pr_main pr) as [|d w|o|o] eqn:Hpc.
    + apply bind_Some in Hs as (sys & Hs & [= <-]).
      apply (proc_inv_sys _ _ _ _ _ _ _ _ _ Hinv Hs); [done|done|right; split; [done|by eexists _, _]].
    + destruct (w <=? instant_now c); [|done]. injection Hs as <-. destruct Hinv as [(k & Hk & Hi) Hsd Hm Hl Hd].
      rewrite Hpc in Hm. split; simpl; [by exists k; split; [lia|]|done|by intros _; apply Hm|done|].
      unfold returned. simpl. by repeat case_match.
    + destruct (sys_pub_live (pr_sys pr)) eqn:El; [done|]. injection Hs as <-. destruct Hinv as [(k & Hk & Hi) Hsd Hm Hl Hd].
      rewrite Hpc in Hm. split; simpl; [by exists k; split; [lia|]|done|by intros _; apply Hm|done|done].
    + done.
Qed.

Lemma proc_run_inv m0 p0 n l pr pr' :
  proc_inv m0 p0 n pr → proc_run serde_error config pr l = Some pr' → proc_inv m0 p0 (length l + n) pr'.
Proof.
  revert n pr. induction l as [|ce l IH]; intros n pr Hinv Hr; [by injection Hr as <-|]. cbn [proc_run] in Hr.
  destruct (proc_step serde_error config pr ce) as [q|] eqn:Es; [|done].
  replace (length (ce :: l) + n)%nat with (length l + S n)%nat by (simpl; lia). apply (IH (S n) q); [by eapply proc_step_inv|done].
Qed.

Lemma proc_run_app l1 l2 pr pr1 pr2 :
  proc_run serde_error config pr l1 = Some pr1 → proc_run serde_error config pr1 l2 = Some pr2 →
  proc_run serde_error config pr (l1 ++ l2) = Some pr2.
Proof.
  revert pr. induction l1 as [|a l1 IH]; intros pr Hr Hr2; [by injection Hr as ->|]. cbn [app proc_run] in *.
  destruct (proc_step serde_error config pr a) as [q|]; [|done]. by apply (IH q).
Qed.

(** ** Theorems: what the end of the process guarantees *)

(** C27. Nothing leads to the end but a signal, in a process whose publisher is past its
    start-up connect ([process_new]; a start-up the signal cuts short ends otherwise, see
    [abandoned_start_stays_connecting] in Main.v): [main] leaves its wait, and the tasks
    see the shutdown, only once the signal task has had one. From when [main] begins to
    drain, health is unhealthy until the end; and when it has returned, the publisher's
    thread has ended and the broker's state in the manager is disconnected. *)
Theorem end_only_by_signal m0 p0 l pr :
  wired m0 p0 → proc_run serde_error config (process_new (sys_new m0 p0)) l = Some pr →
  (ds_shutdown (sys_down (pr_sys pr)) = true ↔ pr_signal pr = SigDone) ∧
  (pr_main pr ≠ MainWaiting →
     pr_signal pr = SigDone ∧ health_status (ds_manager (sys_down (pr_sys pr))) = Unhealthy) ∧
  (∀ o, pr_main pr = MainDone o →
     sys_pub_live (pr_sys pr) = false ∧ mqtt_state (ds_manager (sys_down (pr_sys pr))) = Disconnected).
Proof.
  intros Hw Hr. destruct (proc_run_inv _ _ _ _ _ _ (process_new_inv _ _ Hw) Hr) as [_ Hsd Hm Hl Hd]. split_and!; [done| |].
  - intros Hpc. destruct Hm as [Hsg Hlb]; [by destruct (pr_main pr)|]. split; [done|]. unfold health_status. by rewrite Hlb.
  - intros o Ho. assert (sys_pub_live (pr_sys pr) = false) as Hlive by (apply Hd; unfold returned; by rewrite Ho).
    split; [done|]. by apply Hl.
Qed.

(** ** Theorems: [main] ends *)

(** How many more turns [main] can take: the turns of the drain left until the deadline,
    a tenth of a second apart, the one that finds it passed, the join and the end. *)
Definition tenth : Z := from_millis 100.

Definition turns_left (deadline wake : Z) : nat := S (Z.to_nat ((deadline - wake + tenth - 1) / tenth)).

Definition main_budget (pc : MainPc) : nat :=
  match pc with
  | MainWaiting => 103
  | MainDraining deadline wake => S (turns_left deadline wake)
  | MainJoining _ => 1
  | MainDone _ => 0
  end.

Definition is_main (e : ProcEvent) : bool := match e with PrMain => true | _ => false end.
Definition main_turns (l : list (Clock * ProcEvent)) : nat := length (List.filter (λ ce, is_main ce.2) l).

Lemma turns_left_next deadline wake now :
  wake ≤ now → now < deadline → (S (turns_left deadline (now + tenth)) ≤ turns_left deadline wake)%nat.
Proof.
  intros Hw Hn. unfold turns_left. apply le_n_S.
  assert (tenth = 100000000) as -> by reflexivity.
  assert ((deadline - (now + 100000000) + 100000000 - 1) / 100000000 + 1 ≤ (deadline - wake + 100000000 - 1) / 100000000).
  { rewrite <- Z.div_add by lia. apply Z.div_le_mono; lia. }
  assert (0 ≤ (deadline - (now + 100000000) + 100000000 - 1) / 100000000) by (apply Z.div_pos; lia). lia.
Qed.

Lemma main_step_budget pr c pr' :
  main_step serde_error config pr c = Some pr' → (S (main_budget (pr_main pr')) ≤ main_budget (pr_main pr))%nat.
Proof.
  unfold main_step. intros Hs. destruct (pr_main pr) as [|d w|o|o] eqn:Hpc; [| | |done].
  - apply bind_Some in Hs as (sys & _ & [= <-]). cbn [pr_main main_budget]. unfold turns_left.
    replace (instant_now c + from_secs 10 - instant_now c + tenth - 1) with (from_secs 10 + tenth - 1) by lia.
    vm_compute. lia.
  - destruct (Z.leb_spec w (instant_now c)); [|done]. injection Hs as <-. simpl.
    case_decide; [simpl; unfold turns_left; lia|]. destruct (Z.leb_spec d (instant_now c)); [simpl; unfold turns_left; lia|]. simpl.
    apply le_n_S. by apply turns_left_next.
  - destruct (sys_pub_live _); [done|]. injection Hs as <-. simpl. lia.
Qed.

Lemma proc_step_budget pr ce pr' :
  proc_step serde_error config pr ce = Some pr' →
  ((if is_main ce.2 then 1 else 0) + main_budget (pr_main pr') ≤ main_budget (pr_main pr))%nat.
Proof.
  unfold proc_step. intros Hs. destruct (returned pr); [done|]. destruct ce as [c [e|s| |]]; cbn [fst snd is_main] in *.
  - destruct (reserved e); [done|]. by apply bind_Some in Hs as (sys & _ & [= <-]).
  - injection Hs as <-. by destruct (pr_signal pr).
  - unfold signal_step in Hs. destruct (pr_signal pr); try done. by apply bind_Some in Hs as (sys & _ & [= <-]).
  - by apply main_step_budget in Hs.
Qed.

(** C28. [main] takes at most 103 turns after start-up, whatever the other tasks do and in
    whatever order: the wait, at most 101 turns of the drain (ten seconds, a tenth of a
    second apart), the join and the return; and a turn of the drain at or after its
    deadline is its last. *)
Theorem main_turns_bounded sys l pr :
  proc_run serde_error config (process_new sys) l = Some pr → (main_turns l ≤ 103)%nat ∧
  ∀ deadline wake c pr', pr_main pr = MainDraining deadline wake → deadline ≤ instant_now c →
    main_step serde_error config pr c = Some pr' →
    pr_main pr' = MainJoining (let n := size (ds_connections (sys_down (pr_sys pr))) in
                               if decide (n = 0%nat) then AllClosed else Abandoned n).
Proof.
  intros Hr. split.
  - change 103%nat with (main_budget (pr_main (process_new sys))). revert Hr. generalize (process_new sys) as q.
    induction l as [|ce l IH]; intros q Hr; [unfold main_turns; simpl; lia|]. cbn [proc_run] in Hr.
    apply bind_Some in Hr as (q' & Hs & Hr). pose proof (proc_step_budget _ _ _ Hs) as Hb. specialize (IH q' Hr).
    unfold main_turns in *. simpl. destruct (is_main ce.2); simpl; lia.
  - intros deadline wake c pr' Hpc Hd Hs. unfold main_step in Hs. rewrite Hpc in Hs.
    destruct (wake <=? instant_now c); [|done]. injection Hs as <-. simpl. case_decide as Hn; [done|].
    by rewrite (proj2 (Z.leb_le _ _) Hd).
Qed.

(** The events that need nobody outside the process. *)
Definition self_driven_proc (e : ProcEvent) : Prop :=
  match e with PrTask e => self_driven e ∨ e = SysStopPublisher | PrSignal _ => False | PrSignalTask | PrMain => True end.

Lemma self_driven_free (e : SysEvent (C := C) (U := U)) : self_driven e → reserved e = false.
Proof. by destruct e as [[]| | | | | |]. Qed.

(** A run of the tasks is one of the process, [main] and the signal task standing still. *)
Lemma tasks_run l pr sys :
  Forall (λ ce, self_driven ce.2) l → returned pr = false → sys_run serde_error config (pr_sys pr) l = Some sys →
  proc_run serde_error config pr ((λ ce, (ce.1, PrTask ce.2)) <$> l) = Some (set_sys pr sys).
Proof.
  revert pr. induction l as [|[c e] l IH]; intros pr Hl Hret Hr; [injection Hr as <-; by destruct pr|].
  apply Forall_cons in Hl as [He Hl]. cbn [snd] in He. cbn [sys_run] in Hr. apply bind_Some in Hr as (sys1 & Hs & Hr).
  cbn [fmap list_fmap proc_run]. unfold proc_step. cbn [fst snd]. rewrite Hret, (self_driven_free _ He).
  rewrite Hs. cbn [mbind option_bind]. by apply (IH (set_sys pr sys1)).
Qed.

(** From [pr] a few events that need nobody lead to [pr'], handlers as they were. *)
Definition leads (k : nat) pr pr' : Prop :=
  (∃ l, Forall (λ ce, self_driven_proc ce.2) l ∧ (length l ≤ k)%nat ∧ proc_run serde_error config pr l = Some pr') ∧
  ds_handlers (sys_down (pr_sys pr')) = ds_handlers (sys_down (pr_sys pr)).

Lemma leads_refl k pr : leads k pr pr.
Proof. split; [|done]. exists []. split_and!; [constructor|simpl; lia|done]. Qed.

Lemma leads_step k pr c e pr1 pr2 :
  self_driven_proc e → proc_step serde_error config pr (c, e) = Some pr1 →
  ds_handlers (sys_down (pr_sys pr1)) = ds_handlers (sys_down (pr_sys pr)) → leads k pr1 pr2 → leads (S k) pr pr2.
Proof.
  intros He Hs Hh [(l & Hl & Hlen & Hr) Hh']. split; [|by rewrite Hh'].
  exists ((c, e) :: l). split_and!; [by constructor|simpl; lia|]. cbn [proc_run]. by rewrite Hs.
Qed.

Lemma signal_finishes pr (c : Clock) :
  pr_signal pr ≠ SigWaiting → returned pr = false →
  ∃ pr1, leads 1 pr pr1 ∧ pr_main pr1 = pr_main pr ∧ pr_signal pr1 = SigDone.
Proof.
  intros Hsg Hret. destruct (pr_signal pr) as [|name|] eqn:E; [done| |exists pr; split; [apply leads_refl|done]].
  destruct (sys_step serde_error config (pr_sys pr) (c, SysServer DsShutdown)) as [sys|] eqn:Es; [|done].
  exists (mkProcess sys (pr_main pr) SigDone). split; [|done].
  eapply (leads_step 0 _ c PrSignalTask); [done| | |apply leads_refl].
  - unfold proc_step, signal_step. cbn [fst snd]. by rewrite Hret, E, Es.
  - by injection Es as <-.
Qed.

(** [main] notices that no session is left. *)
Lemma main_notices pr (c : Clock) :
  ds_shutdown (sys_down (pr_sys pr)) = true → ds_connections (sys_down (pr_sys pr)) = ∅ →
  match pr_main pr with MainWaiting => True | MainDraining _ wake => wake ≤ instant_now c | _ => False end →
  ∃ pr', leads 2 pr pr' ∧ pr_main pr' = MainJoining AllClosed ∧
    ds_shutdown (sys_down (pr_sys pr')) = true.
Proof.
  intros Hsd Hc Hpc.
  assert (∀ pr d w, ds_shutdown (sys_down (pr_sys pr)) = true → ds_connections (sys_down (pr_sys pr)) = ∅ →
    pr_main pr = MainDraining d w → w ≤ instant_now c →
    ∃ pr', leads 1 pr pr' ∧ pr_main pr' = MainJoining AllClosed ∧ ds_shutdown (sys_down (pr_sys pr')) = true) as Hdrain.
  { clear. intros pr d w Hsd Hc Hpc Hw. exists (set_main pr (MainJoining AllClosed)). split_and!; [|done|done].
    eapply (leads_step 0 _ c PrMain); [done| | |apply leads_refl]; [|done].
    unfold proc_step, returned, main_step. cbn [fst snd]. rewrite Hpc, Hc, map_size_empty, (proj2 (Z.leb_le _ _) Hw). done. }
  destruct (pr_main pr) as [|d w|o|o] eqn:E; try done.
  - set (sys := mkSystem (set_ds_manager (sys_down (pr_sys pr)) (set_listener_bound (ds_manager (sys_down (pr_sys pr))) false))
                  (sys_sessions (pr_sys pr)) (sys_waiting (pr_sys pr)) (sys_pub (pr_sys pr)) (sys_pub_live (pr_sys pr))
                  (sys_queue (pr_sys pr)) (sys_handed (pr_sys pr))).
    set (pr1 := mkProcess sys (MainDraining (instant_now c + from_secs 10) (instant_now c)) (pr_signal pr)).
    destruct (Hdrain pr1 _ _ Hsd Hc eq_refl ltac:(lia)) as (pr' & Hl & Hrest). exists pr'. split; [|done].
    apply (leads_step 1 _ c PrMain pr1); [done| |done|exact Hl].
    unfold proc_step, returned, main_step. cbn [fst snd]. rewrite E. unfold sys_step. cbn [fst snd]. by rewrite Hsd.
  - destruct (Hdrain pr d w Hsd Hc E Hpc) as (pr' & [(l & Hl & Hlen & Hr) Hh] & Hrest). exists pr'. split; [|done].
    split; [|done]. exists l. split_and!; [done|lia|done].
Qed.

(** The publisher's thread sees the shutdown, and [main] returns. *)
Lemma main_joins pr (c : Clock) o :
  ds_shutdown (sys_down (pr_sys pr)) = true → pr_main pr = MainJoining o →
  ∃ pr', leads 2 pr pr' ∧ pr_main pr' = MainDone o.
Proof.
  intros Hsd Hpc.
  assert (∀ pr, pr_main pr = MainJoining o → sys_pub_live (pr_sys pr) = false →
    ∃ pr', leads 1 pr pr' ∧ pr_main pr' = MainDone o) as Hjoin.
  { clear - c. intros pr Hpc Hl. exists (set_main pr (MainDone o)). split; [|done].
    eapply (leads_step 0 _ c PrMain); [done| | |apply leads_refl]; [|done].
    unfold proc_step, returned, main_step. cbn [fst snd]. by rewrite Hpc, Hl. }
  destruct (sys_pub_live (pr_sys pr)) eqn:El.
  - destruct (sys_step serde_error config (pr_sys pr) (c, SysStopPublisher)) as [sys|] eqn:Es.
    2: { unfold sys_step in Es. cbn [fst snd] in Es. by rewrite El, Hsd in Es. }
    assert (sys_pub_live sys = false ∧ ds_handlers (sys_down sys) = ds_handlers (sys_down (pr_sys pr))) as [Hl' Hh].
    { unfold sys_step in Es. cbn [fst snd] in Es. rewrite El, Hsd in Es. by injection Es as <-. }
    destruct (Hjoin (set_sys pr sys) Hpc Hl') as (pr' & Hlead & Hdone). exists pr'. split; [|done].
    apply (leads_step 1 _ c (PrTask SysStopPublisher) (set_sys pr sys)); [by right| |exact Hh|exact Hlead].
    unfold proc_step, returned. cbn [fst snd reserved]. by rewrite Hpc, Es.
  - destruct (Hjoin pr Hpc El) as (pr' & [(l & Hl & Hlen & Hr) Hh] & Hdone). exists pr'. split; [|done].
    split; [|done]. exists l. split_and!; [done|lia|done].
Qed.

(** C10. [main] returns, whatever the proxy was doing when a signal came: at any time from the
    end of its present sleep on, at most 24 steps per connection and five more, none of
    which needs the charger, the Central System, the broker or another signal, bring it
    to its end. Unless the drain had already ended, it reports that all sessions closed,
    and then every handler has finished. *)
Theorem main_ends i m m0 p0 l pr (c : Clock) (ch : C) :
  schedule_config config i m → wired m0 p0 →
  proc_run serde_error config (process_new (sys_new m0 p0)) l = Some pr →
  pr_signal pr ≠ SigWaiting → (∀ deadline wake, pr_main pr = MainDraining deadline wake → wake ≤ instant_now c) →
  let k := size (ds_handlers (sys_down (pr_sys pr))) in
  3 * (Z.of_nat (length l) + 2 + 24 * Z.of_nat k) < 2 ^ 64 - 1 →
  ∃ l' pr' o, Forall (λ ce, self_driven_proc ce.2) l' ∧ (length l' ≤ 24 * k + 5)%nat ∧
    proc_run serde_error config pr l' = Some pr' ∧ pr_main pr' = MainDone o ∧
    match pr_main pr with
    | MainJoining o' | MainDone o' => o = o'
    | MainWaiting | MainDraining _ _ =>
        o = AllClosed ∧ map_Forall (λ _ h, h_pc h = PcDone) (ds_handlers (sys_down (pr_sys pr')))
    end.
Proof.
  intros Hsc Hw Hr Hsg Hwake k Hb.
  pose proof (proc_run_inv _ _ _ _ _ _ (process_new_inv _ _ Hw) Hr) as Hinv. rewrite Nat.add_0_r in Hinv.
  destruct (returned pr) eqn:Hret.
  { unfold returned in Hret. destruct (pr_main pr) as [| | |o] eqn:E; try done. exists [], pr, o.
    split_and!; [constructor|simpl; lia|done|done|done]. }
  destruct (signal_finishes pr c Hsg Hret) as (pr1 & [(l1 & Hl1 & Hlen1 & Hr1) Hh1] & Hpc1 & Hsg1).
  pose proof (proc_run_inv _ _ _ _ _ _ Hinv Hr1) as Hinv1. pose proof (pi_shutdown _ _ _ _ Hinv1) as Hsd1.
  destruct (pi_sys _ _ _ _ Hinv1) as (n1 & Hn1 & Hi1).
  assert (ds_shutdown (sys_down (pr_sys pr1)) = true) as Hsd by (by apply Hsd1).
  destruct (tasks_finish serde_error config i m m0 p0 n1 (pr_sys pr1) c ch Hsc Hi1 Hsd)
    as (l2 & sys2 & n2 & Hl2 & Hlen2 & Hr2 & _ & Hsd2 & Hall & Hc2 & _); [rewrite Hh1; fold k; lia|].
  rewrite Hh1 in Hlen2. fold k in Hlen2.
  assert (returned pr1 = false) as Hret1 by (unfold returned in *; by rewrite Hpc1).
  pose proof (tasks_run _ _ _ Hl2 Hret1 Hr2) as Hr12. set (pr2 := set_sys pr1 sys2) in Hr12.
  assert (Forall (λ ce : Clock * ProcEvent, self_driven_proc ce.2) ((λ ce, (ce.1, PrTask ce.2)) <$> l2)) as Hl2'
    by (apply Forall_fmap; eapply Forall_impl; [exact Hl2|]; intros [c' e] He; by left).
  assert (∃ pr3 o, leads 2 pr2 pr3 ∧ pr_main pr3 = MainJoining o ∧ ds_shutdown (sys_down (pr_sys pr3)) = true ∧
    match pr_main pr with MainJoining o' | MainDone o' => o = o' | _ => o = AllClosed end) as (pr3 & o & Hlead3 & Hpc3 & Hsd3 & Ho).
  { destruct (pr_main pr) as [|d w|o|o] eqn:E.
    - destruct (main_notices pr2 c Hsd2 Hc2) as (pr3 & ? & ? & ?); [simpl; by rewrite Hpc1|]. by exists pr3, AllClosed.
    - destruct (main_notices pr2 c Hsd2 Hc2) as (pr3 & ? & ? & ?); [simpl; rewrite Hpc1; by eapply Hwake|]. by exists pr3, AllClosed.
    - exists pr2, o. split_and!; [apply leads_refl|done..].
    - unfold returned in Hret. by rewrite E in Hret. }
  destruct (main_joins pr3 c o Hsd3 Hpc3) as (pr' & Hlead' & Hdone).
  destruct Hlead3 as [(l3 & Hl3 & Hlen3 & Hr3) Hh3], Hlead' as [(l4 & Hl4 & Hlen4 & Hr4) Hh4].
  exists (l1 ++ ((λ ce, (ce.1, PrTask ce.2)) <$> l2) ++ l3 ++ l4), pr', o. split_and!.
  - by repeat apply Forall_app_2.
  - rewrite !length_app, length_fmap. lia.
  - eapply proc_run_app; [exact Hr1|]. eapply proc_run_app; [exact Hr12|]. by eapply proc_run_app.
  - done.
  - destruct (pr_main pr); [split; [done|by rewrite Hh4, Hh3]..|done|done].
Qed.
End process_theorems.

(** ** A drain that misses a charger, and witnesses *)

#[local] Existing Instance reference_codec.
#[local] Existing Instance reference_codec_laws.
#[local] Existing Instance plain_chrono.
#[local] Existing Instance key_order.

Abbreviation ExampleProcEvent := (ProcEvent (C := CountedChannel AxumMessage) (U := ListLink)).

Definition start_process : Process (T := Channel) (C := CountedChannel AxumMessage) (U := ListLink) :=
  process_new start_system.

Definition example_proc_run (l : list ExampleProcEvent) :=
  proc_run no_error sample_session_config start_process (pair noon <$> l).

(** The request to upgrade is answered, but the connection not yet registered, when the
    signal comes. *)
Definition overlooked : list ExampleProcEvent :=
  [PrTask (SysServer (DsUpgrade 1 "CP1" ocpp_header)); PrSignal SIGTERM; PrSignalTask; PrMain; PrMain] ++
  (PrTask <$> tail (charger_arrives 1)) ++ [PrTask SysStopPublisher; PrMain].

Definition overlooked_process := default start_process (example_proc_run overlooked).

(** Finding: the drain looks at the registry, which a charger enters some time after its
    request to upgrade was answered. When the shutdown comes between the two, [main]
    reports that all sessions closed cleanly, and returns while the charger's session
    forwards messages: the connection is cut without a close frame. *)
Theorem drain_overlooks_upgrade :
  ∃ pr s, example_proc_run overlooked = Some pr ∧ pr_main pr = MainDone AllClosed ∧
    sys_sessions (pr_sys pr) !! 1%nat = Some s ∧ s_phase s = PhForward good_link ∧
    ds_connections (sys_down (pr_sys pr)) = {["CP1"%string := mkActive 1 1]}.
Proof.
  exists overlooked_process.
  assert (s_phase <$> sys_sessions (pr_sys overlooked_process) !! 1%nat = Some (PhForward good_link)) as Hs
    by (vm_compute; reflexivity).
  destruct (sys_sessions (pr_sys overlooked_process) !! 1%nat) as [s|]; [|done]. exists s.
  split_and!; [vm_compute; reflexivity|vm_compute; reflexivity|done|by injection Hs|vm_compute; reflexivity].
Qed.

(** A charger is connected, with a command in flight, when the signal comes. *)
Definition signalled : list ExampleProcEvent := (PrTask <$> commanded) ++ [PrSignal SIGINT].
Definition signalled_process := default start_process (example_proc_run signalled).

Lemma signalled_run :
  proc_run no_error sample_session_config start_process (pair noon <$> signalled) = Some signalled_process.
Proof. vm_compute. reflexivity. Qed.

Lemma main_ends_witness :
  ∃ l' pr', proc_run no_error sample_session_config signalled_process l' = Some pr' ∧ (length l' ≤ 29)%nat ∧
    pr_main pr' = MainDone AllClosed.
Proof.
  destruct (main_ends no_error sample_session_config 1 60 start_manager start_publisher (pair noon <$> signalled)
    signalled_process noon (mkCounted [] 1000) sample_schedule start_wired signalled_run)
    as (l' & pr' & o & _ & Hlen & Hr & Hdone & Ho).
  - assert (pr_signal signalled_process = SigReceived "SIGINT") as -> by (vm_compute; reflexivity). discriminate.
  - assert (pr_main signalled_process = MainWaiting) as -> by (vm_compute; reflexivity). discriminate.
  - apply Z.ltb_lt. vm_compute. reflexivity.
  - assert (size (ds_handlers (sys_down (pr_sys signalled_process))) = 1%nat) as Es by (vm_compute; reflexivity).
    rewrite Es in Hlen. assert (pr_main signalled_process = MainWaiting) as Ew by (vm_compute; reflexivity).
    rewrite Ew in Ho. destruct Ho as [-> _]. exists l', pr'. split; [exact Hr|]. split; [exact Hlen|exact Hdone].
Defined.

(** A shutdown in which the session ends in time. *)
Definition orderly : list ExampleProcEvent :=
  (PrTask <$> charger_arrives 1) ++ [PrSignal SIGTERM; PrSignalTask; PrMain; PrTask (SysSession 1 EvCancelled); PrMain] ++
  (PrTask <$> [SysSession 1 EvSlept; SysServer (DsHandler 1); SysServer (DsHandler 1); SysServer (DsHandler 1)]) ++
  [PrTask SysStopPublisher].

Definition later : Clock := {| utc_now := 0; instant_now := instant_now noon + from_secs 1 |}.

Definition orderly_events : list (Clock * ExampleProcEvent) := (pair noon <$> orderly) ++ [(later, PrMain); (later, PrMain)].
Definition orderly_process :=
  default start_process (proc_run no_error sample_session_config start_process orderly_events).

Lemma orderly_run : proc_run no_error sample_session_config start_process orderly_events = Some orderly_process.
Proof. vm_compute. reflexivity. Qed.

Lemma end_only_by_signal_witness :
  pr_main orderly_process = MainDone AllClosed ∧
  health_status (ds_manager (sys_down (pr_sys orderly_process))) = Unhealthy ∧
  mqtt_state (ds_manager (sys_down (pr_sys orderly_process))) = Disconnected.
Proof.
  destruct (end_only_by_signal no_error sample_session_config start_manager start_publisher orderly_events orderly_process
    start_wired orderly_run) as (_ & Hm & Hd).
  assert (pr_main orderly_process = MainDone AllClosed) as E by (vm_compute; reflexivity).
  split; [exact E|]. split; [apply Hm; rewrite E; discriminate|apply (Hd _ E)].
Defined.

Lemma main_turns_bounded_witness : main_turns orderly_events = 4%nat ∧ (main_turns orderly_events ≤ 103)%nat.
Proof.
  split; [vm_compute; reflexivity|].
  exact (proj1 (main_turns_bounded no_error sample_session_config start_system orderly_events orderly_process orderly_run)).
Defined.

(** Tokens as numbers: those made, and those cancelled. *)
Record Tokens := mkTokens { tk_made : gset nat; tk_cancelled : gset nat }.

#[export] Instance counted_tokens : TokenLib Tokens nat := {
  token_new w :=
    let t := base.fresh (tk_made w ∪ tk_cancelled w : gset nat) in (mkTokens ({[t]} ∪ tk_made w) (tk_cancelled w), t);
  token_cancel t w := mkTokens (tk_made w) ({[t]} ∪ tk_cancelled w);
  token_is_cancelled w t := bool_decide (t ∈ tk_cancelled w)
}.

#[export] Instance counted_tokens_laws : TokenLaws Tokens nat.
Proof.
  constructor.
  - intros w w' t [= <- <-]. simpl. apply bool_decide_eq_false_2. intros Ht.
    by apply (is_fresh (tk_made w ∪ tk_cancelled w : gset nat)), elem_of_union_r.
  - intros w t. simpl. apply bool_decide_eq_true_2. set_solver.
  - intros w t t' Hne. simpl. apply bool_decide_ext. set_solver.
Qed.

Definition other_token : Tokens := mkTokens {[0%nat; 1%nat]} {[1%nat]}.

Lemma shutdown_shared_witness :
  let '(w, c) := coordinator_new other_token in is_shutting_down (initiate_shutdown w c) c = true.
Proof.
  destruct (coordinator_new other_token) as [w c] eqn:E. exact (proj1 (proj2 (shutdown_shared _ _ _ E))).
Defined.
