(* ===== verification/Main.v ===== *)
(** * Start-up and wiring (the first half of [main] in src/main.rs)

    What [main] does before it waits: the checks that end the process, the listeners, the
    objects it builds and hands out, and the publisher's thread up to its [run]. From
    there on the proxy is the system of System.v, whose hypotheses are shown to hold of
    what is built here; what [main] does from then on is in Shutdown.v. *)

From Stdlib Require Import Ascii.
From S2P Require Import Prelude Float64 Json Text Models StateManager Config Command CallQueue Forwarder.
From S2P Require Import Upstream Session SessionStates ChargePoint SnapshotStore.
From S2P Require Import Publisher PublisherQueue PublisherCommands Downstream System SystemRuns.

Local Open Scope Z_scope.

(** ** Constants *)

Definition UPSTREAM_CONNECT_TIMEOUT : Z := from_secs 10.
Definition UPSTREAM_INITIAL_BACKOFF : Z := from_secs 2.
Definition UPSTREAM_RECONNECT_WINDOW : Z := from_secs 300.
Definition MAX_BUFFER_DURATION : Z := from_secs 30.
Definition CALL_TRACKER_MAX_AGE : Z := from_secs 300.
Definition MQTT_STARTUP_TIMEOUT : Z := from_secs 10.

(** ** What is built from the configuration *)

(** The [SessionConfig] every session gets. *)
Definition session_config_of (config : ProxyConfig) (url : string) : SessionConfig :=
  mkSessionConfig url (Config.upstream_bind_address config) OCPP16_SUBPROTOCOL
    (Config.message_buffer_size (buffers config)) MAX_BUFFER_DURATION UPSTREAM_CONNECT_TIMEOUT
    UPSTREAM_INITIAL_BACKOFF (from_secs (max_backoff_seconds (buffers config))) UPSTREAM_RECONNECT_WINDOW
    CALL_TRACKER_MAX_AGE (Config.charging config).

(** An empty path disables persistence. *)
Definition snapshot_store_of (config : ProxyConfig) : SnapshotStore :=
  if decide (trim (Config.state_file config) = ""%string) then store_disabled else store_new (Some (Config.state_file config)).

(** ** Start-up *)

(** [TcpListener::bind], which [axum::serve] then accepts on. *)
Class Listeners (W Listener : Type) := {
  tcp_listen : SocketAddr → W → W * result Listener string
}.

Class ListenersLaws (W Listener : Type) `{Listeners W Listener} := {
  listening : W → list SocketAddr;
  tcp_listen_log a w w' r : tcp_listen a w = (w', r) →
    listening w' = listening w ++ (if is_ok r then [a] else [])
}.

(** Sockets that are not listened on do not change who is listening. *)
Class QuietSockets (W Req Header Sock Tcp Ws Listener : Type) `{Network W Req Header Sock Tcp Ws}
    `{ListenersLaws W Listener} : Prop := {
  quiet_v4 w : listening (new_v4 w).1 = listening w;
  quiet_v6 w : listening (new_v6 w).1 = listening w;
  quiet_bind s a w : listening (sock_bind s a w).1 = listening w
}.

(** What [main] has made when it says that it is ready. *)
Record Proxy (Listener : Type) := mkProxy {
  px_config : ProxyConfig;
  px_session_config : SessionConfig;
  px_manager : ConnectionStateManager;
  px_store : SnapshotStore;
  px_health : option Listener;
  px_listener : Listener
}.
Arguments mkProxy {Listener} _ _ _ _ _ _.
Arguments px_config {Listener} _.
Arguments px_session_config {Listener} _.
Arguments px_manager {Listener} _.
Arguments px_store {Listener} _.
Arguments px_health {Listener} _.
Arguments px_listener {Listener} _.

Inductive Startup (Listener : Type) :=
  | Exit (code : Z) (message : string)
  | Serving (proxy : Proxy Listener).
Arguments Exit {Listener} code message.
Arguments Serving {Listener} proxy.

Section startup.
Context {Url W Req Header Sock Tcp Ws Listener : Type} `{UrlLib Url} `{Network W Req Header Sock Tcp Ws} `{Listeners W Listener}.
Context (parse_url : string → result Url string).

(** [verify_local_address]: the first socket only shows that one can be made. *)
Definition verify_local_address (addr : IpAddr) (w : W) : W * result unit string :=
  let '(w, probe) := new_v4 w in
  match probe with
  | Err e => (w, Err ("cannot create socket: " +:+ e)%string)
  | Ok _ =>
      let '(w, made) := if is_ipv4 addr then new_v4 w else new_v6 w in
      match made with
      | Err e => (w, Err ("cannot create socket: " +:+ e)%string)
      | Ok socket =>
          let '(w, bound) := sock_bind socket (addr, 0) w in
          (w, match bound with
              | Ok _ => Ok ()
              | Err e => Err ("is not an address on any local interface (" +:+ e +:+ ")")%string
              end)
      end
  end.

(** The check of [upstream_bind_address], when there is one. *)
Definition check_bind_address (config : ProxyConfig) (w : W) : W * result unit string :=
  match Config.upstream_bind_address config with
  | None => (w, Ok ())
  | Some bind =>
      let '(w, r) := verify_local_address bind w in
      (w, match r with
          | Ok _ => Ok ()
          | Err e => Err ("FATAL: [config] upstream_bind_address " +:+ ip_fmt bind +:+ ": " +:+ e)%string
          end)
  end.

(** The two listeners, and what [main] builds around them. A health port that cannot be
    had is reported and served without. *)
Definition open_listeners (config : ProxyConfig) (url : Url) (w : W) : W * Startup Listener :=
  let '(w, health) := tcp_listen (V4 0, health_port config) w in
  let '(w, listener) := tcp_listen (listen_address config, listen_port config) w in
  match listener with
  | Err e => (w, Exit 1 "Cannot bind the charger listener; the proxy cannot serve"%string)
  | Ok listener =>
      (w, Serving (mkProxy config (session_config_of config (url_as_str url))
                     (set_listener_bound manager_new true) (snapshot_store_of config) (result_ok health) listener))
  end.

(** [main] from the loaded configuration to the line that announces readiness. *)
Definition startup (loaded : result ProxyConfig ProxyError) (w : W) : W * Startup Listener :=
  match loaded with
  | Err e => (w, Exit 1 ("FATAL: " +:+ ProxyError_fmt e)%string)
  | Ok config =>
      match parse_url (Config.central_system_url config) with
      | Err e =>
          (w, Exit 1 ("FATAL: [config] central_system_url is not a valid URL ('"
                        +:+ Config.central_system_url config +:+ "'): " +:+ e)%string)
      | Ok url =>
          let '(w, checked) := check_bind_address config w in
          match checked with
          | Err message => (w, Exit 1 message)
          | Ok _ => open_listeners config url w
          end
      end
  end.
End startup.

(** ** The publisher's thread *)

(** The race of the start-up connect against the shutdown: the connect ended after these
    polls, or the shutdown won, before the connect had begun or while it waited. *)
Inductive ConnectRace :=
  | CutShort (begun : bool)
  | Finished (polls : list (Clock * option PollEvent)).

(** How the thread ends, and what it leaves in the manager. *)
Inductive ThreadEnd (T R : Type) :=
  | Unavailable (e : ProxyError)
  | Abandoned (manager : option ConnectionStateManager)
  | Stopped (manager : option ConnectionStateManager) (p : MqttPublisher T R).
Arguments Unavailable {T R} e.
Arguments Abandoned {T R} manager.
Arguments Stopped {T R} manager p.

Section thread.
Context {T R : Type} `{MqttClient T} `{MpscSender R CommandRequest} `{SerdeJson} `{Chrono} `{HashOrder}.
Context (serde_error : Value → string) (io_error_fmt : IoError → string).

(** The publisher as the thread builds it. *)
Definition thread_publisher (config : ProxyConfig) (store : SnapshotStore) (manager : ConnectionStateManager)
    (d : Disk) : Disk * result (MqttPublisher T R) ProxyError :=
  let '(d, r) := publisher_new io_error_fmt (mqtt config) (charge_point_id config)
                   (mqtt_buffer_size (buffers config)) store d in
  (d, match r with
      | Err e => Err e
      | Ok p =>
          let p := with_state_manager p manager in
          Ok (if enabled (Config.charging config) then with_command_router p ∅ (Config.charging config) else p)
      end).

(** The body of the thread: the connect of the start-up, raced against the shutdown, then
    [run] until the shutdown, then the farewell to the manager, which a start-up that is
    abandoned does without. [events] are those [run] handled. *)
Definition mqtt_thread (config : ProxyConfig) (store : SnapshotStore) (manager : ConnectionStateManager) (d : Disk)
    (c : Clock) (race : ConnectRace) (events : list (Clock * PubEvent (R := R))) (c_end : Clock) :
    option (ThreadEnd T R) :=
  match (thread_publisher config store manager d).2 with
  | Err e => Some (Unavailable e)
  | Ok p =>
      match race with
      | CutShort begun => Some (Abandoned (p_manager (if begun then mqtt_set_state c p Connecting else p)))
      | Finished polls =>
          '(p, _) ← try_connect c p MQTT_STARTUP_TIMEOUT polls;
          p ← pub_run serde_error p events;
          Some (Stopped ((λ m, transition (utc_now c_end) m Mqtt Disconnected) <$> p_manager p) p)
      end
  end.
End thread.

(** ** Theorems: starting *)

Section startup_theorems.
Context {Url W Req Header Sock Tcp Ws Listener : Type} `{UrlLib Url}
  `{QuietSockets W Req Header Sock Tcp Ws Listener}.
Context (parse_url : string → result Url string).

Lemma check_bind_address_quiet config w : listening (check_bind_address config w).1 = listening w.
Proof.
  unfold check_bind_address. destruct (Config.upstream_bind_address config) as [bind|]; [|done].
  unfold verify_local_address. pose proof (quiet_v4 w) as Hv4.
  destruct (new_v4 w) as [w1 [s|e]]; [|done]. simpl in Hv4.
  assert (listening (if is_ipv4 bind then new_v4 w1 else new_v6 w1).1 = listening w) as Hm
    by (rewrite <- Hv4; destruct (is_ipv4 bind); [apply quiet_v4|apply quiet_v6]).
  destruct (if is_ipv4 bind then new_v4 w1 else new_v6 w1) as [w2 [s2|e]]; [|done]. simpl in Hm.
  pose proof (quiet_bind s2 (bind, 0) w2) as Hb. destruct (sock_bind s2 (bind, 0) w2) as [w3 r]. simpl in *. congruence.
Qed.

(** C31. When the process starts to serve and when it ends, exactly. It ends with code 1 if
    the configuration did not load, the upstream URL does not parse or the source address
    is not local, none of which has listened on anything, or if the charger listener
    cannot be bound, when at most the health endpoint has been listened on; otherwise it
    serves. The bind of the health endpoint decides neither: taken or not, it is only
    whether there is a health endpoint. What is served is what was configured, and its
    health is idle: ready, with no charger yet. *)
Theorem startup_fails_fast loaded w w' (r : Startup Listener) :
  startup parse_url loaded w = (w', r) →
  match loaded with
  | Err e => r = Exit 1 ("FATAL: " +:+ ProxyError_fmt e)%string ∧ listening w' = listening w
  | Ok config =>
      let health := tcp_listen (V4 0, health_port config) (check_bind_address config w).1 in
      let charger := tcp_listen (listen_address config, listen_port config) health.1 in
      match parse_url (Config.central_system_url config), (check_bind_address config w).2, charger.2 with
      | Err _, _, _ => (∃ message, r = Exit 1 message) ∧ listening w' = listening w
      | Ok _, Err message, _ => r = Exit 1 message ∧ listening w' = listening w
      | Ok _, Ok _, Err _ =>
          (∃ message, r = Exit 1 message) ∧
          listening w' = listening w ++ (if is_ok health.2 then [(V4 0, health_port config)] else [])
      | Ok url, Ok _, Ok listener =>
          (∃ px, r = Serving px ∧ px_config px = config ∧ px_session_config px = session_config_of config (url_as_str url) ∧
             px_listener px = listener ∧ px_health px = result_ok health.2 ∧ health_status (px_manager px) = Idle) ∧
          listening w' = listening w ++ (if is_ok health.2 then [(V4 0, health_port config)] else [])
            ++ [(listen_address config, listen_port config)]
      end
  end.
Proof.
  unfold startup, open_listeners. intros Hs. destruct loaded as [config|e]; [|injection Hs as <- <-; split; reflexivity].
  destruct (parse_url _) as [url|e] eqn:Eu; [|injection Hs as <- <-; split; [by eexists|done]].
  pose proof (check_bind_address_quiet config w) as Hq.
  destruct (check_bind_address config w) as [w1 [[]|message]] eqn:Ec; simpl in Hq |- *;
    [|injection Hs as <- <-; done].
  destruct (tcp_listen (V4 0, health_port config) w1) as [w2 health] eqn:Eh. simpl.
  destruct (tcp_listen (listen_address config, listen_port config) w2) as [w3 listener] eqn:El. simpl.
  apply tcp_listen_log in Eh, El. rewrite Eh, Hq in El.
  destruct listener as [listener|e]; injection Hs as <- <-; simpl in *.
  - split; [by eexists|]. by rewrite El, <- app_assoc.
  - split; [by eexists|]. by rewrite El, app_nil_r.
Qed.
End startup_theorems.

(** ** Theorems: the system's assumptions *)

Section wiring.
Context {T : Type} `{MqttClientLaws T} `{SerdeJsonLaws} `{Chrono} `{HashOrder}.
Context (serde_error : Value → string) (io_error_fmt : IoError → string).
Implicit Types (p : MqttPublisher T Port).

Lemma set_state_managed c p s :
  is_Some (p_manager p) → pub_inv p → is_Some (p_manager (mqtt_set_state c p s)) ∧ pub_inv (mqtt_set_state c p s).
Proof. intros [m Hm] Hp. split; [simpl; rewrite Hm; by eexists|by apply pub_inv_set_state]. Qed.

Lemma connect_loop_inv deadline p l p' ok :
  is_Some (p_manager p) → pub_inv p → connect_loop deadline p l = Some (p', ok) →
  is_Some (p_manager p') ∧ pub_inv p' ∧ p_state p' = (if ok then Connected else Reconnecting).
Proof.
  revert p. induction l as [|[c r] l IH]; intros p Hm Hp Hr; [done|]. cbn [connect_loop] in Hr.
  assert (∀ p', Some (mqtt_set_state c p Reconnecting, false) = Some (p', ok) →
    is_Some (p_manager p') ∧ pub_inv p' ∧ p_state p' = (if ok then Connected else Reconnecting)) as Hfail.
  { intros p1 [= <- <-]. destruct (set_state_managed c p Reconnecting Hm Hp). by split_and!. }
  case_decide; [by apply Hfail|]. destruct r as [[|topic payload| |]|]; [| | | |by apply Hfail].
  - injection Hr as <- <-. destruct (on_connack_loop c (after_poll p PollConnAck)) as [Hl Hs].
    destruct (set_state_managed c p Connected Hm Hp) as [Hm' [_ Hmq]]. destruct Hp as [Hb _].
    split_and!; [|eapply pub_inv_loop; [exact Hl|by rewrite Hs|]|done].
    + unfold loop_part in Hl. injection Hl as -> _ _ _ _. exact Hm'.
    + split; [by apply on_schedule_reset|exact Hmq].
  - by apply (IH (after_poll p (PollPublish topic payload))).
  - by apply (IH (after_poll p PollOther)).
  - destruct Hp as [Hb Hmq]. destruct (next_delay_on_schedule 1 30 (p_backoff p)) as (d & b & Hd & Hb' & _); [by left|lia|done|].
    change (p_backoff (after_poll p PollError)) with (p_backoff p) in Hr. rewrite Hd in Hr.
    cbn [mbind option_bind] in Hr. by apply (IH (set_p_backoff (after_poll p PollError) b)).
Qed.

(** What [main] builds is what the theorems on the system start from: the publisher its
    thread makes, after the connect of the start-up and whatever that met, reports the
    broker's state to the manager it was given; and the sessions' backoff is on its
    schedule for every configured maximum from two seconds to ten minutes. *)
Theorem main_wires_system config url store d d' c polls p p' ok :
  thread_publisher io_error_fmt config store (set_listener_bound manager_new true) d = (d', Ok p) →
  try_connect c p MQTT_STARTUP_TIMEOUT polls = Some (p', ok) →
  2 ≤ max_backoff_seconds (buffers config) ≤ 600 →
  (∃ m, wired m p' ∧ mqtt_state m = if ok then Connected else Reconnecting) ∧
  schedule_config (session_config_of config url) 2 (max_backoff_seconds (buffers config)).
Proof.
  intros Hp Hc Hmax. split; [|split_and!; [by right|lia..|done|done]].
  unfold thread_publisher in Hp. destruct (publisher_new _ _ _ _ _ _) as [d1 [p0|e]] eqn:Ep; [|done].
  destruct (publisher_new_inv _ _ _ _ _ _ _ _ Ep) as [_ Hinv].
  specialize (Hinv (set_listener_bound manager_new true) eq_refl).
  assert (p_manager p = Some (set_listener_bound manager_new true) ∧ pub_inv p) as [Hm Hpi].
  { injection Hp as _ <-. by destruct (enabled _). }
  unfold try_connect in Hc.
  destruct (set_state_managed c p Connecting ltac:(by eexists) Hpi) as [Hm1 Hp1].
  destruct (connect_loop_inv _ _ _ _ _ Hm1 Hp1 Hc) as ([m Hm'] & Hp' & Hst).
  exists m. split; [by split|]. rewrite <- Hst. by apply Hp'.
Qed.
End wiring.

(** Finding: what the publisher's thread leaves in the manager. When [run] ended the broker's
    state is disconnected; a start-up that the shutdown cuts short returns without that
    farewell, so the state stays connecting, in the manager that health and the state
    events are made of, until the process ends. *)
Theorem abandoned_start_stays_connecting {T} `{MqttClientLaws T} `{SerdeJsonLaws} `{Chrono} `{HashOrder}
    (serde_error : Value → string) (io_error_fmt : IoError → string)
    config store manager d c race events c_end (e : ThreadEnd T Port) :
  mqtt_thread serde_error io_error_fmt config store manager d c race events c_end = Some e →
  match e with
  | Unavailable _ => True
  | Abandoned m =>
      ∃ begun, race = CutShort begun ∧ mqtt_state <$> m = Some (if begun then Connecting else mqtt_state manager)
  | Stopped m _ => ∀ m', m = Some m' → mqtt_state m' = Disconnected
  end.
Proof.
  unfold mqtt_thread. destruct (thread_publisher _ _ _ _ _) as [d' [p|err]] eqn:Ep; cbn [snd]; [|by intros [= <-]].
  assert (p_manager p = Some manager) as Hm.
  { unfold thread_publisher in Ep. destruct (publisher_new _ _ _ _ _ _) as [d1 [p0|e0]]; [|done]. injection Ep as _ <-.
    by destruct (enabled _). }
  destruct race as [begun|polls].
  - intros [= <-]. exists begun. split; [done|]. destruct begun; [|by rewrite Hm]. simpl. rewrite Hm. simpl. f_equal. exact (state_of_transition (utc_now c) manager Mqtt Mqtt Connecting).
  - intros Hr. apply bind_Some in Hr as ([p1 ok] & _ & Hr). apply bind_Some in Hr as (p2 & _ & Hr). injection Hr as <-.
    destruct (p_manager p2) as [m|]; [|done]. intros m' [= <-]. exact (state_of_transition (utc_now c_end) m Mqtt Mqtt Disconnected).
Qed.

(** A maximum of zero passes the validation, and then there is no backoff: any number of
    attempts to connect can fail, one after the other, without a wait between them. *)
Definition hasty_config : ProxyConfig :=
  mkProxyConfig "ws://cs.example/ocpp" 9000 default_listen_address None None 8080 (mqtt sample_config) Info
    (mkBufferConfig 100 500 0) default_state_file ChargingConfig_default.

Definition never_waits (b : ExponentialBackoff) : Prop :=
  ∃ b', next_delay b = Some (0, b') ∧ next_delay b' = Some (0, b').

Lemma never_waits_next b d b' : never_waits b → next_delay b = Some (d, b') → d = 0 ∧ never_waits b'.
Proof. intros (b1 & Hb & Hb1) E. rewrite Hb in E. injection E as <- <-. split; [done|]. by exists b1. Qed.

Lemma hasty_backoff : never_waits (backoff_with_defaults UPSTREAM_INITIAL_BACKOFF (from_secs 0)).
Proof. exists (mkBackoff (from_secs 2) 0 0 (of_Z 2)). split; vm_compute; reflexivity. Qed.

Section hasty.
Context {T C U : Type} `{MpscSender T MqttEvent} `{AsyncSender C AxumMessage} `{UpstreamLink U} `{SerdeJson} `{Chrono}.
Implicit Types (s : Session T C U).

(** One failure and the sleep after it, all at the time [c]. *)
Definition failed_attempt (c : Clock) (e : ProxyError) : list (Clock * Event U) := [(c, EvConnect (Err e)); (c, EvSlept)].

Lemma hasty_attempt url c e s :
  s_phase s = PhConnect → never_waits (s_backoff s) → default (instant_now c) (s_reconnecting_since s) = instant_now c →
  ∃ s1 s2, step (session_config_of hasty_config url) c s (EvConnect (Err e)) = Some s1 ∧ s_phase s1 = PhRetry 0 ∧
    step (session_config_of hasty_config url) c s1 EvSlept = Some s2 ∧
    s_phase s2 = PhConnect ∧ never_waits (s_backoff s2) ∧ s_reconnecting_since s2 = Some (instant_now c).
Proof.
  intros Hp Hb Hs. destruct Hb as (b' & Hd & Hd').
  set (s0 := set_upstream_state (utc_now c) (set_since s (Some (instant_now c))) Reconnecting).
  assert (transport s0 = transport (set_since s (Some (instant_now c)))) as E0 by apply set_upstream_state_transport.
  assert (s_backoff s0 = s_backoff s ∧ s_reconnecting_since s0 = Some (instant_now c)) as [Eb Er]
    by (unfold transport in E0; by simplify_eq/=).
  exists (set_phase (set_backoff s0 b') (PhRetry 0)), (begin_connect c (set_phase (set_backoff s0 b') (PhRetry 0))).
  unfold step at 1. rewrite Hp. unfold connect_failed. rewrite Hs.
  assert ((max_reconnect_window (session_config_of hasty_config url) <=? elapsed (instant_now c) (instant_now c)) = false) as ->
    by (apply Z.leb_gt; unfold elapsed; simpl; unfold UPSTREAM_RECONNECT_WINDOW, from_secs, NANOS; lia).
  fold s0. rewrite Eb, Hd. cbn [mbind option_bind]. split.
  { f_equal. f_equal. f_equal. lia. }
  pose proof (set_upstream_state_transport (utc_now c) (set_phase (set_backoff s0 b') (PhRetry 0)) Connecting) as E1.
  destruct (begin_connect_fields c (set_phase (set_backoff s0 b') (PhRetry 0))) as (Eb1 & _ & Ep1).
  split_and!; [done|done|done|rewrite Eb1; by exists b'|].
  unfold begin_connect. unfold transport in E1. simplify_eq/=. congruence.
Qed.

Theorem zero_backoff_spins url c e id (tx : T) charger m n :
  validate (λ _, false) (λ _, false) hasty_config = [] ∧
  ∃ s, run (session_config_of hasty_config url) (concat (replicate n (failed_attempt c e)))
         (session_new (session_config_of hasty_config url) c id tx charger m) = Some s ∧ s_phase s = PhConnect.
Proof.
  split; [vm_compute; reflexivity|]. set (config := session_config_of hasty_config url).
  set (s0 := session_new config c id tx charger m).
  assert (s_phase s0 = PhConnect ∧ never_waits (s_backoff s0) ∧ default (instant_now c) (s_reconnecting_since s0) = instant_now c)
    as (Hp & Hb & Hs).
  { unfold s0, session_new. set (raw := mkSession _ _ _ _ _ _ _ _ _ _ _ _).
    destruct (begin_connect_fields c raw) as (-> & _ & ->). split_and!; [done| |].
    - exact hasty_backoff.
    - unfold begin_connect. pose proof (set_upstream_state_transport (utc_now c) raw Connecting) as E.
      unfold transport in E. simplify_eq/=. by repeat match goal with E : s_reconnecting_since _ = _ |- _ => rewrite E end. }
  clearbody s0. revert s0 Hp Hb Hs. induction n as [|n IH]; intros s0 Hp Hb Hs; [by exists s0|].
  destruct (hasty_attempt url c e s0 Hp Hb Hs) as (s1 & s2 & Hr1 & _ & Hr2 & Hp2 & Hb2 & Hs2).
  cbn [replicate concat app failed_attempt run]. fold config in Hr1, Hr2. rewrite Hr1. cbn [mbind option_bind]. rewrite Hr2.
  cbn [mbind option_bind]. apply IH; [done|done|by rewrite Hs2].
Qed.
End hasty.

(** ** Witnesses *)

(** Listening on [SampleNet]: an address can be taken once. *)
#[local] Instance sample_listeners : Listeners SampleNet SocketAddr := {
  tcp_listen a n :=
    if bool_decide (a ∈ sn_serving n) then (n, Err "Address already in use"%string)
    else (mkSampleNet (sn_now n) (sn_local n) (sn_resolver n) (sn_listening n) (sn_dials n) (sn_handshakes n)
            (sn_bound n) (sn_next n) (sn_serving n ++ [a]), Ok a)
}.

#[local] Program Instance sample_listeners_laws : ListenersLaws SampleNet SocketAddr := { listening := sn_serving }.
Next Obligation. intros a w w' r. simpl. case_bool_decide; intros [= <- <-]; [by rewrite app_nil_r|done]. Qed.

#[local] Instance sample_quiet : QuietSockets SampleNet (string * list (string * string)) string nat unit unit SocketAddr.
Proof. split; [done..|]. intros s a w. simpl. unfold sn_bind. by case_bool_decide. Qed.

Definition sample_parse (s : string) : result SampleUrl string :=
  if decide (s = Config.central_system_url sample_config) then Ok mobie_url else Err "relative URL without a base"%string.

(** The default configuration on a host where something else holds the health port, and on
    one where something holds the charger port. *)
Definition sample_startup (serving : list SocketAddr) : SampleNet * Startup SocketAddr :=
  startup sample_parse (Ok sample_config) (mkSampleNet 0 [] (Ok []) [] [] [] ∅ 0 serving).

Lemma startup_fails_fast_witness :
  (let taken := (V4 0, health_port sample_config) in
   ∃ px, (sample_startup [taken]).2 = Serving px ∧ px_health px = None ∧ health_status (px_manager px) = Idle) ∧
  (let taken := (listen_address sample_config, listen_port sample_config) in
   ∃ message, (sample_startup [taken]).2 = Exit 1 message ∧
     sn_serving (sample_startup [taken]).1 = [taken; (V4 0, health_port sample_config)]).
Proof.
  split; intros taken; destruct (sample_startup [taken]) as [w r] eqn:E;
    pose proof (startup_fails_fast _ _ _ _ _ E) as Hr; vm_compute in Hr.
  - destruct Hr as [(px & Epx & _ & _ & _ & Hh & Hidle) _]. exists px. split; [exact Epx|]. split; [exact (eq_trans Hh eq_refl)|exact Hidle].
  - destruct Hr as [(message & Em) Hl]. exists message. split; [exact Em|]. exact Hl.
Defined.

#[local] Existing Instance reference_codec.
#[local] Existing Instance reference_codec_laws.
#[local] Existing Instance plain_chrono.
#[local] Existing Instance key_order.

(** The shutdown comes while the start-up waits for the broker. *)
Lemma abandoned_start_stays_connecting_witness :
  ∃ m, mqtt_thread (T := Channel) (R := Port) no_error (λ _, ""%string) sample_config store_disabled
         (set_listener_bound manager_new true) (example_disk []) noon (CutShort true) [] noon = Some (Abandoned m) ∧
       mqtt_state <$> m = Some Connecting.
Proof.
  destruct (mqtt_thread (T := Channel) (R := Port) no_error (λ _, ""%string) sample_config store_disabled
         (set_listener_bound manager_new true) (example_disk []) noon (CutShort true) [] noon) as [[e|m|m p]|] eqn:E;
    [vm_compute in E; discriminate E| |vm_compute in E; discriminate E|vm_compute in E; discriminate E].
  exists m. split; [reflexivity|].
  destruct (abandoned_start_stays_connecting _ _ _ _ _ _ _ _ _ _ _ E) as (begun & [= <-] & Hm). exact Hm.
Defined.

(** The broker answers at once. *)
Lemma main_wires_system_witness :
  ∃ m p, wired (T := Channel) m p ∧ mqtt_state m = Connected ∧ p_router p = None.
Proof.
  destruct (thread_publisher (T := Channel) (R := Port) (λ _, ""%string) sample_config store_disabled
              (set_listener_bound manager_new true) (example_disk [])) as [d' [p|e]] eqn:Ep; [|vm_compute in Ep; discriminate Ep].
  destruct (try_connect noon p MQTT_STARTUP_TIMEOUT [(noon, Some PollConnAck)]) as [[p' ok]|] eqn:Ec;
    [|vm_compute in Ep; injection Ep as _ <-; vm_compute in Ec; discriminate Ec].
  destruct (main_wires_system (λ _, ""%string) sample_config "ws://cs.example/ocpp" store_disabled (example_disk []) d' noon
              [(noon, Some PollConnAck)] p p' ok Ep Ec) as [(m & Hw & Hm) _]; [vm_compute; split; discriminate|].
  vm_compute in Ep. injection Ep as _ <-. vm_compute in Ec. injection Ec as <- <-.
  exists m. eexists. split; [exact Hw|]. split; [exact Hm|]. reflexivity.
Defined.
