(* ===== verification/TestsModels.v ===== *)
(** * Unit tests of src/error.rs, src/models.rs, src/state.rs and src/health.rs *)

From S2P Require Import Prelude Float64 Json Text JsonText TestKit Models StateManager.

Local Open Scope Z_scope.
Local Open Scope test_scope.

#[local] Existing Instance json_text.

(** ** src/error.rs *)

Definition test_error_display_format : bool :=
  ProxyError_fmt (ConnectionDownstream "Connection refused") == "[connection_downstream] Connection refused"%string.

Definition test_error_category : bool :=
  (category (ConnectionDownstream "") == "connection_downstream"%string) &&
  (category (ConnectionUpstream "") == "connection_upstream"%string) &&
  (category (ConnectionMqtt "") == "connection_mqtt"%string) &&
  (category (Forwarding "") == "forwarding"%string) &&
  (category (ConfigError "") == "config"%string) &&
  (category (Protocol "") == "protocol"%string) &&
  (category (Tls "") == "tls"%string).

Definition test_error_description : bool :=
  description (Protocol "Invalid frame format") == "Invalid frame format"%string.

Definition test_error_is_std_error : bool :=
  ProxyError_fmt (ConfigError "Missing parameter") == "[config] Missing parameter"%string.

(** ** src/models.rs *)

Definition test_parse_call_message : bool :=
  let text := js "[2, 'abc123', 'BootNotification', {'chargePointModel': 'Model'}]" in
  ok! frame := parse 0 text in
  (raw frame == text) && (unique_id frame == "abc123"%string) &&
  (message_type frame == Call "BootNotification").

Definition test_parse_call_result_message : bool :=
  let text := js "[3, 'abc123', {'status': 'Accepted'}]" in
  ok! frame := parse 0 text in
  (raw frame == text) && (unique_id frame == "abc123"%string) && (message_type frame == CallResult).

Definition test_parse_call_error_message : bool :=
  let text := js "[4, 'abc123', 'InternalError', 'Something went wrong', {}]" in
  ok! frame := parse 0 text in
  (raw frame == text) && (unique_id frame == "abc123"%string) && (message_type frame == CallError).

Definition test_parse_preserves_raw_exactly : bool :=
  let text := js "[  2 ,  'id-1' , 'Heartbeat' , { } ]" in
  ok! frame := parse 0 text in raw frame == text.

Definition test_parse_invalid_json : bool := is_err (parse 0 "not json").
Definition test_parse_not_array : bool := is_err (parse 0 (js "{'type': 2}")).
Definition test_parse_too_few_elements : bool := is_err (parse 0 (js "[2, 'id']")).
Definition test_parse_unknown_message_type : bool := is_err (parse 0 (js "[5, 'id', 'Action', {}]")).
Definition test_parse_call_too_few_elements : bool := is_err (parse 0 (js "[2, 'id', 'Action']")).

Definition test_exponential_backoff_sequence : bool :=
  let backoff := backoff_new (from_secs 2) (from_secs 60) (lit "2.0") in
  some! (ds, _) := delays 7 backoff in ds == (from_secs <$> [2; 4; 8; 16; 32; 60; 60]).

Definition test_exponential_backoff_reset : bool :=
  let backoff := backoff_with_defaults (from_secs 1) (from_secs 30) in
  some! (ds, backoff) := delays 3 backoff in
  some! (ds', _) := delays 2 (backoff_reset backoff) in
  (ds == (from_secs <$> [1; 2; 4])) && (ds' == (from_secs <$> [1; 2])).

Definition test_exponential_backoff_never_exceeds_max : bool :=
  let backoff := backoff_new (from_secs 1) (from_secs 10) (lit "3.0") in
  some! (ds, _) := delays 20 backoff in forallb (λ d, d <=? from_secs 10) ds.

Definition test_connection_state_serialization : bool :=
  (to_json (ConnectionState_serialize Connected) == Ok (js "'connected'")) &&
  (to_json (ConnectionState_serialize Reconnecting) == Ok (js "'reconnecting'")).

Definition test_connection_state_deserialization : bool :=
  ok! v := from_str (js "'disconnected'") in ConnectionState_deserialize v == Some Disconnected.

(** ** src/state.rs *)

Definition make_manager : ConnectionStateManager := manager_new.

Definition bound : ConnectionStateManager := set_listener_bound make_manager true.
Definition states : list ConnectionState := [Disconnected; Connecting; Connected; Reconnecting].

Definition test_listener_unbound_is_unhealthy : bool :=
  negb (listener_bound make_manager) && (health_status make_manager == Unhealthy).

Definition test_listening_with_no_charger_is_idle_not_unhealthy : bool :=
  (health_status bound == Idle) && (health_status bound != Unhealthy).

Definition test_idle_regardless_of_upstream_and_mqtt_when_no_charger : bool :=
  forallb (λ upstream, forallb (λ mqtt,
    health_status (transition 0 (transition 0 bound Upstream upstream) Mqtt mqtt) == Idle)
    [Disconnected; Connected]) states.

Definition test_charger_and_upstream_connected_with_mqtt_is_healthy : bool :=
  let mgr := transition 0 bound Upstream Connected in
  let mgr := transition 0 mgr Downstream Connected in
  let mgr := transition 0 mgr Mqtt Connected in
  health_status mgr == Healthy.

Definition test_mqtt_not_connected_is_degraded : bool :=
  forallb (λ mqtt,
    let mgr := transition 0 bound Upstream Connected in
    let mgr := transition 0 mgr Downstream Connected in
    let mgr := transition 0 mgr Mqtt mqtt in
    health_status mgr == Degraded) [Disconnected; Connecting; Reconnecting].

Definition test_upstream_reconnecting_with_charger_is_degraded : bool :=
  forallb (λ upstream,
    let mgr := transition 0 bound Downstream Connected in
    let mgr := transition 0 mgr Mqtt Connected in
    let mgr := transition 0 mgr Upstream upstream in
    health_status mgr == Degraded) [Connecting; Reconnecting].

Definition test_charger_connected_upstream_down_is_unhealthy : bool :=
  let mgr := transition 0 bound Downstream Connected in
  let mgr := transition 0 mgr Upstream Disconnected in
  let mgr := transition 0 mgr Mqtt Connected in
  health_status mgr == Unhealthy.

Definition test_no_unexpected_unhealthy_while_listening : bool :=
  forallb (λ up, forallb (λ down, forallb (λ mqtt,
    let mgr := transition 0 bound Upstream up in
    let mgr := transition 0 mgr Downstream down in
    let mgr := transition 0 mgr Mqtt mqtt in
    Bool.eqb (health_status mgr == Unhealthy) ((down == Connected) && (up == Disconnected)))
    states) states) states.

Definition test_transition_updates_state : bool :=
  let mgr := make_manager in
  let mgr1 := transition 0 mgr Upstream Connecting in
  let mgr2 := transition 0 mgr1 Upstream Connected in
  (upstream_state mgr == Disconnected) && (upstream_state mgr1 == Connecting) && (upstream_state mgr2 == Connected).

(** What a subscriber receives: the events sent from its [subscribe] on. *)
Definition received (subscribed now : ConnectionStateManager) : list StateChange :=
  drop (length (state_tx subscribed)) (state_tx now).

Definition test_transition_no_op_when_same_state : bool :=
  let mgr := make_manager in
  is_none (head (received mgr (transition 0 mgr Upstream Disconnected))).

Definition test_transition_broadcasts_event : bool :=
  let mgr := make_manager in
  some! event := head (received mgr (transition 0 mgr Downstream Connected)) in
  (connection event == Downstream) && (previous event == Disconnected) && (current event == Connected).

Definition test_multiple_subscribers_receive_events : bool :=
  let mgr := make_manager in
  let mgr' := transition 0 mgr Mqtt Connecting in
  some! event1 := head (received mgr mgr') in
  some! event2 := head (received mgr mgr') in
  (connection event1 == Mqtt) && (connection event2 == Mqtt).

Definition test_metrics_default_zero : bool :=
  let m := metrics make_manager in
  (charger_to_central_forwarded m == 0) && (charger_to_central_dropped m == 0) &&
  (central_to_charger_forwarded m == 0) && (central_to_charger_dropped m == 0).

Definition test_metrics_can_be_incremented : bool :=
  let mgr := make_manager in
  let x := metrics mgr in
  let mgr := set_metrics mgr (mkMetrics (charger_to_central_forwarded x + 5) (charger_to_central_dropped x)
                                (central_to_charger_forwarded x) (central_to_charger_dropped x + 2)) in
  (charger_to_central_forwarded (metrics mgr) == 5) && (central_to_charger_dropped (metrics mgr) == 2).

Definition test_state_accessors_reflect_transitions : bool :=
  let mgr := transition 0 make_manager Upstream Connected in
  let mgr := transition 0 mgr Downstream Reconnecting in
  let mgr := transition 0 mgr Mqtt Connecting in
  (upstream_state mgr == Connected) && (downstream_state mgr == Reconnecting) && (mqtt_state mgr == Connecting).

(** ** src/health.rs *)

(** The status and the body of a GET /health. *)
Definition get_health (mgr : ConnectionStateManager) : option (StatusCode * Value) :=
  let '(status, response) := health_handler mgr 0 in
  body ← result_ok (to_json (HealthResponse_to_value response));
  health ← result_ok (from_str body);
  Some (status, health).

Definition is_text (v : Value) (text : string) : bool := json_eq v (VString text).

Definition test_health_endpoint_returns_unhealthy_when_all_disconnected : bool :=
  some! (status, health) := get_health manager_new in
  (status == SERVICE_UNAVAILABLE) && is_text (at_key "status" health) "unhealthy" &&
  is_text (at_key "upstream" health) "disconnected" && is_text (at_key "downstream" health) "disconnected" &&
  is_text (at_key "mqtt" health) "disconnected".

Definition test_health_endpoint_returns_healthy_when_all_connected : bool :=
  let mgr := transition 0 bound Upstream Connected in
  let mgr := transition 0 mgr Downstream Connected in
  let mgr := transition 0 mgr Mqtt Connected in
  some! (status, health) := get_health mgr in
  (status == OK) && is_text (at_key "status" health) "healthy" &&
  is_text (at_key "upstream" health) "connected" && is_text (at_key "downstream" health) "connected" &&
  is_text (at_key "mqtt" health) "connected".

Definition test_health_endpoint_returns_degraded_when_mqtt_lost : bool :=
  let mgr := transition 0 bound Upstream Connected in
  let mgr := transition 0 mgr Downstream Connected in
  some! (status, health) := get_health mgr in
  (status == OK) && is_text (at_key "status" health) "degraded".

Definition test_health_endpoint_returns_unhealthy_when_downstream_lost : bool :=
  let mgr := transition 0 manager_new Upstream Connected in
  let mgr := transition 0 mgr Mqtt Connected in
  some! (status, health) := get_health mgr in
  (status == SERVICE_UNAVAILABLE) && is_text (at_key "status" health) "unhealthy".

Definition test_health_endpoint_includes_uptime : bool :=
  some! (_, health) := get_health manager_new in is_some (as_u64 (at_key "uptime_seconds" health)).

Definition test_health_endpoint_includes_message_counters : bool :=
  let mgr := set_metrics manager_new (mkMetrics 42 3 38 1) in
  some! (_, health) := get_health mgr in
  let messages := at_key "messages" health in
  json_eq (at_key "charger_to_central_forwarded" messages) (json_u 42) &&
  json_eq (at_key "charger_to_central_dropped" messages) (json_u 3) &&
  json_eq (at_key "central_to_charger_forwarded" messages) (json_u 38) &&
  json_eq (at_key "central_to_charger_dropped" messages) (json_u 1).

Definition test_health_response_serialization_format : bool :=
  let response := mkHealthResponse Healthy Connected Connected Connected true 120 (mkMetrics 10 0 8 0) in
  let v := HealthResponse_to_value response in
  is_text (at_key "status" v) "healthy" && is_text (at_key "upstream" v) "connected" &&
  is_text (at_key "downstream" v) "connected" && is_text (at_key "mqtt" v) "connected" &&
  json_eq (at_key "uptime_seconds" v) (json_u 120) &&
  json_eq (at_key "charger_to_central_forwarded" (at_key "messages" v)) (json_u 10) &&
  json_eq (at_key "charger_to_central_dropped" (at_key "messages" v)) (json_u 0) &&
  json_eq (at_key "central_to_charger_forwarded" (at_key "messages" v)) (json_u 8) &&
  json_eq (at_key "central_to_charger_dropped" (at_key "messages" v)) (json_u 0).

Definition test_health_endpoint_503_when_upstream_and_mqtt_lost : bool :=
  let mgr := transition 0 manager_new Downstream Connected in
  some! (status, health) := get_health mgr in
  (status == SERVICE_UNAVAILABLE) && is_text (at_key "status" health) "unhealthy".

Definition models_tests : list bool :=
  [test_error_display_format; test_error_category; test_error_description; test_error_is_std_error;
   test_parse_call_message; test_parse_call_result_message; test_parse_call_error_message;
   test_parse_preserves_raw_exactly; test_parse_invalid_json; test_parse_not_array; test_parse_too_few_elements;
   test_parse_unknown_message_type; test_parse_call_too_few_elements; test_exponential_backoff_sequence;
   test_exponential_backoff_reset; test_exponential_backoff_never_exceeds_max;
   test_connection_state_serialization; test_connection_state_deserialization;
   test_listener_unbound_is_unhealthy; test_listening_with_no_charger_is_idle_not_unhealthy;
   test_idle_regardless_of_upstream_and_mqtt_when_no_charger;
   test_charger_and_upstream_connected_with_mqtt_is_healthy; test_mqtt_not_connected_is_degraded;
   test_upstream_reconnecting_with_charger_is_degraded; test_charger_connected_upstream_down_is_unhealthy;
   test_no_unexpected_unhealthy_while_listening; test_transition_updates_state;
   test_transition_no_op_when_same_state; test_transition_broadcasts_event;
   test_multiple_subscribers_receive_events; test_metrics_default_zero; test_metrics_can_be_incremented;
   test_state_accessors_reflect_transitions; test_health_endpoint_returns_unhealthy_when_all_disconnected;
   test_health_endpoint_returns_healthy_when_all_connected; test_health_endpoint_returns_degraded_when_mqtt_lost;
   test_health_endpoint_returns_unhealthy_when_downstream_lost; test_health_endpoint_includes_uptime;
   test_health_endpoint_includes_message_counters; test_health_response_serialization_format;
   test_health_endpoint_503_when_upstream_and_mqtt_lost].

Lemma models_tests_pass : all_pass models_tests = true.
Proof. vm_compute. reflexivity. Qed.
