(* ===== verification/TestsCommand.v ===== *)
(** * Unit tests of src/command.rs *)

From Stdlib Require Import Ascii.
From S2P Require Import Prelude Float64 Json Text JsonText TestKit Models Config Command CallQueue.

Local Open Scope Z_scope.
Local Open Scope test_scope.

#[local] Existing Instance json_text.
#[local] Existing Instance calendar.

(** The message of [serde_json::from_value] on a value that is no command. *)
Definition serde_error (v : Value) : string := "no variant matches".

Definition config : ChargingConfig :=
  let d := ChargingConfig_default in
  mkChargingConfig true (max_limit_a d) (min_limit_a d) (connector_id d) (profile_id d) (stack_level d) (purpose d)
    (profile_kind d) (rate_unit d) (number_phases d) (nominal_voltage_v d) (command_timeout_seconds d)
    (reapply_on_connect d) (allowed_configuration_keys d).

Definition fixed_now : Z := utc_time 2026 9 22 10 0 0.

Definition request (command : ProxyCommand) : CommandRequest := request_new fixed_now "req-1" command SourceMqtt.

Definition parse_payload (kind : CommandTopic) (payload : string) : result CommandRequest string :=
  parse_command_payload serde_error fixed_now kind payload.

(** ** Topics *)

Definition test_topics_round_trip_through_the_parser : bool :=
  (parse_command_topic (command_topic "CP-1") == Some ("CP-1"%string, TopicCommand)) &&
  (parse_command_topic (current_limit_topic "CP-1") == Some ("CP-1"%string, TopicCurrentLimit)).

Definition test_result_and_other_topics_are_not_commands : bool :=
  is_none (parse_command_topic (command_result_topic "CP-1")) &&
  is_none (parse_command_topic "ocpp/CP-1/charger/MeterValues") &&
  is_none (parse_command_topic "ocpp/CP-1/state") &&
  is_none (parse_command_topic "ocpp//command") &&
  is_none (parse_command_topic "other/CP-1/command") &&
  is_none (parse_command_topic "ocpp/CP-1/command/current_limit/x").

Definition test_subscriptions_match_the_two_command_topics_only : bool :=
  let matches (filter topic : string) :=
    let f := split "/"%char filter in
    let t := split "/"%char topic in
    (length f =? length t)%nat && forallb (λ '(a, b), (a == "+"%string) || (a == b)) (combine f t) in
  forallb (λ filter, negb (matches filter (command_result_topic "CP-1"))) COMMAND_SUBSCRIPTIONS &&
  matches (nth 0 COMMAND_SUBSCRIPTIONS ""%string) (command_topic "CP-1") &&
  matches (nth 1 COMMAND_SUBSCRIPTIONS ""%string) (current_limit_topic "CP-1").

(** ** Payloads *)

Definition test_bare_number_on_the_limit_topic : bool :=
  ok! req := parse_payload TopicCurrentLimit " 16.0 " in
  (req_command req == SetCurrentLimit (lit "16.0")) && starts_with "limit-" (req_id req) && (req_source req == SourceMqtt).

Definition test_clear_words_on_the_limit_topic : bool :=
  forallb (λ word, ok! req := parse_payload TopicCurrentLimit word in req_command req == ClearCurrentLimit)
    ["clear"; "OFF"; "none"; "null"]%string.

Definition test_garbage_on_the_limit_topic_is_invalid : bool :=
  is_err (parse_payload TopicCurrentLimit "sixteen") && is_err (parse_payload TopicCurrentLimit "") &&
  is_err (parse_payload TopicCurrentLimit (of_chars [chr 255; chr 254])).

Definition test_json_object_on_the_limit_topic_is_accepted_too : bool :=
  ok! req := parse_payload TopicCurrentLimit (js "{'command':'set_current_limit','limit_a':10,'id':'x'}") in
  (req_command req == SetCurrentLimit (lit "10.0")) && (req_id req == "x"%string).

Definition test_json_commands_parse_with_ids_and_defaults : bool :=
  (ok! req := parse_payload TopicCommand (js "{'id': 42, 'command': 'get_configuration'}") in
   (req_id req == "42"%string) && (req_command req == GetConfiguration [])) &&
  (ok! req := parse_payload TopicCommand (js "{'command': 'get_composite_schedule'}") in
   (req_command req == GetCompositeSchedule None 3600) && starts_with "cmd-" (req_id req)) &&
  (ok! req := parse_payload TopicCommand
      (js "{'command': 'trigger_message', 'requested_message': 'MeterValues', 'connector_id': 1}") in
   req_command req == TriggerMessage "MeterValues" (Some 1)).

Definition test_limit_given_as_string_is_coerced : bool :=
  ok! req := parse_payload TopicCommand (js "{'command':'set_current_limit','limit_a':'12.5'}") in
  req_command req == SetCurrentLimit (lit "12.5").

Definition test_unknown_or_malformed_json_commands_are_invalid : bool :=
  (err! e := parse_payload TopicCommand (js "{'command':'reboot'}") in contains "unrecognised command" e) &&
  is_err (parse_payload TopicCommand "[1,2,3]") &&
  is_err (parse_payload TopicCommand "not json") &&
  is_err (parse_payload TopicCommand (js "{'command':'set_current_limit'}")) &&
  is_err (parse_payload TopicCommand (js "{'command':'set_current_limit','limit_a':16,'id':[1]}")).

(** ** Limit policy *)

Definition test_limit_within_range_passes_rounded_to_a_tenth : bool :=
  ok! r := resolve_limit config (lit "16.04") in
  (applied_a r == lit "16.0") && is_none (resolved_detail r).

Definition test_zero_pauses : bool :=
  ok! r := resolve_limit config (lit "0.0") in
  (applied_a r == lit "0.0") && (some! d := resolved_detail r in contains "pauses" d).

Definition test_below_minimum_pauses_rather_than_asking_for_an_impossible_current : bool :=
  ok! r := resolve_limit config (lit "4.3") in
  (applied_a r == lit "0.0") && (requested_a r == lit "4.3") &&
  (some! d := resolved_detail r in contains "below the 6 A minimum" d).

Definition with_max_limit (c : ChargingConfig) (a : f64) : ChargingConfig :=
  mkChargingConfig (enabled c) a (min_limit_a c) (connector_id c) (profile_id c) (stack_level c) (purpose c)
    (profile_kind c) (rate_unit c) (number_phases c) (nominal_voltage_v c) (command_timeout_seconds c)
    (reapply_on_connect c) (allowed_configuration_keys c).

Definition test_above_ceiling_clamps : bool :=
  let cfg := with_max_limit config (lit "20.0") in
  ok! r := resolve_limit cfg (lit "32.0") in
  (applied_a r == lit "20.0") && (some! d := resolved_detail r in contains "clamped" d).

Definition test_negative_or_nan_is_an_error : bool :=
  is_err (resolve_limit config (lit "-1.0")) && is_err (resolve_limit config S754_nan) &&
  is_err (resolve_limit config (S754_infinity false)).

(** ** Frames *)

Definition test_set_charging_profile_frame_shape : bool :=
  let req := request (SetCurrentLimit (lit "16.0")) in
  ok! call := prepare_call config req "proxy-1-1" fixed_now in
  ok! frame := from_str (pc_raw call) in
  (pc_action call == "SetChargingProfile"%string) && (pc_applied_limit_a call == Some (lit "16.0")) &&
  json_eq (at_index 0 frame) (json "2") && json_eq (at_index 1 frame) (json "'proxy-1-1'") &&
  json_eq (at_index 2 frame) (json "'SetChargingProfile'") &&
  json_eq (at_index 3 frame) (json "{
    'connectorId': 0,
    'csChargingProfiles': {
      'chargingProfileId': 1001,
      'stackLevel': 0,
      'chargingProfilePurpose': 'TxDefaultProfile',
      'chargingProfileKind': 'Absolute',
      'chargingSchedule': {
        'chargingRateUnit': 'A',
        'startSchedule': '2026-09-22T10:00:00Z',
        'chargingSchedulePeriod': [ { 'startPeriod': 0, 'limit': 16.0, 'numberPhases': 1 } ]
      } } }") &&
  is_ok (parse fixed_now (pc_raw call)).

Definition relative_profile : ChargingConfig :=
  let c := config in
  mkChargingConfig (enabled c) (max_limit_a c) (min_limit_a c) (connector_id c) (profile_id c) (stack_level c)
    ChargePointMaxProfile Relative (rate_unit c) None (nominal_voltage_v c) (command_timeout_seconds c)
    (reapply_on_connect c) (allowed_configuration_keys c).

Definition test_relative_profile_has_no_start_schedule_and_null_phases_omits_the_field : bool :=
  let payload := set_charging_profile_payload relative_profile (lit "10.0") fixed_now in
  let profile := at_key "csChargingProfiles" payload in
  let schedule := at_key "chargingSchedule" profile in
  json_eq (at_key "chargingProfileKind" profile) (json "'Relative'") &&
  json_eq (at_key "chargingProfilePurpose" profile) (json "'ChargePointMaxProfile'") &&
  is_none (get_key "startSchedule" schedule) &&
  is_none (get_key "numberPhases" (at_index 0 (at_key "chargingSchedulePeriod" schedule))).

Definition watts : ChargingConfig :=
  let c := config in
  mkChargingConfig (enabled c) (max_limit_a c) (min_limit_a c) (connector_id c) (profile_id c) (stack_level c)
    (purpose c) (profile_kind c) Watts (Some 1) (lit "230.0") (command_timeout_seconds c)
    (reapply_on_connect c) (allowed_configuration_keys c).

Definition test_watt_unit_converts_amps_with_nominal_voltage_and_phases : bool :=
  let payload := set_charging_profile_payload watts (lit "16.0") fixed_now in
  let schedule := at_key "chargingSchedule" (at_key "csChargingProfiles" payload) in
  json_eq (at_key "chargingRateUnit" schedule) (json "'W'") &&
  json_eq (at_key "limit" (at_index 0 (at_key "chargingSchedulePeriod" schedule))) (json "3680.0").

(** The payload of the frame a command is prepared as. *)
Definition payload_of (command : ProxyCommand) : result Value string :=
  let? call := prepare_call config (request command) "u" fixed_now in
  let? frame := from_str (pc_raw call) in
  Ok (at_index 3 frame).

Definition test_clear_names_the_proxy_profile : bool :=
  ok! call := prepare_call config (request ClearCurrentLimit) "proxy-1-2" fixed_now in
  ok! frame := from_str (pc_raw call) in
  (pc_action call == "ClearChargingProfile"%string) && is_none (pc_applied_limit_a call) &&
  json_eq (at_index 3 frame)
    (json "{ 'id': 1001, 'connectorId': 0, 'chargingProfilePurpose': 'TxDefaultProfile', 'stackLevel': 0 }").

Definition test_get_configuration_with_and_without_keys : bool :=
  (ok! payload := payload_of (GetConfiguration []) in json_eq payload (json "{}")) &&
  (ok! payload := payload_of (GetConfiguration ["SupportedFeatureProfiles"%string]) in
   json_eq payload (json "{ 'key': ['SupportedFeatureProfiles'] }")).

Definition test_change_configuration_respects_the_allowlist : bool :=
  (ok! payload := payload_of (ChangeConfiguration "MeterValueSampleInterval" "10") in
   json_eq payload (json "{ 'key': 'MeterValueSampleInterval', 'value': '10' }")) &&
  (err! e := prepare_call config (request (ChangeConfiguration "AuthorizeRemoteTxRequests" "false")) "u" fixed_now in
   contains "allowed_configuration_keys" e).

Definition test_trigger_message_validates_the_message_name : bool :=
  (ok! payload := payload_of (TriggerMessage "MeterValues" (Some 1)) in
   json_eq payload (json "{ 'requestedMessage': 'MeterValues', 'connectorId': 1 }")) &&
  is_err (prepare_call config (request (TriggerMessage "Reset" None)) "u" fixed_now).

Definition test_composite_schedule_defaults_to_the_configured_connector_and_unit : bool :=
  ok! payload := payload_of (GetCompositeSchedule None 600) in
  json_eq payload (json "{ 'connectorId': 0, 'duration': 600, 'chargingRateUnit': 'A' }").

Definition test_invalid_limit_fails_at_preparation : bool :=
  is_err (prepare_call config (request (SetCurrentLimit (lit "-5.0"))) "u" fixed_now).

(** ** Answers *)

(** [interpret_response] of a frame given as text. *)
Definition interpret (act text : string) : result (CommandStatus * option Value * option string) ProxyError :=
  let? frame := parse fixed_now (js text) in Ok (interpret_response act frame).

Definition test_accepted_and_rejected_call_results : bool :=
  (ok! (s, payload, detail) := interpret "SetChargingProfile" "[3,'p',{'status':'Accepted'}]" in
   (s == Accepted) && (some! p := payload in json_eq p (json "{'status': 'Accepted'}")) && is_none detail) &&
  (ok! (s, _, detail) := interpret "SetChargingProfile" "[3,'p',{'status':'NotSupported'}]" in
   (s == Rejected) && (detail == Some "charger answered NotSupported"%string)).

Definition test_answers_that_leave_the_desired_state_count_as_accepted : bool :=
  (ok! (s, _, detail) := interpret "ClearChargingProfile" "[3,'p',{'status':'Unknown'}]" in
   (s == Accepted) && (some! d := detail in contains "nothing to clear" d)) &&
  (ok! (s, _, detail) := interpret "ChangeConfiguration" "[3,'p',{'status':'RebootRequired'}]" in
   (s == Accepted) && (some! d := detail in contains "reboot" d)) &&
  (ok! (s, _, _) := interpret "SetChargingProfile" "[3,'p',{'status':'Unknown'}]" in s == Rejected).

Definition test_get_configuration_has_no_status_and_is_accepted : bool :=
  ok! (s, payload, _) := interpret "GetConfiguration"
    "[3,'p',{'configurationKey':[{'key':'HeartbeatInterval','readonly':false,'value':'300'}]}]" in
  (s == Accepted) &&
  (some! p := payload in json_eq (at_key "value" (at_index 0 (at_key "configurationKey" p))) (json "'300'")).

Definition test_call_error_is_reported_with_its_code : bool :=
  ok! (s, payload, detail) := interpret "SetChargingProfile" "[4,'p','NotSupported','Smart charging is off',{}]" in
  (s == CsError) && (some! p := payload in json_eq (at_key "errorCode" p) (json "'NotSupported'")) &&
  (detail == Some "charger returned CallError NotSupported: Smart charging is off"%string).

(** ** Results *)

Definition test_result_serialises_the_documented_shape : bool :=
  let req := request_new fixed_now "abc" (SetCurrentLimit (lit "40.0")) SourceMqtt in
  ok! prepared := prepare_call config req "proxy-1-1" fixed_now in
  let in_flight := mkInFlight req prepared 0 in
  let result := for_in_flight fixed_now in_flight Accepted (Some (json "{'status': 'Accepted'}")) None in
  let v := CommandResult_to_value result in
  json_eq (at_key "id" v) (json "'abc'") &&
  json_eq (at_key "command" (at_key "command" v)) (json "'set_current_limit'") &&
  json_eq (at_key "limit_a" (at_key "command" v)) (json "40.0") &&
  json_eq (at_key "source" v) (json "'mqtt'") &&
  json_eq (at_key "status" v) (json "'accepted'") &&
  json_eq (at_key "action" v) (json "'SetChargingProfile'") &&
  json_eq (at_key "requested_limit_a" v) (json "40.0") &&
  json_eq (at_key "applied_limit_a" v) (json "32.0") &&
  json_eq (at_index 2 (at_key "ocpp_request" v)) (json "'SetChargingProfile'") &&
  json_eq (at_key "status" (at_key "charger_response" v)) (json "'Accepted'") &&
  (some! d := as_str (at_key "detail" v) in contains "clamped" d) &&
  is_some (as_str (at_key "timestamp" v)) &&
  is_limit_result result.

Definition test_result_for_unparsed_payload : bool :=
  let v := CommandResult_to_value (invalid_payload fixed_now "bad") in
  json_eq (at_key "status" v) (json "'invalid'") && json_eq (at_key "command" v) VNull &&
  is_none (get_key "action" v) && json_eq (at_key "detail" v) (json "'bad'").

Definition test_result_for_request_never_sent_has_no_ocpp_request : bool :=
  let r := for_request fixed_now (request (GetConfiguration [])) CsNotConnected None in
  (res_status r == CsNotConnected) && (res_action r == Some "GetConfiguration"%string) &&
  is_none (res_ocpp_request r) && negb (is_limit_result r).

(** ** Queue *)

(** Requests named by their ids. *)
Definition named (id : string) (command : ProxyCommand) : CommandRequest := request_new fixed_now id command SourceMqtt.

Definition test_queue_sends_one_at_a_time_and_matches_responses_by_id : bool :=
  let q := queue_new (from_secs 30) 8 in
  let empty_at_first := is_empty q in
  let '(q, d1) := push q (request (GetConfiguration [])) in
  let '(q, d2) := push q (request ClearCurrentLimit) in
  let two := (queued_len q =? 2)%nat in
  let '(first, q) := pop_next q in
  some! first := first in
  let '(id, q) := next_unique_id fixed_now q in
  ok! prepared := prepare_call config first id fixed_now in
  let q := set_in_flight 0 q first prepared in
  let '(none_yet, _) := pop_next q in
  let '(not_taken, q') := take_response q "msg-from-mobie" in
  let '(taken, q'') := take_response q id in
  some! done := taken in
  let '(second, _) := pop_next q'' in
  empty_at_first && (length d1 =? 0)%nat && (length d2 =? 0)%nat && two && starts_with UNIQUE_ID_PREFIX id &&
  has_in_flight q && is_none none_yet && negb (is_ours q "msg-from-mobie") && is_none not_taken && is_ours q' id &&
  (pc_action (fl_prepared done) == "GetConfiguration"%string) && negb (has_in_flight q'') && is_some second.

Definition test_unique_ids_are_distinct : bool :=
  let q := queue_new (from_secs 30) 8 in
  let '(a, q) := next_unique_id fixed_now q in
  let '(b, _) := next_unique_id fixed_now q in
  (a != b) && (String.length a <=? 36)%nat && (String.length b <=? 36)%nat.

Definition test_newer_limit_supersedes_queued_limits_but_not_other_commands : bool :=
  let q := queue_new (from_secs 30) 8 in
  let '(q, _) := push q (named "a" (SetCurrentLimit (lit "10.0"))) in
  let '(q, _) := push q (named "b" (GetConfiguration [])) in
  let '(q, by_clear) := push q (named "c" ClearCurrentLimit) in
  let '(q, by_limit) := push q (named "d" (SetCurrentLimit (lit "20.0"))) in
  some! next := (pop_next q).1 in
  (req_id <$> by_clear == ["a"%string]) && (req_id <$> by_limit == ["c"%string]) &&
  (queued_len q =? 2)%nat && (req_id next == "b"%string).

Definition test_full_queue_drops_the_oldest : bool :=
  let q := queue_new (from_secs 30) 2 in
  let '(q, d1) := push q (named "a" (GetConfiguration [])) in
  let '(q, d2) := push q (named "b" (GetConfiguration [])) in
  let '(q, displaced) := push q (named "c" (GetConfiguration [])) in
  (length d1 =? 0)%nat && (length d2 =? 0)%nat && (req_id <$> displaced == ["a"%string]) && (queued_len q =? 2)%nat.

Definition test_expiry_covers_queued_and_in_flight : bool :=
  let q := queue_new (from_millis 0) 8 in
  let now := {| utc_now := fixed_now; instant_now := 0 |} in
  let stale := request_new (fixed_now - from_secs 60) "req-1" (GetConfiguration []) SourceMqtt in
  let fresh := request_new (fixed_now + from_secs 60) "fresh" (GetConfiguration []) SourceMqtt in
  let '(q, _) := push q stale in
  let '(q, _) := push q fresh in
  let '(q, expired, none_in_flight) := expire now q in
  let one := (queued_len q =? 1)%nat in
  let '(next, q) := pop_next q in
  some! next := next in
  ok! prepared := prepare_call config next "u" fixed_now in
  let q := set_in_flight 0 q next prepared in
  let '(q, _, in_flight) := expire now q in
  (req_id <$> expired == ["req-1"%string]) && is_none none_in_flight && one && is_some in_flight && is_empty q.

Definition test_drain_returns_everything : bool :=
  let q := queue_new (from_secs 30) 8 in
  let '(q, _) := push q (request (GetConfiguration [])) in
  let '(q, _) := push q (request ClearCurrentLimit) in
  let '(first, q) := pop_next q in
  some! first := first in
  ok! prepared := prepare_call config first "u" fixed_now in
  let q := set_in_flight 0 q first prepared in
  let '(q, queued, in_flight) := drain_queue q in
  (length queued =? 1)%nat && is_some in_flight && is_empty q.

(** ** Router *)

(** The two ends of a bounded channel: [None] when the receiver is dropped. *)
Record Inbox := mkInbox { in_capacity : option nat; in_waiting : list CommandRequest }.

#[local] Instance inbox_sender : MpscSender Inbox CommandRequest := {
  try_send tx r :=
    match in_capacity tx with
    | None => (tx, Err Closed)
    | Some n =>
        if (length (in_waiting tx) <? n)%nat then (mkInbox (Some n) (in_waiting tx ++ [r]), Ok ()) else (tx, Err Full)
    end
}.

Definition inbox_new (capacity : nat) : Inbox := mkInbox (Some capacity) [].

(** [drop] of the receiver whose sender the router holds. *)
Definition drop_receiver (router : CommandRouter Inbox) (id : string) : CommandRouter Inbox :=
  alter (λ reg, mkRegistration (reg_generation reg) (mkInbox None [])) id router.

Definition test_router_dispatches_to_the_registered_session : bool :=
  let router : CommandRouter Inbox := ∅ in
  let '(router, r0) := dispatch router "CP-1" (request ClearCurrentLimit) in
  let router := register router "CP-1" 1 (inbox_new 2) in
  let '(router', r1) := dispatch router "CP-1" (request ClearCurrentLimit) in
  some! reg := router' !! "CP-1"%string in
  some! received := head (in_waiting (reg_tx reg)) in
  (r0 == Err NotConnected) && is_connected router "CP-1" && is_ok r1 && (req_command received == ClearCurrentLimit).

Definition test_router_reports_a_full_inbox_and_a_closed_session : bool :=
  let router : CommandRouter Inbox := register ∅ "CP-1" 1 (inbox_new 1) in
  let '(router, r1) := dispatch router "CP-1" (request ClearCurrentLimit) in
  let '(router, r2) := dispatch router "CP-1" (request ClearCurrentLimit) in
  let '(_, r3) := dispatch (drop_receiver router "CP-1") "CP-1" (request ClearCurrentLimit) in
  is_ok r1 && (r2 == Err QueueFull) && (r3 == Err NotConnected).

Definition test_router_deregistration_is_generation_aware : bool :=
  let router : CommandRouter Inbox := register ∅ "CP-1" 1 (inbox_new 1) in
  let router := register router "CP-1" 2 (inbox_new 1) in
  let '(router1, displaced) := deregister router "CP-1" 1 in
  let '(router2, current) := deregister router1 "CP-1" 2 in
  negb displaced && is_connected router1 "CP-1" && current && negb (is_connected router2 "CP-1").

Definition command_tests : list bool :=
  [test_topics_round_trip_through_the_parser; test_result_and_other_topics_are_not_commands;
   test_subscriptions_match_the_two_command_topics_only; test_bare_number_on_the_limit_topic;
   test_clear_words_on_the_limit_topic; test_garbage_on_the_limit_topic_is_invalid;
   test_json_object_on_the_limit_topic_is_accepted_too; test_json_commands_parse_with_ids_and_defaults;
   test_limit_given_as_string_is_coerced; test_unknown_or_malformed_json_commands_are_invalid;
   test_limit_within_range_passes_rounded_to_a_tenth; test_zero_pauses;
   test_below_minimum_pauses_rather_than_asking_for_an_impossible_current; test_above_ceiling_clamps;
   test_negative_or_nan_is_an_error; test_set_charging_profile_frame_shape;
   test_relative_profile_has_no_start_schedule_and_null_phases_omits_the_field;
   test_watt_unit_converts_amps_with_nominal_voltage_and_phases; test_clear_names_the_proxy_profile;
   test_get_configuration_with_and_without_keys; test_change_configuration_respects_the_allowlist;
   test_trigger_message_validates_the_message_name;
   test_composite_schedule_defaults_to_the_configured_connector_and_unit; test_invalid_limit_fails_at_preparation;
   test_accepted_and_rejected_call_results; test_answers_that_leave_the_desired_state_count_as_accepted;
   test_get_configuration_has_no_status_and_is_accepted; test_call_error_is_reported_with_its_code;
   test_result_serialises_the_documented_shape; test_result_for_unparsed_payload;
   test_result_for_request_never_sent_has_no_ocpp_request;
   test_queue_sends_one_at_a_time_and_matches_responses_by_id; test_unique_ids_are_distinct;
   test_newer_limit_supersedes_queued_limits_but_not_other_commands; test_full_queue_drops_the_oldest;
   test_expiry_covers_queued_and_in_flight; test_drain_returns_everything;
   test_router_dispatches_to_the_registered_session; test_router_reports_a_full_inbox_and_a_closed_session;
   test_router_deregistration_is_generation_aware].

Lemma command_tests_pass : all_pass command_tests = true.
Proof. vm_compute. reflexivity. Qed.
