(* ===== verification/TestsConfig.v ===== *)
(** * Unit tests of src/config.rs

    The temporary files of the tests are the paths [temp_files]; a YAML file is the tree
    of settings that its text stands for. *)

From S2P Require Import Prelude Float64 Json Text JsonText TestKit Models Config Command ConfigLoad.

Local Open Scope Z_scope.
Local Open Scope test_scope.

#[local] Existing Instance tree_settings.

Definition temp_files : list string := ["/tmp/ca"; "/tmp/cert"; "/tmp/key"]%string.
Definition on_disk (path : string) : bool := bool_decide (path ∈ temp_files).

(** The configuration the tests start from, and assignments to its fields. *)
Definition valid_config (ca cert key : string) : ProxyConfig :=
  mkProxyConfig "wss://mobi-e.example.com/ocpp" 9000 default_listen_address None None 8080
    (mkMqttConfig "mqtt.example.com" 8883 "user" "pass" (Some ca) (Some cert) (Some key))
    Info BufferConfig_default default_state_file ChargingConfig_default.

Definition temp_config : ProxyConfig := valid_config "/tmp/ca" "/tmp/cert" "/tmp/key".

Definition set_listen_port (p : Z) (c : ProxyConfig) : ProxyConfig :=
  let '(mkProxyConfig u _ a b i h m g f s ch) := c in mkProxyConfig u p a b i h m g f s ch.
Definition set_health_port (p : Z) (c : ProxyConfig) : ProxyConfig :=
  let '(mkProxyConfig u l a b i _ m g f s ch) := c in mkProxyConfig u l a b i p m g f s ch.
Definition set_url (u : string) (c : ProxyConfig) : ProxyConfig :=
  let '(mkProxyConfig _ l a b i h m g f s ch) := c in mkProxyConfig u l a b i h m g f s ch.
Definition set_mqtt_port (p : Z) (c : ProxyConfig) : ProxyConfig :=
  let '(mkProxyConfig u l a b i h (mkMqttConfig mh _ un pw ca cc ck) g f s ch) := c in
  mkProxyConfig u l a b i h (mkMqttConfig mh p un pw ca cc ck) g f s ch.
Definition set_charging (ch : ChargingConfig) (c : ProxyConfig) : ProxyConfig :=
  let '(mkProxyConfig u l a b i h m g f s _) := c in mkProxyConfig u l a b i h m g f s ch.

Definition errors_of (c : ProxyConfig) : list string := validate on_disk on_disk c.
Definition some_error (needle : string) (errors : list string) : bool := existsb (contains needle) errors.

(** ** Validation *)

Definition test_valid_config_passes_validation : bool := errors_of temp_config == [].

Definition test_listen_port_zero_rejected : bool :=
  some_error "listen_port" (errors_of (set_listen_port 0 temp_config)).

Definition test_health_port_zero_rejected : bool :=
  some_error "health_port" (errors_of (set_health_port 0 temp_config)).

Definition test_invalid_url_scheme_http : bool :=
  some_error "central_system_url" (errors_of (set_url "http://example.com/ocpp" temp_config)).

Definition test_invalid_url_scheme_empty : bool :=
  some_error "central_system_url" (errors_of (set_url "" temp_config)).

Definition test_ws_scheme_accepted : bool :=
  negb (some_error "central_system_url" (errors_of (set_url "ws://example.com/ocpp" temp_config))).

Definition test_wss_scheme_accepted : bool := negb (some_error "central_system_url" (errors_of temp_config)).

Definition test_mqtt_port_zero_rejected : bool :=
  some_error "mqtt.port" (errors_of (set_mqtt_port 0 temp_config)).

Definition test_nonexistent_ca_cert_path_rejected : bool :=
  some_error "ca_cert_path" (errors_of (valid_config "/nonexistent/ca.pem" "/tmp/cert" "/tmp/key")).

Definition test_nonexistent_client_cert_path_rejected : bool :=
  some_error "client_cert_path" (errors_of (valid_config "/tmp/ca" "/nonexistent/client.pem" "/tmp/key")).

Definition test_nonexistent_client_key_path_rejected : bool :=
  some_error "client_key_path" (errors_of (valid_config "/tmp/ca" "/tmp/cert" "/nonexistent/key.pem")).

Definition test_multiple_errors_reported_together : bool :=
  let config := mkProxyConfig "http://bad.com" 0 default_listen_address None None 0
    (mkMqttConfig "localhost" 0 "user" "pass" (Some "/nonexistent/ca.pem") (Some "/nonexistent/cert.pem")
       (Some "/nonexistent/key.pem"))%string
    default_log_level BufferConfig_default default_state_file ChargingConfig_default in
  let errors := errors_of config in
  (5 <=? length errors)%nat &&
  forallb (λ needle, some_error needle errors)
    ["listen_port"; "health_port"; "central_system_url"; "mqtt.port"; "ca_cert_path"; "client_cert_path";
     "client_key_path"]%string.

(** ** Defaults and log levels *)

Definition test_default_log_level_is_info : bool := default_log_level == Info.

Definition test_default_buffer_config : bool :=
  let config := BufferConfig_default in
  (message_buffer_size config == 100%nat) && (mqtt_buffer_size config == 500%nat) && (max_backoff_seconds config == 60).

Definition test_log_level_display : bool :=
  (LogLevel_fmt Debug == "DEBUG"%string) && (LogLevel_fmt Info == "INFO"%string) &&
  (LogLevel_fmt Warning == "WARNING"%string) && (LogLevel_fmt Error == "ERROR"%string).

(** [serde_json::from_str] into a [LogLevel]. *)
Definition level_from_str (text : string) : result LogLevel string :=
  match read_json (js text) with Some v => LogLevel_deserialize v | None => Err "not JSON"%string end.

Definition test_log_level_deserialization_case_insensitive : bool :=
  forallb (λ '(input, expected), ok! level := level_from_str input in level == expected)
    [("'DEBUG'", Debug); ("'INFO'", Info); ("'WARNING'", Warning); ("'ERROR'", Error)]%string.

Definition test_log_level_deserialization_rejects_invalid : bool := is_err (level_from_str "'TRACE'").

Definition test_default_health_port : bool := default_health_port == 8080.

(** ** Loading a file *)

(** [load_from_path] of a file whose content is the settings [text] writes as JSON. *)
Definition load_file (text : string) : result ProxyConfig ProxyError :=
  load_settings (λ _, ok_or (read_json (js text)) "not YAML"%string) on_disk on_disk "/tmp/config.yaml".

Definition test_load_from_yaml_file : bool :=
  ok! config := load_file
    "{'central_system_url': 'wss://mobi-e.example.com/ocpp', 'listen_port': 9000, 'health_port': 8080,
      'mqtt': {'host': 'mqtt.example.com', 'port': 8883, 'username': 'testuser', 'password': 'testpass',
               'ca_cert_path': '/tmp/ca', 'client_cert_path': '/tmp/cert', 'client_key_path': '/tmp/key'},
      'logging': {'level': 'DEBUG'},
      'buffers': {'message_buffer_size': 200, 'mqtt_buffer_size': 1000, 'max_backoff_seconds': 120}}" in
  (central_system_url config == "wss://mobi-e.example.com/ocpp"%string) && (listen_port config == 9000) &&
  (health_port config == 8080) && (host (mqtt config) == "mqtt.example.com"%string) &&
  (mqtt_port (mqtt config) == 8883) && (username (mqtt config) == "testuser"%string) &&
  (log_level config == Debug) && (message_buffer_size (buffers config) == 200%nat) &&
  (mqtt_buffer_size (buffers config) == 1000%nat) && (max_backoff_seconds (buffers config) == 120).

Definition test_load_missing_required_field_fails : bool :=
  err! err := load_file "{'listen_port': 9000}" in category err == "config"%string.

(** ** Charging *)

Definition test_charging_is_off_by_default_with_sane_limits : bool :=
  let c := ChargingConfig_default in
  negb (enabled c) && (max_limit_a c == lit "32.0") && (min_limit_a c == lit "6.0") && (connector_id c == 0) &&
  (purpose c == TxDefaultProfile) && (profile_kind c == Absolute) && (rate_unit c == Amps) &&
  (number_phases c == Some 1) && (command_timeout c == from_secs 30) && reapply_on_connect c &&
  existsb (λ k, k == "MeterValueSampleInterval"%string) (allowed_configuration_keys c) &&
  negb (existsb (contains "Authorize") (allowed_configuration_keys c)) &&
  (charging_validate c == []).

Definition test_charging_validation_rejects_nonsense : bool :=
  let d := ChargingConfig_default in
  let bad := mkChargingConfig (enabled d) (lit "0.0") (lit "-1.0") (connector_id d) 0 (stack_level d) (purpose d)
    (profile_kind d) (rate_unit d) (Some 4) (lit "12.0") 0 (reapply_on_connect d) (allowed_configuration_keys d) in
  let errors := charging_validate bad in
  let inverted := mkChargingConfig (enabled d) (lit "16.0") (lit "20.0") (connector_id d) (profile_id d) (stack_level d)
    (purpose d) (profile_kind d) (rate_unit d) (number_phases d) (nominal_voltage_v d) (command_timeout_seconds d)
    (reapply_on_connect d) (allowed_configuration_keys d) in
  let wrong_connector := mkChargingConfig (enabled d) (max_limit_a d) (min_limit_a d) 1 (profile_id d) (stack_level d)
    ChargePointMaxProfile (profile_kind d) (rate_unit d) (number_phases d) (nominal_voltage_v d)
    (command_timeout_seconds d) (reapply_on_connect d) (allowed_configuration_keys d) in
  forallb (λ needle, some_error needle errors)
    ["charging.max_limit_a"; "charging.min_limit_a"; "charging.profile_id"; "charging.number_phases";
     "charging.nominal_voltage_v"; "charging.command_timeout_seconds"]%string &&
  some_error "must not exceed" (charging_validate inverted) &&
  some_error "must be 0 for ChargePointMaxProfile" (charging_validate wrong_connector).

Definition test_charging_errors_surface_through_the_top_level_validate : bool :=
  let d := ChargingConfig_default in
  let charging := mkChargingConfig (enabled d) (lit "500.0") (min_limit_a d) (connector_id d) (profile_id d)
    (stack_level d) (purpose d) (profile_kind d) (rate_unit d) (number_phases d) (nominal_voltage_v d)
    (command_timeout_seconds d) (reapply_on_connect d) (allowed_configuration_keys d) in
  some_error "charging.max_limit_a" (errors_of (set_charging charging temp_config)).

Definition test_charging_section_loads_from_yaml_and_is_absent_by_default : bool :=
  let base := "'central_system_url': 'ws://cs.example/ocpp', 'listen_port': 9000,
    'mqtt': {'host': 'mqtt.example', 'port': 1883, 'username': 'u', 'password': 'p'}"%string in
  let section := "'charging': {'enabled': true, 'max_limit_a': 20, 'purpose': 'ChargePointMaxProfile',
    'profile_kind': 'Relative', 'rate_unit': 'W', 'number_phases': null,
    'allowed_configuration_keys': ['MeterValueSampleInterval']}"%string in
  (ok! cfg := load_file ("{" +:+ base +:+ "}") in charging cfg == ChargingConfig_default) &&
  (ok! cfg := load_file ("{" +:+ base +:+ "," +:+ section +:+ "}") in
   let c := charging cfg in
   enabled c && (max_limit_a c == lit "20.0") && (purpose c == ChargePointMaxProfile) && (profile_kind c == Relative) &&
   (rate_unit c == Watts) && (number_phases c == None) &&
   (allowed_configuration_keys c == ["MeterValueSampleInterval"]%string) &&
   (min_limit_a c == lit "6.0") && reapply_on_connect c).

Definition config_tests : list bool :=
  [test_valid_config_passes_validation; test_listen_port_zero_rejected; test_health_port_zero_rejected;
   test_invalid_url_scheme_http; test_invalid_url_scheme_empty; test_ws_scheme_accepted; test_wss_scheme_accepted;
   test_mqtt_port_zero_rejected; test_nonexistent_ca_cert_path_rejected; test_nonexistent_client_cert_path_rejected;
   test_nonexistent_client_key_path_rejected; test_multiple_errors_reported_together; test_default_log_level_is_info;
   test_default_buffer_config; test_log_level_display; test_log_level_deserialization_case_insensitive;
   test_log_level_deserialization_rejects_invalid; test_load_from_yaml_file; test_load_missing_required_field_fails;
   test_default_health_port; test_charging_is_off_by_default_with_sane_limits;
   test_charging_validation_rejects_nonsense; test_charging_errors_surface_through_the_top_level_validate;
   test_charging_section_loads_from_yaml_and_is_absent_by_default].

Lemma config_tests_pass : all_pass config_tests = true.
Proof. vm_compute. reflexivity. Qed.
