(* ===== verification/TestsForwarder.v ===== *)
(** * Unit tests of src/forwarder.rs

    [Utc::now()] is [fixed_now] throughout a test; the receiving half of the publisher's
    channel is the list of events that wait in it. *)

From S2P Require Import Prelude Float64 Json Text JsonText TestKit Models Command Forwarder.

Local Open Scope Z_scope.
Local Open Scope test_scope.

#[local] Existing Instance calendar.

(** [mpsc::channel]: a bounded queue whose receiver does not close. *)
Record Events := mkEvents { ev_capacity : nat; ev_waiting : list MqttEvent }.

#[local] Instance events_sender : MpscSender Events MqttEvent := {
  try_send tx e :=
    if (length (ev_waiting tx) <? ev_capacity tx)%nat
    then (mkEvents (ev_capacity tx) (ev_waiting tx ++ [e]), Ok ()) else (tx, Err Full)
}.

(** [TestSink] and [FailingSink]. *)
Record TestSink := mkSink { sk_messages : list string }.

#[local] Instance test_sink : MessageSink TestSink :=
  { send_raw s text := (mkSink (sk_messages s ++ [text]), Ok ()) }.

Inductive FailingSink := failing_sink.

#[local] Instance failing_sink_sends : MessageSink FailingSink :=
  { send_raw s _ := (s, Err (Forwarding "Simulated send failure")) }.

Definition fixed_now : Z := utc_time 2026 9 22 10 0 0.

Definition tracker : CallTracker := tracker_new (from_secs 300).

(** ** Call tracking *)

Definition track : CallTracker → string → string → Direction → CallTracker := track_call fixed_now.

Definition test_call_tracker_track_and_resolve : bool :=
  let t := track (track tracker "msg-1" "BootNotification" ChargerToCentral) "msg-2" "Heartbeat" ChargerToCentral in
  let '(t1, a1) := resolve t "msg-1" in
  let '(t2, a2) := resolve t1 "msg-2" in
  (pending_count t == 2%nat) && (a1 == Some "BootNotification"%string) && (pending_count t1 == 1%nat) &&
  (a2 == Some "Heartbeat"%string) && (pending_count t2 == 0%nat).

Definition test_call_tracker_resolve_unknown_returns_none : bool := (resolve tracker "nonexistent").2 == None.

Definition test_call_tracker_recent_pending_is_per_direction_and_ages_out : bool :=
  let recent (t : CallTracker) (d : Direction) := has_recent_pending_in fixed_now t d (from_secs 10) in
  let t := track tracker "cs-1" "RemoteStartTransaction" CentralToCharger in
  let t' := (resolve t "cs-1").1 in
  let stale := track_call (fixed_now - from_secs 30) t' "stale" "Reset" CentralToCharger in
  negb (recent tracker CentralToCharger) && recent t CentralToCharger && negb (recent t ChargerToCentral) &&
  negb (recent t' CentralToCharger) && negb (recent stale CentralToCharger).

Definition test_call_tracker_resolve_consumes_entry : bool :=
  let t := track tracker "msg-1" "StatusNotification" CentralToCharger in
  let '(t, a) := resolve t "msg-1" in
  (a == Some "StatusNotification"%string) && ((resolve t "msg-1").2 == None).

Definition test_call_tracker_cleanup_expired : bool :=
  let t := track_call (fixed_now - from_secs 10) (tracker_new (from_secs 1)) "old-msg" "OldAction" ChargerToCentral in
  let t := track t "fresh-msg" "FreshAction" ChargerToCentral in
  let '(t', evicted) := tracker_cleanup fixed_now t in
  let '(t2, fresh) := resolve t' "fresh-msg" in
  (pending_count t == 2%nat) && (evicted == 1%nat) && (pending_count t' == 1%nat) &&
  (fresh == Some "FreshAction"%string) && ((resolve t2 "old-msg").2 == None).

Definition test_call_tracker_overwrite_same_unique_id : bool :=
  let t := track (track tracker "msg-1" "BootNotification" ChargerToCentral) "msg-1" "Heartbeat" ChargerToCentral in
  let '(t, a) := resolve t "msg-1" in
  (a == Some "Heartbeat"%string) && (pending_count t == 0%nat).

(** ** Forwarding *)

Definition call_text (uid act : string) : string := js ("[2, '" +:+ uid +:+ "', '" +:+ act +:+ "', {}]").

Definition make_call_frame (uid act : string) : OcppFrame := mkFrame (call_text uid act) (Call act) uid fixed_now.
Definition make_call_result_frame (uid : string) : OcppFrame :=
  mkFrame (js ("[3, '" +:+ uid +:+ "', {'status': 'Accepted'}]")) CallResult uid fixed_now.
Definition make_call_error_frame (uid : string) : OcppFrame :=
  mkFrame (js ("[4, '" +:+ uid +:+ "', 'InternalError', 'Something failed', {}]")) CallError uid fixed_now.

Definition make_forwarder (channel size : nat) : MessageForwarder Events :=
  forwarder_new (mkEvents channel []) size (from_secs 30) (from_secs 300).

Definition forwarder : MessageForwarder Events := make_forwarder 100 100.

Definition waiting (fwd : MessageForwarder Events) : list MqttEvent := ev_waiting (mqtt_tx fwd).

(** Forwarding a frame in either direction, and all of a list upstream. *)
Definition upstream {S} `{MessageSink S} (fwd : MessageForwarder Events) (frame : OcppFrame) (sink : S) :=
  forward_upstream fixed_now fwd frame sink.
Definition downstream {S} `{MessageSink S} (fwd : MessageForwarder Events) (frame : OcppFrame) (sink : S) :=
  forward_downstream fixed_now fwd frame sink.

Fixpoint all_upstream (fwd : MessageForwarder Events) (frames : list OcppFrame) (sink : TestSink) :
    option (MessageForwarder Events * TestSink) :=
  match frames with
  | [] => Some (fwd, sink)
  | frame :: frames =>
      match upstream fwd frame sink with (fwd, sink, Ok _) => all_upstream fwd frames sink | _ => None end
  end.

(** The ids [prefix]0, [prefix]1, … and frames with them. *)
Definition numbered (prefix : string) (n : nat) : list string := (λ i : nat, prefix +:+ pretty i) <$> seq 0 n.
Definition heartbeats (prefix : string) (n : nat) : list OcppFrame :=
  (λ uid, make_call_frame uid "Heartbeat") <$> numbered prefix n.

(** The texts a sink has, each with the id in it that it should. *)
Definition in_order (ids : list string) (messages : list string) : bool :=
  (length messages =? length ids)%nat && forallb (λ '(uid, m), contains uid m) (zip ids messages).

Definition test_forward_upstream_preserves_raw_bytes : bool :=
  let raw := js "[2,  'id-42' , 'BootNotification',  {'model': 'Autel'}]" in
  let '(_, sink, r) := upstream forwarder (mkFrame raw (Call "BootNotification") "id-42" fixed_now) (mkSink []) in
  is_ok r && (sk_messages sink == [raw]).

Definition test_forward_downstream_preserves_raw_bytes : bool :=
  let raw := js "[3,'resp-1',{'status':'Accepted'}]" in
  let '(_, sink, r) := downstream forwarder (mkFrame raw CallResult "resp-1" fixed_now) (mkSink []) in
  is_ok r && (sk_messages sink == [raw]).

Definition test_forward_maintains_fifo_order : bool :=
  some! (_, sink) := all_upstream forwarder (heartbeats "msg-" 5) (mkSink []) in
  in_order (numbered "msg-" 5) (sk_messages sink).

Definition test_forward_emits_mqtt_event_after_forwarding : bool :=
  let '(fwd, _, r) := upstream forwarder (make_call_frame "evt-1" "StatusNotification") (mkSink []) in
  is_ok r &&
  match waiting fwd with
  | EvMessageForwarded _ frame d act :: _ =>
      (unique_id frame == "evt-1"%string) && (d == ChargerToCentral) && (act == "StatusNotification"%string)
  | _ => false
  end.

(** The second event that waits is a forwarded message with this action. *)
Definition second_action (fwd : MessageForwarder Events) (expected : string) : bool :=
  match waiting fwd with [_; EvMessageForwarded _ _ _ act] => act == expected | _ => false end.

Definition test_call_tracking_resolves_call_result : bool :=
  let '(fwd, sink, r1) := upstream forwarder (make_call_frame "track-1" "RemoteStartTransaction") (mkSink []) in
  let '(fwd, _, r2) := downstream fwd (make_call_result_frame "track-1") sink in
  is_ok r1 && is_ok r2 && second_action fwd "RemoteStartTransaction".

Definition test_call_tracking_resolves_call_error : bool :=
  let '(fwd, sink, r1) := downstream forwarder (make_call_frame "err-1" "Authorize") (mkSink []) in
  let '(fwd, _, r2) := upstream fwd (make_call_error_frame "err-1") sink in
  is_ok r1 && is_ok r2 && second_action fwd "Authorize".

Definition test_untracked_response_uses_unknown_action : bool :=
  let '(fwd, _, r) := downstream forwarder (make_call_result_frame "orphan-1") (mkSink []) in
  is_ok r && match waiting fwd with [EvMessageForwarded _ _ _ act] => act == "Unknown"%string | _ => false end.

Definition test_forwarding_failure_does_not_emit_mqtt_event : bool :=
  let '(fwd, _, r) := upstream forwarder (make_call_frame "fail-1" "Heartbeat") failing_sink in
  is_err r && (length (waiting fwd) =? 0)%nat.

Definition test_mqtt_channel_full_does_not_block_forwarding : bool :=
  some! (_, sink) := all_upstream (make_forwarder 1 100) (heartbeats "full-" 5) (mkSink []) in
  (length (sk_messages sink) =? 5)%nat.

(** ** Buffers *)

Definition make_frame_with_timestamp (uid : string) (at_ : Z) : OcppFrame :=
  mkFrame (call_text uid "Heartbeat") (Call "Heartbeat") uid at_.

Definition buffer_all_up (fwd : MessageForwarder Events) (frames : list OcppFrame) : MessageForwarder Events :=
  foldl buffer_upstream fwd frames.
Definition buffer_all_down (fwd : MessageForwarder Events) (frames : list OcppFrame) : MessageForwarder Events :=
  foldl buffer_downstream fwd frames.

Definition test_buffer_upstream_adds_messages : bool :=
  length (upstream_buffer (buffer_all_up forwarder (heartbeats "buf-" 5))) == 5%nat.

Definition test_buffer_downstream_adds_messages : bool :=
  length (downstream_buffer (buffer_all_down forwarder (heartbeats "buf-" 5))) == 5%nat.

Definition test_buffer_upstream_evicts_oldest_when_full : bool :=
  let fwd := buffer_all_up (make_forwarder 100 5) (heartbeats "msg-" 5) in
  let fwd' := buffer_upstream fwd (make_call_frame "msg-5" "Heartbeat") in
  (length (upstream_buffer fwd) == 5%nat) && (length (upstream_buffer fwd') == 5%nat) &&
  (unique_id <$> upstream_buffer fwd' !! 0%nat == Some "msg-1"%string) &&
  (unique_id <$> upstream_buffer fwd' !! 4%nat == Some "msg-5"%string).

Definition test_buffer_downstream_evicts_oldest_when_full : bool :=
  let fwd := buffer_all_down (make_forwarder 100 3) (heartbeats "msg-" 6) in
  unique_id <$> downstream_buffer fwd == ["msg-3"; "msg-4"; "msg-5"]%string.

Definition test_flush_upstream_delivers_in_fifo_order : bool :=
  let '(fwd, sink, r) := flush_upstream (buffer_all_up forwarder (heartbeats "flush-" 5)) (mkSink []) in
  ok! count := r in
  (count == 5%nat) && (length (upstream_buffer fwd) == 0%nat) && in_order (numbered "flush-" 5) (sk_messages sink).

Definition test_flush_downstream_delivers_in_fifo_order : bool :=
  let frames := (λ uid, make_call_frame uid "StatusNotification") <$> numbered "ds-" 3 in
  let '(fwd, sink, r) := flush_downstream (buffer_all_down forwarder frames) (mkSink []) in
  ok! count := r in
  (count == 3%nat) && (length (downstream_buffer fwd) == 0%nat) && in_order (numbered "ds-" 3) (sk_messages sink).

Definition test_flush_upstream_on_empty_buffer_returns_zero : bool :=
  let '(_, sink, r) := flush_upstream forwarder (mkSink []) in
  ok! count := r in (count == 0%nat) && (length (sk_messages sink) == 0%nat).

Definition test_flush_upstream_stops_on_send_failure : bool :=
  let '(fwd, _, r) := flush_upstream (buffer_all_up forwarder (heartbeats "fail-flush-" 3)) failing_sink in
  is_err r && (length (upstream_buffer fwd) == 3%nat) &&
  (unique_id <$> upstream_buffer fwd !! 0%nat == Some "fail-flush-0"%string).

Definition test_discard_downstream_buffer : bool :=
  let fwd := buffer_all_down forwarder (heartbeats "discard-" 10) in
  (length (downstream_buffer fwd) == 10%nat) && (length (downstream_buffer (discard_downstream_buffer fwd)) == 0%nat).

Definition test_discard_downstream_buffer_empty_is_noop : bool :=
  length (downstream_buffer (discard_downstream_buffer forwarder)) == 0%nat.

Definition test_evict_expired_messages_removes_old_from_both_buffers : bool :=
  let old_time := fixed_now - from_secs 60 in
  let fresh_time := fixed_now - from_secs 5 in
  let fwd := set_upstream_buffer forwarder
    [make_frame_with_timestamp "old-up-1" old_time; make_frame_with_timestamp "old-up-2" old_time;
     make_frame_with_timestamp "fresh-up-1" fresh_time] in
  let fwd := set_downstream_buffer fwd
    [make_frame_with_timestamp "old-down-1" old_time; make_frame_with_timestamp "fresh-down-1" fresh_time;
     make_frame_with_timestamp "fresh-down-2" fresh_time] in
  let '(fwd, evicted) := evict_expired_messages fixed_now fwd in
  (evicted == 3%nat) && (unique_id <$> upstream_buffer fwd == ["fresh-up-1"]%string) &&
  (unique_id <$> downstream_buffer fwd == ["fresh-down-1"; "fresh-down-2"]%string).

Definition test_evict_expired_messages_keeps_all_when_none_expired : bool :=
  let '(fwd, evicted) := evict_expired_messages fixed_now (buffer_all_up forwarder (heartbeats "fresh-" 5)) in
  (evicted == 0%nat) && (length (upstream_buffer fwd) == 5%nat).

Definition test_evict_expired_messages_empty_buffers : bool := (evict_expired_messages fixed_now forwarder).2 == 0%nat.

Definition test_buffer_never_exceeds_max_size : bool :=
  let '(fwd, bounded) :=
    foldl (λ '(fwd, bounded) frame,
             let fwd := buffer_upstream fwd frame in (fwd, bounded && (length (upstream_buffer fwd) <=? 10)%nat))
          (make_forwarder 100 10, true) (heartbeats "overflow-" 50) in
  bounded && (length (upstream_buffer fwd) == 10%nat) &&
  (unique_id <$> upstream_buffer fwd !! 0%nat == Some "overflow-40"%string) &&
  (unique_id <$> upstream_buffer fwd !! 9%nat == Some "overflow-49"%string).

Definition forwarder_tests : list bool :=
  [test_call_tracker_track_and_resolve; test_call_tracker_resolve_unknown_returns_none;
   test_call_tracker_recent_pending_is_per_direction_and_ages_out; test_call_tracker_resolve_consumes_entry;
   test_call_tracker_cleanup_expired; test_call_tracker_overwrite_same_unique_id;
   test_forward_upstream_preserves_raw_bytes; test_forward_downstream_preserves_raw_bytes;
   test_forward_maintains_fifo_order; test_forward_emits_mqtt_event_after_forwarding;
   test_call_tracking_resolves_call_result; test_call_tracking_resolves_call_error;
   test_untracked_response_uses_unknown_action; test_forwarding_failure_does_not_emit_mqtt_event;
   test_mqtt_channel_full_does_not_block_forwarding; test_buffer_upstream_adds_messages;
   test_buffer_downstream_adds_messages; test_buffer_upstream_evicts_oldest_when_full;
   test_buffer_downstream_evicts_oldest_when_full; test_flush_upstream_delivers_in_fifo_order;
   test_flush_downstream_delivers_in_fifo_order; test_flush_upstream_on_empty_buffer_returns_zero;
   test_flush_upstream_stops_on_send_failure; test_discard_downstream_buffer;
   test_discard_downstream_buffer_empty_is_noop; test_evict_expired_messages_removes_old_from_both_buffers;
   test_evict_expired_messages_keeps_all_when_none_expired; test_evict_expired_messages_empty_buffers;
   test_buffer_never_exceeds_max_size].

Lemma forwarder_tests_pass : all_pass forwarder_tests = true.
Proof. vm_compute. reflexivity. Qed.
