(* ===== verification/TestsStore.v ===== *)
(** * Unit tests of src/snapshot_store.rs

    Each test has a disk of its own, empty where the test removes the directory first. *)

From S2P Require Import Prelude Float64 Json Text JsonText TestKit Models Command ChargePoint SnapshotStore.

Local Open Scope Z_scope.
Local Open Scope test_scope.

#[local] Existing Instance json_text.
#[local] Existing Instance calendar.
#[local] Existing Instance key_order.

Definition fixed_now : Z := utc_time 2026 9 22 10 0 0.

(** [st.apply] of a Call of the action, its change discarded. *)
Definition apply_call (act text : string) (st : ChargePointState) : ChargePointState :=
  (cp_apply fixed_now st act (Call act) (js text)).1.

(** A snapshot with a completed session in it, as after a real charge. *)
Definition snapshot_after_a_session : ChargePointState :=
  let st := cp_default in
  let st := apply_call "StatusNotification"
    "[2,'1','StatusNotification',{'connectorId':1,'errorCode':'NoError','status':'Available'}]" st in
  let st := apply_call "StartTransaction"
    "[2,'2','StartTransaction',{'connectorId':1,'idTag':'a1b2c3d4','meterStart':8076445}]" st in
  apply_call "StopTransaction"
    "[2,'3','StopTransaction',{'meterStop':8084000,'transactionId':1000000001,'reason':'EVDisconnected'}]" st.

Definition temp_path : string := "/tmp/ocpp-snapshot-test/state.json".

Definition empty_disk : Disk := mkDisk ∅ ∅ ∅ [].
Definition store : SnapshotStore := store_new (Some temp_path).

(** [==] on the maps. *)
Definition snapshots_eq (m m' : SnapshotMap) : bool :=
  (size m =? size m')%nat &&
  forallb (λ '(id, st), match m' !! id with Some st' => cp_eqb st st' | None => false end) (map_to_list m).

Definition round_trips_a_completed_session : bool :=
  let map : SnapshotMap := {["CP-EXAMPLE-0001"%string := snapshot_after_a_session]} in
  let restored := (store_load (store_new (Some temp_path)) (store_save store map empty_disk)).2 in
  some! cp := restored !! "CP-EXAMPLE-0001"%string in
  snapshots_eq restored map && (last_meter_stop_wh cp == Some 8084000) &&
  (last_session_energy_wh cp == Some (8084000 - 8076445)) && (last_transaction_id cp == Some 1000000001) &&
  (last_stop_reason cp == Some "EVDisconnected"%string).

Definition missing_file_loads_empty : bool := size (store_load store empty_disk).2 == 0%nat.

Definition corrupt_file_loads_empty : bool :=
  let d := mkDisk {[temp_path := 0%nat]} {[0%nat := mkInode "{not json" true]} ∅ [] in
  size (store_load store d).2 == 0%nat.

(** No directory can be made under /proc. *)
Definition unwritable_path_does_not_panic : bool :=
  let store := store_new (Some "/proc/ocpp-proxy/state.json"%string) in
  let d := store_save store {["CP"%string := snapshot_after_a_session]}
             (mkDisk ∅ ∅ ∅ [Some (OtherError "Permission denied", 0%nat)]) in
  size (store_load store d).2 == 0%nat.

Definition disabled_store_persists_nothing : bool :=
  let store := store_disabled in
  let d := store_save store {["CP"%string := snapshot_after_a_session]} empty_disk in
  negb (is_enabled store) && (size (store_load store d).2 == 0%nat).

Definition repeated_saves_leave_no_temp_file : bool :=
  let map : SnapshotMap := {["CP"%string := snapshot_after_a_session]} in
  let d := store_save store map (store_save store map empty_disk) in
  (map_to_list (d_names d)).*1 == [temp_path].

Definition creates_the_directory : bool :=
  let d := store_save store ∅ empty_disk in
  negb (bool_decide (path_parent temp_path ∈ d_dirs empty_disk)) &&
  bool_decide (path_parent temp_path ∈ d_dirs d) && is_some (contents d temp_path).

Definition store_tests : list bool :=
  [round_trips_a_completed_session; missing_file_loads_empty; corrupt_file_loads_empty;
   unwritable_path_does_not_panic; disabled_store_persists_nothing; repeated_saves_leave_no_temp_file;
   creates_the_directory].

Lemma store_tests_pass : all_pass store_tests = true.
Proof. vm_compute. reflexivity. Qed.
