(* ===== verification/TestsMqtt.v ===== *)
(** * Unit tests of src/mqtt.rs

    The client is the bounded channel [Channel], which nothing polls, and the router's
    senders record what they are given. The tests whose subject is code of a library
    (rumqttc's options, chrono's parser, a [VecDeque] of the test's own) have no
    counterpart here. *)

From S2P Require Import Prelude Float64 Json Text JsonText TestKit Models StateManager Config Command CallQueue.
From S2P Require Import Forwarder ChargePoint SnapshotStore Publisher.

Local Open Scope Z_scope.
Local Open Scope test_scope.

#[local] Existing Instance json_text.
#[local] Existing Instance calendar.
#[local] Existing Instance key_order.

Definition fixed_now : Z := utc_time 2026 9 22 10 0 0.
Definition clock : Clock := {| utc_now := fixed_now; instant_now := 0 |}.
Definition serde_error (v : Value) : string := "no variant matches".
Definition io_error_fmt (e : IoError) : string :=
  match e with NotFound => "No such file or directory (os error 2)" | OtherError m => m end.

Abbreviation TestPublisher := (MqttPublisher Channel (list CommandRequest)).

(** The deployed shape: a broker one LAN hop away, no TLS. *)
Definition plaintext_config : MqttConfig := mkMqttConfig "127.0.0.1" 1883 "user" "pass" None None None.

(** [st.apply] of a Call of the action, of a text with ['] for the quotes. *)
Definition apply_call (act text : string) (st : ChargePointState) : ChargePointState * bool :=
  cp_apply fixed_now st act (Call act) (js text).

(** ** The snapshot *)

Definition test_state_topic : bool :=
  charge_point_state_topic "CP-EXAMPLE-0001" == "ocpp/CP-EXAMPLE-0001/state"%string.

Definition test_ocpp_args_index_follows_message_type_not_direction : bool :=
  let call_frame := js "[2,'id','StatusNotification',{'status':'Charging'}]" in
  let result_frame := js "[3,'id',{'transactionId':42}]" in
  some! a := ocpp_args call_frame (Call "StatusNotification") in
  some! b := ocpp_args result_frame CallResult in
  json_eq (at_key "status" (VObject a)) (VString "Charging") && json_eq (at_key "transactionId" (VObject b)) (json_u 42).

Definition charging_text : string :=
  "[2,'1','StatusNotification',{'connectorId':1,'errorCode':'NoError','status':'Charging'}]".

Definition test_status_notification_updates_snapshot : bool :=
  let '(st, changed) := apply_call "StatusNotification" charging_text cp_default in
  changed && (connector_status st == Some "Charging"%string) && (error_code st == Some "NoError"%string) &&
  is_some (last_updated st).

Definition test_repeated_identical_status_reports_no_change : bool :=
  let '(st, changed) := apply_call "StatusNotification" charging_text cp_default in
  let '(_, again) := apply_call "StatusNotification" charging_text st in
  changed && negb again.

Definition test_full_transaction_lifecycle : bool :=
  let '(st, _) := apply_call "StatusNotification"
    "[2,'1','StatusNotification',{'connectorId':1,'errorCode':'NoError','status':'Preparing'}]" cp_default in
  let '(st1, _) := apply_call "StartTransaction"
    "[2,'2','StartTransaction',{'connectorId':1,'idTag':'a1b2c3d4','meterStart':8076445}]" st in
  let '(st2, _) := cp_apply fixed_now st1 "StartTransaction" CallResult
    (js "[3,'2',{'idTagInfo':{'status':'Accepted'},'transactionId':1000000001}]") in
  let '(st3, _) := apply_call "StatusNotification"
    "[2,'3','StatusNotification',{'connectorId':1,'errorCode':'NoError','status':'Charging'}]" st2 in
  let '(st4, _) := apply_call "StopTransaction"
    "[2,'4','StopTransaction',{'idTag':'a1b2c3d4','meterStop':8080000,'transactionId':1000000001,'reason':'EVDisconnected','timestamp':'2026-09-01T07:22:16Z'}]" st3 in
  (meter_start_wh st1 == Some 8076445) && (id_tag st1 == Some "a1b2c3d4"%string) && (transaction_id st1 == None) &&
  (transaction_id st2 == Some 1000000001) && (connector_status st3 == Some "Charging"%string) &&
  (transaction_id st4 == None) && (meter_start_wh st4 == None) && (id_tag st4 == None) &&
  (connector_status st4 == Some "Charging"%string) && (last_meter_stop_wh st4 == Some 8080000) &&
  (last_session_energy_wh st4 == Some (8080000 - 8076445)) && (last_transaction_id st4 == Some 1000000001) &&
  (last_stop_reason st4 == Some "EVDisconnected"%string) && (last_stop_time st4 == Some "2026-09-01T07:22:16Z"%string).

Definition test_last_session_survives_the_next_session : bool :=
  let '(st, _) := apply_call "StartTransaction"
    "[2,'1','StartTransaction',{'connectorId':1,'idTag':'a','meterStart':1000}]" cp_default in
  let '(st1, _) := apply_call "StopTransaction" "[2,'2','StopTransaction',{'meterStop':3000,'transactionId':7}]" st in
  let '(st2, _) := apply_call "StartTransaction"
    "[2,'3','StartTransaction',{'connectorId':1,'idTag':'b','meterStart':3000}]" st1 in
  let '(st3, _) := apply_call "StopTransaction" "[2,'4','StopTransaction',{'meterStop':9500,'transactionId':8}]" st2 in
  (last_session_energy_wh st1 == Some 2000) && (last_meter_stop_wh st2 == Some 3000) &&
  (last_session_energy_wh st2 == Some 2000) && (last_transaction_id st2 == Some 7) &&
  (last_meter_stop_wh st3 == Some 9500) && (last_session_energy_wh st3 == Some 6500) &&
  (last_transaction_id st3 == Some 8).

Definition test_stop_without_a_seen_start_reports_no_delta : bool :=
  let '(st, _) := apply_call "StopTransaction"
    "[2,'1','StopTransaction',{'meterStop':8084000,'transactionId':1000000001}]" cp_default in
  (last_meter_stop_wh st == Some 8084000) && (last_session_energy_wh st == None) &&
  (last_transaction_id st == Some 1000000001).

Definition short_stop : string := "[2,'1','StopTransaction',{'meterStop':500,'transactionId':3}]".

Definition test_stop_without_optional_fields : bool :=
  let '(st, changed) := apply_call "StopTransaction" short_stop cp_default in
  changed && (last_stop_reason st == None) && (last_stop_time st == None) && (last_meter_stop_wh st == Some 500).

Definition test_repeated_stop_transaction_reports_no_change : bool :=
  let '(st, changed) := apply_call "StopTransaction" short_stop cp_default in
  let '(_, again) := apply_call "StopTransaction" short_stop st in
  changed && negb again.

Definition test_meter_values_never_changes_the_snapshot : bool :=
  let '(st, changed) := apply_call "MeterValues"
    "[2,'5','MeterValues',{'connectorId':1,'meterValue':[{'sampledValue':[{'measurand':'Power.Active.Import','value':'3651'}]}]}]" cp_default in
  negb changed && cp_eqb st cp_default.

Definition test_malformed_frame_is_ignored : bool :=
  let '(st, c1) := apply_call "StatusNotification" "not json" cp_default in
  let '(st, c2) := apply_call "StatusNotification" "[2,'1']" st in
  negb c1 && negb c2 && cp_eqb st cp_default.

(** [serde_json::to_vec], read back. *)
Definition through_json (v : Value) : Value :=
  match to_json v with Ok text => default VNull (result_ok (from_str text)) | Err _ => VNull end.

Definition is_null (o : option Value) : bool := match o with Some VNull => true | _ => false end.

Definition test_snapshot_serializes_to_the_documented_shape : bool :=
  let '(st, _) := apply_call "StatusNotification" charging_text cp_default in
  let v := through_json (cp_to_value st) in
  let '(st, _) := apply_call "StopTransaction"
    "[2,'9','StopTransaction',{'meterStop':8084000,'transactionId':1000000001,'reason':'EVDisconnected'}]" st in
  let v' := through_json (cp_to_value st) in
  json_eq (at_key "connector_status" v) (VString "Charging") && json_eq (at_key "error_code" v) (VString "NoError") &&
  is_null (get_key "transaction_id" v) && is_some (as_str (at_key "last_updated" v)) &&
  forallb (λ key, is_null (get_key key v))
    ["last_meter_stop_wh"; "last_session_energy_wh"; "last_transaction_id"; "last_stop_reason"; "last_stop_time";
     "current_limit_a"; "current_limit_status"; "current_limit_updated"]%string &&
  json_eq (at_key "last_meter_stop_wh" v') (json_u 8084000) && json_eq (at_key "last_transaction_id" v') (json_u 1000000001) &&
  json_eq (at_key "last_stop_reason" v') (VString "EVDisconnected").

(** ** Topics *)

Definition test_availability_topic_construction : bool := availability_topic "CP001" == "ocpp/CP001/availability"%string.

Definition test_availability_topic_with_special_chars : bool :=
  availability_topic "AUTEL-12345" == "ocpp/AUTEL-12345/availability"%string.

Definition test_message_topic_construction : bool :=
  message_topic "CP001" "charger" "BootNotification" == "ocpp/CP001/charger/BootNotification"%string.

Definition test_message_topic_central_system_direction : bool :=
  message_topic "CP001" "central_system" "RemoteStartTransaction"
    == "ocpp/CP001/central_system/RemoteStartTransaction"%string.

Definition test_status_topic_construction : bool := status_topic "CP001" == "ocpp/CP001/status"%string.

(** ** Backoff *)

Definition mqtt_backoff : ExponentialBackoff := backoff_with_defaults (from_secs 1) (from_secs 30).

Definition test_exponential_backoff_for_mqtt : bool :=
  some! (ds, _) := delays 7 mqtt_backoff in ds == (from_secs <$> [1; 2; 4; 8; 16; 30; 30]).

Definition test_exponential_backoff_reset_for_mqtt : bool :=
  some! (_, backoff) := delays 3 mqtt_backoff in
  some! (d, _) := next_delay (backoff_reset backoff) in d == from_secs 1.

(** ** TLS *)

(** A disk with some files, the temporary ones of a test. *)
Fixpoint disk_with (files : list (string * string)) : Disk :=
  match files with
  | [] => mkDisk ∅ ∅ ∅ []
  | (path, bytes) :: files =>
      let d := disk_with files in
      set_inode (set_names d (<[path := length files]> (d_names d))) (length files) (mkInode bytes true)
  end.

Definition tls_config (ca cert key : string) : MqttConfig :=
  mkMqttConfig "mqtt.example.com" 8883 "user" "pass" (Some ca) (Some cert) (Some key).

Definition cert_files : list (string * string) :=
  [("/tmp/ca", "fake-ca-cert"); ("/tmp/cert", "fake-client-cert"); ("/tmp/key", "fake-client-key")]%string.

Definition tls_error (config : MqttConfig) (files : list (string * string)) (needle : string) : bool :=
  err! err := (build_tls_config io_error_fmt config (disk_with files)).2 in
  (category err == "tls"%string) && contains needle (description err).

Definition test_tls_config_fails_on_missing_ca_cert : bool :=
  tls_error (tls_config "/nonexistent/ca.pem" "/nonexistent/cert.pem" "/nonexistent/key.pem") [] "ca.pem".

Definition test_tls_config_fails_on_missing_client_cert : bool :=
  tls_error (tls_config "/tmp/ca" "/nonexistent/cert.pem" "/nonexistent/key.pem") (take 1 cert_files)
    "client certificate".

Definition test_tls_config_fails_on_missing_client_key : bool :=
  tls_error (tls_config "/tmp/ca" "/tmp/cert" "/nonexistent/key.pem") (take 2 cert_files) "client key".

Definition test_tls_config_succeeds_with_valid_files : bool :=
  is_ok (build_tls_config io_error_fmt (tls_config "/tmp/ca" "/tmp/cert" "/tmp/key") (disk_with cert_files)).2.

(** ** The publisher and its store *)

Definition new_publisher (config : MqttConfig) (lwt : option string) (buffer : nat) (store : SnapshotStore) (d : Disk) :
    result TestPublisher ProxyError :=
  (publisher_new io_error_fmt config lwt buffer store d).2.

Definition test_mqtt_publisher_new_with_valid_config : bool :=
  ok! publisher := new_publisher (tls_config "/tmp/ca" "/tmp/cert" "/tmp/key") (Some "CP001"%string) 500 store_disabled
                     (disk_with cert_files) in
  (p_lwt publisher == Some "CP001"%string) && (p_state publisher == Disconnected) &&
  (length (p_buffer publisher) == 0%nat).

Definition store_file : string := "/tmp/dir/state.json".
Definition file_store : SnapshotStore := store_new (Some store_file).
Definition temp_dir : Disk := mkDisk ∅ ∅ {["/tmp/dir"%string]} [].

Definition test_publisher_restores_the_stored_snapshot : bool :=
  let '(st, _) := apply_call "StartTransaction"
    "[2,'1','StartTransaction',{'connectorId':1,'idTag':'a1b2c3d4','meterStart':8076445}]" cp_default in
  let '(st, _) := apply_call "StopTransaction"
    "[2,'2','StopTransaction',{'meterStop':8084000,'transactionId':1000000001}]" st in
  let d := store_save file_store {["CP-EXAMPLE-0001"%string := st]} temp_dir in
  ok! publisher := new_publisher plaintext_config (Some "CP-EXAMPLE-0001"%string) 500 file_store d in
  some! restored := p_snapshots publisher !! "CP-EXAMPLE-0001"%string in
  (last_meter_stop_wh restored == Some 8084000) && (last_session_energy_wh restored == Some 7555) &&
  (last_transaction_id restored == Some 1000000001).

(** [handle_event] of a frame that the charger sent. *)
Definition forwarded (act text : string) (publisher : TestPublisher) : option TestPublisher :=
  frame ← result_ok (parse fixed_now (js text));
  Some (handle_event clock publisher (EvMessageForwarded "CP001" frame ChargerToCentral act)).

Definition test_snapshot_change_is_persisted_even_when_disconnected : bool :=
  ok! publisher := new_publisher plaintext_config (Some "CP001"%string) 500 file_store temp_dir in
  some! after := forwarded "StopTransaction" "[2,'1','StopTransaction',{'meterStop':4200,'transactionId':9}]" publisher in
  some! reloaded := (store_load file_store (p_disk after)).2 !! "CP001"%string in
  (p_state publisher == Disconnected) && (last_meter_stop_wh reloaded == Some 4200) &&
  (last_transaction_id reloaded == Some 9).

Definition test_meter_values_does_not_write_the_file : bool :=
  ok! publisher := new_publisher plaintext_config (Some "CP001"%string) 500 file_store temp_dir in
  some! after := forwarded "MeterValues"
    "[2,'1','MeterValues',{'connectorId':1,'meterValue':[{'sampledValue':[{'value':'3651'}]}]}]" publisher in
  is_none (contents (p_disk after) store_file).

Definition test_mqtt_publisher_new_fails_with_invalid_certs : bool :=
  is_err (new_publisher (tls_config "/nonexistent/ca.pem" "/nonexistent/cert.pem" "/nonexistent/key.pem")
            (Some "CP001"%string) 500 store_disabled (disk_with [])).

(** ** Payloads *)

Definition test_direction_str_charger_to_central : bool := direction_str ChargerToCentral == "charger"%string.
Definition test_direction_str_central_to_charger : bool := direction_str CentralToCharger == "central_system"%string.

Definition test_message_type_str_call : bool := message_type_str (Call "BootNotification") == "Call"%string.
Definition test_message_type_str_call_result : bool := message_type_str CallResult == "CallResult"%string.
Definition test_message_type_str_call_error : bool := message_type_str CallError == "CallError"%string.

Definition test_connection_state_str_all_states : bool :=
  (connection_state_str Connected == "connected"%string) && (connection_state_str Disconnected == "disconnected"%string) &&
  (connection_state_str Reconnecting == "reconnecting"%string) && (connection_state_str Connecting == "connecting"%string).

(** The texts at [path], and the number that starts the message. *)
Definition message_id_of (v : Value) : Value := at_index 0 (at_key "payload" v).

Definition test_mqtt_payload_serialization_call : bool :=
  let json := MqttPayload_to_value (mkPayload "2024-01-15T10:30:00+00:00" "Call"
    (json "[2, 'abc123', 'BootNotification', {'chargePointModel': 'Autel'}]")) in
  json_eq (at_key "timestamp" json) (VString "2024-01-15T10:30:00+00:00") &&
  json_eq (at_key "message_type" json) (VString "Call") && is_some (as_array (at_key "payload" json)) &&
  json_eq (message_id_of json) (json_u 2) && json_eq (at_index 1 (at_key "payload" json)) (VString "abc123") &&
  json_eq (at_index 2 (at_key "payload" json)) (VString "BootNotification").

Definition test_mqtt_payload_serialization_call_result : bool :=
  let json := MqttPayload_to_value (mkPayload "2024-01-15T10:30:01+00:00" "CallResult"
    (json "[3, 'abc123', {'status': 'Accepted'}]")) in
  json_eq (at_key "message_type" json) (VString "CallResult") && json_eq (message_id_of json) (json_u 3) &&
  json_eq (at_key "status" (at_index 2 (at_key "payload" json))) (VString "Accepted").

Definition test_mqtt_payload_serialization_call_error : bool :=
  let json := MqttPayload_to_value (mkPayload "2024-01-15T10:30:02+00:00" "CallError"
    (json "[4, 'abc123', 'InternalError', 'Something went wrong', {}]")) in
  json_eq (at_key "message_type" json) (VString "CallError") && json_eq (message_id_of json) (json_u 4) &&
  json_eq (at_index 2 (at_key "payload" json)) (VString "InternalError").

Definition test_status_payload_serialization : bool :=
  let json := StatusPayload_to_value (mkStatus "connected" "disconnected") in
  json_eq (at_key "upstream" json) (VString "connected") && json_eq (at_key "downstream" json) (VString "disconnected").

Definition test_status_payload_all_state_combinations : bool :=
  let states := [Connected; Disconnected; Reconnecting; Connecting] in
  forallb (λ upstream, forallb (λ downstream,
    let parsed := through_json (StatusPayload_to_value
      (mkStatus (connection_state_str upstream) (connection_state_str downstream))) in
    is_some (as_str (at_key "upstream" parsed)) && is_some (as_str (at_key "downstream" parsed))) states) states.

Definition test_message_topic_with_direction_helper : bool :=
  (message_topic "CP001" (direction_str ChargerToCentral) "Heartbeat" == "ocpp/CP001/charger/Heartbeat"%string) &&
  (message_topic "CP001" (direction_str CentralToCharger) "RemoteStartTransaction"
     == "ocpp/CP001/central_system/RemoteStartTransaction"%string).

Definition test_mqtt_payload_contains_full_ocpp_message : bool :=
  let raw_value := json "[2, 'unique-42', 'MeterValues', {'connectorId': 1, 'meterValue': []}]" in
  let serialized := MqttPayload_to_value (mkPayload "2024-01-15T10:30:00+00:00" "Call" raw_value) in
  json_eq (at_key "payload" serialized) raw_value &&
  (some! items := as_array (at_key "payload" serialized) in (length items =? 4)%nat).

Definition test_mqtt_payload_all_required_fields_present : bool :=
  let parsed := through_json (MqttPayload_to_value (mkPayload "2024-01-15T10:30:00+00:00" "Call"
    (json "[2, 'id', 'Action', {}]"))) in
  forallb (λ key, is_some (get_key key parsed)) ["timestamp"; "message_type"; "payload"]%string &&
  (some! obj := as_object parsed in (length obj =? 3)%nat).

(** ** Publishing without waiting *)

Definition publisher_with_events (lwt : option string) : result TestPublisher ProxyError :=
  new_publisher plaintext_config lwt 500 store_disabled temp_dir.

Definition event_message (i : nat) : MqttMessage :=
  mkMessage ("ocpp/CP/charger/MeterValues" +:+ pretty i) (of_chars [chr (Z.of_nat i)]) AtLeastOnce false.

Definition enqueue_all (p : TestPublisher) (l : list nat) : TestPublisher :=
  foldl (λ p i, enqueue p (event_message i)) p l.

(** [publisher.state = s], as the tests assign it. *)
Definition in_state (p : TestPublisher) (s : ConnectionState) : TestPublisher := set_mqtt_state p s (p_manager p).

Definition front_topic (p : TestPublisher) : option string := msg_topic <$> head (p_buffer p).

Definition enqueue_never_blocks_on_a_full_request_channel : bool :=
  ok! publisher := publisher_with_events None in
  let publisher := enqueue_all (in_state publisher Connected) (seq 0 (REQUEST_CHANNEL_CAPACITY + 5)) in
  (length (p_buffer publisher) == 5%nat) &&
  (front_topic publisher == Some (msg_topic (event_message REQUEST_CHANNEL_CAPACITY))).

Definition reconnect_with_a_backlog_larger_than_the_channel_returns : bool :=
  let backlog := (REQUEST_CHANNEL_CAPACITY + 4)%nat in
  ok! publisher := publisher_with_events (Some "CP"%string) in
  let publisher := enqueue_all (in_state publisher Reconnecting) (seq 0 backlog) in
  let after := on_connack clock publisher in
  (length (p_buffer publisher) == backlog) && (p_state after == Connected) &&
  (length (p_buffer after) == (backlog + 1 - REQUEST_CHANNEL_CAPACITY)%nat) &&
  (front_topic after == Some (msg_topic (event_message (REQUEST_CHANNEL_CAPACITY - 1)))) && is_some (p_flush after).

Definition online_goes_ahead_of_the_backlog : bool :=
  ok! publisher := publisher_with_events (Some "CP"%string) in
  let full := enqueue_all (in_state publisher Connected) (seq 0 REQUEST_CHANNEL_CAPACITY) in
  let after := on_connack clock (enqueue_all (in_state full Reconnecting) [99%nat]) in
  some! online := head (p_buffer after) in
  (length (p_buffer full) == 0%nat) &&
  (msg_topic <$> p_buffer after == ["ocpp/CP/availability"; "ocpp/CP/charger/MeterValues99"]%string) &&
  (msg_payload online == "online"%string) && msg_retain online.

Definition connection_state_is_mirrored_into_the_shared_manager : bool :=
  ok! publisher := publisher_with_events (Some "CP"%string) in
  let publisher := on_connack clock (with_state_manager publisher manager_new) in
  let later := mqtt_set_state clock publisher Reconnecting in
  (mqtt_state <$> p_manager publisher == Some Connected) && (mqtt_state <$> p_manager later == Some Reconnecting).

(** ** Command results in the snapshot *)

Definition limit_result (act : string) (status : CommandStatus) (applied : option f64) : CommandResult :=
  let command := if decide (act = "SetChargingProfile"%string) then SetCurrentLimit (default fzero applied)
                 else ClearCurrentLimit in
  let r := for_request fixed_now (request_new fixed_now "r" command SourceMqtt) status None in
  mkResult (res_id r) (res_command r) (res_source r) (res_status r) (Some act) (res_requested_limit_a r) applied
    (res_ocpp_request r) (res_charger_response r) (res_detail r) (res_timestamp r).

Definition apply_result (r : CommandResult) (st : ChargePointState) : ChargePointState * bool :=
  apply_command_result fixed_now st r.

Definition test_accepted_limit_lands_in_the_snapshot_and_clear_removes_it : bool :=
  let '(st, c1) := apply_result (limit_result "SetChargingProfile" Accepted (Some (lit "16.0"))) cp_default in
  let '(st', c2) := apply_result (limit_result "ClearChargingProfile" Accepted None) st in
  c1 && (current_limit_a st == Some (lit "16.0")) && (current_limit_status st == Some "accepted"%string) &&
  is_some (current_limit_updated st) && is_some (last_updated st) &&
  c2 && (current_limit_a st' == None) && (current_limit_status st' == Some "accepted"%string).

Definition test_rejected_limit_records_the_status_but_keeps_the_standing_value : bool :=
  let '(st, _) := apply_result (limit_result "SetChargingProfile" Accepted (Some (lit "16.0"))) cp_default in
  let '(st, changed) := apply_result (limit_result "SetChargingProfile" Rejected (Some (lit "10.0"))) st in
  changed && (current_limit_a st == Some (lit "16.0")) && (current_limit_status st == Some "rejected"%string).

Definition test_repeated_identical_limit_result_reports_no_change : bool :=
  let r := limit_result "SetChargingProfile" Accepted (Some (lit "16.0")) in
  let '(st, c1) := apply_result r cp_default in
  let '(_, c2) := apply_result r st in
  c1 && negb c2.

Definition test_non_limit_results_leave_the_snapshot_alone : bool :=
  let r := for_request fixed_now (request_new fixed_now "r" (GetConfiguration []) SourceMqtt) Accepted None in
  let '(st, changed) := apply_result r cp_default in
  negb changed && cp_eqb st cp_default.

Definition test_snapshot_without_limit_keys_still_loads : bool :=
  let legacy := js "{'connector_status':'Available','error_code':'NoError',
            'transaction_id':null,'id_tag':null,'meter_start_wh':null,
            'last_meter_stop_wh':8084000,'last_session_energy_wh':7555,
            'last_transaction_id':1,'last_stop_reason':'Local','last_stop_time':null,
            'last_updated':'2026-09-01T07:22:16+00:00'}" in
  ok! v := from_str legacy in
  some! st := cp_of_value v in
  (current_limit_a st == None) && (current_limit_status st == None) && (last_meter_stop_wh st == Some 8084000).

Definition test_publisher_only_subscribes_when_given_a_router : bool :=
  ok! plain := new_publisher plaintext_config (Some "CP-1"%string) 10 store_disabled temp_dir in
  negb (commands_enabled plain) && commands_enabled (with_command_router plain ∅ ChargingConfig_default).

Definition mqtt_tests : list bool :=
  [test_state_topic; test_ocpp_args_index_follows_message_type_not_direction;
   test_status_notification_updates_snapshot; test_repeated_identical_status_reports_no_change;
   test_full_transaction_lifecycle; test_last_session_survives_the_next_session;
   test_stop_without_a_seen_start_reports_no_delta; test_stop_without_optional_fields;
   test_repeated_stop_transaction_reports_no_change; test_meter_values_never_changes_the_snapshot;
   test_malformed_frame_is_ignored; test_snapshot_serializes_to_the_documented_shape;
   test_availability_topic_construction; test_availability_topic_with_special_chars;
   test_message_topic_construction; test_message_topic_central_system_direction; test_status_topic_construction;
   test_exponential_backoff_for_mqtt; test_exponential_backoff_reset_for_mqtt;
   test_tls_config_fails_on_missing_ca_cert; test_tls_config_fails_on_missing_client_cert;
   test_tls_config_fails_on_missing_client_key; test_tls_config_succeeds_with_valid_files;
   test_mqtt_publisher_new_with_valid_config; test_publisher_restores_the_stored_snapshot;
   test_snapshot_change_is_persisted_even_when_disconnected; test_meter_values_does_not_write_the_file;
   test_mqtt_publisher_new_fails_with_invalid_certs; test_direction_str_charger_to_central;
   test_direction_str_central_to_charger; test_message_type_str_call; test_message_type_str_call_result;
   test_message_type_str_call_error; test_connection_state_str_all_states; test_mqtt_payload_serialization_call;
   test_mqtt_payload_serialization_call_result; test_mqtt_payload_serialization_call_error;
   test_status_payload_serialization; test_status_payload_all_state_combinations;
   test_message_topic_with_direction_helper; test_mqtt_payload_contains_full_ocpp_message;
   test_mqtt_payload_all_required_fields_present; enqueue_never_blocks_on_a_full_request_channel;
   reconnect_with_a_backlog_larger_than_the_channel_returns; online_goes_ahead_of_the_backlog;
   connection_state_is_mirrored_into_the_shared_manager;
   test_accepted_limit_lands_in_the_snapshot_and_clear_removes_it;
   test_rejected_limit_records_the_status_but_keeps_the_standing_value;
   test_repeated_identical_limit_result_reports_no_change; test_non_limit_results_leave_the_snapshot_alone;
   test_snapshot_without_limit_keys_still_loads; test_publisher_only_subscribes_when_given_a_router].

Lemma mqtt_tests_pass : all_pass mqtt_tests = true.
Proof. vm_compute. reflexivity. Qed.
