(* ===== verification/TestsNetwork.v ===== *)
(** * Unit tests of src/downstream.rs and src/upstream.rs

    The one test of the server's router is of a library's type and has no counterpart. *)

From Stdlib Require Import Ascii.
From S2P Require Import Prelude Float64 Json Text JsonText TestKit Models StateManager Config Command CallQueue.
From S2P Require Import Forwarder Upstream Downstream.

Local Open Scope Z_scope.
Local Open Scope test_scope.

(** ** The subprotocol *)

Definition test_validate_subprotocol_with_ocpp16 : bool := validate_subprotocol ["ocpp1.6"]%string.

Definition test_validate_subprotocol_with_multiple_including_ocpp16 : bool :=
  validate_subprotocol ["ocpp2.0"; "ocpp1.6"; "custom"]%string.

Definition test_validate_subprotocol_without_ocpp16 : bool := negb (validate_subprotocol ["ocpp2.0"; "custom"]%string).

Definition test_validate_subprotocol_empty_list : bool := negb (validate_subprotocol []).

Definition test_validate_subprotocol_case_sensitive : bool := negb (validate_subprotocol ["OCPP1.6"]%string).

Definition test_validate_subprotocol_similar_strings : bool :=
  negb (validate_subprotocol ["ocpp1.6j"; "ocpp1.6.1"; "ocpp16"]%string).

Definition test_validate_subprotocol_with_whitespace_in_value : bool := validate_subprotocol ["ocpp1.6"]%string.

Definition test_validate_subprotocol_partial_match : bool := negb (validate_subprotocol ["ocpp1."; "1.6"]%string).

Definition test_parse_subprotocol_header_single : bool := parse_subprotocol_header "ocpp1.6" == ["ocpp1.6"]%string.

Definition test_parse_subprotocol_header_multiple : bool :=
  parse_subprotocol_header "ocpp1.6, ocpp2.0, custom" == ["ocpp1.6"; "ocpp2.0"; "custom"]%string.

Definition test_parse_subprotocol_header_with_extra_spaces : bool :=
  parse_subprotocol_header "  ocpp1.6 ,  ocpp2.0  " == ["ocpp1.6"; "ocpp2.0"]%string.

Definition test_parse_subprotocol_header_empty : bool := parse_subprotocol_header "" == [].

Definition test_parse_subprotocol_header_single_with_whitespace : bool :=
  parse_subprotocol_header "  ocpp1.6  " == ["ocpp1.6"]%string.

Definition test_parse_subprotocol_header_commas_only : bool := parse_subprotocol_header ",,," == [].

(** ** The registry *)

Definition test_state : DownstreamState (list MqttEvent) (list CommandRequest) := downstream_new manager_new [].

Definition test_downstream_state_construction : bool := map_to_list (ds_connections test_state) == [].

(** [conns.insert], which gives back the connection that was there. *)
Definition insert_connection (conns : gmap string ActiveConnection) (id : string) (ac : ActiveConnection) :
    gmap string ActiveConnection * option ActiveConnection :=
  (<[id := ac]> conns, conns !! id).

(** Tokens 1 and 2; cancelling one is joining the cancelled ones. *)
Definition test_replacing_a_connection_cancels_the_old_one : bool :=
  let '(conns, _) := insert_connection (ds_connections test_state) "CP1" (mkActive 1 1) in
  let '(conns, displaced) := insert_connection conns "CP1" (mkActive 2 2) in
  some! displaced := displaced in
  let cancelled : gset nat := {[ac_cancel displaced]} in
  bool_decide (1%nat ∈ cancelled) && negb (bool_decide (2%nat ∈ cancelled)).

Definition test_displaced_connection_does_not_deregister_its_replacement : bool :=
  let '(conns, _) := insert_connection (ds_connections test_state) "CP1" (mkActive 1 1) in
  let '(conns, _) := insert_connection conns "CP1" (mkActive 2 2) in
  let displaced_generation := 1 in
  let is_mine := match conns !! "CP1"%string with Some c => ac_generation c =? displaced_generation | None => false end in
  let conns := if is_mine then delete "CP1"%string conns else conns in
  some! active := conns !! "CP1"%string in ac_generation active == 2.

Definition downstream_tests : list bool :=
  [test_validate_subprotocol_with_ocpp16; test_validate_subprotocol_with_multiple_including_ocpp16;
   test_validate_subprotocol_without_ocpp16; test_validate_subprotocol_empty_list;
   test_validate_subprotocol_case_sensitive; test_validate_subprotocol_similar_strings;
   test_validate_subprotocol_with_whitespace_in_value; test_validate_subprotocol_partial_match;
   test_parse_subprotocol_header_single; test_parse_subprotocol_header_multiple;
   test_parse_subprotocol_header_with_extra_spaces; test_parse_subprotocol_header_empty;
   test_parse_subprotocol_header_single_with_whitespace; test_parse_subprotocol_header_commas_only;
   test_downstream_state_construction; test_replacing_a_connection_cancels_the_old_one;
   test_displaced_connection_does_not_deregister_its_replacement].

Lemma downstream_tests_pass : all_pass downstream_tests = true.
Proof. vm_compute. reflexivity. Qed.

(** ** URLs *)

(** A URL of plain characters: scheme, authority, path. *)
Record TextUrl := mkTextUrl { tu_scheme : string; tu_authority : string; tu_path : string }.

Definition authority_parts (u : TextUrl) : list string := split ":"%char (tu_authority u).

#[local] Instance text_url : UrlLib TextUrl := {
  url_path := tu_path;
  set_path u p := mkTextUrl (tu_scheme u) (tu_authority u) p;
  url_as_str u := tu_scheme u +:+ "://" +:+ tu_authority u +:+ tu_path u;
  host_str u := head (authority_parts u);
  port_or_known_default u :=
    match authority_parts u with
    | [_; port] => let '(z, _, _) := take_digits 0 0 (chars port) in Some z
    | _ => if bool_decide (tu_scheme u = "wss"%string) then Some 443 else Some 80
    end
}.

(** [Url::parse]: a URL without a path gets the path [/]. *)
Definition parse_url (text : string) : TextUrl :=
  match split "/"%char text with
  | scheme :: _ :: authority :: segments =>
      mkTextUrl (of_chars (removelast (chars scheme))) authority ("/" +:+ String.concat "/" segments)
  | _ => mkTextUrl text "" "/"
  end.

Definition built (base id : string) : string := url_as_str (build_upstream_url (parse_url base) id).

Definition test_build_upstream_url_basic : bool := built "wss://cs.mobi-e.pt" "CP001" == "wss://cs.mobi-e.pt/CP001"%string.

Definition test_build_upstream_url_with_trailing_slash : bool :=
  built "wss://cs.mobi-e.pt/" "CP001" == "wss://cs.mobi-e.pt/CP001"%string.

Definition test_build_upstream_url_with_path : bool :=
  built "wss://cs.mobi-e.pt/ocpp" "CHARGE_POINT_42" == "wss://cs.mobi-e.pt/ocpp/CHARGE_POINT_42"%string.

Definition test_build_upstream_url_with_port : bool :=
  built "ws://localhost:8080" "test-cp" == "ws://localhost:8080/test-cp"%string.

Definition test_build_upstream_url_matches_the_mobie_endpoint : bool :=
  built "ws://10.0.0.10/ocpp/1.6" "CP-EXAMPLE-0001" == "ws://10.0.0.10/ocpp/1.6/CP-EXAMPLE-0001"%string.

(** [str::ends_with]. *)
Definition ends_with (suffix s : string) : bool :=
  is_some (strip_prefix (reverse (chars suffix)) (reverse (chars s))).

Definition test_build_upstream_url_preserves_charge_point_id : bool :=
  forallb (λ id, ends_with id (built "wss://central-system.example.com" id))
    ["PT-MOB-CP-12345-AB"; "CP-EXAMPLE-0001"; "lowercase-id"; "ID_WITH_UNDERSCORES"; "1234567890"]%string.

(** ** Connecting *)

Definition test_backoff_sequence_matches_requirements : bool :=
  some! (ds, _) := delays 7 (backoff_with_defaults (from_secs 2) (from_secs 60)) in
  ds == (from_secs <$> [2; 4; 8; 16; 32; 60; 60]).

Definition test_connect_timeout_constant : bool := CONNECT_TIMEOUT == from_secs 10.

(** A host on which nothing listens on port 1 and 203.0.113.99 is not local. *)
#[local] Instance closed_network : Network SampleNet (string * list (string * string)) string nat unit unit := {
  into_client_request url := Ok (url, []);
  header_value v := Ok v;
  insert_header req n v := (req.1, (n, v) :: req.2);
  net_now := sn_now;
  lookup_host _ _ port n := (n, Some (Ok [(V4 (127 * 2 ^ 24 + 1), port)]));
  new_v4 := sn_socket;
  new_v6 := sn_socket;
  sock_bind := sn_bind;
  sock_connect dl s a n := sn_connect dl s a n;
  connect_async_tls _ _ n := (n, Some (Err "Connection refused"%string));
  client_async_tls dl req _ n := sn_handshake dl req n
}.

Definition localhost : SampleNet := mkSampleNet 0 [V4 (127 * 2 ^ 24 + 1)] (Ok []) [] [] [] ∅ 0 [].

Definition connects (bind : option IpAddr) : result unit ProxyError :=
  (connect_upstream (parse_url "ws://127.0.0.1:1/ocpp") "ocpp1.6" bind (from_secs 2) localhost).2.

Definition test_connect_upstream_fails_fast_on_closed_port : bool := is_err (connects None).

Definition test_connect_upstream_rejects_unusable_bind_address : bool :=
  is_err (connects (Some (V4 (203 * 2 ^ 24 + 113 * 2 ^ 8 + 99)))).

Definition upstream_tests : list bool :=
  [test_build_upstream_url_basic; test_build_upstream_url_with_trailing_slash; test_build_upstream_url_with_path;
   test_build_upstream_url_with_port; test_build_upstream_url_matches_the_mobie_endpoint;
   test_build_upstream_url_preserves_charge_point_id; test_backoff_sequence_matches_requirements;
   test_connect_timeout_constant; test_connect_upstream_fails_fast_on_closed_port; test_connect_upstream_rejects_unusable_bind_address].

Lemma upstream_tests_pass : all_pass upstream_tests = true.
Proof. vm_compute. reflexivity. Qed.
