(* ===== verification/TestsMain.v ===== *)
(** * Unit tests of src/shutdown.rs and src/logging.rs

    A task that waits on a token is its condition; the tests that only call a logging
    function look at the record it makes. *)

From S2P Require Import Prelude Float64 Json Text JsonText TestKit Models Config Logging Shutdown.

Local Open Scope Z_scope.
Local Open Scope test_scope.

#[local] Existing Instance level_filter.

(** ** Shutdown *)

(** A process without tokens, and a coordinator made in it. *)
Definition no_tokens : Tokens := mkTokens ∅ ∅.

Definition test_shutdown_coordinator_new : bool :=
  let '(w, coordinator) := coordinator_new no_tokens in negb (is_shutting_down w coordinator).

Definition test_shutdown_coordinator_default : bool :=
  let '(w, coordinator) := coordinator_new no_tokens in negb (is_shutting_down w coordinator).

Definition test_initiate_shutdown_cancels_token : bool :=
  let '(w, coordinator) := coordinator_new no_tokens in
  negb (is_shutting_down w coordinator) && is_shutting_down (initiate_shutdown w coordinator) coordinator.

Definition test_token_clone_shares_state : bool :=
  let '(w, coordinator) := coordinator_new no_tokens in
  let token := coordinator_token coordinator in
  negb (token_is_cancelled w token) && token_is_cancelled (initiate_shutdown w coordinator) token.

Definition test_multiple_tokens_all_cancelled : bool :=
  let '(w, coordinator) := coordinator_new no_tokens in
  let tokens := [coordinator_token coordinator; coordinator_token coordinator; coordinator_token coordinator] in
  forallb (token_is_cancelled (initiate_shutdown w coordinator)) tokens.

Definition test_coordinator_clone_shares_state : bool :=
  let '(w, coordinator) := coordinator_new no_tokens in
  let cloned := coordinator in is_shutting_down (initiate_shutdown w coordinator) cloned.

Definition test_constants : bool :=
  (INFLIGHT_TIMEOUT == from_secs 10) && (CLOSE_ACK_TIMEOUT == from_secs 5) && (MQTT_STARTUP_TIMEOUT == from_secs 10).

(** The clock when the instant is taken and when it is looked at. *)
Definition test_log_startup_begin_returns_instant : bool :=
  let c : Clock := {| utc_now := 0; instant_now := from_secs 7 |} in
  let '(start, _) := log_startup_begin c in Z.max 0 (instant_now c - start) <? from_secs 1.

Definition test_token_cancelled_is_awaitable : bool :=
  let '(w, coordinator) := coordinator_new no_tokens in
  let token := coordinator_token coordinator in token_is_cancelled (initiate_shutdown w coordinator) token.

Definition test_wait_for_shutdown_signal_ctrl_c : bool :=
  let '(w, coordinator) := coordinator_new no_tokens in
  let token := coordinator_token coordinator in
  let coordinator_clone := coordinator in
  let w := initiate_shutdown w coordinator_clone in
  token_is_cancelled w token && is_shutting_down w coordinator.

(** ** Logging *)

(** The text of the filter is its level here. *)
Definition filter_text (level : LogLevel) : string :=
  match build_env_filter (F := option Level) None level with
  | Some LDebug => "debug" | Some LInfo => "info" | Some LWarn => "warn" | Some LError => "error" | None => ""
  end.

Definition test_build_env_filter_debug : bool :=
  contains "debug" (filter_text Debug) || negb (filter_text Debug == ""%string).
Definition test_build_env_filter_info : bool :=
  contains "info" (filter_text Info) || negb (filter_text Info == ""%string).
Definition test_build_env_filter_warning : bool :=
  contains "warn" (filter_text Warning) || negb (filter_text Warning == ""%string).
Definition test_build_env_filter_error : bool :=
  contains "error" (filter_text Error) || negb (filter_text Error == ""%string).

Definition test_log_latency_warning_below_threshold : bool :=
  (length (log_latency_warning (from_millis 200) "test-id-123" "charger_to_central") =? 0)%nat.

Definition test_log_latency_warning_above_threshold : bool :=
  (length (log_latency_warning (from_millis 600) "test-id-456" "central_to_charger") =? 1)%nat.

Definition test_log_ocpp_message_summary_does_not_panic : bool :=
  (length (log_ocpp_message_summary "Call" "BootNotification" "unique-123" "charger_to_central") =? 1)%nat.

Definition test_log_connection_state_change_does_not_panic : bool :=
  (length (log_connection_state_change "upstream" "disconnected" "connecting") =? 1)%nat.

Definition test_log_error_with_unique_id : bool :=
  (length (log_error "forwarding" "downstream" (Some "msg-789"%string) "Failed to deliver message") =? 1)%nat.

Definition test_log_error_without_unique_id : bool :=
  (length (log_error "connection_mqtt" "mqtt" None "Broker connection timeout") =? 1)%nat.

Definition shutdown_tests : list bool :=
  [test_shutdown_coordinator_new; test_shutdown_coordinator_default; test_initiate_shutdown_cancels_token;
   test_token_clone_shares_state; test_multiple_tokens_all_cancelled; test_coordinator_clone_shares_state;
   test_constants; test_log_startup_begin_returns_instant; test_token_cancelled_is_awaitable;
   test_wait_for_shutdown_signal_ctrl_c].

Definition logging_tests : list bool :=
  [test_build_env_filter_debug; test_build_env_filter_info; test_build_env_filter_warning; test_build_env_filter_error;
   test_log_latency_warning_below_threshold; test_log_latency_warning_above_threshold;
   test_log_ocpp_message_summary_does_not_panic; test_log_connection_state_change_does_not_panic;
   test_log_error_with_unique_id; test_log_error_without_unique_id].

Lemma shutdown_tests_pass : all_pass shutdown_tests = true.
Proof. vm_compute. reflexivity. Qed.

Lemma logging_tests_pass : all_pass logging_tests = true.
Proof. vm_compute. reflexivity. Qed.
