(* ===== verification/Conformance.v ===== *)
(** * The repository's unit tests, all of them that have a counterpart

    Every [#[test]] of src/ whose subject is the repository's own code is a boolean of one
    of the files Tests*.v, run on the development's definitions. *)

From S2P Require Import Prelude TestKit TestsModels TestsCommand TestsConfig TestsForwarder TestsStore TestsMqtt.
From S2P Require Import TestsNetwork TestsMain.

(** By module of src/. *)
Definition unit_tests : list (string * list bool) :=
  [("error, models, state, health", models_tests); ("command", command_tests); ("config", config_tests);
   ("forwarder", forwarder_tests); ("snapshot_store", store_tests); ("mqtt", mqtt_tests);
   ("downstream", downstream_tests); ("upstream", upstream_tests); ("shutdown", shutdown_tests);
   ("logging", logging_tests)]%string.

(** A regression check of the definitions, on fixed inputs: they pass the repository's own unit
    tests, the 240 of them that have a counterpart here, each with the inputs and the
    expectations of its source. *)
Theorem unit_tests_pass :
  length (concat (snd <$> unit_tests)) = 240 ∧ Forall (λ b, b = true) (concat (snd <$> unit_tests)).
Proof.
  split; [vm_compute; reflexivity|].
  assert (Forall (λ tests, all_pass tests = true) (snd <$> unit_tests)) as Hall.
  { unfold unit_tests. cbn [fmap list_fmap snd].
    repeat (apply Forall_cons_2; [|]); [apply models_tests_pass|apply command_tests_pass|apply config_tests_pass
      |apply forwarder_tests_pass|apply store_tests_pass|apply mqtt_tests_pass|apply downstream_tests_pass
      |apply upstream_tests_pass|apply shutdown_tests_pass|apply logging_tests_pass|apply Forall_nil_2]. }
  apply Forall_concat. eapply Forall_impl; [exact Hall|]. intros tests Ht. by apply all_pass_forall.
Qed.
