(* ===== verification/PropertyTests.v ===== *)
(** * The repository's property tests (tests/property_*.rs)

    A property test draws inputs at random and asserts on them. Here each is a boolean of
    its inputs, and a theorem says that it is true of all of them, within the bounds its
    strategy states where it depends on them. A loop of a test is [for_each] over the range
    or list it runs over. *)

From Stdlib Require Import Ascii.
From S2P Require Import Prelude Float64 Json Text JsonText TestKit Models StateManager Config Command CallQueue.
From S2P Require Import Forwarder Upstream ChargePoint SnapshotStore Publisher Downstream.

Local Open Scope nat_scope.
Local Open Scope test_scope.

(** ** Loops with assertions *)

Fixpoint for_each {A S} (l : list A) (body : A → S → S * bool) (s : S) : S * bool :=
  match l with
  | [] => (s, true)
  | x :: l => let '(s, ok) := body x s in if ok then for_each l body s else (s, false)
  end.

Lemma for_each_ok {A S} (I : list A → S → Prop) l body s :
  I [] s →
  (∀ before x after s, l = before ++ x :: after → I before s → (body x s).2 = true ∧ I (before ++ [x]) (body x s).1) →
  (for_each l body s).2 = true ∧ I l (for_each l body s).1.
Proof.
  intros H0 Hb.
  assert (∀ before after s, l = before ++ after → I before s →
            (for_each after body s).2 = true ∧ I l (for_each after body s).1) as Hall.
  { intros before after. revert before. induction after as [|x after IH]; intros before s1 El Hs; simpl.
    { rewrite app_nil_r in El. by subst. }
    destruct (Hb before x after s1 El Hs) as [Hok Hs']. destruct (body x s1) as [s2 ok]. simpl in *. subst ok.
    apply (IH (before ++ [x])); [by rewrite <- app_assoc|done]. }
  by apply (Hall []).
Qed.

(** What a loop over [0..n] is at. *)
Lemma seq_middle n before x after : seq 0 n = before ++ x :: after → x = length before.
Proof.
  intros El. assert (length before < n) as Hl by (rewrite <- (length_seq n 0), El, length_app; simpl; lia).
  pose proof (lookup_seq_lt 0 n (length before) Hl) as Hx. rewrite El, list_lookup_middle in Hx by done. by simplify_eq/=.
Qed.

(** ** Decimal numbers: [format!("{}", n)] and [parse::<usize>()] *)

Definition digit (c : ascii) : option N :=
  let z := code c in if ((48 <=? z) && (z <=? 57))%Z then Some (Z.to_N (z - 48)) else None.

Fixpoint digits (acc : N) (l : list ascii) : option N :=
  match l with
  | [] => Some acc
  | c :: l => d ← digit c; digits (acc * 10 + d)%N l
  end.

(** No sign is met here, so none is read. *)
Definition parse_usize (s : string) : option nat :=
  match chars s with
  | [] => None
  | l => n ← digits 0 l; if (n <? 2 ^ 64)%N then Some (N.to_nat n) else None
  end.

Lemma digit_char n : (n < 10)%N → digit (pretty_N_char n) = Some n.
Proof.
  intros Hn. assert (n = 0 ∨ n = 1 ∨ n = 2 ∨ n = 3 ∨ n = 4 ∨ n = 5 ∨ n = 6 ∨ n = 7 ∨ n = 8 ∨ n = 9)%N as Hc by lia.
  repeat (destruct Hc as [->|Hc]; [reflexivity|]). by subst.
Qed.

Lemma digits_pretty n s : digits 0 (chars (pretty_N_go n s)) = digits n (chars s).
Proof.
  revert s. induction (N.lt_wf_0 n) as [n _ IH]; intros s. destruct (decide (n = 0)%N) as [->|Hn]; [done|].
  rewrite pretty_N_go_step by lia. rewrite IH by (apply N.div_lt; lia). simpl. rewrite digit_char by (apply N.mod_lt; lia).
  simpl. f_equal. pose proof (N.div_mod n 10). lia.
Qed.

Lemma parse_pretty n : (N.of_nat n < 2 ^ 64)%N → parse_usize (pretty n) = Some n.
Proof.
  intros Hn. unfold parse_usize. change (pretty n) with (pretty (N.of_nat n)).
  assert (digits 0 (chars (pretty (N.of_nat n))) = Some (N.of_nat n) ∧ chars (pretty (N.of_nat n)) ≠ []) as [E Hne].
  { unfold pretty, pretty_N. case_decide as H0; [by rewrite H0|]. split; [apply (digits_pretty _ "")|].
    rewrite pretty_N_go_step by lia. intros En.
    assert (∀ m c s, chars (pretty_N_go m (String c s)) ≠ []) as Hm.
    { intros m. induction (N.lt_wf_0 m) as [m _ IH]; intros c s. destruct (decide (m = 0)%N) as [->|Hm]; [done|].
      rewrite pretty_N_go_step by lia. apply IH, N.div_lt; lia. }
    by apply Hm in En. }
  destruct (chars (pretty (N.of_nat n))); [done|]. rewrite E. simpl.
  assert ((N.of_nat n <? 2 ^ 64)%N = true) as -> by (by apply N.ltb_lt). by rewrite Nat2N.id.
Qed.

(** ** Bounded buffers: tests/property_buffer_eviction.rs and tests/property_mqtt_buffer.rs

    The two files make the same five assertions on their buffers, stated once here. *)

(** [windows(2)], each in strictly ascending order. *)
Fixpoint ascending (l : list nat) : bool :=
  match l with
  | a :: (b :: _) as rest => (a <? b) && ascending rest
  | _ => true
  end.

Definition index_of (prefix s : string) : option nat :=
  rest ← strip_prefix (chars prefix) (chars s); parse_usize (of_chars rest).

Section buffers.
Context {S E : Type} (new : nat → S) (push : S → E → S) (held : S → list E) (make : nat → E) (name : E → string) (prefix : string).

Definition fill (size count : nat) : S := foldl push (new size) (make <$> seq 0 count).

Definition never_exceeds_capacity (size count : nat) : bool :=
  (for_each (seq 0 count) (λ i s, let s := push s (make i) in (s, length (held s) <=? size)) (new size)).2.

Definition contains_most_recent (size count : nat) : bool :=
  let s := fill size count in
  let expected_len := count `min` size in
  let first_retained_index := count - expected_len in
  (length (held s) == expected_len) &&
  forallb (λ '(buf_pos, e), name e == (prefix +:+ pretty (first_retained_index + buf_pos))%string) (imap pair (held s)).

Definition evicts_oldest (size count : nat) : bool :=
  let s := fill size count in
  if size <? count
  then forallb (λ evicted_idx, negb (bool_decide ((prefix +:+ pretty evicted_idx)%string ∈ name <$> held s))) (seq 0 (count - size))
  else true.

Definition fifo_eviction (size extra_messages : nat) : bool :=
  let s := fill size size in
  (length (held s) == size) &&
  (for_each (seq 0 extra_messages) (λ extra s,
     let new_index := size + extra in
     let oldest_before := name <$> head (held s) in
     let s := push s (make new_index) in
     (s, (length (held s) == size) &&
         match oldest_before with
         | Some old => default ""%string (name <$> head (held s)) != old
         | None => true
         end &&
         (some! back := last (held s) in name back == (prefix +:+ pretty new_index)%string))) s).2.

Definition fifo_ordering (size count : nat) : bool :=
  some! indices := mapM (λ e, index_of prefix (name e)) (held (fill size count)) in ascending indices.

(** *** They hold of any buffer that evicts its oldest entry when full *)

Context (size : nat) (size_pos : 0 < size) (inv : S → Prop) (inv_new : inv (new size)) (held_new : held (new size) = []).
Context (inv_push : ∀ s e, inv s → inv (push s e) ∧ held (push s e) = push_bounded size (held s) e).
Context (name_make : ∀ i, name (make i) = (prefix +:+ pretty i)%string).

Lemma last_n_indices n : last_n size (make <$> seq 0 n) = make <$> seq (n - size) (n `min` size).
Proof.
  unfold last_n. rewrite length_fmap, length_seq, <- fmap_drop. f_equal.
  replace (seq 0 n) with (seq 0 (n - size) ++ seq (n - size) (n `min` size)).
  2:{ rewrite <- seq_app. f_equal. lia. }
  rewrite drop_app_length'; [done|]. by rewrite length_seq.
Qed.

Definition filled (n : nat) (s : S) : Prop := inv s ∧ held s = last_n size (make <$> seq 0 n).

Lemma filled_new : filled 0 (new size).
Proof. by split. Qed.

Lemma filled_push n s : filled n s → filled (n + 1) (push s (make n)).
Proof.
  intros [Hi Hh]. destruct (inv_push s (make n) Hi) as [Hi' Eh]. split; [done|].
  rewrite Eh, Hh, push_last_n by done. by rewrite seq_app, fmap_app.
Qed.

Lemma filled_fill n : filled n (fill size n).
Proof.
  unfold fill. induction n as [|n IH]; [apply filled_new|]. replace (Datatypes.S n) with (n + 1) by lia.
  rewrite seq_app, fmap_app, foldl_app. by apply filled_push.
Qed.

Lemma filled_held n s : filled n s → held s = make <$> seq (n - size) (n `min` size).
Proof. intros [_ ->]. apply last_n_indices. Qed.

Lemma name_inj (i j : nat) : (prefix +:+ pretty i)%string = (prefix +:+ pretty j)%string → i = j.
Proof. intros Ep%(inj (String.app prefix)). by apply (inj pretty) in Ep. Qed.

Lemma never_exceeds_holds count : never_exceeds_capacity size count = true.
Proof.
  unfold never_exceeds_capacity.
  apply (for_each_ok (λ l s, filled (length l) s)); [apply filled_new|]. intros before x after s El Hs.
  assert (x = length before) as -> by (by eapply seq_middle).
  apply filled_push in Hs. rewrite length_app. simpl. split; [|done].
  rewrite (filled_held _ _ Hs), length_fmap, length_seq. apply Nat.leb_le. lia.
Qed.

Lemma most_recent_holds count : contains_most_recent size count = true.
Proof.
  unfold contains_most_recent. rewrite (filled_held _ _ (filled_fill count)).
  apply andb_true_iff. split; [apply bool_decide_eq_true; by rewrite length_fmap, length_seq|].
  apply forallb_forall. intros [pos e] Hin%list_elem_of_In. apply elem_of_lookup_imap in Hin as (i & e' & [= <- <-] & Hi).
  apply list_lookup_fmap_Some in Hi as (j & -> & Hj). apply lookup_seq in Hj as [-> Hj].
  apply bool_decide_eq_true. rewrite name_make. do 3 f_equal. lia.
Qed.

Lemma evicts_oldest_holds count : evicts_oldest size count = true.
Proof.
  unfold evicts_oldest. destruct (size <? count); [|done]. rewrite (filled_held _ _ (filled_fill count)).
  apply forallb_forall. intros i Hi%list_elem_of_In. apply elem_of_seq in Hi.
  apply negb_true_iff, bool_decide_eq_false. intros (e & En & (j & -> & Hj)%list_elem_of_fmap)%list_elem_of_fmap.
  rewrite name_make in En. apply name_inj in En. apply elem_of_seq in Hj. lia.
Qed.

Lemma fifo_eviction_holds extra_messages : fifo_eviction size extra_messages = true.
Proof.
  unfold fifo_eviction. rewrite (filled_held _ _ (filled_fill size)), length_fmap, length_seq. apply andb_true_iff.
  split; [apply bool_decide_eq_true; lia|].
  apply (for_each_ok (λ l s, filled (size + length l) s)); [simpl; rewrite Nat.add_0_r; apply filled_fill|].
  intros before x after s El Hs.
  assert (x = length before) as -> by (by eapply seq_middle). pose proof (filled_push _ _ Hs) as Hs'.
  rewrite length_app. cbv zeta. simpl. split; [|by rewrite Nat.add_assoc].
  pose proof (filled_held _ _ Hs) as Eh. pose proof (filled_held _ _ Hs') as Eh'. rewrite Eh, Eh'.
  rewrite length_fmap, length_seq. destruct size as [|m]; [lia|].
  replace ((Datatypes.S m + length before) `min` Datatypes.S m) with (Datatypes.S m) by lia.
  replace ((Datatypes.S m + length before + 1) `min` Datatypes.S m) with (m + 1) by lia.
  rewrite (seq_app m 1), fmap_app. cbn [seq fmap list_fmap]. rewrite last_snoc, !andb_true_iff. split_and!.
  - apply bool_decide_eq_true. lia.
  - apply negb_true_iff, bool_decide_eq_false. destruct m; simpl; rewrite !name_make; intros En%name_inj; lia.
  - apply bool_decide_eq_true. rewrite name_make. do 2 f_equal. lia.
Qed.

Lemma index_name (i : nat) : (N.of_nat i < 2 ^ 64)%N → index_of prefix (prefix +:+ pretty i) = Some i.
Proof.
  intros Hi. unfold index_of. assert (∀ s, strip_prefix (chars prefix) (chars (prefix +:+ s)) = Some (chars s)) as ->.
  { intros s. clear. induction prefix as [|c p IH]; simpl; [done|]. by rewrite decide_True. }
  simpl. unfold of_chars, chars. rewrite String.string_of_list_ascii_of_string. by apply parse_pretty.
Qed.

Lemma fifo_ordering_holds count : (N.of_nat count < 2 ^ 64)%N → fifo_ordering size count = true.
Proof.
  intros Hc. unfold fifo_ordering. rewrite (filled_held _ _ (filled_fill count)).
  assert (∀ n k, k + n <= count → mapM (λ e, index_of prefix (name e)) (make <$> seq k n) = Some (seq k n)) as Hm.
  { intros n. induction n as [|n IH]; intros k Hk; [done|]. simpl. rewrite name_make, index_name by lia. simpl.
    rewrite IH by lia. done. }
  rewrite Hm by lia. generalize (count - size) (count `min` size). clear. intros k n. revert k.
  induction n as [|[|n] IH]; intros k; [done..|]. cbn [seq ascending]. apply andb_true_iff.
  split; [apply Nat.ltb_lt; lia|apply (IH (Datatypes.S k))].
Qed.
End buffers.

#[local] Existing Instance calendar.

(** A channel nobody reads from. *)
Definition test_forwarder (max_buffer_size : nat) : MessageForwarder (list MqttEvent) :=
  forwarder_new [] max_buffer_size (from_secs 30) (from_secs 300).

Section eviction.
Context (now : Z) (max_buffer_size : nat).

Definition make_test_frame (index : nat) : OcppFrame :=
  mkFrame (js "[2, 'msg-" +:+ pretty index +:+ js "', 'Heartbeat', {}]") (Call "Heartbeat")
    ("msg-" +:+ pretty index) now.

Definition upstream_buffer_never_exceeds_capacity (message_count : nat) : bool :=
  never_exceeds_capacity test_forwarder buffer_upstream upstream_buffer make_test_frame max_buffer_size message_count.
Definition downstream_buffer_never_exceeds_capacity (message_count : nat) : bool :=
  never_exceeds_capacity test_forwarder buffer_downstream downstream_buffer make_test_frame max_buffer_size message_count.
Definition buffer_contains_most_recent_messages (message_count : nat) : bool :=
  contains_most_recent test_forwarder buffer_upstream upstream_buffer make_test_frame unique_id "msg-" max_buffer_size message_count.
Definition evicted_messages_are_not_in_buffer (message_count : nat) : bool :=
  evicts_oldest test_forwarder buffer_downstream downstream_buffer make_test_frame unique_id "msg-" max_buffer_size message_count.
Definition fifo_eviction_removes_oldest_first (extra_messages : nat) : bool :=
  fifo_eviction test_forwarder buffer_upstream upstream_buffer make_test_frame unique_id "msg-" max_buffer_size extra_messages.
Definition buffer_maintains_fifo_ordering (message_count : nat) : bool :=
  fifo_ordering test_forwarder buffer_upstream upstream_buffer make_test_frame unique_id "msg-" max_buffer_size message_count.

Lemma eviction_tests_hold (max_buffer_size_pos : 0 < max_buffer_size) count :
  Forall (λ b, b = true)
    [upstream_buffer_never_exceeds_capacity count; downstream_buffer_never_exceeds_capacity count;
     buffer_contains_most_recent_messages count; evicted_messages_are_not_in_buffer count;
     fifo_eviction_removes_oldest_first count] ∧
  ((N.of_nat count < 2 ^ 64)%N → buffer_maintains_fifo_ordering count = true).
Proof.
  set (inv := λ fwd : MessageForwarder (list MqttEvent), Forwarder.max_buffer_size fwd = max_buffer_size).
  assert (∀ fwd e, inv fwd → inv (buffer_upstream fwd e) ∧
            upstream_buffer (buffer_upstream fwd e) = push_bounded max_buffer_size (upstream_buffer fwd) e) as Hu.
  { intros fwd e Hf. by unfold buffer_upstream; simpl; rewrite Hf. }
  assert (∀ fwd e, inv fwd → inv (buffer_downstream fwd e) ∧
            downstream_buffer (buffer_downstream fwd e) = push_bounded max_buffer_size (downstream_buffer fwd) e) as Hd.
  { intros fwd e Hf. by unfold buffer_downstream; simpl; rewrite Hf. }
  split; [repeat apply Forall_cons_2; [..|apply Forall_nil_2]|].
  - by eapply never_exceeds_holds with (inv := inv).
  - by eapply never_exceeds_holds with (inv := inv).
  - by eapply most_recent_holds with (inv := inv).
  - by eapply evicts_oldest_holds with (inv := inv).
  - by eapply fifo_eviction_holds with (inv := inv).
  - by eapply fifo_ordering_holds with (inv := inv).
Qed.
End eviction.

(** The [buffer_message] that tests/property_mqtt_buffer.rs defines for itself, after the
    pattern of the publisher's; that the two do the same is [test_buffer_message_real]. *)
Section mqtt_buffer.
Context (max_buffer_size : nat).

Definition test_buffer_message (buffer : list MqttMessage) (message : MqttMessage) : list MqttMessage :=
  push_bounded max_buffer_size buffer message.

Lemma test_buffer_message_real {T R} (p : MqttPublisher T R) message :
  p_max_buffer_size p = max_buffer_size →
  p_buffer (Publisher.buffer_message p message) = test_buffer_message (p_buffer p) message.
Proof. intros E. unfold Publisher.buffer_message, test_buffer_message. simpl. by rewrite E. Qed.

Definition make_test_mqtt_message (index : nat) : MqttMessage :=
  mkMessage ("ocpp/CP001/charger/Heartbeat-" +:+ pretty index) ("payload-" +:+ pretty index) AtLeastOnce false.

(** The five, on an empty queue. *)
Abbreviation on_queue test :=
  (test (λ _ : nat, []) test_buffer_message (λ buffer : list MqttMessage, buffer) make_test_mqtt_message).

Definition mqtt_buffer_never_exceeds_capacity (event_count : nat) : bool :=
  on_queue never_exceeds_capacity max_buffer_size event_count.
Definition mqtt_buffer_contains_most_recent_messages (event_count : nat) : bool :=
  on_queue contains_most_recent msg_topic "ocpp/CP001/charger/Heartbeat-" max_buffer_size event_count.
Definition mqtt_buffer_evicts_oldest_first (event_count : nat) : bool :=
  on_queue evicts_oldest msg_topic "ocpp/CP001/charger/Heartbeat-" max_buffer_size event_count.
Definition mqtt_buffer_fifo_eviction_removes_oldest (extra_messages : nat) : bool :=
  on_queue fifo_eviction msg_topic "ocpp/CP001/charger/Heartbeat-" max_buffer_size extra_messages.
Definition mqtt_buffer_maintains_fifo_ordering (event_count : nat) : bool :=
  on_queue fifo_ordering msg_topic "ocpp/CP001/charger/Heartbeat-" max_buffer_size event_count.

Lemma mqtt_buffer_tests_hold (max_buffer_size_pos : 0 < max_buffer_size) count :
  Forall (λ b, b = true)
    [mqtt_buffer_never_exceeds_capacity count; mqtt_buffer_contains_most_recent_messages count;
     mqtt_buffer_evicts_oldest_first count; mqtt_buffer_fifo_eviction_removes_oldest count] ∧
  ((N.of_nat count < 2 ^ 64)%N → mqtt_buffer_maintains_fifo_ordering count = true).
Proof.
  split; [repeat apply Forall_cons_2; [..|apply Forall_nil_2]|].
  - by eapply never_exceeds_holds with (inv := λ _, True).
  - by eapply most_recent_holds with (inv := λ _, True).
  - by eapply evicts_oldest_holds with (inv := λ _, True).
  - by eapply fifo_eviction_holds with (inv := λ _, True).
  - by eapply fifo_ordering_holds with (inv := λ _, True).
Qed.
End mqtt_buffer.

(** With the default of 500; the length at the end is asserted too. *)
Definition mqtt_buffer_default_capacity_500 (event_count : nat) : bool :=
  mqtt_buffer_never_exceeds_capacity 500 event_count &&
  (length (fill (λ _, []) (test_buffer_message 500) make_test_mqtt_message 500 event_count) == event_count `min` 500).

Lemma mqtt_default_holds count : mqtt_buffer_default_capacity_500 count = true.
Proof.
  apply andb_true_iff. split; [apply (Forall_inv (proj1 (mqtt_buffer_tests_hold 500 ltac:(lia) count)))|].
  apply bool_decide_eq_true.
  pose proof (most_recent_holds (λ _ : nat, []) (test_buffer_message 500) (λ buffer, buffer) make_test_mqtt_message msg_topic
    "ocpp/CP001/charger/Heartbeat-" 500 ltac:(lia) (λ _, True) I eq_refl (λ s e _, conj I eq_refl) (λ _, eq_refl) count) as Hr.
  unfold contains_most_recent in Hr. apply andb_true_iff in Hr as [Hr%bool_decide_eq_true _]. exact Hr.
Qed.

(** ** tests/property_message_ordering.rs *)

(** [RecordingSink] and the list it shares with the test. *)
Record RecordingSink := mkRecording { recorded : list string }.

#[local] Instance recording_sink : MessageSink RecordingSink :=
  { send_raw sink raw := (mkRecording (recorded sink ++ [raw]), Ok ()) }.

#[local] Program Instance recording_sink_laws : MessageSinkLaws RecordingSink := { delivered := recorded }.
Next Obligation. intros s text s' r [= <- <-]. done. Qed.

(** As many as the frames, each as its original. *)
Definition same_order (messages : list string) (frames : list OcppFrame) : bool :=
  (length messages == length frames) && forallb (λ '(sent, original), sent == raw original) (zip messages frames).

Lemma same_order_raw frames : same_order (raw <$> frames) frames = true.
Proof.
  unfold same_order. apply andb_true_iff. split; [apply bool_decide_eq_true, length_fmap|].
  induction frames as [|f frames IH]; [done|]. cbn [fmap list_fmap zip zip_with forallb].
  apply andb_true_iff. split; [by apply bool_decide_eq_true|exact IH].
Qed.

(** [expect] after each call. *)
Definition forwards_in_order
    (forward : MessageForwarder (list MqttEvent) → OcppFrame → RecordingSink →
               MessageForwarder (list MqttEvent) * RecordingSink * result unit ProxyError) (frames : list OcppFrame) : bool :=
  let '(_, sink, ok) := for_each frames (λ frame '(forwarder, sink),
    let '(forwarder, sink, r) := forward forwarder frame sink in (forwarder, sink, is_ok r)) (test_forwarder 100, mkRecording []) in
  ok && same_order (recorded sink) frames.

Definition forward_upstream_preserves_order (now : Z) : list OcppFrame → bool := forwards_in_order (forward_upstream now).
Definition forward_downstream_preserves_order (now : Z) : list OcppFrame → bool := forwards_in_order (forward_downstream now).

Definition buffer_flush_upstream_preserves_fifo_order (frames : list OcppFrame) : bool :=
  let forwarder := foldl buffer_upstream (test_forwarder 100) frames in
  let '(_, sink, r) := flush_upstream forwarder (mkRecording []) in
  ok! flushed := r in (flushed == length frames) && same_order (recorded sink) frames.

Definition buffer_flush_downstream_preserves_fifo_order (frames : list OcppFrame) : bool :=
  let forwarder := foldl buffer_downstream (test_forwarder 100) frames in
  let '(_, sink, r) := flush_downstream forwarder (mkRecording []) in
  ok! flushed := r in (flushed == length frames) && same_order (recorded sink) frames.

Lemma forwards_in_order_holds now d frames : forwards_in_order (λ fwd f sink, forward_message now fwd f sink d) frames = true.
Proof.
  unfold forwards_in_order.
  match goal with |- context [for_each frames ?b ?i] => set (body := b); set (s0 := i) end.
  destruct (for_each_ok (λ l s, recorded s.2 = fmap (M := list) raw l) frames body s0 eq_refl) as [Hok Hs].
  - intros before x after [fwd sink] _ Hs. unfold body. unfold forward_message. simpl.
    destruct (resolve_action now fwd x d) as [fwd' act]. simpl in *. by rewrite Hs, fmap_app.
  - destruct (for_each frames body s0) as [[fwd sink] ok]. simpl in *. rewrite Hok, Hs. apply same_order_raw.
Qed.

Lemma flush_recorded buffer sink : flush_buffer buffer sink = ([], mkRecording (recorded sink ++ (raw <$> buffer)), Ok tt).
Proof.
  revert sink. induction buffer as [|f buffer IH]; intros sink; simpl; [rewrite app_nil_r; by destruct sink|].
  rewrite IH. simpl. by rewrite <- app_assoc.
Qed.

Lemma buffered_all (buffer : MessageForwarder (list MqttEvent) → OcppFrame → MessageForwarder (list MqttEvent))
    (held : MessageForwarder (list MqttEvent) → list OcppFrame) frames :
  (∀ fwd f, max_buffer_size fwd = 100 → max_buffer_size (buffer fwd f) = 100 ∧
     held (buffer fwd f) = push_bounded 100 (held fwd) f) → held (test_forwarder 100) = [] →
  length frames <= 100 → held (foldl buffer (test_forwarder 100) frames) = frames.
Proof.
  intros Hb H0 Hl.
  assert (max_buffer_size (foldl buffer (test_forwarder 100) frames) = 100 ∧
          held (foldl buffer (test_forwarder 100) frames) = frames) as [_ ?]; [|done].
  induction frames as [|f frames IH] using rev_ind; [done|]. rewrite length_app in Hl. simpl in Hl.
  destruct IH as [Em Eh]; [lia|]. rewrite foldl_app. simpl. destruct (Hb _ f Em) as [-> ->]. split; [done|].
  rewrite Eh. apply push_short. lia.
Qed.

Lemma ordering_tests_hold now frames :
  forward_upstream_preserves_order now frames = true ∧ forward_downstream_preserves_order now frames = true ∧
  (length frames <= 100 → buffer_flush_upstream_preserves_fifo_order frames = true ∧
                          buffer_flush_downstream_preserves_fifo_order frames = true).
Proof.
  split_and!; [apply forwards_in_order_holds..|]. intros Hl. split.
  - unfold buffer_flush_upstream_preserves_fifo_order, flush_upstream.
    rewrite (buffered_all buffer_upstream upstream_buffer frames) by (done || (by intros fwd f Hs; unfold buffer_upstream; simpl; rewrite Hs)).
    rewrite flush_recorded. simpl. rewrite bool_decide_true by done. apply same_order_raw.
  - unfold buffer_flush_downstream_preserves_fifo_order, flush_downstream.
    rewrite (buffered_all buffer_downstream downstream_buffer frames) by (done || (by intros fwd f Hs; unfold buffer_downstream; simpl; rewrite Hs)).
    rewrite flush_recorded. simpl. rewrite bool_decide_true by done. apply same_order_raw.
Qed.

(** ** tests/property_subprotocol.rs *)

Definition prop_non_ocpp16_subprotocols_are_rejected (protocol : string) : bool := negb (validate_subprotocol [protocol]).

Definition prop_multiple_non_ocpp16_subprotocols_are_rejected (protocols : list string) : bool :=
  negb (validate_subprotocol protocols).

(** [Vec::insert] at a position within the list. *)
Definition prop_ocpp16_always_accepted (extra_protocols : list string) (position : nat) : bool :=
  let protocols := retain (λ p, p != "ocpp1.6"%string) extra_protocols in
  let insert_pos := position `min` length protocols in
  validate_subprotocol (take insert_pos protocols ++ "ocpp1.6"%string :: drop insert_pos protocols).

Lemma subprotocol_tests_hold protocol protocols extra_protocols position :
  (protocol ≠ "ocpp1.6"%string → prop_non_ocpp16_subprotocols_are_rejected protocol = true) ∧
  (Forall (λ p, p ≠ "ocpp1.6"%string) protocols → prop_multiple_non_ocpp16_subprotocols_are_rejected protocols = true) ∧
  prop_ocpp16_always_accepted extra_protocols position = true.
Proof.
  assert (∀ ps, Forall (λ p, p ≠ "ocpp1.6"%string) ps → negb (validate_subprotocol ps) = true) as Hr.
  { intros ps Hps. apply negb_true_iff, not_true_iff_false. intros (p & Hin%list_elem_of_In & Hp%bool_decide_eq_true)%existsb_exists.
    rewrite Forall_forall in Hps. by apply (Hps p). }
  split_and!; [intros Hp; by apply Hr, Forall_singleton|apply Hr|].
  unfold prop_ocpp16_always_accepted, validate_subprotocol. rewrite existsb_app. simpl. by rewrite orb_true_r.
Qed.

(** ** tests/property_connection_replacement.rs *)

Section replacement.
Abbreviation DownstreamState := (DownstreamState (list MqttEvent) (list CommandRequest)).
Implicit Types (state : DownstreamState).

Definition make_downstream_state : DownstreamState := downstream_new manager_new [].

(** [register_connection]: its two halves at once, with the [i]-th token of the test. *)
Definition registered_with state (charge_point_id : string) (i : nat) : DownstreamState * Z :=
  let '(generation, state) := take_generation state in
  (Downstream.register_connection state i charge_point_id generation, generation).

(** [connection_count] connections under one id; the generations they were given. *)
Fixpoint connections (charge_point_id : string) (connection_count : nat) : DownstreamState * list Z :=
  match connection_count with
  | O => (make_downstream_state, [])
  | S n => let '(state, generations) := connections charge_point_id n in
           let '(state, generation) := registered_with state charge_point_id n in
           (state, generations ++ [generation])
  end.

Definition prop_only_latest_connection_is_active (charge_point_id : string) (connection_count : nat) : bool :=
  let '(state, generations) := connections charge_point_id connection_count in
  (size (ds_connections state) == 1) &&
  (some! active := ds_connections state !! charge_point_id in
   some! latest := last generations in ac_generation active == latest) &&
  forallb (λ i, bool_decide (i ∈ ds_cancelled state) == negb (i =? connection_count - 1)) (seq 0 connection_count).

(** [windows(2)]. *)
Fixpoint strictly_increasing (l : list Z) : bool :=
  match l with
  | a :: (b :: _) as rest => (a <? b)%Z && strictly_increasing rest
  | _ => true
  end.

Definition prop_generations_strictly_increase (charge_point_id : string) (connection_count : nat) : bool :=
  strictly_increasing (connections charge_point_id connection_count).2.

Definition prop_displaced_cleanup_never_removes_the_live_connection (charge_point_id : string) (connection_count : nat) : bool :=
  let '(state, generations) := connections charge_point_id connection_count in
  some! live_generation := last generations in
  let '(state, ok) := for_each (take (length generations - 1) generations)
    (λ displaced state, let '(state, removed) := deregister_connection state charge_point_id displaced in (state, negb removed))
    state in
  ok && (some! active := ds_connections state !! charge_point_id in ac_generation active == live_generation).

Definition prop_live_connection_deregisters_itself (charge_point_id : string) : bool :=
  let '(state, generation) := registered_with make_downstream_state charge_point_id 0 in
  let '(state, removed) := deregister_connection state charge_point_id generation in
  removed && (map_to_list (ds_connections state) == []).

Definition prop_distinct_ids_coexist (ids : list string) : bool :=
  let state := foldl (λ state '(i, id), (registered_with state id i).1) make_downstream_state (imap pair ids) in
  (size (ds_connections state) == length ids) && forallb (λ id, is_some (ds_connections state !! id)) ids.

Lemma connections_spec id n :
  (Z.of_nat n < 2 ^ 64 - 1)%Z →
  let '(state, generations) := connections id n in
  ds_generation state = (Z.of_nat n + 1)%Z ∧
  ds_connections state = match n with O => ∅ | S m => {[id := mkActive (Z.of_nat n) m]} end ∧
  (∀ i, i ∈ ds_cancelled state ↔ i + 1 < n) ∧
  generations = (λ i, Z.of_nat i + 1)%Z <$> seq 0 n.
Proof.
  induction n as [|n IH]; intros Hn.
  { simpl. split_and!; try done. intros i. split; [set_solver|lia]. }
  cbn [connections]. destruct (connections id n) as [state generations]. destruct IH as (Eg & Ec & Hc & ->); [lia|].
  unfold registered_with, take_generation, Downstream.register_connection.
  cbn [ds_generation ds_connections ds_cancelled]. rewrite Eg, Ec. split_and!.
  - rewrite wrap_u64_id; [lia|]. apply bool_decide_eq_true. lia.
  - destruct n; [by rewrite insert_empty|]. rewrite insert_singleton_eq. do 2 f_equal. lia.
  - intros i. destruct n as [|n]; [rewrite lookup_empty; rewrite Hc; lia|]. rewrite lookup_singleton_eq. cbn [ac_cancel].
    rewrite elem_of_union, elem_of_singleton, Hc. lia.
  - by rewrite seq_S, fmap_app.
Qed.

Lemma increasing_seq k n : strictly_increasing ((λ i, Z.of_nat i + 1)%Z <$> seq k n) = true.
Proof.
  revert k. induction n as [|[|n] IH]; intros k; [done..|]. cbn [seq fmap list_fmap strictly_increasing].
  apply andb_true_iff. split; [apply Z.ltb_lt; lia|apply (IH (S k))].
Qed.

Lemma last_generation n : last ((λ i, Z.of_nat i + 1)%Z <$> seq 0 (S n)) = Some (Z.of_nat (S n)).
Proof. rewrite seq_S, fmap_app. cbn [fmap list_fmap]. rewrite last_snoc. f_equal. lia. Qed.

Lemma only_latest_holds id n : 1 <= n → (Z.of_nat n < 2 ^ 64 - 1)%Z → prop_only_latest_connection_is_active id n = true.
Proof.
  intros Hn Hmax. unfold prop_only_latest_connection_is_active. pose proof (connections_spec id n Hmax) as Hs.
  destruct (connections id n) as [state generations]. destruct Hs as (_ & Ec & Hc & ->).
  destruct n as [|n]; [lia|]. rewrite Ec, map_size_singleton, lookup_singleton_eq, last_generation. cbn [ac_generation].
  rewrite !andb_true_iff. split_and!; [done|by apply bool_decide_eq_true|].
  apply forallb_forall. intros i Hi%list_elem_of_In%elem_of_seq. apply bool_decide_eq_true.
  destruct (Nat.eqb_spec i (S n - 1)) as [->|Hne]; simpl.
  - apply bool_decide_eq_false. rewrite Hc. lia.
  - apply bool_decide_eq_true. rewrite Hc. lia.
Qed.

Lemma displaced_cleanup_holds id n :
  1 <= n → (Z.of_nat n < 2 ^ 64 - 1)%Z → prop_displaced_cleanup_never_removes_the_live_connection id n = true.
Proof.
  intros Hn Hmax. unfold prop_displaced_cleanup_never_removes_the_live_connection.
  pose proof (connections_spec id n Hmax) as Hs. destruct (connections id n) as [state generations].
  destruct Hs as (_ & Ec & _ & ->). destruct n as [|n]; [lia|]. rewrite last_generation, length_fmap, length_seq.
  replace (S n - 1) with n by lia. rewrite <- fmap_take.
  match goal with |- context [for_each ?l ?b state] => set (displaced := l); set (body := b) end.
  destruct (for_each_ok (λ _ s, s = state) displaced body state eq_refl) as [Hok Hs].
  - intros before g after s El ->. unfold body, deregister_connection. rewrite Ec, lookup_singleton_eq. cbn [ac_generation].
    assert (g ∈ displaced) as Hg by (rewrite El; set_solver).
    unfold displaced in Hg. apply list_elem_of_fmap in Hg as (i & -> & Hi). rewrite take_seq in Hi. apply elem_of_seq in Hi.
    assert ((Z.of_nat (S n) =? Z.of_nat i + 1)%Z = false) as -> by (apply Z.eqb_neq; lia). done.
  - destruct (for_each displaced body state) as [s ok]. cbn [fst snd] in *. subst. rewrite Ec, lookup_singleton_eq. by apply bool_decide_eq_true.
Qed.

Lemma deregisters_itself_holds id : prop_live_connection_deregisters_itself id = true.
Proof.
  unfold prop_live_connection_deregisters_itself, registered_with, take_generation, Downstream.register_connection,
    deregister_connection. cbn. rewrite insert_empty, lookup_singleton_eq. cbn. rewrite delete_singleton_eq, map_to_list_empty. done.
Qed.

Lemma registered_connections state id i :
  ds_connections (registered_with state id i).1 = <[id := mkActive (ds_generation state) i]> (ds_connections state).
Proof. done. Qed.

Lemma coexist (l : list (nat * string)) state :
  NoDup l.*2 → (∀ id, id ∈ l.*2 → ds_connections state !! id = None) →
  let state' := foldl (λ state '(i, id), (registered_with state id i).1) state l in
  size (ds_connections state') = size (ds_connections state) + length l ∧
  (∀ id, is_Some (ds_connections state !! id) ∨ id ∈ l.*2 → is_Some (ds_connections state' !! id)).
Proof.
  revert state. induction l as [|[i id] l IH]; intros state Hd Hnew; [split; [simpl; lia|set_solver]|].
  cbn [fmap list_fmap snd] in *. apply NoDup_cons in Hd as [Hid Hd]. cbn [foldl].
  destruct (IH (registered_with state id i).1 Hd) as [Hs He].
  { intros id' Hin. rewrite registered_connections, lookup_insert_ne by set_solver. apply Hnew. set_solver. }
  rewrite registered_connections in Hs, He. split.
  - rewrite Hs, map_size_insert_None by (apply Hnew; set_solver). simpl. lia.
  - intros id' Hin. apply He. destruct (decide (id = id')) as [<-|Hne]; [left; rewrite lookup_insert_eq; by eexists|].
    rewrite lookup_insert_ne by done. set_solver.
Qed.

Lemma distinct_ids_hold ids : NoDup ids → prop_distinct_ids_coexist ids = true.
Proof.
  intros Hd. unfold prop_distinct_ids_coexist.
  assert ((imap pair ids).*2 = ids) as E by (rewrite fmap_imap; clear; induction ids; simpl; [done|by f_equal]).
  destruct (coexist (imap pair ids) make_downstream_state) as [Hs He]; [by rewrite E|intros; apply lookup_empty|].
  cbv zeta in *. apply andb_true_iff. split.
  - apply bool_decide_eq_true. rewrite Hs, length_imap. done.
  - apply forallb_forall. intros id Hin%list_elem_of_In. destruct (He id) as [ac Ea]; [right; by rewrite E|]. by rewrite Ea.
Qed.

Lemma replacement_tests_hold id n :
  1 <= n → (Z.of_nat n < 2 ^ 64 - 1)%Z →
  Forall (λ b, b = true)
    [prop_only_latest_connection_is_active id n; prop_generations_strictly_increase id n;
     prop_displaced_cleanup_never_removes_the_live_connection id n; prop_live_connection_deregisters_itself id] ∧
  ∀ ids, NoDup ids → prop_distinct_ids_coexist ids = true.
Proof.
  intros Hn Hmax. split; [|apply distinct_ids_hold]. repeat apply Forall_cons_2; [..|apply Forall_nil_2].
  - by apply only_latest_holds.
  - unfold prop_generations_strictly_increase. pose proof (connections_spec id n Hmax) as Hs.
    destruct (connections id n) as [state generations]. destruct Hs as (_ & _ & _ & ->). apply increasing_seq.
  - by apply displaced_cleanup_holds.
  - apply deregisters_itself_holds.
Qed.
End replacement.

(** ** tests/property_health_status.rs *)

Definition ALL_STATES : list ConnectionState := [Disconnected; Connecting; Connected; Reconnecting].

Definition manager (listener_bound : bool) (upstream downstream mqtt : ConnectionState) : ConnectionStateManager :=
  let mgr := set_listener_bound manager_new listener_bound in
  let mgr := transition 0 mgr Upstream upstream in
  let mgr := transition 0 mgr Downstream downstream in
  transition 0 mgr Mqtt mqtt.

(** The specification, restated independently of the implementation. *)
Definition expected_status (listener_bound : bool) (upstream downstream mqtt : ConnectionState) : HealthStatus :=
  if negb listener_bound then Unhealthy
  else if downstream != Connected then Idle
  else match upstream with
       | Connected => if mqtt == Connected then Healthy else Degraded
       | Connecting | Reconnecting => Degraded
       | Disconnected => Unhealthy
       end.

Definition expected_http (status : HealthStatus) : Z :=
  match status with Healthy | Idle | Degraded => 200 | Unhealthy => 503 end.

Definition exhaustive_health_status_all_128_combinations : bool :=
  forallb (λ listener_bound, forallb (λ upstream, forallb (λ downstream, forallb (λ mqtt,
    health_status (manager listener_bound upstream downstream mqtt) == expected_status listener_bound upstream downstream mqtt)
    ALL_STATES) ALL_STATES) ALL_STATES) [false; true].

Definition listening_and_idle_is_never_unhealthy : bool :=
  forallb (λ upstream, forallb (λ mqtt, forallb (λ downstream,
    let mgr := manager true upstream downstream mqtt in
    (health_status mgr == Idle) && (expected_http (health_status mgr) == 200%Z))
    [Disconnected; Connecting; Reconnecting]) ALL_STATES) ALL_STATES.

Definition prop_health_status_matches_specification (listener_bound : bool) (upstream downstream mqtt : ConnectionState) : bool :=
  health_status (manager listener_bound upstream downstream mqtt) == expected_status listener_bound upstream downstream mqtt.

Definition prop_only_dead_upstream_with_a_charger_is_unhealthy (upstream downstream mqtt : ConnectionState) : bool :=
  let is_unhealthy := health_status (manager true upstream downstream mqtt) == Unhealthy in
  let should_be := (downstream == Connected) && (upstream == Disconnected) in
  is_unhealthy == should_be.

Definition prop_unbound_listener_is_always_unhealthy (upstream downstream mqtt : ConnectionState) : bool :=
  health_status (manager false upstream downstream mqtt) == Unhealthy.

Definition prop_mqtt_never_causes_503_while_forwarding_works (mqtt : ConnectionState) : bool :=
  expected_http (health_status (manager true Connected Connected mqtt)) == 200%Z.

Definition prop_both_connected_health_depends_on_mqtt (mqtt : ConnectionState) : bool :=
  let expected := if mqtt == Connected then Healthy else Degraded in
  health_status (manager true Connected Connected mqtt) == expected.

Lemma health_status_tests_hold listener_bound upstream downstream mqtt :
  Forall (λ b, b = true)
    [exhaustive_health_status_all_128_combinations; listening_and_idle_is_never_unhealthy;
     prop_health_status_matches_specification listener_bound upstream downstream mqtt;
     prop_only_dead_upstream_with_a_charger_is_unhealthy upstream downstream mqtt;
     prop_unbound_listener_is_always_unhealthy upstream downstream mqtt;
     prop_mqtt_never_causes_503_while_forwarding_works mqtt; prop_both_connected_health_depends_on_mqtt mqtt].
Proof. repeat apply Forall_cons_2; try apply Forall_nil_2; by destruct listener_bound, upstream, downstream, mqtt. Qed.

(** ** tests/property_health_response.rs *)

Definition VALID_STATUSES : list string := ["healthy"; "degraded"; "unhealthy"]%string.
Definition VALID_CONNECTION_STATES : list string := ["disconnected"; "connecting"; "connected"; "reconnecting"]%string.

Definition counter_fields : list string :=
  ["charger_to_central_forwarded"; "charger_to_central_dropped"; "central_to_charger_forwarded"; "central_to_charger_dropped"]%string.

(** A field that is a string of the list; [contains] of a slice. *)
Definition field_among (json_value : Value) (field : string) (valid : list string) : bool :=
  some! v := get_key field json_value in some! s := as_str v in bool_decide (s ∈ valid).

Definition prop_health_response_has_all_required_fields (response : HealthResponse) : bool :=
  let json_value := HealthResponse_to_value response in
  field_among json_value "status" VALID_STATUSES && field_among json_value "upstream" VALID_CONNECTION_STATES &&
  field_among json_value "downstream" VALID_CONNECTION_STATES && field_among json_value "mqtt" VALID_CONNECTION_STATES &&
  (some! uptime := get_key "uptime_seconds" json_value in is_some (as_u64 uptime)) &&
  (some! messages := get_key "messages" json_value in is_some (as_object messages) &&
   forallb (λ field, some! value := get_key field messages in is_some (as_u64 value)) counter_fields).

Definition prop_health_response_status_matches_input (response : HealthResponse) : bool :=
  let json_value := HealthResponse_to_value response in
  let expected_status :=
    match hr_status response with Idle => "idle" | Healthy => "healthy" | Degraded => "degraded" | Unhealthy => "unhealthy" end%string in
  as_str (at_key "status" json_value) == Some expected_status.

Definition prop_health_response_counters_match_input (response : HealthResponse) : bool :=
  let messages := at_key "messages" (HealthResponse_to_value response) in
  let m := hr_messages response in
  (as_u64 (at_key "charger_to_central_forwarded" messages) == Some (charger_to_central_forwarded m)) &&
  (as_u64 (at_key "charger_to_central_dropped" messages) == Some (charger_to_central_dropped m)) &&
  (as_u64 (at_key "central_to_charger_forwarded" messages) == Some (central_to_charger_forwarded m)) &&
  (as_u64 (at_key "central_to_charger_dropped" messages) == Some (central_to_charger_dropped m)).

(** What the strategy draws from, without its bounds on the counters: they are [u64]. *)
Definition arb_health_response (response : HealthResponse) : Prop :=
  hr_status response ≠ Idle ∧ in_u64 (hr_uptime_seconds response) = true ∧
  let m := hr_messages response in
  in_u64 (charger_to_central_forwarded m) = true ∧ in_u64 (charger_to_central_dropped m) = true ∧
  in_u64 (central_to_charger_forwarded m) = true ∧ in_u64 (central_to_charger_dropped m) = true.

Lemma health_response_tests_hold response :
  arb_health_response response →
  Forall (λ b, b = true)
    [prop_health_response_has_all_required_fields response; prop_health_response_status_matches_input response;
     prop_health_response_counters_match_input response].
Proof.
  destruct response as [status up down mqtt listening uptime [a b c d]]. intros (Hs & Hu & Ha & Hb & Hc & Hd). simpl in *.
  repeat apply Forall_cons_2; [..|apply Forall_nil_2].
  - unfold prop_health_response_has_all_required_fields, field_among. simpl. rewrite Hu, Ha, Hb, Hc, Hd.
    by destruct status, up, down, mqtt.
  - by destruct status.
  - unfold prop_health_response_counters_match_input, at_key. simpl. rewrite Ha, Hb, Hc, Hd. by rewrite !bool_decide_true.
Qed.

(** ** tests/property_mqtt_status.rs *)

#[local] Existing Instance json_text.

(** [serde_json::to_string] and back; the derived [Deserialize] of [StatusPayload] reads its
    two fields. *)
Definition status_text (payload : StatusPayload) : option string := result_ok (to_json (StatusPayload_to_value payload)).

Definition status_of_text (text : string) : option StatusPayload :=
  v ← result_ok (from_str text); u ← get_key "upstream" v; d ← get_key "downstream" v;
  u ← as_str u; d ← as_str d; Some (mkStatus u d).

(** The assertions the next two tests share. *)
Definition status_reflects (upstream downstream : ConnectionState) : bool :=
  let upstream_str := connection_state_str upstream in
  let downstream_str := connection_state_str downstream in
  some! text := status_text (mkStatus upstream_str downstream_str) in
  some! deserialized := status_of_text text in
  (st_upstream deserialized == upstream_str) && (st_downstream deserialized == downstream_str) &&
  (some! value := result_ok (from_str text) in
   ((get_key "upstream" value ≫= as_str) == Some upstream_str) &&
   ((get_key "downstream" value ≫= as_str) == Some downstream_str)).

Definition prop_status_message_reflects_actual_states (upstream downstream : ConnectionState) : bool :=
  status_reflects upstream downstream &&
  (some! text := status_text (mkStatus (connection_state_str upstream) (connection_state_str downstream)) in
   some! value := result_ok (from_str text) in some! obj := as_object value in length obj == 2).

Definition exhaustive_status_message_all_16_combinations : bool :=
  forallb (λ upstream, forallb (λ downstream, status_reflects upstream downstream)
    [Connected; Disconnected; Reconnecting; Connecting]) [Connected; Disconnected; Reconnecting; Connecting].

Definition connection_state_str_maps_correctly : bool :=
  (connection_state_str Connected == "connected"%string) && (connection_state_str Disconnected == "disconnected"%string) &&
  (connection_state_str Reconnecting == "reconnecting"%string) && (connection_state_str Connecting == "connecting"%string).

Definition status_payload_contains_only_required_fields : bool :=
  some! text := status_text (mkStatus "connected" "disconnected") in
  some! value := result_ok (from_str text) in some! obj := as_object value in
  (length obj == 2) && is_some (get_key "upstream" value) && is_some (get_key "downstream" value).

Definition prop_state_strings_are_valid_values (state : ConnectionState) : bool :=
  bool_decide (connection_state_str state ∈ ["connected"; "disconnected"; "reconnecting"; "connecting"]%string).

Lemma mqtt_status_tests_hold upstream downstream state :
  Forall (λ b, b = true)
    [exhaustive_status_message_all_16_combinations; connection_state_str_maps_correctly;
     status_payload_contains_only_required_fields; prop_status_message_reflects_actual_states upstream downstream;
     prop_state_strings_are_valid_values state].
Proof.
  repeat apply Forall_cons_2; [..|apply Forall_nil_2].
  1-3: vm_compute; reflexivity.
  - destruct upstream, downstream; vm_compute; reflexivity.
  - by destruct state.
Qed.

(** ** tests/property_mqtt_topic.rs *)

(** [str::ends_with] and [str::starts_with] with a character. *)
Definition ends_with_char (c : ascii) (s : string) : bool := bool_decide (last (chars s) = Some c).
Definition starts_with_char (c : ascii) (s : string) : bool := bool_decide (head (chars s) = Some c).

Definition no_boundary_slashes (topic : string) : bool :=
  negb (starts_with_char "/" topic) && negb (ends_with_char "/" topic).

Section topics.
Context (charge_point_id direction act : string).

Definition prop_message_topic_matches_format : bool :=
  message_topic charge_point_id direction act == ("ocpp/" +:+ charge_point_id +:+ "/" +:+ direction +:+ "/" +:+ act)%string.

Definition prop_message_topic_has_exactly_four_segments : bool :=
  split "/" (message_topic charge_point_id direction act) == ["ocpp"%string; charge_point_id; direction; act].

Definition prop_message_topic_no_double_slashes : bool := negb (contains "//" (message_topic charge_point_id direction act)).

Definition prop_message_topic_no_leading_trailing_slashes : bool := no_boundary_slashes (message_topic charge_point_id direction act).

Definition prop_availability_topic_matches_format : bool :=
  availability_topic charge_point_id == ("ocpp/" +:+ charge_point_id +:+ "/availability")%string.

Definition prop_availability_topic_has_three_segments : bool :=
  split "/" (availability_topic charge_point_id) == ["ocpp"%string; charge_point_id; "availability"%string].

Definition prop_status_topic_matches_format : bool :=
  status_topic charge_point_id == ("ocpp/" +:+ charge_point_id +:+ "/status")%string.

Definition prop_status_topic_has_three_segments : bool :=
  split "/" (status_topic charge_point_id) == ["ocpp"%string; charge_point_id; "status"%string].

Definition prop_all_topics_no_double_or_boundary_slashes : bool :=
  forallb (λ topic, negb (contains "//" topic) && no_boundary_slashes topic)
    [message_topic charge_point_id direction act; availability_topic charge_point_id; status_topic charge_point_id].
End topics.

(** Two separators in a row are an empty segment, one at an end an empty segment there. *)
Lemma double_empty c s : contains_chars [c; c] s = true → [] ∈ tail (split_chars c s).
Proof.
  induction s as [|x s IH]; [done|]. cbn [contains_chars]. intros [Hp|Hc]%orb_true_iff.
  - unfold is_some, is_none in Hp. simpl in Hp. destruct (decide (c = x)) as [<-|]; [|done].
    destruct s as [|y s]; [done|]. destruct (decide (c = y)) as [<-|]; [|done]. simpl. rewrite !decide_True by done. by left.
  - specialize (IH Hc). simpl. destruct (split_chars c s) as [|part parts] eqn:Es; [by apply split_chars_nil in Es|].
    case_decide; [|exact IH]. simpl in *. by right.
Qed.

Lemma starts_empty c s : starts_with_char c s = true → [] ∈ split_chars c (chars s).
Proof.
  intros Hs%bool_decide_eq_true. destruct (chars s) as [|x l]; [done|]. simpl in Hs. simplify_eq. simpl.
  rewrite decide_True by done. by left.
Qed.

Lemma ends_empty c s : ends_with_char c s = true → [] ∈ split_chars c (chars s).
Proof.
  intros Hs%bool_decide_eq_true. apply last_Some in Hs as [l ->]. rewrite split_chars_app_sep. set_solver.
Qed.

(** A topic of segments none of which is empty. *)
Lemma clean_topic topic segments :
  split "/" topic = segments → Forall (λ s, s ≠ ""%string) segments →
  contains "//" topic = false ∧ no_boundary_slashes topic = true.
Proof.
  unfold split. intros <- Hs.
  assert ([] ∉ split_chars "/" (chars topic)) as Hn.
  { intros Hin. rewrite Forall_forall in Hs. apply (Hs ""%string); [|done]. by apply (list_elem_of_fmap_2 of_chars) in Hin. }
  split.
  - apply not_true_iff_false. intros Hc%double_empty. apply Hn. destruct (split_chars _ _); [done|by right].
  - unfold no_boundary_slashes. apply andb_true_iff. split; apply negb_true_iff, not_true_iff_false.
    + by intros Hc%starts_empty.
    + by intros Hc%ends_empty.
Qed.

(** What the strategies draw from: texts that are not empty and hold no slash. *)
Definition valid_segment (s : string) : Prop := s ≠ ""%string ∧ no_char "/" s.

Lemma split_three a id b : no_char "/" a → no_char "/" id → no_char "/" b →
  split "/" (a +:+ "/" +:+ id +:+ "/" +:+ b) = [a; id; b].
Proof.
  intros Ha Hi Hb. change (split "/" (a +:+ String.String "/" (id +:+ String.String "/" b)) = [a; id; b]).
  by rewrite !split_app, split_no_sep by done.
Qed.

Lemma mqtt_topic_tests_hold id direction act :
  valid_segment id → valid_segment direction → valid_segment act →
  Forall (λ b, b = true)
    [prop_message_topic_matches_format id direction act; prop_message_topic_has_exactly_four_segments id direction act;
     prop_message_topic_no_double_slashes id direction act; prop_message_topic_no_leading_trailing_slashes id direction act;
     prop_availability_topic_matches_format id; prop_availability_topic_has_three_segments id;
     prop_status_topic_matches_format id; prop_status_topic_has_three_segments id;
     prop_all_topics_no_double_or_boundary_slashes id direction act].
Proof.
  intros [Hi Hi'] [Hd Hd'] [Ha Ha'].
  assert (split "/" (message_topic id direction act) = ["ocpp"%string; id; direction; act]) as Em.
  { change (split "/" ("ocpp" +:+ String.String "/" (id +:+ String.String "/" (direction +:+ String.String "/" act))) =
      ["ocpp"%string; id; direction; act]).
    rewrite !split_app, split_no_sep; first [done|by apply no_char_of]. }
  assert (split "/" (availability_topic id) = ["ocpp"%string; id; "availability"%string]) as Ea.
  { apply (split_three "ocpp" id "availability"); first [done|by apply no_char_of]. }
  assert (split "/" (status_topic id) = ["ocpp"%string; id; "status"%string]) as Es.
  { apply (split_three "ocpp" id "status"); first [done|by apply no_char_of]. }
  destruct (clean_topic _ _ Em) as [Cm Bm]; [repeat (apply Forall_cons_2; [done|]); apply Forall_nil_2|].
  destruct (clean_topic _ _ Ea) as [Ca Ba]; [repeat (apply Forall_cons_2; [done|]); apply Forall_nil_2|].
  destruct (clean_topic _ _ Es) as [Cs Bs]; [repeat (apply Forall_cons_2; [done|]); apply Forall_nil_2|].
  repeat apply Forall_cons_2; try apply Forall_nil_2; try by apply bool_decide_eq_true.
  - unfold prop_message_topic_no_double_slashes. by rewrite Cm.
  - exact Bm.
  - unfold prop_all_topics_no_double_or_boundary_slashes. cbn [forallb]. by rewrite Cm, Ca, Cs, Bm, Ba, Bs.
Qed.

(** ** All of them *)

Abbreviation all_hold tests := (Forall (λ b : bool, b = true) tests).

(** C40. The property tests of nine of the repository's files hold for every input, not only for
    those drawn: 48 tests on buffers, ordering, topics, the subprotocol, the health status
    and response, the status message and the replacement of connections. The bounds are those
    without which the test makes no sense: a buffer has room, counts are machine integers, as
    many frames as the buffer holds, segments without slashes, ids that differ; and, as in
    the list the test draws from, the status of a health response is not idle. The tests of
    the MQTT buffer are of the copy of [buffer_message] they define, which does what the
    publisher's does ([test_buffer_message_real]). *)
Theorem property_tests_hold :
  (∀ now size count, 0 < size →
     all_hold [upstream_buffer_never_exceeds_capacity now size count; downstream_buffer_never_exceeds_capacity now size count;
               buffer_contains_most_recent_messages now size count; evicted_messages_are_not_in_buffer now size count;
               fifo_eviction_removes_oldest_first now size count] ∧
     ((N.of_nat count < 2 ^ 64)%N → buffer_maintains_fifo_ordering now size count = true)) ∧
  (∀ size count, 0 < size →
     all_hold [mqtt_buffer_never_exceeds_capacity size count; mqtt_buffer_contains_most_recent_messages size count;
               mqtt_buffer_evicts_oldest_first size count; mqtt_buffer_fifo_eviction_removes_oldest size count;
               mqtt_buffer_default_capacity_500 count] ∧
     ((N.of_nat count < 2 ^ 64)%N → mqtt_buffer_maintains_fifo_ordering size count = true)) ∧
  (∀ now frames,
     all_hold [forward_upstream_preserves_order now frames; forward_downstream_preserves_order now frames] ∧
     (length frames <= 100 →
      all_hold [buffer_flush_upstream_preserves_fifo_order frames; buffer_flush_downstream_preserves_fifo_order frames])) ∧
  (∀ protocol protocols extra position,
     (protocol ≠ "ocpp1.6"%string → prop_non_ocpp16_subprotocols_are_rejected protocol = true) ∧
     (Forall (λ p, p ≠ "ocpp1.6"%string) protocols → prop_multiple_non_ocpp16_subprotocols_are_rejected protocols = true) ∧
     prop_ocpp16_always_accepted extra position = true) ∧
  (∀ id n, 1 <= n → (Z.of_nat n < 2 ^ 64 - 1)%Z →
     all_hold [prop_only_latest_connection_is_active id n; prop_generations_strictly_increase id n;
               prop_displaced_cleanup_never_removes_the_live_connection id n; prop_live_connection_deregisters_itself id]) ∧
  (∀ ids, NoDup ids → prop_distinct_ids_coexist ids = true) ∧
  (∀ bound up down mqtt,
     all_hold [exhaustive_health_status_all_128_combinations; listening_and_idle_is_never_unhealthy;
               prop_health_status_matches_specification bound up down mqtt;
               prop_only_dead_upstream_with_a_charger_is_unhealthy up down mqtt;
               prop_unbound_listener_is_always_unhealthy up down mqtt;
               prop_mqtt_never_causes_503_while_forwarding_works mqtt; prop_both_connected_health_depends_on_mqtt mqtt]) ∧
  (∀ response, arb_health_response response →
     all_hold [prop_health_response_has_all_required_fields response; prop_health_response_status_matches_input response;
               prop_health_response_counters_match_input response]) ∧
  (∀ up down state,
     all_hold [exhaustive_status_message_all_16_combinations; connection_state_str_maps_correctly;
               status_payload_contains_only_required_fields; prop_status_message_reflects_actual_states up down;
               prop_state_strings_are_valid_values state]) ∧
  (∀ id direction act, valid_segment id → valid_segment direction → valid_segment act →
     all_hold [prop_message_topic_matches_format id direction act; prop_message_topic_has_exactly_four_segments id direction act;
               prop_message_topic_no_double_slashes id direction act;
               prop_message_topic_no_leading_trailing_slashes id direction act;
               prop_availability_topic_matches_format id; prop_availability_topic_has_three_segments id;
               prop_status_topic_matches_format id; prop_status_topic_has_three_segments id;
               prop_all_topics_no_double_or_boundary_slashes id direction act]).
Proof.
  split_and!.
  - intros. by apply eviction_tests_hold.
  - intros size count Hs. destruct (mqtt_buffer_tests_hold size Hs count) as [Hall Ho]. split; [|done].
    repeat (apply Forall_cons in Hall as [? Hall]; apply Forall_cons_2; [done|]). repeat apply Forall_cons_2; [apply mqtt_default_holds|done].
  - intros now frames. destruct (ordering_tests_hold now frames) as (Hu & Hd & Hf). split; [by repeat apply Forall_cons_2|].
    intros Hl. destruct (Hf Hl). by repeat apply Forall_cons_2.
  - intros. apply subprotocol_tests_hold.
  - intros. by apply replacement_tests_hold.
  - apply distinct_ids_hold.
  - apply health_status_tests_hold.
  - apply health_response_tests_hold.
  - apply mqtt_status_tests_hold.
  - apply mqtt_topic_tests_hold.
Qed.

Lemma property_tests_hold_witness :
  fifo_eviction_removes_oldest_first 0 3 7 = true ∧ buffer_maintains_fifo_ordering 0 3 7 = true ∧
  prop_displaced_cleanup_never_removes_the_live_connection "CP-1" 4 = true ∧
  prop_all_topics_no_double_or_boundary_slashes "CP-1" "charger" "Heartbeat" = true.
Proof.
  destruct property_tests_hold as (Hb & _ & _ & _ & Hr & _ & _ & _ & _ & Ht).
  assert (0 < 3) as H3 by lia. destruct (Hb 0%Z 3 7 H3) as [Hall Ho].
  assert (1 <= 4) as H4 by lia. assert (Z.of_nat 4 < 2 ^ 64 - 1)%Z as H4' by done.
  pose proof (Hr "CP-1"%string 4 H4 H4') as Hr4.
  assert (valid_segment "CP-1") as V1 by (split; [done|by apply no_char_of]).
  assert (valid_segment "charger") as V2 by (split; [done|by apply no_char_of]).
  assert (valid_segment "Heartbeat") as V3 by (split; [done|by apply no_char_of]).
  pose proof (Ht _ _ _ V1 V2 V3) as Ht3. rewrite Forall_forall in Hall, Hr4, Ht3.
  split_and!; [apply Hall; set_solver|by apply Ho|apply Hr4; set_solver|apply Ht3; set_solver].
Defined.
